(* ===== verification/_CoqProject ===== *)
-Q . S2P
Prelude.v
Cbor.v
Wire.v
Bitmap.v
Crypto.v
Merkle.v
Keys.v
Identity.v
Object.v
Extension.v
Manifest.v
Offer.v
Ticket.v
Scheduler.v
Control.v
Resume.v
Events.v
Waiting.v
Route.v
Framing.v
Sender.v
Receiver.v
Delivery.v
HandshakeMsg.v
Handshake.v
OfferExchange.v
Session.v
NoPanic.v
Capability.v
Store.v
Keystore.v
Keychain.v
Api.v
