(* ===== verification/Prelude.v ===== *)
(** * RTP/2 core: a verification development

    This library models the Rust crate [src/prototype/native/rtp2-core], the
    engine of the Reyta transfer protocol, version 2, and proves what its parts
    promise.  Every definition that models code carries, in its doc comment,
    the file, the lines and the symbol it translates.

    ** The program

    A sender prepares a file: it cuts it into chunks of a fixed size, encrypts
    each under keys derived from fresh secrets, and builds a Merkle tree over
    the ciphertexts.  The receiver learns the object context, the root and the
    plaintext digest from a signed offer, asks for chunk ranges, and takes each
    chunk only with a proof against the root.  All frames after the handshake
    travel through an encrypted control channel with epochs and counters.  A
    resume database lets an interrupted receive continue, events report
    progress to the embedding application, and a route policy says which
    network paths may carry bytes.

    ** Files and what they model (all under [src/prototype/native/rtp2-core/src])

    - [Prelude]: the outcome type of fallible code ([Ok], [Err], [Panic]), the
      state-and-error monad with its notations, actions that keep their state
      when they fail ([Action]), machine integers ([wrap], saturating
      operations, big-endian bytes), lemmas on lists and results.
    - [Cbor] ([cbor.rs]): the canonical CBOR writer and reader as state
      machines over their fields; [Wire]: the values those operations mean,
      with codec lemmas that every encoder and decoder of the library uses.
    - [Bitmap] ([bitmap.rs]): the chunk bitmap and its run-length encoding.
    - [Crypto] ([crypto.rs]): the class [Primitives] of the functions of other
      crates (BLAKE3, HKDF, XChaCha20-Poly1305) and the class [PrimitiveLaws]
      of their documented properties; key derivation with length framing.
    - [Merkle] ([merkle.rs]), [Keys] ([keys.rs]), [Object] ([object.rs]):
      the tree and its proofs; file keys and the sealed envelope; the geometry
      of an object, chunk encryption and its associated data.
    - [Extension], [Manifest] ([manifest.rs]): skipping unknown values of a
      map; the public and the private manifest, their validation in machine
      arithmetic, the commitment, sealing and opening.
    - [Offer], [Ticket] ([offer.rs]): the signed offer with its creation and
      verification; tickets, base64url and the link form.
    - [Scheduler] ([scheduler.rs]): range requests and their choice.
    - [Control] ([control.rs]): the encrypted control channel, with [seal] and
      [open] as functions that return the channel afterwards, on error too.
    - [Resume] ([resume.rs]): the resume database over an explicit disk.
    - [Events] ([events.rs]): the bounded event queue; [Waiting]: the threads
      that push and poll it under its mutex and condition variable.
    - [Route] ([route.rs] and the route functions of [transfer.rs]).
    - [Framing] ([transfer.rs]): frames over a byte stream, chunk records and
      acknowledgements; [Sender]: [PendingTransfer::prepare], the ciphertext
      cache and the serving of a request in [send_pending]; [Receiver]: the
      part of [receive_file] from the resume database to the released file;
      [Delivery]: the two composed over one session.
    - [OfferExchange], [Session] ([transfer.rs]): the offer as [send_pending]
      builds it and [receive_file] accepts it; both functions from the
      connected peer to the report, in an error monad over a [Node] (bytes to
      read, bytes written, events, replay cache, destination, disk).
    - [NoPanic]: a judgement for readers ([safe]) and one for actions ([runs])
      with their rules, and by them that no reader of the receive path and no
      step of [receive_file] panics.
    - [Identity] ([identity.rs], [pqc.rs]): device identities, hybrid
      signatures and the checked wrappers of the post-quantum algorithms, over
      the class [PkPrimitives] of the crates' operations.
    - [HandshakeMsg], [Handshake] ([handshake.rs]): the messages with their
      codecs; the replay cache, the key schedule, [Initiator] and [Responder]
      as functions from a state and a message to a state and an answer, and
      session resumption.
    - [Capability] ([capability.rs]): capability bodies, MACed tokens and the
      authorization of a request by a provider.
    - [Store] ([store.rs]): the class [SecretSealer] with its laws and two
      instances, sealed records in files that are replaced by rename, the
      device identity and the resumption secrets.
    - [Keystore] ([keystore.rs]): keys kept by the platform.  The class
      [Backend] is what the source asks of [imp::Backend]; its macOS instance
      is the code of that backend over the calls of Security.framework, its
      other instance the one of targets that have none.  [key_step] is
      [wrapping_key] one backend call at a time, so that other processes can
      run in between; [KeystoreSealer] and [HardwareSealer] with its vault key
      are sealers for [Store].
    - [Keychain] (the module [imp] of [keystore.rs]): the macOS backend once
      more, down to the CoreFoundation objects of each query.  The state is
      the set of live references; [scope] and [or_drop] are the ends of Rust
      scopes that own references, and using or releasing a dead one panics.
      The Secure Enclave root ([open_root] to [forget_root]) is here too.
    - [Api] ([lib.rs]): the exported functions as actions on one state [Lib]:
      the handle table, runtimes, endpoints, state directories and keychains.
      [api_step] is one call and [run_api] a sequence of them; a start goes
      through [Store] and [Keystore], a transfer through [Sender] and
      [Session].

    ** How state and effects are represented

    A [&mut self] method is a function that returns the new state, or a
    computation of the monad [M] of [Prelude] where the source chains many with
    [?].  A method that can fail after a change returns the changed state with
    the error, so that error paths are visible in the statements.  The network
    is the list of bytes not yet read and the list of bytes written; the disk
    is the set of chunk indices written, the set known to have been synced,
    and the record file with the versions a crash may leave; the clock, the
    observed routes and the outcome of each I/O call are arguments.  Machine
    integers are [Z] with [wrap 64] or [wrap 32] at each operation that can
    wrap, and the saturating operations written out.

    ** What the theorems show

    - Whole transfers: for honest parties there are two byte streams on which
      [send_pending] and [receive_file] meet, with the sender's file at the
      destination and equal reports ([Session.session_delivers]); a report of
      [receive_file] means that the handshake in the bytes read authenticated
      the peer, the first frame of its control channel is an offer that was
      accepted and the file matches it, every chunk authenticated or, in a
      resumed receive, kept from before under the record of the same object
      ([received_file_authentic]); the sender reports only after an
      acknowledgement of the digest that its control channel authenticated
      ([delivery_acknowledged]); a refused route stops both
      before the first byte ([refused_before_first_byte]); no bytes of the
      peer and no record file make the receiver panic
      ([NoPanic.receive_never_panics]).
    - Offer exchange: the offer carries the transfer to the receiver
      ([OfferExchange.offer_carries_transfer]); what an accepted offer
      guarantees ([accepted_offer_authentic]), and that its signer is compared
      with the peer by device id alone ([offer_signer_by_id_only]).
    - Delivery: an undisturbed transfer between a sender and a receiver ends
      with the sender's file released and acknowledged
      ([Delivery.transfer_delivers]); the file a receiver releases is the file the sender prepared
      ([Receiver.received_file_is_sent_file]); at any moment, whatever bytes the
      peer sent, the chunks marked as held are authentic and on disk
      ([only_authentic_chunks_held]); the digest reported is the digest of the
      file ([released_digest_is_file_digest]); the sender answers a request with
      exactly the requested chunks and their proofs ([Sender.request_served]).
    - Handshake: an undisturbed run completes with the same secrets on both
      sides ([Handshake.handshake_completes]); two completed runs with one
      transcript hash agree on every message, on the secrets and on who the
      peer is ([sessions_agree]); what a responder admits, that both machines
      fail closed, and that the replay cache is a sliding window.
    - Manifests, offers and tickets: an honest offer verifies and yields the
      manifest; what a verified offer, a decoded manifest and an opened private
      manifest guarantee; what the commitment binds, and what the hash the code
      signs and verifies binds ([Offer.offer_signature_binds]), and that
      they do not bind the noncritical extensions of the manifest; a ticket
      has exactly one link.
    - Merkle tree: completeness and binding of proofs, for canonical paths.
    - Control channel: in-order delivery across epochs, no nonce is used
      twice, no frame is accepted twice, a refused frame changes nothing.
    - Framing: the parser accepts exactly the encodings of frames within
      their limits.
    - Resume: after a crash at any point, a chunk the record calls durable
      was synced before; records round-trip.
    - Device store: a sealed write replaces the record whole or not at all
      ([Store.sealed_write_atomic]); what a read accepts, which excludes a
      record whose protection was weakened or rewritten
      ([sealed_read_exactly]); the identity is created once and never replaced
      ([identity_created_once]); the resumption file implements a list of
      entries ([resumption_refines]) and gives each secret out at most once
      ([resumption_single_use]).
    - Keys of the platform: in every interleaving of their calls, processes
      that want the key of one item get the same one
      ([Keystore.wrapping_keys_agree], and [wrapping_key_minted_once] for one
      call); the vault key is created once ([vault_key_created_once]), by one
      process at a time: [vault_race_locks_out] runs two.
    - CoreFoundation: a backend answers as [Keystore] has it and leaves the
      references that were live before ([Keychain.backend_life_refines]); so
      does a root, which is one of the Secure Enclave and opens what it sealed
      ([hardware_root_life]); forgetting a root spares those of accounts whose
      service has no slash ([forgetting_spares_others], and [shared_root] for
      two that share one).
    - The C interface: handles are typed and never dangle, codes and
      out-parameters agree ([Api.handles_well_typed]); a freed handle stays
      dead ([freed_handle_stays_dead]); a start gives the protection asked for
      or nothing ([runtime_started_as_asked]), and the identity it records
      survives every later call ([identity_survives_restart]); what a caller
      that receives a file learns ([received_through_api]); a file goes from
      one library to another ([delivered_through_api]).
    - Capabilities: a token authorizes exactly the scope of its body
      ([Capability.capability_grants_exactly]) and only a token with the
      provider's MAC does ([authorized_token_sound]).
    - Codecs: round trips for range requests, records, envelopes, bitmaps and
      chunk records; what the decoders accept of untrusted input.
    - Scheduling, events and routes: requests name only missing chunks, the
      queue is bounded and loses no terminal event, the watch ends a transfer
      at the second refused observation in a row and not before, waiting for
      a route ends.  The threads on the queue return what a sequential run
      returns ([Waiting.polls_linearize]), and none sleeps while an event is
      there and nobody was woken for it ([no_lost_wakeup]).

    ** Assumptions

    The hypotheses on code outside the crate are the fields of
    [Crypto.PrimitiveLaws] (output lengths, and that decryption inverts
    encryption under the same key, nonce and associated data) and of
    [Identity.PkLaws] (lengths, signatures of a key pair verify,
    decapsulation inverts encapsulation, X25519 is symmetric).  A sealer of
    the device store is used through [Store.SealerLaws] (opening inverts
    sealing), which every sealer of the source is shown to satisfy, those over a
    hardware root from [Keystore.RootLaws].  Keychains are used through
    [Keystore.BackendLaws], shown of the macOS backend from the documented
    behaviour of Security.framework ([Keystore.FrameworkLaws]); [Keychain]
    has the framework on dictionaries, with [Documented] (a call that succeeds
    returns its object), [EciesLaws] and [RootStore].  Collision
    resistance is never assumed globally: a theorem that needs it names the
    inputs on which the hash must not collide ([Crypto.collision_free],
    [Crypto.no_collision]).  Secrecy and unforgeability are not stated.
    [Crypto.Toy], [Identity.ToyPk], the keychains and the root of
    [Keystore.KeystoreWitness] and the chain of [Keychain.KeychainWitness] are
    concrete instances of the classes, on which the witnesses run.

    ** Bounds and fuel

    [Merkle.build_proof_inner] carries a fuel of 64, the depth of a tree of
    2^64 leaves; the loops of [Receiver] and [Route] take a fuel that bounds the
    number of frames or observations, and the theorems give the fuel that is
    enough.  [Extension.skip_value] takes twice the number of unread bytes as fuel,
    which [Extension.skip_total] shows to suffice, and the loop over the
    optional keys of [Manifest] a fuel of 4, as keys ascend.  Loops over a
    counted range are structural.  The theorems of [Api] hold for runs that
    make fewer than 2^64 handles, after which the counter would wrap.

    ** Not modelled

    The QUIC endpoint, the executor and the task structure around the sender
    and the receiver: connecting, accepting and timeouts are arguments that
    say how they ended.  The source never retains an object itself, so a reference
    of [Keychain] is live or released, without a count.  Of the C interface, the memory of buffers, the JSON text of
    a report, the text of an error, and calls that overlap in time (a sequence
    of whole calls is modelled; threads are in [Waiting], processes inside
    [wrapping_key] in [Keystore]).  A panic behind the C interface is modelled
    as a build that unwinds has it ([Api.ffi_guard] answers [ERR_INTERNAL]);
    the release profile of [Cargo.toml] sets [panic = "abort"], and there the
    process ends instead.  A failed write to the destination fails in the call
    that made it, where tokio may report it at the next write or at the flush;
    the record is committed only after a flush in either case.  Deriving a display
    form, zeroing memory on drop and the host's file modes outside Unix have
    no model.  The C header, the Go binding and the commands are glue. *)

From Stdlib Require Export ZArith Lia.
From Stdlib Require Ascii String.
Export String.StringSyntax.
From stdpp Require Export base list numbers sets.
Export ListNotations.

#[global] Open Scope Z_scope.

(** ** Outcomes of Rust functions

    [Ok] and [Err] are Rust's [Result]; [Panic] is a failed [assert!],
    [unwrap], [expect] or slice index. *)
Inductive result (E A : Type) : Type :=
| Ok (a : A)
| Err (e : E)
| Panic.
Arguments Ok {E A} _.
Arguments Err {E A} _.
Arguments Panic {E A}.

(** Rust's [From] trait on error types, which the [?] operator applies. *)
Class From (E1 E2 : Type) := from : E1 -> E2.
#[export] Instance from_refl E : From E E | 10 := fun e => e.

Definition rbind {E A B} (x : result E A) (f : A -> result E B) : result E B :=
  match x with Ok a => f a | Err e => Err e | Panic => Panic end.

(** [x.map_err(f)] *)
Definition map_err {E F A} (f : E -> F) (x : result E A) : result F A :=
  match x with Ok a => Ok a | Err e => Err (f e) | Panic => Panic end.

(** [x?] *)
Definition try {E F A} `{From E F} (x : result E A) : result F A :=
  map_err from x.

(** ** One state-and-error monad for every stateful component *)
Definition M (S E A : Type) : Type := S -> result E (A * S).

Definition ret {S E A} (a : A) : M S E A := fun s => Ok (a, s).
Definition fail {S E A} (e : E) : M S E A := fun _ => Err e.
Definition bind {S E A B} (p : M S E A) (k : A -> M S E B) : M S E B :=
  fun s => rbind (p s) (fun '(a, s') => k a s').
(** Early return: [if cond { return Err(e); }] *)
Definition guard {S E} (ok : bool) (e : E) : M S E unit :=
  if ok then ret tt else fail e.
(** Lift a stateless fallible computation. *)
Definition lift {S E A} (x : result E A) : M S E A :=
  fun s => rbind x (fun a => Ok (a, s)).

Declare Scope rtp_scope.
Delimit Scope rtp_scope with rtp.
#[global] Open Scope rtp_scope.
Notation "x <- p ;; k" := (bind p (fun x => k))
  (at level 100, p at next level, right associativity) : rtp_scope.
Notation "p ;;; k" := (bind p (fun _ => k))
  (at level 100, right associativity) : rtp_scope.
Notation "'let*' x ':=' c 'in' k" := (rbind c (fun x => k))
  (at level 10, x name, c at level 100, k at level 200) : rtp_scope.
Notation "'let*' ' pat ':=' c 'in' k" := (rbind c (fun x => match x with pat => k end))
  (at level 10, pat pattern, c at level 100, k at level 200) : rtp_scope.

(** ** Actions on a shared state *)
(** A computation that changes the state it runs on whatever its outcome, for
    code whose failures keep what was done before them. *)
Definition Action (S E A : Type) : Type := S -> result E A * S.
Section Actions.
Context {S E : Type}.
Definition done_with {A} (a : A) : Action S E A := fun s => (Ok a, s).
Definition from_result {A} (r : result E A) : Action S E A := fun s => (r, s).
Definition andthen {A B} (m : Action S E A) (k : A -> Action S E B) : Action S E B := fun s =>
  match m s with
  | (Ok a, s') => k a s'
  | (Err e, s') => (Err e, s')
  | (Panic, s') => (Panic, s')
  end.
Definition modify (f : S -> S) : Action S E unit := fun s => (Ok tt, f s).
Lemma andthen_ok {A B} (m : Action S E A) (k : A -> Action S E B) s a s1 : m s = (Ok a, s1) -> andthen m k s = k a s1.
Proof. unfold andthen. by intros ->. Qed.
Lemma andthen_inv {A B} (m : Action S E A) (k : A -> Action S E B) s b s' : andthen m k s = (Ok b, s') ->
  exists a s1, m s = (Ok a, s1) /\ k a s1 = (Ok b, s').
Proof. unfold andthen. destruct (m s) as [[a|e|] s1]; [|done..]. by exists a, s1. Qed.
Lemma from_result_ok {A} (r : result E A) a s : r = Ok a -> from_result r s = (Ok a, s).
Proof. by intros ->. Qed.
Lemma from_result_inv {A} (r : result E A) s a s' : from_result r s = (Ok a, s') -> r = Ok a /\ s' = s.
Proof. unfold from_result. by intros [= -> ->]. Qed.
Lemma modify_inv f s u s' : modify f s = (Ok u, s') -> s' = f s.
Proof. unfold modify. by intros [= _ ->]. Qed.
End Actions.
Notation "x <~ m ;; k" := (andthen m (fun x => k)) (at level 100, m at next level, right associativity) : rtp_scope.
Notation "' p <~ m ;; k" := (andthen m (fun x => match x with p => k end))
  (at level 100, p pattern, m at next level, right associativity) : rtp_scope.
Notation "m ;~ k" := (andthen m (fun _ => k)) (at level 100, right associativity) : rtp_scope.

(** The body of a [for _ in 0..n] loop collecting its results in order. *)
Fixpoint repeat_m {S E A} (n : nat) (p : M S E A) : M S E (list A) :=
  match n with
  | O => ret []
  | S n' => a <- p ;; rest <- repeat_m n' p ;; ret (a :: rest)
  end.

Lemma bind_ok {S E A B} (p : M S E A) (k : A -> M S E B) s a s' R :
  p s = Ok (a, s') -> k a s' = R -> bind p k s = R.
Proof. unfold bind. by intros -> <-. Qed.

Lemma bind_inv {S E A B} (p : M S E A) (k : A -> M S E B) s b s'' :
  bind p k s = Ok (b, s'') ->
  exists a s', p s = Ok (a, s') /\ k a s' = Ok (b, s'').
Proof. unfold bind. destruct (p s) as [[a s']|e|]; simpl; [eauto|done..]. Qed.

Lemma bind_err {S E A B} (p : M S E A) (k : A -> M S E B) s e :
  p s = Err e -> bind p k s = Err e.
Proof. unfold bind. by intros ->. Qed.

Lemma Ok_inj {E A} (a b : A) : Ok (E := E) a = Ok b -> a = b.
Proof. by intros [= ->]. Qed.

Lemma rbind_inv {E A B} (x : result E A) (f : A -> result E B) b :
  rbind x f = Ok b -> exists a, x = Ok a /\ f a = Ok b.
Proof. destruct x; simpl; [eauto|done..]. Qed.

Lemma map_err_inv {E F A} (f : E -> F) (x : result E A) a :
  map_err f x = Ok a -> x = Ok a.
Proof. destruct x; simpl; congruence. Qed.

Lemma try_inv {E F A} `{From E F} (x : result E A) a :
  try x = Ok a -> x = Ok a.
Proof. apply map_err_inv. Qed.

Lemma guard_inv {S E} ok (e : E) (s : S) u s' :
  guard ok e s = Ok (u, s') -> ok = true /\ s' = s.
Proof. destruct ok; cbn; [by intros [= <- <-]|done]. Qed.
Lemma ret_inv {S E A} (a b : A) (s s' : S) : ret (E := E) a s = Ok (b, s') -> b = a /\ s' = s.
Proof. by intros [= -> ->]. Qed.
Lemma guard_ok {S E} ok (e : E) (s : S) : ok = true -> guard ok e s = Ok (tt, s).
Proof. by intros ->. Qed.

(** ** Machine integers

    Unsigned [w]-bit integers are [Z] with their range stated by [uint w];
    arithmetic that wraps in a release build is written with [wrap w]. *)
Definition wrap (w x : Z) : Z := x mod 2 ^ w.
Definition uint_range (w x : Z) : Prop := 0 <= x < 2 ^ w.
Abbreviation u8 := (uint_range 8).
Abbreviation u16 := (uint_range 16).
Abbreviation u32 := (uint_range 32).
Abbreviation u64 := (uint_range 64).
Definition U8_MAX : Z := 2 ^ 8 - 1.
Definition U16_MAX : Z := 2 ^ 16 - 1.
Definition U32_MAX : Z := 2 ^ 32 - 1.
Definition U64_MAX : Z := 2 ^ 64 - 1.

(** [a.saturating_add(b)] and [a.saturating_mul(b)] on [u64] *)
Definition saturating_add (a b : Z) : Z := Z.min (a + b) U64_MAX.
Definition saturating_mul (a b : Z) : Z := Z.min (a * b) U64_MAX.
(** [a.div_ceil(b)] *)
Definition div_ceil (a b : Z) : Z := (a + b - 1) / b.
(** [a.abs_diff(b)] *)
Definition abs_diff (a b : Z) : Z := Z.abs (a - b).

(** Byte strings are lists of [Z] in byte range; [len] is Rust's [len()]. *)
Abbreviation bytes := (list Z).
Definition len {A} (l : list A) : Z := Z.of_nat (length l).
Definition is_byte (b : Z) : Prop := 0 <= b < 256.
Definition bytes_ok (l : bytes) : Prop := Forall is_byte l.
(** [\[u8; N\]] *)
Definition array (n : Z) (l : bytes) : Prop := len l = n /\ bytes_ok l.

(** An ASCII byte-string literal, [b"..."]. *)
Definition lit (s : String.string) : bytes :=
  map (fun a => Z.of_N (Ascii.N_of_ascii a)) (String.list_ascii_of_string s).
Arguments lit s%_string_scope.

(** Derived equality on byte arrays. *)
Definition bytes_eqb (a b : bytes) : bool := bool_decide (a = b).

(** [x.to_be_bytes()] on an [n]-byte integer, and [from_be_bytes]. *)
Fixpoint be_bytes (n : nat) (x : Z) : bytes :=
  match n with
  | O => []
  | S n' => (x / 2 ^ (8 * Z.of_nat n')) mod 256 :: be_bytes n' x
  end.
Definition from_be (l : bytes) : Z := fold_left (fun acc b => acc * 256 + b) l 0.

(** ** Tactics *)
(** Decide boolean integer comparisons by arithmetic. *)
Ltac zbool :=
  repeat match goal with
  | |- context [?a <? ?b] => destruct (Z.ltb_spec a b); try lia
  | |- context [?a <=? ?b] => destruct (Z.leb_spec a b); try lia
  | |- context [?a =? ?b] => destruct (Z.eqb_spec a b); try lia
  | H : context [?a <? ?b] |- _ => destruct (Z.ltb_spec a b); try lia
  | H : context [?a <=? ?b] |- _ => destruct (Z.leb_spec a b); try lia
  | H : context [?a =? ?b] |- _ => destruct (Z.eqb_spec a b); try lia
  end.

(** [lia] with division and remainder by constants. *)
Ltac dlia := Z.to_euclidean_division_equations; lia.

(** Invert a successful monadic computation as far as its binds go. *)
Ltac minv H :=
  match type of H with
  | bind _ _ _ = Ok _ =>
      let a := fresh "a" in let s := fresh "s" in
      let H1 := fresh "Hp" in let H2 := fresh "Hk" in
      apply bind_inv in H as (a & s & H1 & H2); cbn beta iota in H2
  | rbind _ _ = Ok _ =>
      let a := fresh "a" in let H1 := fresh "Hp" in let H2 := fresh "Hk" in
      apply rbind_inv in H as (a & H1 & H2); cbn beta iota in H2
  | guard _ _ _ = Ok _ =>
      let H1 := fresh "Hg" in apply guard_inv in H as (H1 & ->)
  | ret _ _ = Ok _ => unfold ret in H; injection H as <- <-
  | fail _ _ = Ok _ => discriminate H
  | try _ = Ok _ => apply try_inv in H
  | map_err _ _ = Ok _ => apply map_err_inv in H
  end.

(** ** Lists *)
Create HintDb rtp discriminated.
Create HintDb wire discriminated.
Create Rewrite HintDb rtp_len.

Lemma len_nil {A} : len (@nil A) = 0. Proof. done. Qed.
Lemma len_cons {A} (x : A) l : len (x :: l) = 1 + len l.
Proof. unfold len. cbn [length]. lia. Qed.
Lemma len_app {A} (l1 l2 : list A) : len (l1 ++ l2) = len l1 + len l2.
Proof. unfold len. rewrite length_app. lia. Qed.
Lemma len_nonneg {A} (l : list A) : 0 <= len l.
Proof. unfold len. lia. Qed.
Lemma len_be_bytes n x : len (be_bytes n x) = Z.of_nat n.
Proof. induction n; [done|]. cbn [be_bytes]. rewrite len_cons, IHn. lia. Qed.
Lemma len_0_nil {A} (l : list A) : len l = 0 -> l = [].
Proof. destruct l; [done|]. rewrite len_cons. pose proof (len_nonneg l). lia. Qed.
#[export] Hint Rewrite @len_nil @len_cons @len_app len_be_bytes : rtp_len.

Lemma bytes_ok_app l1 l2 : bytes_ok (l1 ++ l2) <-> bytes_ok l1 /\ bytes_ok l2.
Proof. apply Forall_app. Qed.
Lemma bytes_ok_cons b l : bytes_ok (b :: l) <-> is_byte b /\ bytes_ok l.
Proof. apply Forall_cons_iff. Qed.

(** Byte ranges of a concrete string, by computation. *)
Lemma bytes_ok_check l : forallb (fun x => (0 <=? x) && (x <? 256)) l = true -> bytes_ok l.
Proof.
  induction l as [|x l IH]; cbn; intros H; [constructor|].
  apply andb_true_iff in H as [H Hl]. apply bytes_ok_cons. split; [unfold is_byte; lia|auto].
Qed.

Lemma app_eq_len {A} (a b c d : list A) :
  length a = length c -> a ++ b = c ++ d -> a = c /\ b = d.
Proof. intros Hl He. by apply app_inj_1. Qed.

Lemma bytes_eqb_true a b : bytes_eqb a b = true <-> a = b.
Proof. unfold bytes_eqb. apply bool_decide_eq_true. Qed.
Lemma bytes_eqb_refl a : bytes_eqb a a = true.
Proof. by apply bytes_eqb_true. Qed.

(** ** Big-endian integers *)
Lemma pow256 n : 2 ^ (8 * Z.of_nat (S n)) = 256 * 2 ^ (8 * Z.of_nat n).
Proof.
  replace (8 * Z.of_nat (S n)) with (8 + 8 * Z.of_nat n) by lia.
  rewrite Z.pow_add_r by lia. done.
Qed.

Lemma from_be_acc l acc :
  fold_left (fun acc b => acc * 256 + b) l acc =
  acc * 2 ^ (8 * Z.of_nat (length l)) + from_be l.
Proof.
  revert acc. induction l as [|b l IH]; intros acc.
  - cbn. lia.
  - unfold from_be. cbn [fold_left length]. rewrite (IH (acc * 256 + b)), (IH (0 * 256 + b)).
    rewrite pow256. lia.
Qed.

Lemma from_be_cons b l :
  from_be (b :: l) = b * 2 ^ (8 * Z.of_nat (length l)) + from_be l.
Proof. unfold from_be. cbn [fold_left]. rewrite from_be_acc. unfold from_be. lia. Qed.

Lemma from_be_range l : bytes_ok l -> 0 <= from_be l < 2 ^ (8 * Z.of_nat (length l)).
Proof.
  induction l as [|b l IH]; intros Hl; [cbn; lia|].
  apply bytes_ok_cons in Hl as [Hb Hl]. specialize (IH Hl).
  rewrite from_be_cons. cbn [length]. rewrite pow256. unfold is_byte in Hb. nia.
Qed.

Lemma bytes_ok_be n x : bytes_ok (be_bytes n x).
Proof.
  induction n; cbn; constructor; [|done].
  apply Z.mod_pos_bound. lia.
Qed.

Lemma from_be_be_bytes n x : from_be (be_bytes n x) = x mod 2 ^ (8 * Z.of_nat n).
Proof.
  induction n as [|n IH]; [cbn; by rewrite Z.mod_1_r|].
  cbn [be_bytes]. rewrite from_be_cons, IH.
  assert (length (be_bytes n x) = n) as ->.
  { pose proof (len_be_bytes n x) as H. unfold len in H. lia. }
  rewrite pow256, (Z.mul_comm 256), Z.rem_mul_r by lia. lia.
Qed.

Lemma be_bytes_mod n x : be_bytes n (x mod 2 ^ (8 * Z.of_nat n)) = be_bytes n x.
Proof.
  enough (H : forall m y, (n <= m)%nat ->
    be_bytes n (y mod 2 ^ (8 * Z.of_nat m)) = be_bytes n y) by (apply H; lia).
  induction n as [|n IH]; intros m y Hm; [done|].
  cbn [be_bytes]. f_equal; [|apply IH; lia].
  set (k := 8 * Z.of_nat n).
  replace (8 * Z.of_nat m) with (k + (8 + (8 * Z.of_nat m - k - 8))) by lia.
  rewrite !Z.pow_add_r by lia.
  rewrite Z.rem_mul_r by lia.
  rewrite (Z.mul_comm (2 ^ k)), Z.div_add, Z.div_small, Z.add_0_l by (try apply Z.mod_pos_bound; lia).
  change (2 ^ 8) with 256. rewrite Z.rem_mul_r by lia.
  rewrite (Z.mul_comm 256), Z.mod_add by lia. by rewrite Z.mod_mod.
Qed.

Lemma be_bytes_from_be l : bytes_ok l -> be_bytes (length l) (from_be l) = l.
Proof.
  induction l as [|b l IH]; intros Hl; [done|].
  apply bytes_ok_cons in Hl as [Hb Hl].
  pose proof (from_be_range l Hl) as Hr.
  cbn [length be_bytes]. rewrite from_be_cons. f_equal.
  - rewrite Z.add_comm, Z.div_add, (Z.div_small (from_be l)) by lia.
    apply Z.mod_small. unfold is_byte in Hb. lia.
  - rewrite <- be_bytes_mod, Z.add_comm, Z.mod_add, Z.mod_small by lia. auto.
Qed.

Lemma be_bytes_inj n x y :
  uint_range (8 * Z.of_nat n) x -> uint_range (8 * Z.of_nat n) y ->
  be_bytes n x = be_bytes n y -> x = y.
Proof.
  intros Hx Hy H. apply (f_equal from_be) in H. rewrite !from_be_be_bytes in H.
  by rewrite !Z.mod_small in H.
Qed.

#[export] Hint Resolve bytes_ok_be len_nonneg : rtp.
