(* ===== verification/Cbor.v ===== *)
(** * RTP-CBOR: the deterministic CBOR subset (cbor.rs)

    [Writer] and [MapWriter] are the encoder, [Reader] and [MapReader] the
    strict decoder.  The comment before each definition names the file of
    [src/prototype/native/rtp2-core/src], the lines and the symbol it models.

    The writers are functions on the output buffer; an [assert!] that fails
    is [Panic].  The readers are computations in the monad [M] over the
    reader state; a reader that returned an error is never used again by its
    callers (each of them propagates with [?]), so the error case carries no
    state. *)

From S2P Require Import Prelude.

(** cbor.rs 9-9 [MAX_DEPTH] *)
Definition MAX_DEPTH : Z := 16.
(** cbor.rs 10-10 [MAX_CONTROL_SIZE] *)
Definition MAX_CONTROL_SIZE : Z := 1024 * 1024.

(** cbor.rs 12-12 [MAJOR_UINT] *)
Definition MAJOR_UINT : Z := 0.
(** cbor.rs 13-13 [MAJOR_BYTES] *)
Definition MAJOR_BYTES : Z := 2.
(** cbor.rs 14-14 [MAJOR_TEXT] *)
Definition MAJOR_TEXT : Z := 3.
(** cbor.rs 15-15 [MAJOR_ARRAY] *)
Definition MAJOR_ARRAY : Z := 4.
(** cbor.rs 16-16 [MAJOR_MAP] *)
Definition MAJOR_MAP : Z := 5.
(** cbor.rs 17-17 [MAJOR_SIMPLE] *)
Definition MAJOR_SIMPLE : Z := 7.
(** cbor.rs 20-20 [SIMPLE_FALSE] *)
Definition SIMPLE_FALSE : Z := 20.
(** cbor.rs 21-21 [SIMPLE_TRUE] *)
Definition SIMPLE_TRUE : Z := 21.

(** cbor.rs 24-36 [CborError] *)
Inductive CborError : Type :=
| Truncated
| NonCanonical
| ForbiddenType
| DepthExceeded
| SizeExceeded
| KeyOrder
| UnexpectedType
| TrailingBytes
| MissingField (key : Z)
| InvalidUtf8
| InvalidValue.

#[export] Instance CborError_eq_dec : EqDecision CborError.
Proof. solve_decision. Defined.

(** ** UTF-8

    [std::str::from_utf8] of the Rust standard library: well-formed UTF-8
    as in RFC 3629 (no overlong forms, no surrogates, at most U+10FFFF). *)
Definition is_cont (b : Z) : bool := (128 <=? b) && (b <=? 191).

Fixpoint utf8_valid (l : bytes) : bool :=
  match l with
  | [] => true
  | b0 :: l1 =>
    if (0 <=? b0) && (b0 <=? 127) then utf8_valid l1 else
    match l1 with
    | [] => false
    | b1 :: l2 =>
      if (194 <=? b0) && (b0 <=? 223) then is_cont b1 && utf8_valid l2 else
      match l2 with
      | [] => false
      | b2 :: l3 =>
        if (b0 =? 224) then (160 <=? b1) && (b1 <=? 191) && is_cont b2 && utf8_valid l3 else
        if (b0 =? 237) then (128 <=? b1) && (b1 <=? 159) && is_cont b2 && utf8_valid l3 else
        if (225 <=? b0) && (b0 <=? 239) then is_cont b1 && is_cont b2 && utf8_valid l3 else
        match l3 with
        | [] => false
        | b3 :: l4 =>
          if (b0 =? 240) then (144 <=? b1) && (b1 <=? 191) && is_cont b2 && is_cont b3 && utf8_valid l4 else
          if (241 <=? b0) && (b0 <=? 243) then is_cont b1 && is_cont b2 && is_cont b3 && utf8_valid l4 else
          if (b0 =? 244) then (128 <=? b1) && (b1 <=? 143) && is_cont b2 && is_cont b3 && utf8_valid l4 else
          false
        end
      end
    end
  end.

(** ** Encoder *)
Module Writer.
(** The output buffer.  cbor.rs 44-46 [Writer] *)
Definition t : Type := bytes.

(** cbor.rs 49-51 [Writer::new] *)
Definition new : t := [].
(** cbor.rs 53-55 [Writer::into_bytes] *)
Definition into_bytes (w : t) : bytes := w.

(** cbor.rs 57-74 [Writer::header] *)
Definition header (major value : Z) (w : t) : t :=
  let m := wrap 8 (Z.shiftl major 5) in
  if value <? 24 then w ++ [Z.lor m (wrap 8 value)]
  else if value <=? U8_MAX then (w ++ [Z.lor m 24]) ++ [wrap 8 value]
  else if value <=? U16_MAX then (w ++ [Z.lor m 25]) ++ be_bytes 2 (wrap 16 value)
  else if value <=? U32_MAX then (w ++ [Z.lor m 26]) ++ be_bytes 4 (wrap 32 value)
  else (w ++ [Z.lor m 27]) ++ be_bytes 8 value.

(** cbor.rs 76-78 [Writer::uint] *)
Definition uint (value : Z) (w : t) : t := header MAJOR_UINT value w.

(** cbor.rs 80-83 [Writer::bytes] *)
Definition bytes (value : bytes) (w : t) : t := header MAJOR_BYTES (len value) w ++ value.

(** A [&str] is its UTF-8 bytes.  cbor.rs 85-88 [Writer::text] *)
Definition text (value : Prelude.bytes) (w : t) : t := header MAJOR_TEXT (len value) w ++ value.

(** cbor.rs 90-93 [Writer::boolean] *)
Definition boolean (value : bool) (w : t) : t :=
  w ++ [Z.lor (wrap 8 (Z.shiftl MAJOR_SIMPLE 5)) (if value then SIMPLE_TRUE else SIMPLE_FALSE)].

(** cbor.rs 95-97 [Writer::array] *)
Definition array (n : Z) (w : t) : t := header MAJOR_ARRAY n w.

(** cbor.rs 99-101 [Writer::map] *)
Definition map (n : Z) (w : t) : t := header MAJOR_MAP n w.
End Writer.

Module MapWriter.
(** cbor.rs 105-109 [MapWriter] *)
Record t : Type := mk { w : Writer.t; remaining : Z; last_key : option Z }.

(** A step that writes into a map, or panics. *)
Definition op (E : Type) : Type := t -> result E t.

(** cbor.rs 112-119 [MapWriter::begin] *)
Definition begin (wr : Writer.t) (entries : Z) : t := mk (Writer.map entries wr) entries None.

(** cbor.rs 121-129 [MapWriter::key] *)
Definition key {E} (k : Z) : op E := fun m =>
  if negb (0 <? remaining m) then Panic else
  match last_key m with
  | Some last => if negb (last <? k) then Panic
                 else Ok (mk (Writer.uint k (w m)) (remaining m - 1) (Some k))
  | None => Ok (mk (Writer.uint k (w m)) (remaining m - 1) (Some k))
  end.

(** [nested] hands the writer of [m] to the code that writes the value.
    cbor.rs 152-155 [MapWriter::nested] *)
Definition nested {E} (k : Z) (f : Writer.t -> result E Writer.t) : op E := fun m =>
  let* m1 := key k m in
  let* w' := f (w m1) in
  Ok (mk w' (remaining m1) (last_key m1)).

(** cbor.rs 131-134 [MapWriter::uint] *)
Definition uint {E} (k v : Z) : op E := nested k (fun wr => Ok (Writer.uint v wr)).
(** cbor.rs 136-139 [MapWriter::bytes] *)
Definition bytes {E} (k : Z) (v : bytes) : op E := nested k (fun wr => Ok (Writer.bytes v wr)).
(** cbor.rs 141-144 [MapWriter::boolean] *)
Definition boolean {E} (k : Z) (v : bool) : op E := nested k (fun wr => Ok (Writer.boolean v wr)).
(** cbor.rs 146-149 [MapWriter::text] *)
Definition text {E} (k : Z) (v : Prelude.bytes) : op E := nested k (fun wr => Ok (Writer.text v wr)).

(** cbor.rs 157-159 [MapWriter::end] *)
Definition finish {E} (m : t) : result E Writer.t :=
  if remaining m =? 0 then Ok (w m) else Panic.

(** Run a list of steps in order. *)
Fixpoint run {E} (ops : list (op E)) (m : t) : result E t :=
  match ops with
  | [] => Ok m
  | o :: rest => let* m' := o m in run rest m'
  end.
End MapWriter.

(** [MapWriter::begin(w, n)], the steps, then [end()]. *)
Definition write_map {E} (n : Z) (ops : list (MapWriter.op E)) (w : Writer.t) : result E Writer.t :=
  let* m := MapWriter.run ops (MapWriter.begin w n) in
  MapWriter.finish m.

(** [for x in xs { body }] on the writer. *)
Fixpoint write_each {E A} (f : A -> Writer.t -> result E Writer.t) (xs : list A) (w : Writer.t)
  : result E Writer.t :=
  match xs with
  | [] => Ok w
  | x :: rest => let* w' := f x w in write_each f rest w'
  end.

(** ** Decoder *)
Module Reader.
(** cbor.rs 167-171 [Reader] *)
Record t : Type := mk { buf : bytes; pos : Z; depth : Z }.

(** cbor.rs 174-183 [Reader::new] *)
Definition new (b : bytes) : result CborError t :=
  if MAX_CONTROL_SIZE <? len b then Err SizeExceeded else Ok (mk b 0 0).

(** cbor.rs 187-193 [Reader::new_unbounded] *)
Definition new_unbounded (b : bytes) : t := mk b 0 0.

(** cbor.rs 195-201 [Reader::finish] *)
Definition finish (r : t) : result CborError unit :=
  if pos r =? len (buf r) then Ok tt else Err TrailingBytes.

(** cbor.rs 203-210 [Reader::take] *)
Definition take (n : Z) : M t CborError bytes := fun r =>
  if len (buf r) - pos r <? n then Err Truncated
  else Ok (firstn (Z.to_nat n) (drop (Z.to_nat (pos r)) (buf r)),
           mk (buf r) (pos r + n) (depth r)).

(** [self.take(1)?\[0\]] *)
Definition take_byte : M t CborError Z :=
  s <- take 1 ;;
  match s with b :: _ => ret b | [] => fun _ => Panic end.

(** cbor.rs 212-255 [Reader::head] *)
Definition head : M t CborError (Z * Z) :=
  first <- take_byte ;;
  let major := Z.shiftr first 5 in
  let ai := Z.land first 31 in
  value <- (if ai <=? 23 then ret ai
            else if ai =? 24 then
              v <- take_byte ;;
              if v <? 24 then fail NonCanonical else ret v
            else if ai =? 25 then
              s <- take 2 ;;
              let v := from_be s in
              if v <=? U8_MAX then fail NonCanonical else ret v
            else if ai =? 26 then
              s <- take 4 ;;
              let v := from_be s in
              if v <=? U16_MAX then fail NonCanonical else ret v
            else if ai =? 27 then
              s <- take 8 ;;
              let v := from_be s in
              if v <=? U32_MAX then fail NonCanonical else ret v
            else fail ForbiddenType) ;;
  if (major =? MAJOR_SIMPLE) && negb (value =? SIMPLE_FALSE) && negb (value =? SIMPLE_TRUE)
  then fail ForbiddenType
  else ret (major, value).

(** cbor.rs 257-263 [Reader::boolean] *)
Definition boolean : M t CborError bool :=
  h <- head ;;
  if negb (h.1 =? MAJOR_SIMPLE) then fail UnexpectedType else ret (h.2 =? SIMPLE_TRUE).

(** cbor.rs 267-272 [Reader::peek_major] *)
Definition peek_major : M t CborError Z := fun r =>
  if len (buf r) <=? pos r then Err Truncated else
  match buf r !! Z.to_nat (pos r) with
  | Some b => Ok (Z.shiftr b 5, r)
  | None => Panic
  end.

(** cbor.rs 274-280 [Reader::uint] *)
Definition uint : M t CborError Z :=
  h <- head ;;
  if negb (h.1 =? MAJOR_UINT) then fail UnexpectedType else ret h.2.

(** cbor.rs 282-288 [Reader::bytes] *)
Definition bytes : M t CborError bytes :=
  h <- head ;;
  if negb (h.1 =? MAJOR_BYTES) then fail UnexpectedType else take h.2.

(** cbor.rs 290-293 [Reader::bytes_exact] *)
Definition bytes_exact (n : Z) : M t CborError Prelude.bytes :=
  raw <- bytes ;;
  if len raw =? n then ret raw else fail InvalidValue.

(** cbor.rs 295-302 [Reader::text] *)
Definition text : M t CborError Prelude.bytes :=
  h <- head ;;
  if negb (h.1 =? MAJOR_TEXT) then fail UnexpectedType else
  raw <- take h.2 ;;
  if utf8_valid raw then ret raw else fail InvalidUtf8.

(** cbor.rs 326-332 [Reader::enter] *)
Definition enter : M t CborError unit := fun r =>
  let d := depth r + 1 in
  if MAX_DEPTH <? d then Err DepthExceeded else Ok (tt, mk (buf r) (pos r) d).

(** [leave] is only called below an [enter]; the [debug_assert] is kept as
    the panic it is in a debug build.  cbor.rs 334-337 [Reader::leave] *)
Definition leave {E} : M t E unit := fun r =>
  if negb (0 <? depth r) then Panic else Ok (tt, mk (buf r) (pos r) (depth r - 1)).

(** cbor.rs 304-311 [Reader::array] *)
Definition array : M t CborError Z :=
  h <- head ;;
  if negb (h.1 =? MAJOR_ARRAY) then fail UnexpectedType else
  enter ;;; ret h.2.

(** The header and depth of [Reader::map].  cbor.rs 313-324 [Reader::map] *)
Definition map : M t CborError Z :=
  h <- head ;;
  if negb (h.1 =? MAJOR_MAP) then fail UnexpectedType else
  enter ;;; ret h.2.
End Reader.

Module MapReader.
(** cbor.rs 341-345 [MapReader] *)
Record t : Type := mk { reader : Reader.t; remaining : Z; last_key : option Z }.

(** [self.reader.op()] *)
Definition on {E A} (p : M Reader.t E A) : M t E A := fun m =>
  let* '(a, r) := p (reader m) in
  Ok (a, mk r (remaining m) (last_key m)).

(** cbor.rs 349-363 [MapReader::next_key] *)
Definition next_key : M t CborError (option Z) := fun m =>
  if remaining m =? 0 then
    let* '(_, r) := Reader.leave (reader m) in
    Ok (None, mk r 0 (last_key m))
  else
    let* '(k, r) := Reader.uint (reader m) in
    let m' := mk r (remaining m - 1) (Some k) in
    match last_key m with
    | Some last => if k <=? last then Err KeyOrder else Ok (Some k, m')
    | None => Ok (Some k, m')
    end.

(** cbor.rs 366-372 [MapReader::expect_key] *)
Definition expect_key (key : Z) : M t CborError unit :=
  k <- next_key ;;
  match k with
  | Some k' => if k' =? key then ret tt else fail (MissingField key)
  | None => fail (MissingField key)
  end.
End MapReader.

(** ** Calling conventions of the decoders

    [q p] is [p?]: the error is converted by the [From] instance.
    [get p] is [m.reader.p()?] on a map reader.  [in_map p] opens a map on a
    reader, runs [p] on the [MapReader] and gives the reader back. *)
Definition q {S E F A} `{From E F} (p : M S E A) : M S F A := fun s => try (p s).
Definition expect {E} `{From CborError E} (k : Z) : M MapReader.t E unit := q (MapReader.expect_key k).
Definition get {E F A} `{From E F} (p : M Reader.t E A) : M MapReader.t F A := MapReader.on (q p).
Definition next {E} `{From CborError E} : M MapReader.t E (option Z) := q MapReader.next_key.
Definition in_map {E A} `{From CborError E} (p : M MapReader.t E A) : M Reader.t E A := fun r =>
  let* '(n, r1) := try (Reader.map r) in
  let* '(a, m) := p (MapReader.mk r1 n None) in
  Ok (a, MapReader.reader m).

(** [if m.next_key()?.is_some() { return Err(e); }] *)
Definition no_more {E} `{From CborError E} (e : E) : M MapReader.t E unit :=
  k <- next ;;
  match k with Some _ => fail e | None => ret tt end.

(** [let r = Reader::new(bytes)?; ...; r.finish()?; ...] *)
Definition decode_all {E A} `{From CborError E} (b : bytes) (p : M Reader.t E A) : result E A :=
  let* r := try (Reader.new b) in
  let* '(a, r') := p r in
  let* _ := try (Reader.finish r') in
  Ok a.

(** [let r = Reader::new_unbounded(bytes); ...; r.finish()?; ...] *)
Definition decode_unbounded {E A} `{From CborError E} (b : bytes) (p : M Reader.t E A) : result E A :=
  let* '(a, r') := p (Reader.new_unbounded b) in
  let* _ := try (Reader.finish r') in
  Ok a.
