(* ===== verification/Wire.v ===== *)
(** * The RTP-CBOR wire format: abstract values and parser calculus

    [value] is the abstract syntax of the RTP-CBOR subset and [cbor] its
    only encoding.  Every encoder of the core is shown to write [cbor v] for
    the value its message denotes, and every decoder to read it back.

    Readers are put in the form [mkr pre rest depth] (what was consumed, what
    is left, the depth), so that running a decoder on an encoding is symbolic
    execution.  Each primitive has a forward lemma ([..._fwd]: it reads its
    encoding) and a backward lemma ([..._bwd]: whatever it accepts is that
    encoding). *)

From S2P Require Import Prelude Cbor.

(** ** Abstract values *)
#[warnings="-register-all"]
Inductive value : Type :=
| VUint (n : Z)
| VBytes (b : bytes)
| VText (b : bytes)
| VBool (b : bool)
| VArray (l : list value)
| VMap (l : list (Z * value)).

(** Shortest-form header of a major type and its argument. *)
Definition hdr (major v : Z) : bytes := Writer.header major v [].

Fixpoint cbor (v : value) : bytes :=
  match v with
  | VUint n => hdr MAJOR_UINT n
  | VBytes b => hdr MAJOR_BYTES (len b) ++ b
  | VText b => hdr MAJOR_TEXT (len b) ++ b
  | VBool b => hdr MAJOR_SIMPLE (if b then SIMPLE_TRUE else SIMPLE_FALSE)
  | VArray l => hdr MAJOR_ARRAY (len l) ++ flat_map cbor l
  | VMap l => hdr MAJOR_MAP (len l) ++ flat_map (fun kv => hdr MAJOR_UINT kv.1 ++ cbor kv.2) l
  end.

(** ** Readers in normal form *)
Definition mkr (pre rest : bytes) (d : Z) : Reader.t := Reader.mk (pre ++ rest) (len pre) d.
Definition mkm (pre rest : bytes) (d n : Z) (last : option Z) : MapReader.t :=
  MapReader.mk (mkr pre rest d) n last.

Lemma drop_pre (pre rest : bytes) : drop (Z.to_nat (len pre)) (pre ++ rest) = rest.
Proof. unfold len. rewrite Nat2Z.id. apply drop_app_length. Qed.

Lemma take_fwd n pre s tl d :
  len s = n -> Reader.take n (mkr pre (s ++ tl) d) = Ok (s, mkr (pre ++ s) tl d).
Proof.
  intros Hn. unfold Reader.take, mkr; cbn.
  rewrite drop_pre, !len_app. pose proof (len_nonneg tl).
  destruct (Z.ltb_spec (len pre + (len s + len tl) - len pre) n); [lia|].
  rewrite <- Hn. unfold len at 1. rewrite Nat2Z.id, take_app_length.
  by rewrite <- app_assoc.
Qed.

Lemma take_short n pre s d :
  len s < n -> Reader.take n (mkr pre s d) = Err Truncated.
Proof.
  intros Hn. unfold Reader.take, mkr; cbn. rewrite len_app.
  destruct (Z.ltb_spec (len pre + len s - len pre) n); [done|lia].
Qed.

Lemma take_bwd n pre rest d s r :
  0 <= n -> Reader.take n (mkr pre rest d) = Ok (s, r) ->
  exists tl, rest = s ++ tl /\ len s = n /\ r = mkr (pre ++ s) tl d.
Proof.
  intros Hn. unfold Reader.take, mkr; cbn. rewrite drop_pre, len_app.
  destruct (Z.ltb_spec (len pre + len rest - len pre) n); [done|].
  intros [= <- <-]. exists (drop (Z.to_nat n) rest).
  assert (Hl : len (firstn (Z.to_nat n) rest) = n).
  { unfold len in *. rewrite length_take. lia. }
  split; [by rewrite take_drop|]. split; [done|].
  f_equal; [|rewrite len_app; lia]. rewrite <- app_assoc. by rewrite take_drop.
Qed.

(** ** Header bytes *)
Lemma hdr_byte major x :
  0 <= major < 8 -> 0 <= x < 32 ->
  Z.lor (wrap 8 (Z.shiftl major 5)) x = 32 * major + x.
Proof.
  intros Hm Hx. unfold wrap. rewrite Z.shiftl_mul_pow2 by lia.
  rewrite Z.mod_small by lia.
  assert (Hl : Z.land (major * 2 ^ 5) x = 0).
  { apply Z.bits_inj'. intros i Hi. rewrite Z.land_spec, Z.bits_0.
    destruct (Z_lt_le_dec i 5).
    - by rewrite Z.mul_pow2_bits_low.
    - rewrite <- (Z.mod_small x (2 ^ 5)) by lia.
      rewrite (Z.mod_pow2_bits_high x 5 i) by lia. apply andb_false_r. }
  pose proof (Z.add_lor_land (major * 2 ^ 5) x). lia.
Qed.

Lemma hdr_byte_major major x : 0 <= x < 32 -> Z.shiftr (32 * major + x) 5 = major.
Proof. intros. rewrite Z.shiftr_div_pow2 by lia. change (2 ^ 5) with 32. dlia. Qed.

Lemma hdr_byte_ai major x : 0 <= x < 32 -> Z.land (32 * major + x) 31 = x.
Proof.
  intros. change 31 with (Z.ones 5). rewrite Z.land_ones by lia. change (2 ^ 5) with 32. dlia.
Qed.

(** The header in arithmetic form. *)
Lemma hdr_eq major v :
  0 <= major < 8 -> u64 v ->
  hdr major v =
    if v <? 24 then [32 * major + v]
    else if v <=? U8_MAX then [32 * major + 24; v]
    else if v <=? U16_MAX then (32 * major + 25) :: be_bytes 2 v
    else if v <=? U32_MAX then (32 * major + 26) :: be_bytes 4 v
    else (32 * major + 27) :: be_bytes 8 v.
Proof.
  intros Hm Hv. unfold hdr, Writer.header, uint_range, U8_MAX, U16_MAX, U32_MAX in *.
  cbn zeta. rewrite (hdr_byte major 24), (hdr_byte major 25), (hdr_byte major 26),
    (hdr_byte major 27) by lia. cbn [app].
  destruct (Z.ltb_spec v 24).
  { replace (wrap 8 v) with v by (unfold wrap; rewrite Z.mod_small; lia).
    by rewrite hdr_byte by lia. }
  unfold wrap. destruct (Z.leb_spec v (2 ^ 8 - 1)); [by rewrite Z.mod_small by lia|].
  destruct (Z.leb_spec v (2 ^ 16 - 1)); [by rewrite Z.mod_small by lia|].
  destruct (Z.leb_spec v (2 ^ 32 - 1)); [by rewrite Z.mod_small by lia|done].
Qed.

Lemma header_app major v w : Writer.header major v w = w ++ hdr major v.
Proof. unfold hdr, Writer.header. by repeat case_match; rewrite <- ?app_assoc. Qed.

Definition simple_ok (major v : Z) : Prop := major = 7 -> v = SIMPLE_FALSE \/ v = SIMPLE_TRUE.

Lemma take_byte_fwd pre b tl d :
  Reader.take_byte (mkr pre (b :: tl) d) = Ok (b, mkr (pre ++ [b]) tl d).
Proof.
  unfold Reader.take_byte. eapply bind_ok; [apply (take_fwd 1 pre [b]); done|done].
Qed.

Lemma take_byte_bwd pre rest d b r :
  Reader.take_byte (mkr pre rest d) = Ok (b, r) ->
  exists tl, rest = b :: tl /\ r = mkr (pre ++ [b]) tl d.
Proof.
  unfold Reader.take_byte. intros H. minv H.
  apply take_bwd in Hp as (tl & -> & Hl & ->); [|lia].
  destruct a as [|b' [|]]; [done| |autorewrite with rtp_len in Hl; pose proof (len_nonneg l); lia].
  cbn in Hk. injection Hk as <- <-. by exists tl.
Qed.

Lemma take_be_fwd n pre v tl d :
  uint_range (8 * Z.of_nat n) v ->
  exists s, Reader.take (Z.of_nat n) (mkr pre (be_bytes n v ++ tl) d)
            = Ok (s, mkr (pre ++ be_bytes n v) tl d) /\ from_be s = v.
Proof.
  intros Hv. exists (be_bytes n v). split; [apply take_fwd, len_be_bytes|].
  rewrite from_be_be_bytes. by apply Z.mod_small.
Qed.

Lemma head_fwd major v pre tl d :
  0 <= major < 8 -> u64 v -> simple_ok major v ->
  Reader.head (mkr pre (hdr major v ++ tl) d) = Ok ((major, v), mkr (pre ++ hdr major v) tl d).
Proof.
  intros Hm Hv Hs. unfold Reader.head.
  assert (Hlast : ((major =? MAJOR_SIMPLE) && negb (v =? SIMPLE_FALSE)
                   && negb (v =? SIMPLE_TRUE)) = false).
  { unfold simple_ok, MAJOR_SIMPLE in *. destruct (Z.eqb_spec major 7); [|done].
    destruct Hs as [-> | ->]; done. }
  rewrite hdr_eq by done. unfold uint_range, U8_MAX, U16_MAX, U32_MAX in *.
  destruct (Z.ltb_spec v 24); [|destruct (Z.leb_spec v (2 ^ 8 - 1));
    [|destruct (Z.leb_spec v (2 ^ 16 - 1)); [|destruct (Z.leb_spec v (2 ^ 32 - 1))]]];
    cbn [app]; (eapply bind_ok; [apply take_byte_fwd|]); cbn beta zeta;
    rewrite hdr_byte_ai, hdr_byte_major by lia.
  - destruct (Z.leb_spec v 23); [|lia]. eapply bind_ok; [done|]. by rewrite Hlast.
  - cbn. eapply bind_ok.
    { eapply bind_ok; [apply take_byte_fwd|]. by zbool. }
    rewrite Hlast. unfold ret. by rewrite <- app_assoc.
  - destruct (take_be_fwd 2 (pre ++ [32 * major + 25]) v tl d) as (s & Ht & Hf); [split; lia|].
    cbn. eapply bind_ok.
    { eapply bind_ok; [apply Ht|]. cbn zeta. rewrite Hf. by zbool. }
    rewrite Hlast. unfold ret. by rewrite <- app_assoc.
  - destruct (take_be_fwd 4 (pre ++ [32 * major + 26]) v tl d) as (s & Ht & Hf); [split; lia|].
    cbn. eapply bind_ok.
    { eapply bind_ok; [apply Ht|]. cbn zeta. rewrite Hf. by zbool. }
    rewrite Hlast. unfold ret. by rewrite <- app_assoc.
  - destruct (take_be_fwd 8 (pre ++ [32 * major + 27]) v tl d) as (s & Ht & Hf); [split; lia|].
    cbn. eapply bind_ok.
    { eapply bind_ok; [apply Ht|]. cbn zeta. rewrite Hf. by zbool. }
    rewrite Hlast. unfold ret. by rewrite <- app_assoc.
Qed.

Lemma take_be_bwd n pre rest d s r :
  bytes_ok rest -> Reader.take (Z.of_nat n) (mkr pre rest d) = Ok (s, r) ->
  exists tl, rest = be_bytes n (from_be s) ++ tl /\
    r = mkr (pre ++ be_bytes n (from_be s)) tl d /\
    uint_range (8 * Z.of_nat n) (from_be s).
Proof.
  intros Hok H. apply take_bwd in H as (tl & -> & Hl & ->); [|lia].
  apply bytes_ok_app in Hok as [Hs _]. unfold len in Hl. apply Nat2Z.inj in Hl. subst n.
  exists tl. rewrite be_bytes_from_be by done. repeat split; apply from_be_range; done.
Qed.

Lemma hdr_byte_split b : is_byte b ->
  exists major ai, b = 32 * major + ai /\ 0 <= major < 8 /\ 0 <= ai < 32 /\
    Z.shiftr b 5 = major /\ Z.land b 31 = ai.
Proof.
  intros Hb. unfold is_byte in Hb. exists (b / 32), (b mod 32).
  assert (Hs : Z.shiftr b 5 = b / 32) by (by rewrite Z.shiftr_div_pow2 by lia).
  assert (Hl : Z.land b 31 = b mod 32).
  { change 31 with (Z.ones 5). by rewrite Z.land_ones by lia. }
  repeat split; try assumption; dlia.
Qed.

Lemma head_bwd pre rest d major v r :
  bytes_ok rest -> Reader.head (mkr pre rest d) = Ok ((major, v), r) ->
  exists tl, rest = hdr major v ++ tl /\ r = mkr (pre ++ hdr major v) tl d /\
    0 <= major < 8 /\ u64 v /\ simple_ok major v /\ bytes_ok tl.
Proof.
  intros Hok H. unfold Reader.head in H. minv H.
  apply take_byte_bwd in Hp as (tl & -> & ->).
  apply bytes_ok_cons in Hok as [Hb Hok].
  destruct (hdr_byte_split a Hb) as (mj & ai & -> & Hmj & Hai & Hsh & Hla).
  cbn zeta in Hk. rewrite Hsh, Hla in Hk. minv Hk.
  assert (Hfin : major = mj /\ v = a /\ r = s /\ simple_ok mj a).
  { destruct ((mj =? MAJOR_SIMPLE) && negb (a =? SIMPLE_FALSE) && negb (a =? SIMPLE_TRUE)) eqn:E;
      [done|]. unfold ret in Hk0. injection Hk0 as <- <- <-. repeat split.
    intros ->. cbn in E. zbool; auto; done. }
  destruct Hfin as (-> & -> & -> & Hsim). clear Hk0.
  enough (exists tl', tl = drop 1 (hdr mj a) ++ tl' /\ hdr mj a = (32 * mj + ai) :: drop 1 (hdr mj a)
     /\ s = mkr (pre ++ hdr mj a) tl' d /\ u64 a) as (tl' & -> & Hh & -> & Hu).
  { exists tl'. apply bytes_ok_app in Hok as [_ Hok]. split_and!; try done || lia.
    by rewrite app_comm_cons, <- Hh. }
  destruct (Z.leb_spec ai 23); [|destruct (Z.eqb_spec ai 24) as [->|];
    [|destruct (Z.eqb_spec ai 25) as [->|]; [|destruct (Z.eqb_spec ai 26) as [->|];
    [|destruct (Z.eqb_spec ai 27) as [->|]; [|done]]]]].
  - minv Hp. exists tl. rewrite hdr_eq by (try split; lia). zbool. split_and!; first [done | lia | split; lia].
  - minv Hp. apply take_byte_bwd in Hp0 as (tl' & -> & ->).
    apply bytes_ok_cons in Hok as [Ha Hok]. unfold is_byte in Ha.
    destruct (Z.ltb_spec a0 24); [done|]. minv Hk.
    exists tl'. rewrite hdr_eq by (try split; lia). unfold U8_MAX. zbool.
    split_and!; first [done | by rewrite <- app_assoc | lia | split; lia].
  - minv Hp. apply (take_be_bwd 2) in Hp0 as (tl' & -> & -> & Hr); [|done].
    cbn zeta in Hk. set (z := from_be a0) in *.
    destruct (Z.leb_spec z U8_MAX); [done|]. minv Hk. unfold uint_range, U8_MAX in *.
    exists tl'. rewrite hdr_eq by (try split; lia). unfold U8_MAX, U16_MAX. zbool.
    split_and!; first [done | by rewrite <- app_assoc | lia | split; lia].
  - minv Hp. apply (take_be_bwd 4) in Hp0 as (tl' & -> & -> & Hr); [|done].
    cbn zeta in Hk. set (z := from_be a0) in *.
    destruct (Z.leb_spec z U16_MAX); [done|]. minv Hk. unfold uint_range, U16_MAX in *.
    exists tl'. rewrite hdr_eq by (try split; lia). unfold U8_MAX, U16_MAX, U32_MAX. zbool.
    split_and!; first [done | by rewrite <- app_assoc | lia | split; lia].
  - minv Hp. apply (take_be_bwd 8) in Hp0 as (tl' & -> & -> & Hr); [|done].
    cbn zeta in Hk. set (z := from_be a0) in *.
    destruct (Z.leb_spec z U32_MAX); [done|]. minv Hk. unfold uint_range, U32_MAX in *.
    exists tl'. rewrite hdr_eq by (try split; lia). unfold U8_MAX, U16_MAX, U32_MAX. zbool.
    split_and!; first [done | by rewrite <- app_assoc | lia | split; lia].
Qed.

(** ** Encodings of containers *)
Definition items (l : list value) : bytes := flat_map cbor l.
Fixpoint entries (l : list (Z * value)) : bytes :=
  match l with
  | [] => []
  | (k, v) :: l' => hdr MAJOR_UINT k ++ cbor v ++ entries l'
  end.

Lemma cbor_array l : cbor (VArray l) = hdr MAJOR_ARRAY (len l) ++ items l.
Proof. done. Qed.
Lemma cbor_map l : cbor (VMap l) = hdr MAJOR_MAP (len l) ++ entries l.
Proof.
  cbn. f_equal. induction l as [|[k v] l IH]; [done|]. cbn. rewrite IH. by rewrite <- app_assoc.
Qed.
Lemma items_cons v l : items (v :: l) = cbor v ++ items l.
Proof. done. Qed.
Lemma entries_cons k v l : entries ((k, v) :: l) = hdr MAJOR_UINT k ++ cbor v ++ entries l.
Proof. done. Qed.
#[global] Arguments cbor : simpl never.
#[global] Arguments items : simpl never.
#[global] Arguments entries : simpl never.

(** ** Codecs

    [codec k p f P]: the reader [p] accepts exactly the encodings [cbor (f a)]
    of the values [a] satisfying [P], given room for [k] more nesting levels,
    and consumes exactly those bytes. *)
Record codec {E A} (k : Z) (p : M Reader.t E A) (f : A -> value) (P : A -> Prop) : Prop := {
  codec_fwd pre tl d a :
    P a -> 0 <= d -> d + k <= MAX_DEPTH ->
    p (mkr pre (cbor (f a) ++ tl) d) = Ok (a, mkr (pre ++ cbor (f a)) tl d);
  codec_bwd pre rest d a r :
    bytes_ok rest -> 0 <= d -> p (mkr pre rest d) = Ok (a, r) ->
    exists tl, rest = cbor (f a) ++ tl /\ r = mkr (pre ++ cbor (f a)) tl d /\
      bytes_ok tl /\ P a;
}.
Arguments codec_fwd {E A k p f P} _.
Arguments codec_bwd {E A k p f P} _.

Definition byte_string (b : bytes) : Prop := bytes_ok b /\ u64 (len b).
Definition text_string (b : bytes) : Prop := byte_string b /\ utf8_valid b = true.

Lemma codec_uint : codec 0 Reader.uint VUint u64.
Proof.
  split.
  - intros pre tl d a Ha _ _. unfold Reader.uint.
    eapply bind_ok; [apply head_fwd; [by split|done|done]|done].
  - intros pre rest d a r Hok _ H. unfold Reader.uint in H. minv H.
    destruct a0 as [mj v]. cbn in Hk.
    apply head_bwd in Hp as (tl & -> & -> & _ & Hv & _ & Hok'); [|done].
    destruct (Z.eqb_spec mj MAJOR_UINT) as [->|]; [|done]. cbn in Hk. minv Hk.
    by exists tl.
Qed.

Lemma codec_bytes : codec 0 Reader.bytes VBytes byte_string.
Proof.
  split.
  - intros pre tl d a [Ha Hl] _ _. unfold Reader.bytes. unfold cbor. rewrite <- app_assoc.
    eapply bind_ok; [apply head_fwd; [by split|done|done]|]. cbn.
    rewrite app_assoc. by apply take_fwd.
  - intros pre rest d a r Hok _ H. unfold Reader.bytes in H. minv H.
    destruct a0 as [mj v]. cbn in Hk.
    apply head_bwd in Hp as (tl & -> & -> & _ & Hv & _ & Hok'); [|done].
    destruct (Z.eqb_spec mj MAJOR_BYTES) as [->|]; [|done]. cbn in Hk.
    apply take_bwd in Hk as (tl' & -> & <- & ->); [|by destruct Hv].
    apply bytes_ok_app in Hok' as [Ha Htl]. exists tl'. unfold cbor.
    rewrite <- !app_assoc. done.
Qed.

Lemma codec_bytes_exact n :
  u64 n -> codec 0 (Reader.bytes_exact n) VBytes (array n).
Proof.
  intros Hn. split.
  - intros pre tl d a [Hl Ha] Hd Hd'. unfold Reader.bytes_exact.
    eapply bind_ok; [apply (codec_fwd codec_bytes); [split; [done|by rewrite Hl]|lia|lia]|].
    by rewrite Hl, Z.eqb_refl.
  - intros pre rest d a r Hok Hd H. unfold Reader.bytes_exact in H. minv H.
    apply (codec_bwd codec_bytes) in Hp as (tl & -> & -> & Hok' & [Ha Hl]); [|done|done].
    destruct (Z.eqb_spec (len a0) n); [|done]. minv Hk. by exists tl.
Qed.

Lemma codec_text : codec 0 Reader.text VText text_string.
Proof.
  split.
  - intros pre tl d a [[Ha Hl] Hu] _ _. unfold Reader.text. unfold cbor. rewrite <- app_assoc.
    eapply bind_ok; [apply head_fwd; [by split|done|done]|]. cbn.
    rewrite app_assoc. eapply bind_ok; [by apply take_fwd|]. by rewrite Hu.
  - intros pre rest d a r Hok _ H. unfold Reader.text in H. minv H.
    destruct a0 as [mj v]. cbn in Hk.
    apply head_bwd in Hp as (tl & -> & -> & _ & Hv & _ & Hok'); [|done].
    destruct (Z.eqb_spec mj MAJOR_TEXT) as [->|]; [|done]. cbn in Hk. minv Hk.
    apply take_bwd in Hp as (tl' & -> & <- & ->); [|by destruct Hv].
    destruct (utf8_valid a0) eqn:Hu; [|done]. minv Hk0.
    apply bytes_ok_app in Hok' as [Ha Htl]. exists tl'. unfold cbor.
    rewrite <- !app_assoc. done.
Qed.

Lemma codec_boolean : codec 0 Reader.boolean VBool (fun _ => True).
Proof.
  split.
  - intros pre tl d a _ _ _. unfold Reader.boolean.
    eapply bind_ok; [apply head_fwd; [by split|destruct a; by split|destruct a; intros _; [by right|by left]]|].
    by destruct a.
  - intros pre rest d a r Hok _ H. unfold Reader.boolean in H. minv H.
    destruct a0 as [mj v]. cbn in Hk.
    apply head_bwd in Hp as (tl & -> & -> & _ & Hv & Hs & Hok'); [|done].
    destruct (Z.eqb_spec mj MAJOR_SIMPLE) as [->|]; [|done]. cbn in Hk. minv Hk.
    exists tl. by destruct Hs as [-> | ->].
Qed.

(** ** Arrays and maps *)
Lemma uint_hdr_fwd v pre tl d :
  u64 v -> Reader.uint (mkr pre (hdr MAJOR_UINT v ++ tl) d) = Ok (v, mkr (pre ++ hdr MAJOR_UINT v) tl d).
Proof.
  intros Hv. unfold Reader.uint. eapply bind_ok; [apply head_fwd; [by split|done|done]|done].
Qed.

Lemma open_fwd (p : M Reader.t CborError Z) major l pre tl d :
  p = (h <- Reader.head ;;
       if negb (h.1 =? major) then fail UnexpectedType else Reader.enter ;;; ret h.2) ->
  0 <= major < 7 -> u64 l -> d + 1 <= MAX_DEPTH ->
  p (mkr pre (hdr major l ++ tl) d) = Ok (l, mkr (pre ++ hdr major l) tl (d + 1)).
Proof.
  intros -> Hm Hl Hd. eapply bind_ok; [apply head_fwd; [lia|done|intros ->; lia]|].
  cbn. rewrite Z.eqb_refl. cbn. eapply bind_ok; [|done].
  unfold Reader.enter, mkr; cbn. by destruct (Z.ltb_spec MAX_DEPTH (d + 1)); [lia|].
Qed.

Lemma open_deep (p : M Reader.t CborError Z) major l pre tl d :
  p = (h <- Reader.head ;;
       if negb (h.1 =? major) then fail UnexpectedType else Reader.enter ;;; ret h.2) ->
  0 <= major < 7 -> u64 l -> MAX_DEPTH < d + 1 ->
  p (mkr pre (hdr major l ++ tl) d) = Err DepthExceeded.
Proof.
  intros -> Hm Hl Hd. eapply bind_ok; [apply head_fwd; [lia|done|intros ->; lia]|].
  cbn. rewrite Z.eqb_refl. cbn. apply bind_err.
  unfold Reader.enter, mkr; cbn. by destruct (Z.ltb_spec MAX_DEPTH (d + 1)); [|lia].
Qed.

Lemma open_bwd (p : M Reader.t CborError Z) major pre rest d n r :
  p = (h <- Reader.head ;;
       if negb (h.1 =? major) then fail UnexpectedType else Reader.enter ;;; ret h.2) ->
  bytes_ok rest -> p (mkr pre rest d) = Ok (n, r) ->
  exists tl, rest = hdr major n ++ tl /\ r = mkr (pre ++ hdr major n) tl (d + 1) /\
    u64 n /\ bytes_ok tl /\ d + 1 <= MAX_DEPTH.
Proof.
  intros -> Hok H. minv H. destruct a as [mj v]. cbn in Hk.
  apply head_bwd in Hp as (tl & -> & -> & _ & Hv & _ & Hok'); [|done].
  destruct (Z.eqb_spec mj major) as [->|]; [|done]. cbn in Hk. minv Hk. minv Hk0.
  unfold Reader.enter, mkr in Hp. cbn in Hp.
  destruct (Z.ltb_spec MAX_DEPTH (d + 1)); [done|]. injection Hp as <- <-.
  by exists tl.
Qed.

Lemma array_fwd n pre tl d :
  u64 n -> d + 1 <= MAX_DEPTH ->
  Reader.array (mkr pre (hdr MAJOR_ARRAY n ++ tl) d)
    = Ok (n, mkr (pre ++ hdr MAJOR_ARRAY n) tl (d + 1)).
Proof. intros. by apply open_fwd. Qed.
Lemma array_deep n pre tl d :
  u64 n -> MAX_DEPTH < d + 1 ->
  Reader.array (mkr pre (hdr MAJOR_ARRAY n ++ tl) d) = Err DepthExceeded.
Proof. intros. by eapply open_deep. Qed.
Lemma array_bwd pre rest d n r :
  bytes_ok rest -> Reader.array (mkr pre rest d) = Ok (n, r) ->
  exists tl, rest = hdr MAJOR_ARRAY n ++ tl /\ r = mkr (pre ++ hdr MAJOR_ARRAY n) tl (d + 1) /\
    u64 n /\ bytes_ok tl /\ d + 1 <= MAX_DEPTH.
Proof. intros. by eapply open_bwd. Qed.
Lemma map_fwd n pre tl d :
  u64 n -> d + 1 <= MAX_DEPTH ->
  Reader.map (mkr pre (hdr MAJOR_MAP n ++ tl) d)
    = Ok (n, mkr (pre ++ hdr MAJOR_MAP n) tl (d + 1)).
Proof. intros. by apply open_fwd. Qed.
Lemma map_bwd pre rest d n r :
  bytes_ok rest -> Reader.map (mkr pre rest d) = Ok (n, r) ->
  exists tl, rest = hdr MAJOR_MAP n ++ tl /\ r = mkr (pre ++ hdr MAJOR_MAP n) tl (d + 1) /\
    u64 n /\ bytes_ok tl /\ d + 1 <= MAX_DEPTH.
Proof. intros. by eapply open_bwd. Qed.

Lemma leave_fwd {E} pre tl d :
  0 < d -> @Reader.leave E (mkr pre tl d) = Ok (tt, mkr pre tl (d - 1)).
Proof. intros. unfold Reader.leave, mkr; cbn. by destruct (Z.ltb_spec 0 d); [|lia]. Qed.
Lemma leave_bwd {E} pre rest d u r :
  @Reader.leave E (mkr pre rest d) = Ok (u, r) -> 0 < d /\ r = mkr pre rest (d - 1).
Proof.
  unfold Reader.leave, mkr; cbn. destruct (Z.ltb_spec 0 d); [|done]. by intros [= <- <-].
Qed.

Definition key_after (last : option Z) (k : Z) : Prop :=
  match last with Some l => l < k | None => True end.

Section Lifted.
Context {E : Type} `{From CborError E}.

Lemma q_fwd {S E' A} `{From E' E} (p : M S E' A) s x : p s = Ok x -> q p s = Ok x.
Proof. unfold q, try. by intros ->. Qed.
Lemma q_bwd {S E' A} `{From E' E} (p : M S E' A) s x : q p s = Ok x -> p s = Ok x.
Proof. unfold q. apply try_inv. Qed.

Lemma get_fwd {E' A} `{From E' E} (p : M Reader.t E' A) pre rest d n last a pre' rest' d' :
  p (mkr pre rest d) = Ok (a, mkr pre' rest' d') ->
  get p (mkm pre rest d n last) = Ok (a, mkm pre' rest' d' n last).
Proof. intros Hp. unfold get, MapReader.on, mkm; cbn. by rewrite (q_fwd p _ _ Hp). Qed.

Lemma get_bwd {E' A} `{From E' E} (p : M Reader.t E' A) pre rest d n last a m :
  get p (mkm pre rest d n last) = Ok (a, m) ->
  exists r, p (mkr pre rest d) = Ok (a, r) /\ m = MapReader.mk r n last.
Proof.
  unfold get, MapReader.on, mkm; cbn. intros Hp. minv Hp. destruct a0 as [a' r].
  cbn in Hk. injection Hk as -> <-. apply q_bwd in Hp0. eauto.
Qed.

Lemma expect_fwd k v l pre tl d n last :
  u64 k -> 0 < n -> key_after last k ->
  expect k (mkm pre (entries ((k, v) :: l) ++ tl) d n last)
    = Ok (tt, mkm (pre ++ hdr MAJOR_UINT k) (cbor v ++ entries l ++ tl) d (n - 1) (Some k)).
Proof.
  intros Hk Hn Hl. unfold expect. apply q_fwd. unfold MapReader.expect_key.
  rewrite entries_cons, <- !app_assoc. eapply bind_ok.
  - unfold MapReader.next_key, mkm; cbn.
    destruct (Z.eqb_spec n 0); [lia|].
    rewrite uint_hdr_fwd by done. cbn. destruct last as [l0|]; [|done].
    cbn in Hl. by destruct (Z.leb_spec k l0); [lia|].
  - cbn. by rewrite Z.eqb_refl.
Qed.

Lemma expect_bwd k pre rest d n last u m :
  bytes_ok rest -> 0 <= d -> expect k (mkm pre rest d n last) = Ok (u, m) ->
  exists tl, rest = hdr MAJOR_UINT k ++ tl /\ n <> 0 /\
    m = mkm (pre ++ hdr MAJOR_UINT k) tl d (n - 1) (Some k) /\ bytes_ok tl.
Proof.
  intros Hok Hd Hp. unfold expect in Hp. apply q_bwd in Hp. unfold MapReader.expect_key in Hp.
  minv Hp. unfold MapReader.next_key, mkm in Hp0. cbn in Hp0.
  destruct (Z.eqb_spec n 0).
  { minv Hp0. destruct a0. injection Hk0 as <- <-. done. }
  minv Hp0. destruct a0 as [k' r].
  apply (codec_bwd codec_uint) in Hp as (tl & -> & -> & Hok' & Hu); [|done|done].
  cbn in Hk0. assert (a = Some k' /\ s = mkm (pre ++ cbor (VUint k')) tl d (n - 1) (Some k'))
    as [-> ->].
  { destruct last as [l0|]; [destruct (k' <=? l0); [done|]|]; by injection Hk0 as <- <-. }
  destruct (Z.eqb_spec k' k) as [->|]; [|done]. minv Hk. by exists tl.
Qed.

Lemma next_none_fwd pre tl d last :
  0 < d -> next (mkm pre tl d 0 last) = Ok (None, mkm pre tl (d - 1) 0 last).
Proof.
  intros Hd. unfold next. apply q_fwd. unfold MapReader.next_key, mkm; cbn.
  by rewrite leave_fwd.
Qed.

Lemma next_some_fwd k v l pre tl d n last :
  u64 k -> 0 < n -> key_after last k ->
  next (mkm pre (entries ((k, v) :: l) ++ tl) d n last)
    = Ok (Some k, mkm (pre ++ hdr MAJOR_UINT k) (cbor v ++ entries l ++ tl) d (n - 1) (Some k)).
Proof.
  intros Hk Hn Hl. unfold next. apply q_fwd.
  rewrite entries_cons, <- !app_assoc. unfold MapReader.next_key, mkm; cbn.
  destruct (Z.eqb_spec n 0); [lia|]. rewrite uint_hdr_fwd by done. cbn.
  destruct last as [l0|]; [|done]. cbn in Hl. by destruct (Z.leb_spec k l0); [lia|].
Qed.

Lemma no_more_fwd (e : E) pre tl d last :
  0 < d -> no_more e (mkm pre tl d 0 last) = Ok (tt, mkm pre tl (d - 1) 0 last).
Proof. intros Hd. unfold no_more. by eapply bind_ok; [apply next_none_fwd|]. Qed.

Lemma no_more_bwd (e : E) pre rest d n last u m :
  no_more e (mkm pre rest d n last) = Ok (u, m) ->
  n = 0 /\ m = mkm pre rest (d - 1) 0 last.
Proof.
  unfold no_more. intros Hp. minv Hp. destruct a; [done|]. minv Hk.
  unfold next in Hp0. apply q_bwd in Hp0. unfold MapReader.next_key, mkm in Hp0; cbn in Hp0.
  destruct (Z.eqb_spec n 0) as [->|].
  - minv Hp0. destruct a as [u r]. apply leave_bwd in Hp as [_ ->].
    by injection Hk as <-.
  - minv Hp0. destruct a as [k r]. cbn in Hk. destruct last as [l0|]; [|done].
    by destruct (k <=? l0).
Qed.

Lemma in_map_fwd {A} (p : M MapReader.t E A) l pre tl d a m :
  u64 (len l) -> d + 1 <= MAX_DEPTH ->
  p (mkm (pre ++ hdr MAJOR_MAP (len l)) (entries l ++ tl) (d + 1) (len l) None) = Ok (a, m) ->
  in_map p (mkr pre (cbor (VMap l) ++ tl) d) = Ok (a, MapReader.reader m).
Proof.
  intros Hl Hd Hp. unfold in_map. rewrite cbor_map, <- app_assoc.
  rewrite map_fwd by done. cbn. unfold mkm in Hp. by rewrite Hp.
Qed.

Lemma in_map_bwd {A} (p : M MapReader.t E A) pre rest d a r :
  bytes_ok rest -> in_map p (mkr pre rest d) = Ok (a, r) ->
  exists n tl m, rest = hdr MAJOR_MAP n ++ tl /\ u64 n /\ bytes_ok tl /\
    p (mkm (pre ++ hdr MAJOR_MAP n) tl (d + 1) n None) = Ok (a, m) /\
    r = MapReader.reader m.
Proof.
  intros Hok Hp. unfold in_map in Hp. minv Hp. destruct a0 as [n r1]. minv Hp0.
  apply map_bwd in Hp0 as (tl & -> & -> & Hn & Hok' & _); [|done].
  minv Hk. destruct a0 as [a' m]. injection Hk0 as -> <-. by exists n, tl, m.
Qed.

Lemma in_map_err {A} (p : M MapReader.t E A) l pre tl d e :
  u64 (len l) -> d + 1 <= MAX_DEPTH ->
  p (mkm (pre ++ hdr MAJOR_MAP (len l)) (entries l ++ tl) (d + 1) (len l) None) = Err e ->
  in_map p (mkr pre (cbor (VMap l) ++ tl) d) = Err e.
Proof.
  intros Hl Hd Hp. unfold in_map. rewrite cbor_map, <- app_assoc.
  rewrite map_fwd by done. cbn. unfold mkm in Hp. by rewrite Hp.
Qed.
Lemma decode_unbounded_ok {A} (p : M Reader.t E A) b a pre d :
  p (mkr [] (b ++ []) 0) = Ok (a, mkr pre [] d) -> decode_unbounded b p = Ok a.
Proof.
  intros Hp. unfold decode_unbounded, Reader.new_unbounded.
  unfold mkr in Hp. cbn in Hp. rewrite app_nil_r in Hp. change (len []) with 0 in Hp.
  rewrite Hp. cbn. unfold Reader.finish. cbn. by rewrite app_nil_r, Z.eqb_refl.
Qed.
Lemma decode_unbounded_err {A} (p : M Reader.t E A) b e :
  p (mkr [] (b ++ []) 0) = Err e -> decode_unbounded b p = Err e.
Proof.
  intros Hp. unfold decode_unbounded, Reader.new_unbounded.
  unfold mkr in Hp. cbn in Hp. rewrite app_nil_r in Hp. change (len []) with 0 in Hp. by rewrite Hp.
Qed.

Lemma decode_all_fwd {A} (p : M Reader.t E A) b a pre d :
  len b <= MAX_CONTROL_SIZE ->
  p (mkr [] (b ++ []) 0) = Ok (a, mkr pre [] d) -> decode_all b p = Ok a.
Proof.
  intros Hl Hp. unfold decode_all, Reader.new.
  destruct (Z.ltb_spec MAX_CONTROL_SIZE (len b)); [lia|]. cbn.
  unfold mkr in Hp. cbn in Hp. rewrite app_nil_r in Hp. change (len []) with 0 in Hp.
  rewrite Hp. cbn. unfold Reader.finish. cbn. by rewrite app_nil_r, Z.eqb_refl.
Qed.

Lemma decode_all_too_large {A} (p : M Reader.t E A) b :
  MAX_CONTROL_SIZE < len b -> decode_all b p = Err (from SizeExceeded).
Proof.
  intros Hl. unfold decode_all, Reader.new.
  by destruct (Z.ltb_spec MAX_CONTROL_SIZE (len b)); [|lia].
Qed.

Lemma decode_all_bwd {A} k (p : M Reader.t E A) f P b a :
  codec k p f P -> bytes_ok b -> decode_all b p = Ok a -> b = cbor (f a) /\ P a.
Proof.
  intros Hc Hok Hp. unfold decode_all in Hp. minv Hp. minv Hp0.
  unfold Reader.new in Hp0. destruct (MAX_CONTROL_SIZE <? len b); [done|].
  injection Hp0 as <-. minv Hk. destruct a0 as [a' r]. minv Hk0. injection Hk as ->.
  apply (codec_bwd Hc [] b 0) in Hp as (tl & -> & -> & _ & HP); [|done|lia].
  split; [|done]. minv Hp0. unfold Reader.finish, mkr in Hp0. cbn in Hp0.
  rewrite len_app in Hp0. destruct (Z.eqb_spec (len (cbor (f a))) (len (cbor (f a)) + len tl));
    [|done]. assert (len tl = 0) as ->%len_0_nil by lia. by rewrite app_nil_r.
Qed.

Lemma decode_all_codec {A} k (p : M Reader.t E A) f P a :
  codec k p f P -> k <= MAX_DEPTH -> P a -> len (cbor (f a)) <= MAX_CONTROL_SIZE ->
  decode_all (cbor (f a)) p = Ok a.
Proof.
  intros Hc Hk HP Hl. eapply decode_all_fwd; [done|]. apply (codec_fwd Hc); [done|lia|lia].
Qed.
End Lifted.

(** ** Repetition *)
Lemma codec_repeat_fwd {E A} k (p : M Reader.t E A) f P xs pre tl d :
  codec k p f P -> Forall P xs -> 0 <= d -> d + k <= MAX_DEPTH ->
  repeat_m (length xs) p (mkr pre (items (map f xs) ++ tl) d)
    = Ok (xs, mkr (pre ++ items (map f xs)) tl d).
Proof.
  intros Hc Hxs Hd Hk. revert pre. induction Hxs as [|x xs Hx Hxs IH]; intros pre.
  - cbn. unfold ret. by rewrite app_nil_r.
  - cbn [length map repeat_m]. rewrite items_cons, <- app_assoc.
    eapply bind_ok; [by apply (codec_fwd Hc)|].
    eapply bind_ok; [apply IH|]. unfold ret. by rewrite <- app_assoc.
Qed.

Lemma codec_repeat_bwd {E A} k (p : M Reader.t E A) f P n xs pre rest d r :
  codec k p f P -> bytes_ok rest -> 0 <= d ->
  repeat_m n p (mkr pre rest d) = Ok (xs, r) ->
  exists tl, rest = items (map f xs) ++ tl /\ r = mkr (pre ++ items (map f xs)) tl d /\
    bytes_ok tl /\ Forall P xs /\ length xs = n.
Proof.
  intros Hc Hok Hd. revert xs pre rest r Hok.
  induction n as [|n IH]; intros xs pre rest r Hok Hp.
  - cbn in Hp. minv Hp. exists rest. unfold items; cbn. by rewrite app_nil_r.
  - cbn in Hp. minv Hp. apply (codec_bwd Hc) in Hp0 as (tl & -> & -> & Hok' & HP); [|done|done].
    minv Hk. apply IH in Hp as (tl' & -> & -> & Hok'' & HPs & <-); [|done]. minv Hk0.
    exists tl'. cbn [map]. rewrite items_cons, <- !app_assoc.
    split_and!; try done; by constructor.
Qed.

Lemma repeat_m_inv_length {S E A} (p : M S E A) n s xs s' :
  repeat_m n p s = Ok (xs, s') -> length xs = n.
Proof.
  revert s xs. induction n as [|n IH]; intros s xs Hp; cbn in Hp; minv Hp; [done|].
  minv Hk. minv Hk0. cbn. by erewrite IH.
Qed.

(** ** Codec search

    [codec] is a class: the codec of a reader is found from the reader. *)
Existing Class codec.
#[export] Existing Instances codec_uint codec_bytes codec_text codec_boolean.
#[export] Hint Extern 1 (codec _ (Reader.bytes_exact _) _ _) =>
  apply codec_bytes_exact; by split : typeclass_instances.

Lemma get_codec_fwd {E E' A} `{From E' E} {k} {p : M Reader.t E' A} {f P} `{!codec k p f P}
    a pre tl d n last :
  P a -> 0 <= d -> d + k <= MAX_DEPTH ->
  get (F := E) p (mkm pre (cbor (f a) ++ tl) d n last)
    = Ok (a, mkm (pre ++ cbor (f a)) tl d n last).
Proof. intros. apply get_fwd. by apply (codec_fwd _). Qed.

Lemma get_codec_bwd {E E' A} `{From E' E} {k} {p : M Reader.t E' A} {f P} `{!codec k p f P}
    pre rest d n last a m :
  bytes_ok rest -> 0 <= d -> get (F := E) p (mkm pre rest d n last) = Ok (a, m) ->
  exists tl, rest = cbor (f a) ++ tl /\ m = mkm (pre ++ cbor (f a)) tl d n last /\
    bytes_ok tl /\ P a.
Proof.
  intros Hok Hd Hp. apply get_bwd in Hp as (r & Hp & ->).
  apply (codec_bwd _) in Hp as (tl & -> & -> & ? & ?); [|done|done]. by exists tl.
Qed.

Lemma get_array_fwd {E} `{From CborError E} l pre tl d n last :
  u64 (len l) -> d + 1 <= MAX_DEPTH ->
  get (F := E) Reader.array (mkm pre (cbor (VArray l) ++ tl) d n last)
    = Ok (len l, mkm (pre ++ hdr MAJOR_ARRAY (len l)) (items l ++ tl) (d + 1) n last).
Proof. intros. apply get_fwd. rewrite cbor_array, <- app_assoc. by apply array_fwd. Qed.

Lemma get_array_bwd {E} `{From CborError E} pre rest d n last a m :
  bytes_ok rest -> get (F := E) Reader.array (mkm pre rest d n last) = Ok (a, m) ->
  exists tl, rest = hdr MAJOR_ARRAY a ++ tl /\ m = mkm (pre ++ hdr MAJOR_ARRAY a) tl (d + 1) n last /\
    u64 a /\ bytes_ok tl.
Proof.
  intros Hok Hp. apply get_bwd in Hp as (r & Hp & ->).
  apply array_bwd in Hp as (tl & -> & -> & ? & ? & ?); [|done]. by exists tl.
Qed.

Lemma get_repeat_fwd {E E' A} `{From E' E} {k} {p : M Reader.t E' A} {f P} `{!codec k p f P}
    xs c pre tl d n last :
  c = length xs -> Forall P xs -> 0 <= d -> d + k <= MAX_DEPTH ->
  get (F := E) (repeat_m c p) (mkm pre (items (map f xs) ++ tl) d n last)
    = Ok (xs, mkm (pre ++ items (map f xs)) tl d n last).
Proof. intros ->. intros. apply get_fwd. by eapply codec_repeat_fwd. Qed.

Lemma get_repeat_bwd {E E' A} `{From E' E} {k} {p : M Reader.t E' A} {f P} `{!codec k p f P}
    c pre rest d n last xs m :
  bytes_ok rest -> 0 <= d -> get (F := E) (repeat_m c p) (mkm pre rest d n last) = Ok (xs, m) ->
  exists tl, rest = items (map f xs) ++ tl /\ m = mkm (pre ++ items (map f xs)) tl d n last /\
    bytes_ok tl /\ Forall P xs /\ length xs = c.
Proof.
  intros Hok Hd Hp. apply get_bwd in Hp as (r & Hp & ->).
  eapply codec_repeat_bwd in Hp as (tl & -> & -> & ? & ? & ?); [|done|done|done].
  by exists tl.
Qed.

Lemma get_leave_fwd {E E'} `{From E' E} pre tl d n last :
  0 < d -> get (F := E) (@Reader.leave E') (mkm pre tl d n last) = Ok (tt, mkm pre tl (d - 1) n last).
Proof. intros. apply get_fwd. by apply leave_fwd. Qed.

Lemma get_leave_bwd {E E'} `{From E' E} pre rest d n last u m :
  get (F := E) (@Reader.leave E') (mkm pre rest d n last) = Ok (u, m) ->
  m = mkm pre rest (d - 1) n last.
Proof. intros Hp. apply get_bwd in Hp as (r & Hp & ->). by apply leave_bwd in Hp as [_ ->]. Qed.

Lemma in_map_close {E} `{From CborError E} {A} (p : M MapReader.t E A) l pre tl d a pre' d' n' last' :
  u64 (len l) -> d + 1 <= MAX_DEPTH ->
  p (mkm (pre ++ hdr MAJOR_MAP (len l)) (entries l ++ tl) (d + 1) (len l) None)
    = Ok (a, mkm pre' tl d' n' last') ->
  d' = d -> pre' = pre ++ cbor (VMap l) ->
  in_map p (mkr pre (cbor (VMap l) ++ tl) d) = Ok (a, mkr (pre ++ cbor (VMap l)) tl d).
Proof. intros Hl Hd Hp -> ->. by rewrite (in_map_fwd p l pre tl d a _ Hl Hd Hp). Qed.

(** ** Symbolic execution of decoders *)
Lemma to_nat_len_map {A B} (f : A -> B) l : Z.to_nat (len (map f l)) = length l.
Proof. unfold len. rewrite length_map. lia. Qed.
Lemma len_map {A B} (f : A -> B) l : len (map f l) = len l.
Proof. unfold len. by rewrite length_map. Qed.

Ltac wside :=
  first [ done | lia | apply to_nat_len_map | (rewrite ?len_map in *; done) | (rewrite ?len_map in *; lia)
        | by split | (unfold len; cbn; split; lia) | (unfold MAX_DEPTH; lia)
        | (cbn; lia) | (unfold len; cbn; lia) ].
(** One decoder step on a known encoding. *)
Ltac wprim :=
  first [ eapply expect_fwd; wside
        | eapply get_codec_fwd; wside
        | eapply get_array_fwd; wside
        | eapply get_repeat_fwd; wside
        | eapply get_leave_fwd; wside
        | eapply no_more_fwd; wside
        | eapply guard_ok; wside ].
Ltac wpre :=
  rewrite cbor_map, ?entries_cons, ?cbor_array; unfold entries;
  rewrite <- ?app_assoc, ?app_nil_r; cbn [app]; reflexivity.
Ltac wstep := eapply bind_ok; [wprim|cbn beta iota zeta].

(** One backward step: what the accepted bytes were. *)
Ltac wback H :=
  lazymatch type of H with
  | expect _ _ = Ok _ =>
      let tl := fresh "tl" in let Hn := fresh "Hn" in let Hok := fresh "Hok" in
      apply expect_bwd in H as (tl & -> & Hn & -> & Hok); [clear Hn|eassumption|lia]
  | get Reader.array _ = Ok _ =>
      let tl := fresh "tl" in let Hn := fresh "Hu" in let Hok := fresh "Hok" in
      apply get_array_bwd in H as (tl & -> & -> & Hn & Hok); [|eassumption]
  | get (repeat_m _ _) _ = Ok _ =>
      let tl := fresh "tl" in let Hok := fresh "Hok" in let HP := fresh "HP" in
      let Hl := fresh "Hlen" in
      eapply get_repeat_bwd in H as (tl & -> & -> & Hok & HP & Hl); [|eassumption|lia]
  | get Reader.leave _ = Ok _ => apply get_leave_bwd in H; subst
  | get _ _ = Ok _ =>
      let tl := fresh "tl" in let Hok := fresh "Hok" in let HP := fresh "HP" in
      eapply get_codec_bwd in H as (tl & -> & -> & Hok & HP); [|eassumption|lia]
  | no_more _ _ = Ok _ =>
      let Hn := fresh "Hn" in apply no_more_bwd in H as (Hn & ->)
  | guard _ _ _ = Ok _ =>
      let H1 := fresh "Hg" in apply guard_inv in H as (H1 & ->)
  end.

(** The forward half of a map codec, on a destructed record. *)
Ltac wforward :=
  eapply in_map_close; [wside|wside|repeat wstep; reflexivity|wside|wpre].
(** The backward half: run a successful map decoder to the end. *)
Ltac wbackward H :=
  let n := fresh "n" in let tl := fresh "tl" in let m := fresh "m" in
  let Hn := fresh "Hn" in let Hok := fresh "Hok" in
  apply in_map_bwd in H as (n & tl & m & -> & Hn & Hok & H & ->); [|eassumption];
  repeat (lazymatch type of H with bind _ _ _ = Ok _ => idtac end;
          let Hp := fresh "Hstep" in let Hk := fresh "Hrest" in
          apply bind_inv in H as (? & ? & Hp & Hk); cbn beta iota zeta in Hk;
          wback Hp; rename Hk into H);
  apply ret_inv in H as [-> ->].
(** A repetition count read from an array header is the number of elements. *)
Lemma count_is_len {A} (xs : list A) n : length xs = Z.to_nat n -> u64 n -> n = len xs.
Proof. intros Hl [? _]. unfold len. lia. Qed.
Ltac wcounts :=
  repeat match goal with
  | Hl : length ?xs = Z.to_nat ?n, Hu : u64 ?n |- _ =>
      is_var n; pose proof (count_is_len xs n Hl Hu); subst n; clear Hl Hu
  end.
(** Close the backward half: the bytes are those of the value [VMap l]. *)
Ltac wfinish :=
  wcounts;
  lazymatch goal with
  | |- context [cbor (VMap ?l)] =>
      let N := eval cbv in (len l) in
      repeat match goal with
      | Hn : ?e = 0 |- context [hdr MAJOR_MAP ?n] =>
          is_var n; assert (n = N) by lia; subst n
      end
  end;
  eexists; split_and!;
  [ rewrite cbor_map, ?entries_cons, ?cbor_array, ?len_map; unfold entries;
    rewrite <- ?app_assoc; cbn [app]; reflexivity
  | unfold mkm; cbn [MapReader.reader]; f_equal;
    [rewrite cbor_map, ?entries_cons, ?cbor_array, ?len_map; unfold entries;
     rewrite <- ?app_assoc, ?app_nil_r; cbn [app]; reflexivity | lia]
  | eassumption
  | ].

(** ** What the writers write *)
Lemma writer_uint v w : Writer.uint v w = w ++ cbor (VUint v).
Proof. apply header_app. Qed.
Lemma writer_bytes b w : Writer.bytes b w = w ++ cbor (VBytes b).
Proof. unfold Writer.bytes, cbor. by rewrite header_app, <- app_assoc. Qed.
Lemma writer_text b w : Writer.text b w = w ++ cbor (VText b).
Proof. unfold Writer.text, cbor. by rewrite header_app, <- app_assoc. Qed.
Lemma writer_boolean b w : Writer.boolean b w = w ++ cbor (VBool b).
Proof. by destruct b. Qed.

(** [emits f v]: the writer step [f] appends the encoding of [v]. *)
Definition emits {E} (f : Writer.t -> result E Writer.t) (v : value) : Prop :=
  forall w, f w = Ok (w ++ cbor v).
(** [writes o k v]: the map step [o] appends the entry [k: v]. *)
Definition writes {E} (o : MapWriter.op E) (k : Z) (v : value) : Prop :=
  forall w n last, 0 < n -> key_after last k ->
    o (MapWriter.mk w n last)
      = Ok (MapWriter.mk (w ++ hdr MAJOR_UINT k ++ cbor v) (n - 1) (Some k)).

Fixpoint keys_increase (last : option Z) (l : list (Z * value)) : Prop :=
  match l with
  | [] => True
  | (k, _) :: l' => key_after last k /\ keys_increase (Some k) l'
  end.

Lemma writes_nested {E} k v (f : Writer.t -> result E Writer.t) :
  emits f v -> writes (MapWriter.nested k f) k v.
Proof.
  intros Hf w n last Hn Hl. unfold MapWriter.nested, MapWriter.key; cbn.
  destruct (Z.ltb_spec 0 n); [cbn|lia].
  assert (Hk : Writer.uint k w ++ cbor v = w ++ hdr MAJOR_UINT k ++ cbor v).
  { unfold Writer.uint. by rewrite header_app, <- app_assoc. }
  destruct last as [l0|]; cbn in *.
  - destruct (Z.ltb_spec l0 k); [cbn|lia]. by rewrite Hf, <- Hk.
  - by rewrite Hf, <- Hk.
Qed.
Lemma writes_uint {E} k v : writes (E := E) (MapWriter.uint k v) k (VUint v).
Proof. apply writes_nested. intros w. by rewrite writer_uint. Qed.
Lemma writes_bytes {E} k v : writes (E := E) (MapWriter.bytes k v) k (VBytes v).
Proof. apply writes_nested. intros w. by rewrite writer_bytes. Qed.
Lemma writes_text {E} k v : writes (E := E) (MapWriter.text k v) k (VText v).
Proof. apply writes_nested. intros w. by rewrite writer_text. Qed.
Lemma writes_boolean {E} k v : writes (E := E) (MapWriter.boolean k v) k (VBool v).
Proof. apply writes_nested. intros w. by rewrite writer_boolean. Qed.

Lemma run_writes {E} (ops : list (MapWriter.op E)) l w n last :
  Forall2 (fun o kv => writes o kv.1 kv.2) ops l -> keys_increase last l -> len l <= n ->
  exists last', MapWriter.run ops (MapWriter.mk w n last)
    = Ok (MapWriter.mk (w ++ entries l) (n - len l) last').
Proof.
  intros Hf. revert w n last. induction Hf as [|o [k v] ops l Ho Hf IH]; intros w n last Hk Hn.
  - exists last. cbn. rewrite app_nil_r. by rewrite Z.sub_0_r.
  - destruct Hk as [Hk1 Hk2]. rewrite len_cons in *. pose proof (len_nonneg l).
    destruct (IH (w ++ hdr MAJOR_UINT k ++ cbor v) (n - 1) (Some k) Hk2 ltac:(lia)) as [last' IH'].
    exists last'. cbn [MapWriter.run]. rewrite Ho by (done || lia). cbn. rewrite IH'.
    rewrite entries_cons, <- !app_assoc. do 2 f_equal. lia.
Qed.

(** A map writer whose steps match a list of entries with increasing keys
    never panics and writes the canonical map. *)
Lemma write_map_emits {E} n (ops : list (MapWriter.op E)) l :
  Forall2 (fun o kv => writes o kv.1 kv.2) ops l -> keys_increase None l -> n = len l ->
  emits (write_map n ops) (VMap l).
Proof.
  intros Hf Hk -> w. unfold write_map, MapWriter.begin.
  destruct (run_writes ops l (Writer.map (len l) w) (len l) None Hf Hk ltac:(lia)) as [last' ->].
  cbn. rewrite Z.sub_diag. unfold MapWriter.finish; cbn. unfold Writer.map.
  by rewrite cbor_map, header_app, <- app_assoc.
Qed.

Lemma write_each_emits {E A} (f : A -> Writer.t -> result E Writer.t) g xs w :
  (forall x, x ∈ xs -> emits (f x) (g x)) -> write_each f xs w = Ok (w ++ items (map g xs)).
Proof.
  revert w. induction xs as [|x xs IH]; intros w Hf; cbn [write_each map].
  - unfold items; cbn. by rewrite app_nil_r.
  - rewrite Hf by set_solver. cbn. rewrite IH by set_solver.
    by rewrite items_cons, <- app_assoc.
Qed.

Lemma array_emits {E A} (f : A -> Writer.t -> result E Writer.t) g xs :
  (forall x, x ∈ xs -> emits (f x) (g x)) ->
  emits (fun w => write_each f xs (Writer.array (len xs) w)) (VArray (map g xs)).
Proof.
  intros Hf w. rewrite (write_each_emits f g) by done. unfold Writer.array.
  rewrite cbor_array, header_app, <- app_assoc. unfold len. by rewrite length_map.
Qed.

#[export] Hint Resolve writes_nested writes_uint writes_bytes writes_text writes_boolean : wire.
(** Discharge [emits (write_map n ops) (VMap l)] for literal keys. *)
Ltac wemit :=
  apply write_map_emits;
  [ repeat (apply List.Forall2_cons; [cbn [fst snd]; eauto with wire|]); apply List.Forall2_nil
  | cbn; repeat split; lia
  | reflexivity ].

(** ** Sizes *)
Lemma hdr_len major v : 1 <= len (hdr major v) <= 9.
Proof.
  unfold hdr, Writer.header. repeat case_match; rewrite ?len_app, ?len_be_bytes; unfold len; cbn; lia.
Qed.
Lemma cbor_uint_len v : 1 <= len (cbor (VUint v)) <= 9.
Proof. apply hdr_len. Qed.
Lemma cbor_bool_len v : 1 <= len (cbor (VBool v)) <= 9.
Proof. apply hdr_len. Qed.
Lemma cbor_bytes_len b : len b + 1 <= len (cbor (VBytes b)) <= len b + 9.
Proof. unfold cbor. rewrite len_app. pose proof (hdr_len MAJOR_BYTES (len b)). lia. Qed.
Lemma cbor_text_len b : len b + 1 <= len (cbor (VText b)) <= len b + 9.
Proof. unfold cbor. rewrite len_app. pose proof (hdr_len MAJOR_TEXT (len b)). lia. Qed.

Lemma bytes_ok_hdr major v : 0 <= major < 8 -> u64 v -> bytes_ok (hdr major v).
Proof.
  intros Hm Hv. rewrite hdr_eq by done. unfold uint_range, U8_MAX, U16_MAX, U32_MAX in *.
  zbool; repeat first [apply bytes_ok_be | apply bytes_ok_cons; split
                       | unfold is_byte; lia | apply Forall_nil_2].
Qed.

(** Bound the size of a map encoding whose byte strings have known lengths. *)
Ltac wsize :=
  rewrite ?cbor_map, ?entries_cons, ?cbor_array; unfold entries; rewrite ?len_app;
  repeat match goal with
  | |- context [len (hdr ?m ?v)] =>
      let H := fresh in pose proof (hdr_len m v) as H; revert H; generalize (len (hdr m v)); intros ? ?
  | |- context [len (cbor (VUint ?v))] =>
      let H := fresh in pose proof (cbor_uint_len v) as H; revert H; generalize (len (cbor (VUint v))); intros ? ?
  | |- context [len (cbor (VBytes ?v))] =>
      let H := fresh in pose proof (cbor_bytes_len v) as H; revert H; generalize (len (cbor (VBytes v))); intros ? ?
  | |- context [len (cbor (VText ?v))] =>
      let H := fresh in pose proof (cbor_text_len v) as H; revert H; generalize (len (cbor (VText v))); intros ? ?
  | |- context [len (cbor (VBool ?v))] =>
      let H := fresh in pose proof (cbor_bool_len v) as H; revert H; generalize (len (cbor (VBool v))); intros ? ?
  end;
  change (len (@nil Z)) with 0; unfold MAX_CONTROL_SIZE; lia.

(** Encodings of well-formed values are byte strings. *)
#[warnings="-register-all"]
Inductive value_ok : value -> Prop :=
| ok_uint n : u64 n -> value_ok (VUint n)
| ok_bytes b : byte_string b -> value_ok (VBytes b)
| ok_text b : byte_string b -> value_ok (VText b)
| ok_bool b : value_ok (VBool b)
| ok_array l : u64 (len l) -> Forall value_ok l -> value_ok (VArray l)
| ok_map l : u64 (len l) -> Forall (fun kv => u64 kv.1 /\ value_ok kv.2) l -> value_ok (VMap l).

Lemma cbor_bytes_ok v : value_ok v -> bytes_ok (cbor v).
Proof.
  revert v. fix IH 2. intros v [n Hn|b [Hb Hl]|b [Hb Hl]|b|l Hl Hvs|l Hl Hvs].
  - by apply bytes_ok_hdr; [split|].
  - apply bytes_ok_app. split; [by apply bytes_ok_hdr; [split|]|done].
  - apply bytes_ok_app. split; [by apply bytes_ok_hdr; [split|]|done].
  - apply bytes_ok_hdr; [by split|by destruct b].
  - rewrite cbor_array. apply bytes_ok_app. split; [by apply bytes_ok_hdr; [split|]|].
    clear Hl. induction Hvs as [|x l Hv _ IHl]; [constructor|].
    rewrite items_cons. apply bytes_ok_app. split; [by apply IH|done].
  - rewrite cbor_map. apply bytes_ok_app. split; [by apply bytes_ok_hdr; [split|]|].
    clear Hl. induction Hvs as [|[k x] l [Hk Hv] _ IHl]; [constructor|].
    rewrite entries_cons. apply bytes_ok_app. split; [by apply bytes_ok_hdr; [split|]|].
    apply bytes_ok_app. split; [by apply IH|done].
Qed.

Lemma array_byte_string n b : array n b -> u64 n -> byte_string b.
Proof. intros [<- Hb] Hn. by split. Qed.

(** Solve [value_ok] goals on literal maps from the field hypotheses. *)
Ltac vok :=
  repeat first
    [ assumption
    | apply ok_uint; first [assumption | by split]
    | apply ok_bytes; first [assumption | eapply array_byte_string; [eassumption|by split]]
    | apply ok_text; first [assumption | eapply array_byte_string; [eassumption|by split]]
    | apply ok_bool
    | apply ok_array; [unfold len; cbn; by split|]
    | apply ok_map; [unfold len; cbn; by split|]
    | apply Forall_nil_2
    | apply Forall_cons_2; [split; [by split|cbn [fst snd]]|]
    | apply Forall_cons_2 ].

(** Whole-message forms, with the codec found by class search. *)
Lemma decode_message {E A} `{From CborError E} {k} {p : M Reader.t E A} {f P} `{!codec k p f P} a :
  k <= MAX_DEPTH -> P a -> len (cbor (f a)) <= MAX_CONTROL_SIZE -> decode_all (cbor (f a)) p = Ok a.
Proof. intros. by eapply decode_all_codec. Qed.
Lemma decode_message_inv {E A} `{From CborError E} {k} {p : M Reader.t E A} {f P} `{!codec k p f P} b a :
  bytes_ok b -> decode_all b p = Ok a -> b = cbor (f a) /\ P a.
Proof. intros. by eapply decode_all_bwd. Qed.

(** ** The encoding is prefix-free, hence injective *)
Lemma hdr_prefix m v t m' v' t' :
  0 <= m < 8 -> 0 <= m' < 8 -> u64 v -> u64 v' -> simple_ok m v -> simple_ok m' v' ->
  hdr m v ++ t = hdr m' v' ++ t' -> m = m' /\ v = v' /\ t = t'.
Proof.
  intros Hm Hm' Hv Hv' Hs Hs' He.
  pose proof (head_fwd m v [] t 0 Hm Hv Hs) as H1.
  pose proof (head_fwd m' v' [] t' 0 Hm' Hv' Hs') as H2.
  rewrite He in H1. rewrite H1 in H2. injection H2 as -> -> _ _.
  split_and!; [done..|]. by apply app_inv_head in He.
Qed.

(** Major type and argument of the header of a value. *)
Definition value_head (v : value) : Z * Z :=
  match v with
  | VUint n => (MAJOR_UINT, n)
  | VBytes b => (MAJOR_BYTES, len b)
  | VText b => (MAJOR_TEXT, len b)
  | VBool b => (MAJOR_SIMPLE, if b then SIMPLE_TRUE else SIMPLE_FALSE)
  | VArray l => (MAJOR_ARRAY, len l)
  | VMap l => (MAJOR_MAP, len l)
  end.
Definition value_body (v : value) : bytes :=
  match v with
  | VUint _ | VBool _ => []
  | VBytes b | VText b => b
  | VArray l => items l
  | VMap l => entries l
  end.
Lemma cbor_head_body v : cbor v = hdr (value_head v).1 (value_head v).2 ++ value_body v.
Proof.
  destruct v; cbn [value_head value_body fst snd]; unfold cbor; rewrite ?app_nil_r; try done.
  apply cbor_map.
Qed.
Lemma value_head_ok v : value_ok v ->
  0 <= (value_head v).1 < 8 /\ u64 (value_head v).2 /\ simple_ok (value_head v).1 (value_head v).2.
Proof.
  intros [n Hn|b [_ Hl]|b [_ Hl]|b|l Hl Hvs|l Hl Hvs]; cbn; split_and!; try done;
    try (by intros [=]); destruct b; try (by left); try (by right); done.
Qed.

Lemma cbor_prefix v v' t t' : value_ok v -> value_ok v' ->
  cbor v ++ t = cbor v' ++ t' -> v = v' /\ t = t'.
Proof.
  intros Hv. revert v' t t'. revert v Hv. fix IH 2. intros v Hv v' t t' Hv' He.
  rewrite !cbor_head_body, <- !app_assoc in He.
  destruct (value_head_ok v Hv) as (Hm & Hu & Hs), (value_head_ok v' Hv') as (Hm' & Hu' & Hs').
  apply hdr_prefix in He as (Hmaj & Harg & Hbody); [|done..].
  destruct Hv as [n Hn|b [_ Hl]|b [_ Hl]|b|l Hl Hvs|l Hl Hvs], Hv' as
    [n' Hn'|b' [_ Hl']|b' [_ Hl']|b'|l' Hl' Hvs'|l' Hl' Hvs']; try discriminate Hmaj;
    cbn in Harg, Hbody.
  - by subst.
  - apply app_inj_1 in Hbody as [-> ->]; [done|]. unfold len in Harg. lia.
  - apply app_inj_1 in Hbody as [-> ->]; [done|]. unfold len in Harg. lia.
  - by destruct b, b'.
  - enough (l = l' /\ t = t') as [-> ->] by done.
    clear Hl Hl' Hm Hu Hs Hm' Hu' Hs' Hmaj. revert l' Hvs' Harg Hbody.
    induction Hvs as [|x l Hx Hl IHl]; intros [|x' l'] Hvs' Harg Hbody; try done.
    + apply (f_equal Z.to_nat) in Harg. unfold len in Harg. rewrite !Nat2Z.id in Harg.
      rewrite !items_cons, <- !app_assoc in Hbody. apply Forall_cons_iff in Hvs' as [Hx' Hvs'].
      apply (IH x Hx) in Hbody as [-> Hbody]; [|done].
      destruct (IHl l' Hvs') as [-> ->]; [unfold len; cbn in Harg; lia|done|done].
  - enough (l = l' /\ t = t') as [-> ->] by done.
    clear Hl Hl' Hm Hu Hs Hm' Hu' Hs' Hmaj. revert l' Hvs' Harg Hbody.
    induction Hvs as [|[k x] l [Hk Hx] Hl IHl]; intros [|[k' x'] l'] Hvs' Harg Hbody; try done.
    apply (f_equal Z.to_nat) in Harg. unfold len in Harg. rewrite !Nat2Z.id in Harg.
    rewrite !entries_cons, <- !app_assoc in Hbody. apply Forall_cons_iff in Hvs' as [[Hk' Hx'] Hvs'].
    apply hdr_prefix in Hbody as (_ & Hkk & Hbody); try done. cbn in Hkk. subst k'.
    apply (IH x Hx) in Hbody as [-> Hbody]; [|done].
    destruct (IHl l' Hvs') as [-> ->]; [unfold len; cbn in Harg; lia|done|done].
Qed.

Lemma cbor_inj v v' : value_ok v -> value_ok v' -> cbor v = cbor v' -> v = v'.
Proof.
  intros Hv Hv' He. apply (cbor_prefix v v' [] []); [done..|]. by rewrite He.
Qed.

Lemma decode_unbounded_message {E A} `{From CborError E} {k} {p : M Reader.t E A} {f P} `{Hc : !codec k p f P} a :
  k <= MAX_DEPTH -> P a -> decode_unbounded (cbor (f a)) p = Ok a.
Proof.
  intros Hk HP. unfold decode_unbounded, Reader.new_unbounded.
  pose proof (codec_fwd Hc [] [] 0 a HP ltac:(lia) ltac:(lia)) as Hp.
  unfold mkr in Hp. cbn in Hp. rewrite app_nil_r in Hp. change (len []) with 0 in Hp. rewrite Hp. cbn.
  unfold Reader.finish; cbn. by rewrite ?app_nil_r, Z.eqb_refl.
Qed.

Lemma decode_unbounded_inv {E A} `{From CborError E} {k} {p : M Reader.t E A} {f P}
    `{Hc : !codec k p f P} b a :
  bytes_ok b -> decode_unbounded b p = Ok a -> b = cbor (f a) /\ P a.
Proof.
  intros Hok Hp0. unfold decode_unbounded, Reader.new_unbounded in Hp0. minv Hp0. destruct a0 as [a' r].
  minv Hk. injection Hk0 as ->. apply (codec_bwd Hc [] b 0) in Hp as (tl & -> & -> & _ & HP); [|done|lia].
  split; [|done]. minv Hp0. unfold Reader.finish, mkr in Hp0. cbn in Hp0. rewrite len_app in Hp0.
  destruct (Z.eqb_spec (len (cbor (f a))) (len (cbor (f a)) + len tl)); [|done].
  assert (len tl = 0) as ->%len_0_nil by lia. by rewrite app_nil_r.
Qed.
