(* ===== verification/Bitmap.v ===== *)
(** * Chunk bitmaps and their run-length encoding (bitmap.rs)

    Bit [i] is chunk [i], most significant bit first.  Loops whose trip count
    is not structural take fuel; the fuel each caller passes is shown to be
    enough ([skip_run_stops], [missing_loop_spec], [encode_loop_decodes]). *)

From S2P Require Import Prelude.

(** bitmap.rs 9-16 [BitmapError] *)
Inductive BitmapError : Type :=
| IndexOutOfRange
| TrailingBitsSet
| WrongLength
| RunOverflow
| Truncated
| TooLarge.

(** bitmap.rs 19-19 [MAX_RANGES_PER_REQUEST] *)
Definition MAX_RANGES_PER_REQUEST : Z := 1024.
(** bitmap.rs 23-23 [MAX_CHUNK_COUNT] *)
Definition MAX_CHUNK_COUNT : Z := 2 ^ 32.

(** bitmap.rs 26-30 [ChunkBitmap] *)
Record ChunkBitmap : Type := mkBitmap {
  chunk_count : Z;
  bits : bytes;
  set_count : Z
}.

(** bitmap.rs 188-190 [byte_len] *)
Definition byte_len (n : Z) : Z := div_ceil n 8.

(** bitmap.rs 33-42 [ChunkBitmap::new] *)
Definition new (n : Z) : result BitmapError ChunkBitmap :=
  if MAX_CHUNK_COUNT <? n then Err TooLarge
  else Ok (mkBitmap n (replicate (Z.to_nat (byte_len n)) 0) 0).

(** bitmap.rs 52-54 [ChunkBitmap::is_complete] *)
Definition is_complete (b : ChunkBitmap) : bool := set_count b =? chunk_count b.

(** [0x80 >> (index % 8)] on [u8] *)
Definition mask (index : Z) : Z := Z.shiftr 128 (index mod 8).

(** bitmap.rs 56-62 [ChunkBitmap::get] *)
Definition get (b : ChunkBitmap) (index : Z) : result BitmapError bool :=
  if chunk_count b <=? index then Err IndexOutOfRange else
  match bits b !! Z.to_nat (index / 8) with
  | Some byte => Ok (negb (Z.land byte (mask index) =? 0))
  | None => Panic
  end.

(** bitmap.rs 65-77 [ChunkBitmap::set] *)
Definition set (index : Z) : M ChunkBitmap BitmapError bool := fun b =>
  if chunk_count b <=? index then Err IndexOutOfRange else
  match bits b !! Z.to_nat (index / 8) with
  | Some byte =>
      if negb (Z.land byte (mask index) =? 0) then Ok (false, b)
      else Ok (true, mkBitmap (chunk_count b)
                       (<[Z.to_nat (index / 8) := Z.lor byte (mask index)]> (bits b))
                       (set_count b + 1))
  | None => Panic
  end.

(** [u8::count_ones] *)
Definition count_ones (byte : Z) : Z :=
  Z.of_nat (length (filter (fun k => Z.testbit byte k = true) (seqZ 0 8))).

(** bitmap.rs 86-107 [ChunkBitmap::from_bytes] *)
Definition from_bytes (n : Z) (bs : bytes) : result BitmapError ChunkBitmap :=
  if MAX_CHUNK_COUNT <? n then Err TooLarge else
  if negb (len bs =? byte_len n) then Err WrongLength else
  let used := n mod 8 in
  let built := Ok (mkBitmap n bs (foldr Z.add 0 (count_ones <$> bs))) in
  if used =? 0 then built else
  match last bs with
  | None => Panic
  | Some l => if negb (Z.land l (Z.shiftr 255 used) =? 0) then Err TrailingBitsSet else built
  end.

(** [self.get(i).unwrap_or(false)] *)
Definition get_or_false (b : ChunkBitmap) (i : Z) : bool :=
  match get b i with Ok v => v | _ => false end.

(** [while index < chunk_count && self.get(index) == value { index += 1 }] *)
Fixpoint skip_run (b : ChunkBitmap) (value : bool) (fuel : nat) (index : Z) : Z :=
  match fuel with
  | O => index
  | S f => if (index <? chunk_count b) && Bool.eqb (get_or_false b index) value
           then skip_run b value f (index + 1) else index
  end.

(** Fuel for a scan from [index] to the end of the bitmap. *)
Definition to_end (b : ChunkBitmap) (index : Z) : nat := Z.to_nat (chunk_count b - index).

(** The outer loop of [missing_ranges]; [room] is [max_ranges - ranges.len()]. *)
Fixpoint missing_loop (b : ChunkBitmap) (fuel : nat) (room index : Z) : list (Z * Z) :=
  match fuel with
  | O => []
  | S f =>
    if (index <? chunk_count b) && (0 <? room) then
      let start := skip_run b true (to_end b index) index in
      if chunk_count b <=? start then [] else
      let stop := skip_run b false (to_end b start) start in
      (start, stop) :: missing_loop b f (room - 1) stop
    else []
  end.

(** bitmap.rs 111-129 [ChunkBitmap::missing_ranges] *)
Definition missing_ranges (b : ChunkBitmap) (max_ranges : Z) : list (Z * Z) :=
  missing_loop b (Z.to_nat (chunk_count b)) max_ranges 0.

(** The loop of [write_leb128]; ten bytes hold any [u64]. *)
Fixpoint leb128_loop (fuel : nat) (value : Z) : bytes :=
  match fuel with
  | O => []
  | S f =>
    let byte := Z.land value 127 in
    let value' := Z.shiftr value 7 in
    if value' =? 0 then [byte] else Z.lor byte 128 :: leb128_loop f value'
  end.
(** bitmap.rs 192-204 [write_leb128] *)
Definition write_leb128 (value : Z) : bytes := leb128_loop 10 value.

(** [x.checked_shl(shift)] on [u64] *)
Definition checked_shl (x shift : Z) : option Z :=
  if shift <? 64 then Some (wrap 64 (Z.shiftl x shift)) else None.

(** The loop of [read_leb128]: [rest] is the input from [pos] on. *)
Fixpoint read_leb128_loop (rest : bytes) (pos acc shift : Z) : result BitmapError (Z * Z) :=
  match rest with
  | [] => Err Truncated
  | byte :: rest' =>
    let pos' := pos + 1 in
    if 64 <=? shift then Err RunOverflow else
    match checked_shl (Z.land byte 127) shift with
    | None => Err RunOverflow
    | Some x =>
      let acc' := Z.lor acc x in
      if Z.land byte 128 =? 0 then
        if (byte =? 0) && negb (shift =? 0) then Err RunOverflow else Ok (acc', pos')
      else read_leb128_loop rest' pos' acc' (shift + 7)
    end
  end.
(** bitmap.rs 206-231 [read_leb128] *)
Definition read_leb128 (input : bytes) : M Z BitmapError Z := fun pos =>
  read_leb128_loop (drop (Z.to_nat pos) input) pos 0 0.

(** The loop of [encode_rle]. *)
Fixpoint encode_loop (b : ChunkBitmap) (fuel : nat) (index : Z) (expect_set : bool) : bytes :=
  match fuel with
  | O => []
  | S f =>
    if index <? chunk_count b then
      let value := get_or_false b index in
      if negb (Bool.eqb value expect_set) then
        write_leb128 0 ++ encode_loop b f index (negb expect_set)
      else
        let index' := skip_run b value (to_end b index) index in
        write_leb128 (index' - index) ++ encode_loop b f index' (negb expect_set)
    else []
  end.
(** bitmap.rs 133-154 [ChunkBitmap::encode_rle] *)
Definition encode_rle (b : ChunkBitmap) : bytes :=
  encode_loop b (2 * Z.to_nat (chunk_count b)) 0 false.

(** [for i in index..index + run { bitmap.set(i)?; }] *)
Fixpoint set_range (n : nat) (index : Z) : M ChunkBitmap BitmapError unit :=
  match n with
  | O => ret tt
  | S n' => set index ;;; set_range n' (index + 1)
  end.

(** The loop of [decode_rle]; every iteration consumes at least one byte. *)
Fixpoint decode_loop (encoded : bytes) (n : Z) (fuel : nat) (pos index : Z) (is_set : bool)
    (bm : ChunkBitmap) : result BitmapError ChunkBitmap :=
  if pos <? len encoded then
    match fuel with
    | O => Panic
    | S f =>
      let* '(run, pos') := read_leb128 encoded pos in
      if n - index <? run then Err RunOverflow else
      let* '(_, bm') := (if is_set then set_range (Z.to_nat run) index bm else Ok (tt, bm)) in
      decode_loop encoded n f pos' (index + run) (negb is_set) bm'
    end
  else if negb (index =? n) then Err RunOverflow else Ok bm.
(** bitmap.rs 157-185 [ChunkBitmap::decode_rle] *)
Definition decode_rle (n : Z) (encoded : bytes) : result BitmapError ChunkBitmap :=
  if MAX_CHUNK_COUNT <? n then Err TooLarge else
  let* bm := new n in
  decode_loop encoded n (length encoded) 0 0 false bm.

Definition demo : ChunkBitmap := mkBitmap 20 [0xC1; 0x80; 0x30] 6.
Example demo_get : map (get_or_false demo) [0; 1; 2; 7; 8; 9; 18; 19; 20]
  = [true; true; false; true; true; false; true; true; false].
Proof. reflexivity. Qed.
Example demo_missing : missing_ranges demo 1024 = [(2, 7); (9, 18)].
Proof. reflexivity. Qed.
Example demo_rle : decode_rle 20 (encode_rle demo) = Ok demo.
Proof. vm_compute. reflexivity. Qed.
Example leb_sample : write_leb128 624485 = [0xe5; 0x8e; 0x26].
Proof. reflexivity. Qed.

(** ** The abstract bitmap: a list of booleans *)
Definition byte_bits (x : Z) : list bool := (fun k => Z.testbit x (7 - k)) <$> seqZ 0 8.
Definition all_bits (bs : bytes) : list bool := flat_map byte_bits bs.
Definition contents (b : ChunkBitmap) : list bool :=
  take (Z.to_nat (chunk_count b)) (all_bits (bits b)).
Definition count_set (l : list bool) : Z := len (filter (fun v => v = true) l).

(** The invariant of the type: exact length, zero trailing bits, and a
    population count that agrees with the bits. *)
Record wf (b : ChunkBitmap) : Prop := {
  wf_count : 0 <= chunk_count b <= MAX_CHUNK_COUNT;
  wf_bytes : bytes_ok (bits b);
  wf_len : len (bits b) = byte_len (chunk_count b);
  wf_trailing : Forall (fun v => v = false) (drop (Z.to_nat (chunk_count b)) (all_bits (bits b)));
  wf_set : set_count b = count_set (contents b)
}.

Lemma byte_bits_length x : length (byte_bits x) = 8%nat.
Proof. done. Qed.
Lemma all_bits_length bs : length (all_bits bs) = (8 * length bs)%nat.
Proof.
  induction bs as [|x bs IH]; [done|]. cbn [all_bits flat_map].
  rewrite length_app, byte_bits_length. fold (all_bits bs). cbn [length]. lia.
Qed.
Lemma contents_length b : wf b -> length (contents b) = Z.to_nat (chunk_count b).
Proof.
  intros [? _ Hl _ _]. unfold contents. rewrite length_take, all_bits_length.
  unfold len, byte_len, div_ceil in Hl. dlia.
Qed.

Lemma byte_bits_lookup x k : 0 <= k < 8 ->
  byte_bits x !! Z.to_nat k = Some (Z.testbit x (7 - k)).
Proof.
  intros Hk. unfold byte_bits. rewrite list_lookup_fmap, lookup_seqZ_lt by lia. cbn.
  do 2 f_equal. lia.
Qed.

Lemma all_bits_lookup bs i : 0 <= i ->
  all_bits bs !! Z.to_nat i
    = (fun x => Z.testbit x (7 - i mod 8)) <$> bs !! Z.to_nat (i / 8).
Proof.
  revert i. induction bs as [|x bs IH]; intros i Hi; [by rewrite !lookup_nil|].
  cbn [all_bits flat_map]. fold (all_bits bs).
  destruct (decide (i < 8)).
  - rewrite lookup_app_l by (rewrite byte_bits_length; lia).
    rewrite byte_bits_lookup by lia. rewrite Z.div_small, Z.mod_small by lia. done.
  - rewrite lookup_app_r by (rewrite byte_bits_length; lia). rewrite byte_bits_length.
    replace (Z.to_nat i - 8)%nat with (Z.to_nat (i - 8)) by lia. rewrite IH by lia.
    replace (Z.to_nat (i / 8)) with (S (Z.to_nat ((i - 8) / 8))) by dlia.
    replace ((i - 8) mod 8) with (i mod 8) by dlia. done.
Qed.

Lemma land_mask x i : negb (Z.land x (mask i) =? 0) = Z.testbit x (7 - i mod 8).
Proof.
  assert (mask i = 2 ^ (7 - i mod 8)) as ->.
  { unfold mask. pose proof (Z.mod_pos_bound i 8 ltac:(lia)).
    assert (i mod 8 = 0 \/ i mod 8 = 1 \/ i mod 8 = 2 \/ i mod 8 = 3 \/ i mod 8 = 4 \/
            i mod 8 = 5 \/ i mod 8 = 6 \/ i mod 8 = 7) as Hin by lia.
    by repeat destruct Hin as [->|Hin]; [..|rewrite Hin]. }
  set (k := 7 - i mod 8). assert (0 <= k) by (unfold k; dlia).
  destruct (Z.testbit x k) eqn:Hb.
  - apply negb_true_iff, Z.eqb_neq. intros H0. apply (f_equal (fun z => Z.testbit z k)) in H0.
    rewrite Z.land_spec, Z.pow2_bits_true, Hb, Z.bits_0 in H0 by lia. done.
  - apply negb_false_iff, Z.eqb_eq. apply Z.bits_inj'. intros j Hj.
    rewrite Z.land_spec, Z.bits_0. destruct (decide (j = k)) as [->|].
    + by rewrite Hb.
    + by rewrite Z.pow2_bits_false, andb_false_r.
Qed.

(** ** get, set and from_bytes against the abstraction *)
Lemma contents_lookup b i : wf b -> 0 <= i < chunk_count b ->
  exists x, bits b !! Z.to_nat (i / 8) = Some x /\
    contents b !! Z.to_nat i = Some (Z.testbit x (7 - i mod 8)).
Proof.
  intros [? _ Hl _ _] Hi. unfold contents. rewrite lookup_take_lt by lia.
  rewrite all_bits_lookup by lia.
  destruct (lookup_lt_is_Some_2 (bits b) (Z.to_nat (i / 8))) as [x ->]; [|by exists x].
  unfold len, byte_len, div_ceil in Hl. dlia.
Qed.

Lemma get_spec b i : wf b -> 0 <= i < chunk_count b ->
  exists v, get b i = Ok v /\ contents b !! Z.to_nat i = Some v.
Proof.
  intros Hwf Hi. destruct (contents_lookup b i Hwf Hi) as (x & Hx & Hc).
  exists (Z.testbit x (7 - i mod 8)). split; [|done].
  unfold get. destruct (Z.leb_spec (chunk_count b) i); [lia|]. by rewrite Hx, land_mask.
Qed.

Lemma get_or_false_spec b i : wf b -> 0 <= i < chunk_count b ->
  contents b !! Z.to_nat i = Some (get_or_false b i).
Proof.
  intros Hwf Hi. destruct (get_spec b i Hwf Hi) as (v & Hg & Hc).
  unfold get_or_false. by rewrite Hg.
Qed.

Lemma lor_mask_byte x i : is_byte x -> is_byte (Z.lor x (mask i)).
Proof.
  unfold is_byte. intros Hx. split.
  - apply Z.lor_nonneg. split; [lia|]. unfold mask. apply Z.shiftr_nonneg. lia.
  - assert (Hm : 0 <= mask i < 2 ^ 8).
    { unfold mask. rewrite Z.shiftr_div_pow2 by dlia.
      pose proof (Z.pow_pos_nonneg 2 (i mod 8) ltac:(lia) ltac:(dlia)).
      split; [apply Z.div_pos; lia|]. apply Z.div_lt_upper_bound; [lia|]. nia. }
    change 256 with (2 ^ 8). destruct (decide (Z.lor x (mask i) = 0)) as [->|]; [lia|].
    apply Z.log2_lt_cancel. rewrite Z.log2_lor, Z.log2_pow2 by lia.
    assert (Z.log2 x < 8) by (destruct (decide (x = 0)) as [->|]; [done|apply Z.log2_lt_pow2; lia]).
    assert (Z.log2 (mask i) < 8)
      by (destruct (decide (mask i = 0)) as [->|]; [done|apply Z.log2_lt_pow2; lia]).
    lia.
Qed.

Lemma testbit_lor_mask x i j : 0 <= i mod 8 -> 0 <= j < 8 ->
  Z.testbit (Z.lor x (mask i)) (7 - j) = (bool_decide (j = i mod 8) || Z.testbit x (7 - j))%bool.
Proof.
  intros Hi Hj. rewrite Z.lor_spec.
  enough (Z.testbit (mask i) (7 - j) = bool_decide (j = i mod 8)) as -> by apply orb_comm.
  unfold mask. rewrite Z.shiftr_spec by lia. change 128 with (2 ^ 7).
  pose proof (Z.mod_pos_bound i 8 ltac:(lia)).
  case_bool_decide as Hj'.
  - subst j. by replace (7 - i mod 8 + i mod 8) with 7 by lia.
  - rewrite Z.pow2_bits_false by lia. done.
Qed.

(** Setting one bit of the byte string sets one element of the bit list. *)
Lemma all_bits_insert bs i x : 0 <= i -> bs !! Z.to_nat (i / 8) = Some x ->
  all_bits (<[Z.to_nat (i / 8) := Z.lor x (mask i)]> bs) = <[Z.to_nat i := true]> (all_bits bs).
Proof.
  intros Hi Hx. apply list_eq. intros j. rewrite <- (Nat2Z.id j).
  assert (Hlt : (Z.to_nat i < length (all_bits bs))%nat).
  { apply lookup_lt_Some in Hx. rewrite all_bits_length. dlia. }
  rewrite all_bits_lookup by lia.
  destruct (decide (Z.to_nat (Z.of_nat j / 8) = Z.to_nat (i / 8))) as [Heq|Hne].
  - rewrite Heq, list_lookup_insert_eq by (by eapply lookup_lt_Some). cbn.
    rewrite testbit_lor_mask by dlia.
    case_bool_decide as Hj; cbn.
    + assert (Z.of_nat j = i) as -> by dlia. by rewrite list_lookup_insert_eq.
    + rewrite list_lookup_insert_ne by (intros Hij; dlia).
      rewrite all_bits_lookup, Heq, Hx by lia. done.
  - rewrite list_lookup_insert_ne by done.
    rewrite list_lookup_insert_ne by (intros Hij; dlia). by rewrite all_bits_lookup by lia.
Qed.

Lemma count_set_app l1 l2 : count_set (l1 ++ l2) = count_set l1 + count_set l2.
Proof. unfold count_set. by rewrite filter_app, len_app. Qed.
Lemma count_set_cons v l : count_set (v :: l) = (if v then 1 else 0) + count_set l.
Proof. destruct v; [|done]. unfold count_set. rewrite filter_cons_True by done. apply len_cons. Qed.
Lemma count_set_insert l i : l !! i = Some false -> count_set (<[i := true]> l) = count_set l + 1.
Proof.
  intros Hi. rewrite insert_take_drop by (by eapply lookup_lt_Some).
  rewrite <- (take_drop_middle l i false Hi) at 3.
  rewrite !count_set_app, !count_set_cons. lia.
Qed.

Lemma set_spec b i : wf b -> 0 <= i < chunk_count b ->
  exists was b', set i b = Ok (negb was, b') /\ contents b !! Z.to_nat i = Some was /\
    wf b' /\ chunk_count b' = chunk_count b /\
    contents b' = <[Z.to_nat i := true]> (contents b).
Proof.
  intros Hwf Hi. destruct (contents_lookup b i Hwf Hi) as (x & Hx & Hc).
  unfold set. destruct (Z.leb_spec (chunk_count b) i); [lia|]. rewrite Hx, land_mask.
  destruct (Z.testbit x (7 - i mod 8)) eqn:Hb.
  - exists true, b. split_and!; [done|done|done|done|by rewrite list_insert_id].
  - assert (Hcont : contents (mkBitmap (chunk_count b)
      (<[Z.to_nat (i / 8):=Z.lor x (mask i)]> (bits b)) (set_count b + 1))
      = <[Z.to_nat i := true]> (contents b)).
    { unfold contents; cbn. rewrite all_bits_insert by (lia || done).
      rewrite take_insert_lt by lia. done. }
    eexists false, _. split_and!; [done|done| |done|done]. destruct Hwf. split; cbn.
    + done.
    + apply Forall_insert; [done|]. apply lor_mask_byte.
      by eapply Forall_lookup_1 in Hx.
    + unfold len. by rewrite length_insert.
    + rewrite all_bits_insert by (lia || done). by rewrite drop_insert_lt by lia.
    + rewrite Hcont, count_set_insert by done. lia.
Qed.

Lemma count_set_fmap (f : Z -> bool) l :
  count_set (f <$> l) = len (filter (fun k => f k = true) l).
Proof.
  induction l as [|k l IH]; [done|]. rewrite fmap_cons, count_set_cons, filter_cons, IH.
  destruct (f k); case_decide; rewrite ?len_cons; congruence || lia.
Qed.
Lemma count_ones_bits x : count_ones x = count_set (byte_bits x).
Proof.
  unfold count_ones. fold (len (filter (fun k => Z.testbit x k = true) (seqZ 0 8))).
  rewrite <- count_set_fmap. unfold byte_bits.
  change (seqZ 0 8) with [0; 1; 2; 3; 4; 5; 6; 7]. cbn [fmap list_fmap].
  change (7 - 0) with 7. change (7 - 1) with 6. change (7 - 2) with 5. change (7 - 3) with 4.
  change (7 - 4) with 3. change (7 - 5) with 2. change (7 - 6) with 1. change (7 - 7) with 0.
  rewrite !count_set_cons. lia.
Qed.
Lemma popcount_bits bs : foldr Z.add 0 (count_ones <$> bs) = count_set (all_bits bs).
Proof.
  induction bs as [|x bs IH]; [done|]. cbn. rewrite count_set_app, count_ones_bits.
  by rewrite IH.
Qed.
Lemma count_set_false l : Forall (fun v => v = false) l -> count_set l = 0.
Proof. induction 1 as [|v l -> _ IH]; [done|]. by rewrite count_set_cons. Qed.

Lemma count_set_trailing n l :
  Forall (fun v => v = false) (drop n l) -> count_set (take n l) = count_set l.
Proof.
  intros Ht. rewrite <- (take_drop n l) at 2.
  rewrite count_set_app, (count_set_false (drop _ _)) by done. lia.
Qed.
Lemma wf_popcount b : wf b -> set_count b = count_set (all_bits (bits b)).
Proof. intros [_ _ _ Ht ->]. by apply count_set_trailing. Qed.

(** The mask test of [from_bytes] on the last byte is the trailing-bit rule. *)
Lemma trailing_mask l used : 0 < used < 8 ->
  Forall (fun v => v = false) (drop (Z.to_nat used) (byte_bits l))
    <-> Z.land l (Z.shiftr 255 used) = 0.
Proof.
  intros Hu. change 255 with (Z.ones 8). rewrite Z.shiftr_div_pow2, Z.ones_div_pow2 by lia.
  rewrite Z.land_ones by lia. rewrite Forall_lookup. split.
  - intros H. rewrite <- Z.land_ones by lia. apply Z.bits_inj'. intros j Hj. rewrite Z.bits_0, Z.land_spec.
    destruct (decide (j < 8 - used)).
    + rewrite (H (Z.to_nat (7 - used - j)) (Z.testbit l j)); [done|].
      rewrite lookup_drop.
      replace (Z.to_nat used + Z.to_nat (7 - used - j))%nat with (Z.to_nat (7 - j)) by lia.
      rewrite byte_bits_lookup by lia. do 2 f_equal. lia.
    + rewrite Z.ones_spec_high by lia. apply andb_false_r.
  - intros H i v. rewrite lookup_drop. intros Hv.
    assert (Hlt : (Z.to_nat used + i < 8)%nat) by (by apply lookup_lt_Some in Hv).
    replace (Z.to_nat used + i)%nat with (Z.to_nat (used + Z.of_nat i)) in Hv by lia.
    rewrite byte_bits_lookup in Hv by lia. injection Hv as <-.
    rewrite <- (Z.mod_pow2_bits_low l (8 - used)) by lia. by rewrite H, Z.bits_0.
Qed.

Lemma drop_last_byte bs l n : last bs = Some l -> 0 < n mod 8 -> 0 <= n ->
  len bs = byte_len n -> drop (Z.to_nat n) (all_bits bs) = drop (Z.to_nat (n mod 8)) (byte_bits l).
Proof.
  intros [bs' ->]%last_Some Hu Hn Hl. unfold all_bits. rewrite flat_map_app. cbn.
  rewrite app_nil_r. fold (all_bits bs'). rewrite len_app in Hl.
  unfold len, byte_len, div_ceil in Hl. cbn in Hl.
  rewrite drop_app, all_bits_length, (drop_ge (all_bits bs')) by (rewrite all_bits_length; dlia).
  cbn [app]. f_equal. dlia.
Qed.

Lemma trailing_ok n bs : 0 <= n -> len bs = byte_len n ->
  (n mod 8 = 0 -> drop (Z.to_nat n) (all_bits bs) = []) /\
  (n mod 8 <> 0 -> exists l, last bs = Some l).
Proof.
  intros Hn Hl. unfold len, byte_len, div_ceil in Hl. split; intros Hm.
  - apply drop_ge. rewrite all_bits_length. dlia.
  - destruct bs as [|x bs]; [cbn in Hl; dlia|].
    destruct (last (x :: bs)) eqn:Hlast; [eauto|by apply last_None in Hlast].
Qed.

Lemma from_bytes_spec n bs : 0 <= n -> bytes_ok bs ->
  from_bytes n bs =
    if MAX_CHUNK_COUNT <? n then Err TooLarge else
    if negb (len bs =? byte_len n) then Err WrongLength else
    if bool_decide (Forall (fun v => v = false) (drop (Z.to_nat n) (all_bits bs)))
    then Ok (mkBitmap n bs (count_set (all_bits bs))) else Err TrailingBitsSet.
Proof.
  intros Hn Hok. unfold from_bytes. destruct (MAX_CHUNK_COUNT <? n); [done|].
  destruct (Z.eqb_spec (len bs) (byte_len n)) as [Hl|]; [cbn|done].
  rewrite popcount_bits. destruct (trailing_ok n bs Hn Hl) as [H0 H1].
  destruct (Z.eqb_spec (n mod 8) 0) as [Hm|Hm]; [by rewrite H0, bool_decide_true|].
  destruct (H1 Hm) as [l Hlast]. rewrite Hlast.
  rewrite (drop_last_byte bs l n) by (done || dlia).
  pose proof (trailing_mask l (n mod 8) ltac:(dlia)) as Ht.
  destruct (Z.eqb_spec (Z.land l (Z.shiftr 255 (n mod 8))) 0) as [Hz|Hz]; cbn.
  - rewrite bool_decide_true; tauto.
  - rewrite bool_decide_false; tauto.
Qed.

Lemma wf_mk n bs : 0 <= n <= MAX_CHUNK_COUNT -> bytes_ok bs -> len bs = byte_len n ->
  Forall (fun v => v = false) (drop (Z.to_nat n) (all_bits bs)) ->
  wf (mkBitmap n bs (count_set (all_bits bs))).
Proof.
  intros Hn Hok Hl Ht. split; cbn; try done. unfold contents; cbn.
  by rewrite count_set_trailing.
Qed.

Lemma demo_wf : wf demo.
Proof.
  apply (wf_mk 20 [0xC1; 0x80; 0x30]); [by unfold MAX_CHUNK_COUNT|by repeat constructor|done|].
  vm_compute. by repeat constructor.
Qed.

(** [from_bytes] accepts exactly the canonical byte strings: it returns a
    well-formed bitmap over the given bytes, and it takes back the bytes of
    every well-formed bitmap unchanged. *)
Theorem from_bytes_exact n bs b : 0 <= n -> bytes_ok bs ->
  from_bytes n bs = Ok b <-> wf b /\ chunk_count b = n /\ bits b = bs.
Proof.
  intros Hn Hok. rewrite from_bytes_spec by done. split.
  - destruct (Z.ltb_spec MAX_CHUNK_COUNT n); [done|].
    destruct (Z.eqb_spec (len bs) (byte_len n)); [cbn|done].
    case_bool_decide; [|done]. intros [= <-]. split; [by apply wf_mk|done].
  - intros (Hwf & <- & <-). pose proof (wf_popcount b Hwf) as Hc. destruct Hwf as [Hb _ Hl Ht _].
    destruct (Z.ltb_spec MAX_CHUNK_COUNT (chunk_count b)); [lia|].
    rewrite Hl, Z.eqb_refl. cbn. rewrite bool_decide_true by done.
    rewrite <- Hc. by destruct b.
Qed.

Lemma from_bytes_exact_witness :
  from_bytes 20 (bits demo) = Ok demo <-> wf demo /\ chunk_count demo = 20 /\ bits demo = bits demo.
Proof. apply (from_bytes_exact 20 (bits demo) demo); [done|by repeat constructor]. Defined.

Lemma all_bits_zero k : all_bits (replicate k 0) = replicate (8 * k) false.
Proof.
  induction k as [|k IH]; [done|]. replace (8 * S k)%nat with (8 + 8 * k)%nat by lia.
  by rewrite replicate_add, <- IH.
Qed.
Lemma new_spec n : 0 <= n <= MAX_CHUNK_COUNT ->
  exists b, new n = Ok b /\ wf b /\ chunk_count b = n /\
    contents b = replicate (Z.to_nat n) false.
Proof.
  intros Hn. unfold new. destruct (Z.ltb_spec MAX_CHUNK_COUNT n); [lia|].
  eexists; split; [done|]. cbn. set (k := Z.to_nat (byte_len n)).
  pose proof (all_bits_zero k) as Hz.
  assert (Hc : contents (mkBitmap n (replicate k 0) 0) = replicate (Z.to_nat n) false).
  { unfold contents; cbn [chunk_count bits]. rewrite Hz, take_replicate. f_equal.
    unfold k, byte_len, div_ceil. dlia. }
  split_and!; [|done|done]. split; cbn [chunk_count bits set_count].
  - lia.
  - apply Forall_replicate. split; lia.
  - unfold len. rewrite length_replicate. unfold k, byte_len, div_ceil. dlia.
  - rewrite Hz, drop_replicate. by apply Forall_replicate.
  - rewrite Hc. symmetry. apply count_set_false. by apply Forall_replicate.
Qed.

Lemma bits_inj bs1 bs2 : bytes_ok bs1 -> bytes_ok bs2 ->
  all_bits bs1 = all_bits bs2 -> bs1 = bs2.
Proof.
  intros Hok1. revert bs2. induction Hok1 as [|x bs1 Hx _ IH]; intros [|y bs2] Hok2 He; try done.
  apply bytes_ok_cons in Hok2 as [Hy Hok2].
  cbn [all_bits flat_map] in He. apply app_inj_1 in He as [Hxy He]; [|done].
  f_equal; [|by apply IH]. apply Z.bits_inj'. intros k Hk.
  destruct (decide (k < 8)).
  - apply (f_equal (fun l => l !! Z.to_nat (7 - k))) in Hxy.
    rewrite !byte_bits_lookup in Hxy by lia. injection Hxy as Hxy.
    by replace (7 - (7 - k)) with k in Hxy by lia.
  - unfold is_byte in Hx, Hy. change 256 with (2 ^ 8) in Hx, Hy.
    rewrite <- (Z.mod_small x (2 ^ 8)), <- (Z.mod_small y (2 ^ 8)) by lia.
    by rewrite !Z.mod_pow2_bits_high by lia.
Qed.

(** A well-formed bitmap is determined by its chunk count and its contents. *)
Lemma wf_ext b1 b2 : wf b1 -> wf b2 -> chunk_count b1 = chunk_count b2 ->
  contents b1 = contents b2 -> b1 = b2.
Proof.
  intros H1 H2 Hn Hc.
  assert (Hb : bits b1 = bits b2).
  { destruct H1 as [? ? Hl1 Ht1 _], H2 as [? ? Hl2 Ht2 _]. apply bits_inj; [done..|].
    rewrite <- (take_drop (Z.to_nat (chunk_count b1)) (all_bits (bits b1))).
    rewrite <- (take_drop (Z.to_nat (chunk_count b2)) (all_bits (bits b2))).
    f_equal; [done|]. apply list_eq. intros i. rewrite <- Hn in Hl2 |- *.
    assert (Hlen : length (bits b1) = length (bits b2)) by (unfold len in *; lia).
    destruct (drop _ (all_bits (bits b1)) !! i) as [v1|] eqn:E1,
             (drop _ (all_bits (bits b2)) !! i) as [v2|] eqn:E2; try done.
    - rewrite <- Hn in Ht2.
      rewrite (Forall_lookup_1 _ _ _ _ Ht1 E1), (Forall_lookup_1 _ _ _ _ Ht2 E2). done.
    - apply lookup_lt_Some in E1. apply lookup_ge_None in E2.
      rewrite length_drop, all_bits_length in *. lia.
    - apply lookup_lt_Some in E2. apply lookup_ge_None in E1.
      rewrite length_drop, all_bits_length in *. lia. }
  pose proof (wf_set b1 H1). pose proof (wf_set b2 H2).
  destruct b1, b2; cbn in *; subst. f_equal. congruence.
Qed.

(** [new] gives the empty well-formed bitmap; [set] keeps the bitmap
    well formed, makes exactly the given chunk present, reports whether it
    was new, and counts it once. *)
Theorem set_updates b i : wf b -> 0 <= i < chunk_count b ->
  exists was b', get b i = Ok was /\ set i b = Ok (negb was, b') /\ wf b' /\
    set_count b' = set_count b + (if was then 0 else 1) /\
    forall j, 0 <= j -> get b' j = if j =? i then Ok true else get b j.
Proof.
  intros Hwf Hi. destruct (set_spec b i Hwf Hi) as (was & b' & Hs & Hc & Hwf' & Hn & Hc').
  exists was, b'. destruct (get_spec b i Hwf Hi) as (v & Hg & Hv).
  rewrite Hc in Hv. injection Hv as <-. split_and!; [done|done|done| |].
  - rewrite (wf_set b' Hwf'), (wf_set b Hwf), Hc'. destruct was.
    + rewrite list_insert_id by done. lia.
    + by rewrite count_set_insert.
  - intros j Hj0. destruct (decide (j < chunk_count b)) as [Hj|Hj].
    + destruct (get_spec b j Hwf ltac:(lia)) as (w & -> & Hw).
      destruct (get_spec b' j Hwf' ltac:(lia)) as (w' & -> & Hw'). rewrite Hc' in Hw'.
      destruct (Z.eqb_spec j i) as [->|Hne].
      * rewrite list_lookup_insert_eq in Hw' by (by eapply lookup_lt_Some). congruence.
      * rewrite list_lookup_insert_ne in Hw' by lia. congruence.
    + unfold get. rewrite Hn. destruct (Z.eqb_spec j i); [lia|].
      by destruct (Z.leb_spec (chunk_count b) j); [|lia].
Qed.

Lemma set_updates_witness : exists was b', get demo 9 = Ok was /\ set 9 demo = Ok (negb was, b') /\
  wf b' /\ set_count b' = set_count demo + (if was then 0 else 1) /\
  forall j, 0 <= j -> get b' j = if j =? 9 then Ok true else get demo j.
Proof. apply (set_updates demo 9); [apply demo_wf|by vm_compute]. Defined.

(** ** Missing ranges *)
Lemma skip_run_stops b v fuel i :
  0 <= i <= chunk_count b -> chunk_count b - i <= Z.of_nat fuel ->
  let j := skip_run b v fuel i in
  i <= j <= chunk_count b /\ (forall k, i <= k < j -> get_or_false b k = v) /\
  (j < chunk_count b -> get_or_false b j = negb v).
Proof.
  revert i. induction fuel as [|fuel IH]; intros i Hi Hf; cbn [skip_run].
  - split_and!; [lia|lia|intros; lia|intros; lia].
  - destruct (Z.ltb_spec i (chunk_count b)) as [Hlt|]; cbn [andb];
      [|split_and!; [lia|lia|intros; lia|intros; lia]].
    destruct (Bool.eqb_spec (get_or_false b i) v) as [He|He].
    + destruct (IH (i + 1) ltac:(lia) ltac:(lia)) as (Hj & Hk & Hs). cbn zeta in *.
      split_and!; [lia|lia| |done]. intros k Hk'.
      destruct (decide (k = i)) as [->|]; [done|]. apply Hk. lia.
    + split_and!; [lia|lia|intros; lia|]. intros _. by destruct v, (get_or_false b i).
Qed.

Lemma skip_run_run b v i : 0 <= i <= chunk_count b ->
  let j := skip_run b v (to_end b i) i in
  i <= j <= chunk_count b /\ (forall k, i <= k < j -> get_or_false b k = v) /\
  (j < chunk_count b -> get_or_false b j = negb v).
Proof. intros Hi. apply skip_run_stops; [done|]. unfold to_end. lia. Qed.

(** Non-empty ranges within [lo, hi), ascending, with a gap between any two. *)
Fixpoint separated (lo hi : Z) (rs : list (Z * Z)) : Prop :=
  match rs with
  | [] => True
  | (s, e) :: rs' => lo <= s /\ s < e <= hi /\ separated (e + 1) hi rs'
  end.
Definition covers (rs : list (Z * Z)) (k : Z) : Prop :=
  exists s e, (s, e) ∈ rs /\ s <= k < e.

Lemma separated_next lo hi rs :
  separated lo hi rs -> (forall s e, (s, e) ∈ rs -> s <> lo) -> separated (lo + 1) hi rs.
Proof.
  destruct rs as [|[s e] rs]; [done|]. cbn. intros (? & ? & ?) Hne.
  pose proof (Hne s e ltac:(apply elem_of_cons; by left)). split_and!; [lia|lia|lia|done].
Qed.

Lemma separated_bounds lo hi rs s e :
  separated lo hi rs -> (s, e) ∈ rs -> lo <= s /\ s < e <= hi.
Proof.
  revert lo. induction rs as [|[s1 e1] rs IH]; intros lo; [by intros _ ?%elem_of_nil|].
  intros (H1 & H2 & H3) [[= -> ->]|Hin]%elem_of_cons; [lia|].
  specialize (IH _ H3 Hin). lia.
Qed.

Lemma missing_loop_spec b fuel room i :
  0 <= i <= chunk_count b -> chunk_count b - i <= Z.of_nat fuel -> 0 <= room ->
  let rs := missing_loop b fuel room i in
  separated i (chunk_count b) rs /\ len rs <= room /\
  (forall s e k, (s, e) ∈ rs -> s <= k < e -> get_or_false b k = false) /\
  (forall k, i <= k < chunk_count b -> get_or_false b k = false ->
     covers rs k \/ (len rs = room /\ forall s e, (s, e) ∈ rs -> e <= k)).
Proof.
  revert room i. induction fuel as [|fuel IH]; intros room i Hi Hf Hr; cbn [missing_loop].
  { split_and!; [done|done|set_solver|intros; lia]. }
  destruct (Z.ltb_spec i (chunk_count b)) as [Hlt|]; cbn [andb];
    [|split_and!; [done|done|set_solver|intros; lia]].
  destruct (Z.ltb_spec 0 room) as [Hr0|];
    [|split_and!; [done|done|set_solver|]; intros; right; split; [rewrite len_nil; lia|set_solver]].
  destruct (skip_run_run b true i ltac:(lia)) as (Hs1 & Hs2 & Hs3).
  set (s := skip_run b true (to_end b i) i) in *. cbn zeta in *.
  destruct (Z.leb_spec (chunk_count b) s) as [Hge|Hs].
  { split_and!; [done|done|set_solver|]. intros k Hk Hg. rewrite Hs2 in Hg by lia. done. }
  destruct (skip_run_run b false s ltac:(lia)) as (He1 & He2 & He3).
  set (e := skip_run b false (to_end b s) s) in *. cbn zeta in *.
  assert (Hse : s < e).
  { destruct (decide (s = e)) as [Heq|]; [|lia]. rewrite <- Heq in He3. specialize (He3 Hs).
    specialize (Hs3 Hs). cbn in *. congruence. }
  destruct (IH (room - 1) e ltac:(lia) ltac:(lia) ltac:(lia)) as (IH1 & IH2 & IH3 & IH4).
  set (rs := missing_loop b fuel (room - 1) e) in *. cbn zeta in *.
  rewrite len_cons. split_and!; [cbn [separated]; split_and!; [lia|lia|lia|]|lia| |].
  - apply separated_next; [done|]. intros s' e' Hin ->.
    destruct (separated_bounds _ _ _ _ _ IH1 Hin) as [_ Hb].
    pose proof (IH3 e e' e Hin ltac:(lia)) as Hg. rewrite He3 in Hg by lia. done.
  - intros s' e' k [[= -> ->]|Hin]%elem_of_cons Hk; [by apply He2|]. by eapply IH3.
  - intros k Hk Hg. destruct (decide (k < s)); [rewrite Hs2 in Hg by lia; done|].
    destruct (decide (k < e)).
    { left. exists s, e. split; [apply elem_of_cons; by left|lia]. }
    destruct (IH4 k ltac:(lia) Hg) as [(s' & e' & Hin & Hk')|[Hlen Hall]].
    + left. exists s', e'. split; [apply elem_of_cons; by right|lia].
    + right. split; [lia|]. intros s' e' [[= -> ->]|Hin]%elem_of_cons; [lia|]. by eapply Hall.
Qed.

Lemma missing_ranges_spec b max : wf b -> 0 <= max ->
  let rs := missing_ranges b max in
  separated 0 (chunk_count b) rs /\ len rs <= max /\
  (forall s e k, (s, e) ∈ rs -> s <= k < e -> get b k = Ok false) /\
  (forall k, 0 <= k -> get b k = Ok false ->
     covers rs k \/ (len rs = max /\ forall s e, (s, e) ∈ rs -> e <= k)).
Proof.
  intros Hwf Hm. cbn zeta. pose proof (wf_count b Hwf).
  destruct (missing_loop_spec b (Z.to_nat (chunk_count b)) max 0) as (H1 & H2 & H3 & H4); [lia..|].
  fold (missing_ranges b max) in *. split_and!; [done|done| |].
  - intros s e k Hin Hk. pose proof (separated_bounds _ _ _ _ _ H1 Hin).
    destruct (get_spec b k Hwf ltac:(lia)) as (v & Hg & _). rewrite Hg.
    pose proof (H3 s e k Hin Hk) as Hf. unfold get_or_false in Hf. rewrite Hg in Hf. by subst.
  - intros k Hk Hg. apply H4; [|unfold get_or_false; by rewrite Hg].
    unfold get in Hg. destruct (Z.leb_spec (chunk_count b) k); [done|lia].
Qed.

(** [missing_ranges] returns at most [max] non-empty, ascending ranges
    with gaps between them, inside the object; every chunk in them is
    missing, and every missing chunk is in one of them unless the list is
    full and the chunk lies after all of them. *)
Theorem missing_ranges_exact b max : wf b -> 0 <= max ->
  let rs := missing_ranges b max in
  separated 0 (chunk_count b) rs /\ len rs <= max /\
  (forall s e k, (s, e) ∈ rs -> s <= k < e -> get b k = Ok false) /\
  (forall k, 0 <= k -> get b k = Ok false ->
     covers rs k \/ (len rs = max /\ forall s e, (s, e) ∈ rs -> e <= k)).
Proof. apply missing_ranges_spec. Qed.

Lemma missing_ranges_exact_witness :
  let rs := missing_ranges demo 1 in
  separated 0 (chunk_count demo) rs /\ len rs <= 1 /\
  (forall s e k, (s, e) ∈ rs -> s <= k < e -> get demo k = Ok false) /\
  (forall k, 0 <= k -> get demo k = Ok false ->
     covers rs k \/ (len rs = 1 /\ forall s e, (s, e) ∈ rs -> e <= k)).
Proof. apply (missing_ranges_exact demo 1); [apply demo_wf|lia]. Defined.

Lemma count_set_full l : count_set l = len l <-> Forall (fun v => v = true) l.
Proof.
  assert (Hle : forall l, count_set l <= len l).
  { intros l'. induction l' as [|v l' IH]; [done|]. rewrite count_set_cons, len_cons. destruct v; lia. }
  induction l as [|v l IH]; [done|]. rewrite count_set_cons, len_cons, Forall_cons_iff, <- IH.
  specialize (Hle l). destruct v; split; intros; try lia; destruct_and?; done || lia.
Qed.
Lemma is_complete_spec b : wf b ->
  is_complete b = true <-> forall k, 0 <= k < chunk_count b -> get b k = Ok true.
Proof.
  intros Hwf. unfold is_complete. rewrite Z.eqb_eq, (wf_set b Hwf).
  assert (Hl : len (contents b) = chunk_count b).
  { unfold len. rewrite contents_length by done. pose proof (wf_count b Hwf). lia. }
  rewrite <- Hl at 1. rewrite count_set_full, Forall_lookup. split.
  - intros H k Hk. destruct (get_spec b k Hwf Hk) as (v & -> & Hv). by rewrite (H _ _ Hv).
  - intros H i v Hv. apply lookup_lt_Some in Hv as Hlt. rewrite contents_length in Hlt by done.
    destruct (get_spec b (Z.of_nat i) Hwf ltac:(lia)) as (w & Hg & Hw).
    rewrite Nat2Z.id, Hv in Hw. rewrite H in Hg by lia. congruence.
Qed.
Lemma missing_nil b max : wf b -> 0 < max ->
  missing_ranges b max = [] <-> is_complete b = true.
Proof.
  intros Hwf Hm. destruct (missing_ranges_spec b max Hwf ltac:(lia)) as (H1 & _ & H3 & H4).
  rewrite is_complete_spec by done. cbn zeta in *. split.
  - intros Hnil k Hk. rewrite Hnil in *. destruct (get_spec b k Hwf Hk) as ([|] & Hg & _); [done|].
    destruct (H4 k ltac:(lia) Hg) as [(s & e & Hin & _)|[Hl _]]; [by apply elem_of_nil in Hin|].
    unfold len in Hl. cbn in Hl. lia.
  - intros H. destruct (missing_ranges b max) as [|[s e] rs] eqn:Hr; [done|].
    destruct H1 as (? & ? & _). specialize (H s ltac:(lia)).
    rewrite (H3 s e s) in H; [done|apply elem_of_cons; by left|lia].
Qed.

Lemma get_true b k : wf b -> 0 <= k ->
  get b k = Ok true <-> contents b !! Z.to_nat k = Some true.
Proof.
  intros Hwf Hk. destruct (decide (k < chunk_count b)) as [Hlt|Hge].
  - destruct (get_spec b k Hwf ltac:(lia)) as (v & -> & ->). split; congruence.
  - unfold get. destruct (Z.leb_spec (chunk_count b) k); [|lia].
    rewrite lookup_ge_None_2; [done|]. rewrite contents_length by done. lia.
Qed.
Lemma set_ok b i v b' : wf b -> 0 <= i -> set i b = Ok (v, b') ->
  wf b' /\ chunk_count b' = chunk_count b /\ i < chunk_count b /\
  forall k, 0 <= k -> get b' k = Ok true <-> k = i \/ get b k = Ok true.
Proof.
  intros Hwf Hi Hs. assert (Hlt : i < chunk_count b).
  { unfold set in Hs. destruct (Z.leb_spec (chunk_count b) i); [done|lia]. }
  destruct (set_spec b i Hwf ltac:(lia)) as (was & b1 & Hs1 & _ & Hwf1 & Hn & Hc).
  rewrite Hs1 in Hs. injection Hs as _ <-. split_and!; [done..|]. intros k Hk.
  rewrite !get_true by done. rewrite Hc. destruct (decide (k = i)) as [->|Hne].
  - rewrite list_lookup_insert_eq; [tauto|]. rewrite contents_length by done. lia.
  - rewrite list_lookup_insert_ne by lia. tauto.
Qed.
Lemma set_err b i e : set i b = Err e -> chunk_count b <= i.
Proof.
  unfold set. destruct (Z.leb_spec (chunk_count b) i); [done|].
  destruct (_ !! _); [|done]. by destruct (negb _).
Qed.

(** ** LEB128 and the run-length encoding *)
Lemma land_127 x : Z.land x 127 = x mod 128.
Proof. change 127 with (Z.ones 7). by rewrite Z.land_ones. Qed.

Lemma lor_shiftl a x s : 0 <= s -> 0 <= a < 2 ^ s -> Z.lor a (Z.shiftl x s) = a + x * 2 ^ s.
Proof.
  intros Hs Ha. rewrite <- Z.shiftl_mul_pow2 by lia.
  assert (Hl : Z.land a (Z.shiftl x s) = 0).
  { apply Z.bits_inj'. intros j Hj. rewrite Z.land_spec, Z.bits_0. destruct (decide (j < s)).
    - rewrite Z.shiftl_spec_low by lia. apply andb_false_r.
    - rewrite <- (Z.mod_small a (2 ^ s)), Z.mod_pow2_bits_high by lia. done. }
  by rewrite <- Z.lxor_lor, <- Z.add_nocarry_lxor.
Qed.

Lemma lor_128 x : 0 <= x < 128 -> Z.lor x 128 = x + 128.
Proof. intros Hx. change 128 with (Z.shiftl 1 7) at 1. rewrite lor_shiftl by lia. lia. Qed.

Lemma high_bit_clear x : 0 <= x < 128 -> Z.land x 128 = 0.
Proof.
  intros Hx. change 128 with (Z.shiftl 1 7). apply Z.bits_inj'. intros j Hj.
  rewrite Z.land_spec, Z.bits_0. destruct (decide (j < 7)).
  - rewrite Z.shiftl_spec_low by lia. apply andb_false_r.
  - rewrite <- (Z.mod_small x (2 ^ 7)), Z.mod_pow2_bits_high by lia. done.
Qed.
Lemma high_bit_set x : Z.land (Z.lor x 128) 128 <> 0.
Proof.
  intros H. apply (f_equal (fun z => Z.testbit z 7)) in H.
  rewrite Z.land_spec, Z.lor_spec in H. change (Z.testbit 128 7) with true in H.
  by rewrite orb_true_r, Z.bits_0 in H.
Qed.

(** Reading a run resumes after the bytes its writer produced. *)
Lemma read_leb128_write fuel v tl pos acc shift :
  0 <= shift -> shift = 7 * (10 - Z.of_nat fuel) -> 0 <= acc < 2 ^ shift ->
  0 <= v < 2 ^ (64 - shift) -> (shift = 0 \/ v <> 0) ->
  read_leb128_loop (leb128_loop fuel v ++ tl) pos acc shift
    = Ok (acc + v * 2 ^ shift, pos + len (leb128_loop fuel v)).
Proof.
  revert v pos acc shift. induction fuel as [|f IH]; intros v pos acc shift Hs Hsh Ha Hv Hnz.
  { rewrite Hsh in Hv, Hnz. cbn in Hv. lia. }
  assert (Hq : Z.shiftr v 7 = v / 128) by (by rewrite Z.shiftr_div_pow2).
  assert (Hp : 2 ^ (64 - shift) * 2 ^ shift = 2 ^ 64).
  { rewrite <- Z.pow_add_r by lia. f_equal. lia. }
  assert (Hps : 0 < 2 ^ shift) by lia.
  assert (Hdm : v = 128 * (v / 128) + v mod 128) by (apply Z.div_mod; lia).
  assert (Hm : 0 <= v mod 128 < 128) by (apply Z.mod_pos_bound; lia).
  assert (Hcs : forall x, 0 <= x <= v -> checked_shl x shift = Some (Z.shiftl x shift)).
  { intros x Hx. unfold checked_shl. destruct (Z.ltb_spec shift 64); [|lia].
    f_equal. apply Z.mod_small. rewrite Z.shiftl_mul_pow2 by lia. nia. }
  cbn [leb128_loop]. rewrite land_127, Hq. destruct (Z.eqb_spec (v / 128) 0) as [H0|H0].
  - cbn [app read_leb128_loop]. destruct (Z.leb_spec 64 shift); [lia|].
    rewrite land_127, Z.mod_mod by lia.
    rewrite Hcs by lia. rewrite lor_shiftl by lia.
    assert (Z.land (v mod 128) 128 = 0) as -> by (apply high_bit_clear; lia).
    cbn [Z.eqb]. change (len [v mod 128]) with 1.
    destruct (Z.eqb_spec (v mod 128) 0), (Z.eqb_spec shift 0); cbn; do 2 f_equal; nia || lia.
  - pose proof (lor_128 (v mod 128) Hm) as Hlor.
    assert (Hsh' : 2 ^ (64 - shift) = 128 * 2 ^ (64 - (shift + 7)) /\ shift <= 57).
    { destruct (decide (shift <= 57)) as [|Hbig].
      - split; [|done]. change 128 with (2 ^ 7). rewrite <- Z.pow_add_r by lia. f_equal. lia.
      - assert (2 ^ (64 - shift) <= 2 ^ 6) by (apply Z.pow_le_mono_r; lia). dlia. }
    assert (Hps' : 2 ^ (shift + 7) = 128 * 2 ^ shift) by (rewrite Z.pow_add_r by lia; lia).
    cbn [app read_leb128_loop]. destruct (Z.leb_spec 64 shift); [lia|].
    rewrite land_127. replace (Z.lor (v mod 128) 128 mod 128) with (v mod 128) by (rewrite Hlor; dlia).
    rewrite Hcs by lia. rewrite lor_shiftl by lia.
    destruct (Z.eqb_spec (Z.land (Z.lor (v mod 128) 128) 128) 0) as [Hc|_];
      [by apply high_bit_set in Hc|].
    rewrite IH; [|lia|lia|nia|dlia|by right]. rewrite len_cons. f_equal. f_equal; [nia|lia].
Qed.

(** Reading a LEB128 run length back gives the value written, for every
    [u64], and stops right after it. *)
Lemma leb128_roundtrip pre v tl : u64 v ->
  read_leb128 (pre ++ write_leb128 v ++ tl) (len pre)
    = Ok (v, len pre + len (write_leb128 v)).
Proof.
  intros Hv. unfold read_leb128, write_leb128.
  replace (Z.to_nat (len pre)) with (length pre) by (unfold len; lia). rewrite drop_app_length.
  rewrite (read_leb128_write 10 v tl (len pre) 0 0); [|lia|done|done|done|by left].
  do 2 f_equal. lia.
Qed.

Lemma write_leb128_pos v : 0 < len (write_leb128 v).
Proof.
  unfold write_leb128. cbn [leb128_loop].
  destruct (Z.shiftr v 7 =? 0); rewrite len_cons; unfold len; lia.
Qed.

Lemma wf_ext_get b1 b2 : wf b1 -> wf b2 -> chunk_count b1 = chunk_count b2 ->
  (forall k, 0 <= k < chunk_count b1 -> get_or_false b1 k = get_or_false b2 k) -> b1 = b2.
Proof.
  intros H1 H2 Hn Hg. apply wf_ext; [done..|]. apply list_eq. intros i.
  destruct (decide (Z.of_nat i < chunk_count b1)).
  - rewrite <- (Nat2Z.id i). rewrite !get_or_false_spec by (done || lia). by rewrite Hg by lia.
  - rewrite !lookup_ge_None_2; [done| |]; rewrite contents_length by done; lia.
Qed.

Lemma set_get b i : wf b -> 0 <= i < chunk_count b ->
  exists v b', set i b = Ok (v, b') /\ wf b' /\ chunk_count b' = chunk_count b /\
    forall k, 0 <= k < chunk_count b -> get_or_false b' k = ((k =? i) || get_or_false b k)%bool.
Proof.
  intros Hwf Hi. destruct (set_spec b i Hwf Hi) as (was & b' & Hs & _ & Hwf' & Hn & Hc).
  exists (negb was), b'. split_and!; [done..|]. intros k Hk.
  pose proof (get_or_false_spec b k Hwf Hk) as H1.
  pose proof (get_or_false_spec b' k Hwf' ltac:(lia)) as H2. rewrite Hc in H2.
  destruct (Z.eqb_spec k i) as [->|]; cbn.
  - rewrite list_lookup_insert_eq in H2 by (by eapply lookup_lt_Some). congruence.
  - rewrite list_lookup_insert_ne in H2 by lia. congruence.
Qed.
Lemma set_fresh_count b i v b' : wf b -> 0 <= i < chunk_count b -> get_or_false b i = false ->
  set i b = Ok (v, b') -> set_count b' = set_count b + 1.
Proof.
  intros Hwf Hi Hf Hs. destruct (set_spec b i Hwf Hi) as (was & b1 & Hs1 & Hc & Hwf1 & _ & Hc1).
  rewrite Hs in Hs1. injection Hs1 as -> <-.
  pose proof (get_or_false_spec b i Hwf Hi) as Hg. rewrite Hf, Hc in Hg. injection Hg as ->.
  by rewrite (wf_set b' Hwf1), (wf_set b Hwf), Hc1, count_set_insert.
Qed.
Lemma set_count_range b : wf b -> 0 <= set_count b <= chunk_count b.
Proof.
  intros Hwf. rewrite (wf_set b Hwf). pose proof (contents_length b Hwf) as Hl. unfold count_set.
  pose proof (length_filter (fun v => v = true) (contents b)). pose proof (wf_count b Hwf).
  unfold len. lia.
Qed.

Lemma set_range_spec n b i : wf b -> 0 <= i -> i + Z.of_nat n <= chunk_count b ->
  exists b', set_range n i b = Ok (tt, b') /\ wf b' /\ chunk_count b' = chunk_count b /\
    forall k, 0 <= k < chunk_count b ->
      get_or_false b' k = (((i <=? k) && (k <? i + Z.of_nat n)) || get_or_false b k)%bool.
Proof.
  revert b i. induction n as [|n IH]; intros b i Hwf Hi Hn.
  - exists b. split_and!; [done..|]. intros k Hk.
    destruct (Z.leb_spec i k), (Z.ltb_spec k (i + Z.of_nat 0)); done || lia.
  - cbn [set_range]. destruct (set_get b i Hwf ltac:(lia)) as (v & b1 & Hs & Hwf1 & Hn1 & Hg1).
    destruct (IH b1 (i + 1) Hwf1 ltac:(lia) ltac:(lia)) as (b2 & Hr & Hwf2 & Hn2 & Hg2).
    exists b2. split_and!; [|done|lia|].
    + eapply bind_ok; [exact Hs|]. exact Hr.
    + intros k Hk. rewrite Hg2, Hg1 by lia.
      destruct (Z.leb_spec i k), (Z.leb_spec (i + 1) k), (Z.ltb_spec k (i + Z.of_nat (S n))),
        (Z.ltb_spec k (i + 1 + Z.of_nat n)), (Z.eqb_spec k i); done || lia.
Qed.

(** One iteration of [decode_rle] on a written run. *)
Lemma decode_loop_run pre v rest n fuel i is_set bm :
  u64 v -> 0 <= i -> v <= n - i -> wf bm -> chunk_count bm = n -> (0 < fuel)%nat ->
  exists bm', wf bm' /\ chunk_count bm' = n /\
    (forall k, 0 <= k < n -> get_or_false bm' k
       = ((is_set && ((i <=? k) && (k <? i + v))) || get_or_false bm k)%bool) /\
    decode_loop (pre ++ write_leb128 v ++ rest) n fuel (len pre) i is_set bm
      = decode_loop ((pre ++ write_leb128 v) ++ rest) n (pred fuel)
          (len (pre ++ write_leb128 v)) (i + v) (negb is_set) bm'.
Proof.
  intros Hv Hi Hr Hwf Hn Hf. destruct fuel as [|fuel]; [lia|].
  assert (Hv0 : 0 <= v) by apply Hv.
  assert (Hstep : exists bm', (if is_set then set_range (Z.to_nat v) i bm else Ok (tt, bm))
      = Ok (tt, bm') /\ wf bm' /\ chunk_count bm' = n /\
      (forall k, 0 <= k < n -> get_or_false bm' k
         = ((is_set && ((i <=? k) && (k <? i + v))) || get_or_false bm k)%bool)).
  { destruct is_set; [|by exists bm].
    destruct (set_range_spec (Z.to_nat v) bm i Hwf Hi ltac:(lia)) as (b' & H1 & H2 & H3 & H4).
    exists b'. split_and!; [done|done|lia|]. intros k Hk.
    rewrite H4, Z2Nat.id by lia. done. }
  destruct Hstep as (bm' & Hs & Hwf' & Hn' & Hg). exists bm'. split_and!; [done..|].
  cbn [decode_loop pred]. rewrite leb128_roundtrip by done. cbn [rbind].
  pose proof (write_leb128_pos v). pose proof (len_nonneg rest).
  destruct (Z.ltb_spec (len pre) (len (pre ++ write_leb128 v ++ rest))) as [_|Hge];
    [|rewrite !len_app in Hge; lia].
  destruct (Z.ltb_spec (n - i) v); [lia|]. rewrite Hs. cbn [rbind].
  rewrite <- app_assoc, (len_app pre (write_leb128 v)). done.
Qed.

Lemma decode_loop_end b pre i ex fuel bm :
  wf b -> wf bm -> chunk_count bm = chunk_count b -> i = chunk_count b ->
  (forall k, 0 <= k < chunk_count b ->
     get_or_false bm k = ((k <? i) && get_or_false b k)%bool) ->
  decode_loop (pre ++ []) (chunk_count b) fuel (len pre) i ex bm = Ok b.
Proof.
  intros Hwf Hwfm Hn -> Hg. rewrite app_nil_r.
  assert (bm = b) as ->.
  { apply wf_ext_get; [done..|]. intros k Hk. rewrite Hg by lia.
    by destruct (Z.ltb_spec k (chunk_count b)); [|lia]. }
  destruct fuel; cbn; by rewrite Z.ltb_irrefl, Z.eqb_refl.
Qed.

Lemma encode_loop_decodes b f pre i ex fuel bm :
  wf b -> wf bm -> chunk_count bm = chunk_count b -> 0 <= i <= chunk_count b ->
  (forall k, 0 <= k < chunk_count b ->
     get_or_false bm k = ((k <? i) && get_or_false b k)%bool) ->
  2 * (chunk_count b - i) - (if Bool.eqb (get_or_false b i) ex then 1 else 0) <= Z.of_nat f ->
  (length (encode_loop b f i ex) <= fuel)%nat ->
  decode_loop (pre ++ encode_loop b f i ex) (chunk_count b) fuel (len pre) i ex bm = Ok b.
Proof.
  intros Hwf. assert (HN : chunk_count b < 2 ^ 64).
  { pose proof (wf_count b Hwf). unfold MAX_CHUNK_COUNT in *. lia. }
  revert pre i ex fuel bm. induction f as [|f IH]; intros pre i ex fuel bm Hwfm Hn Hi Hg Hf Hfuel;
    cbn [encode_loop] in *; destruct (Z.ltb_spec i (chunk_count b)) as [Hlt|Hge].
  - destruct (Bool.eqb _ _); lia.
  - apply decode_loop_end; try done; lia.
  - destruct (Bool.eqb_spec (get_or_false b i) ex) as [He|He]; cbn [negb] in *.
    + destruct (skip_run_run b (get_or_false b i) i Hi) as (Hj & Hrun & Hstop).
      set (j := skip_run b (get_or_false b i) (to_end b i) i) in *. cbn zeta in *.
      assert (i < j).
      { destruct (decide (i = j)) as [Heq|]; [|lia]. rewrite <- Heq in Hstop.
        specialize (Hstop Hlt). by destruct (get_or_false b i). }
      rewrite length_app in Hfuel. pose proof (write_leb128_pos (j - i)). unfold len in *.
      destruct (decode_loop_run pre (j - i) (encode_loop b f j (negb ex)) (chunk_count b) fuel i ex bm)
        as (bm' & Hwf' & Hn' & Hg' & Hd); [split; lia|lia|lia|done|done|lia|].
      unfold len in Hd. rewrite Hd. replace (i + (j - i)) with j in * by lia.
      apply IH; [done|lia|lia| | |lia].
      * intros k Hk. rewrite Hg', Hg by lia.
        destruct (Z.leb_spec i k), (Z.ltb_spec k j), (Z.ltb_spec k i); cbn; try lia;
          rewrite ?andb_false_r; try done.
        rewrite Hrun, He by lia. by destruct ex.
      * destruct (decide (j < chunk_count b)) as [Hjn|]; [|destruct (Bool.eqb _ _); lia].
        rewrite (Hstop Hjn), He. destruct ex; cbn; lia.
    + rewrite length_app in Hfuel. pose proof (write_leb128_pos 0). unfold len in *.
      destruct (decode_loop_run pre 0 (encode_loop b f i (negb ex)) (chunk_count b) fuel i ex bm)
        as (bm' & Hwf' & Hn' & Hg' & Hd); [done|lia|lia|done|done|lia|].
      unfold len in Hd. rewrite Hd. replace (i + 0) with i in * by lia.
      apply IH; [done|lia|lia| | |lia].
      * intros k Hk. rewrite Hg', Hg by lia.
        destruct (Z.leb_spec i k), (Z.ltb_spec k i); try lia; by rewrite andb_false_r.
      * destruct (get_or_false b i), ex; cbn; try done; lia.
  - apply decode_loop_end; try done; lia.
Qed.

Lemma decode_encode_rle b : wf b -> decode_rle (chunk_count b) (encode_rle b) = Ok b.
Proof.
  intros Hwf. pose proof (wf_count b Hwf) as Hn. unfold decode_rle.
  destruct (Z.ltb_spec MAX_CHUNK_COUNT (chunk_count b)); [lia|].
  destruct (new_spec (chunk_count b) Hn) as (bm & -> & Hwfm & Hcm & Hz). cbn [rbind].
  apply (encode_loop_decodes b _ [] 0 false); [done|done|done|lia| |destruct (Bool.eqb _ _); lia|done].
  intros k Hk. destruct (Z.ltb_spec k 0); [lia|].
  pose proof (get_or_false_spec bm k Hwfm ltac:(lia)) as Hg. rewrite Hz in Hg.
  by apply lookup_replicate in Hg as [-> _].
Qed.

(** The run-length encoding loses nothing: decoding the encoding of a
    well-formed bitmap gives that bitmap back, bytes and count included. *)
Theorem rle_roundtrip b : wf b -> decode_rle (chunk_count b) (encode_rle b) = Ok b.
Proof. apply decode_encode_rle. Qed.

Lemma rle_roundtrip_witness : decode_rle (chunk_count demo) (encode_rle demo) = Ok demo.
Proof. apply rle_roundtrip. apply demo_wf. Defined.

Lemma leb128_loop_ok fuel v : bytes_ok (leb128_loop fuel v) /\ len (leb128_loop fuel v) <= Z.of_nat fuel.
Proof.
  revert v. induction fuel as [|f IH]; intros v; cbn [leb128_loop]; [by split; [constructor|]|].
  rewrite land_127. assert (Hb : 0 <= v mod 128 < 128) by (apply Z.mod_pos_bound; lia).
  destruct (_ =? 0).
  - split; [by constructor; [unfold is_byte; lia|constructor]|unfold len; cbn [length]; lia].
  - destruct (IH (Z.shiftr v 7)) as [I1 I2]. rewrite len_cons. split; [constructor; [|done]|lia].
    rewrite lor_128 by lia. unfold is_byte. lia.
Qed.
Lemma encode_loop_ok b fuel i ex :
  bytes_ok (encode_loop b fuel i ex) /\ len (encode_loop b fuel i ex) <= 10 * Z.of_nat fuel.
Proof.
  assert (Hw : forall v, bytes_ok (write_leb128 v) /\ len (write_leb128 v) <= 10)
    by (intros v; apply (leb128_loop_ok 10)).
  revert i ex. induction fuel as [|f IH]; intros i ex; cbn [encode_loop]; [by split; [constructor|]|].
  destruct (i <? chunk_count b); [|split; [constructor|unfold len; cbn [length]; lia]].
  cbn zeta. destruct (negb _).
  - destruct (IH i (negb ex)), (Hw 0). rewrite len_app. split; [by apply bytes_ok_app|lia].
  - set (j := skip_run _ _ _ _). destruct (IH j (negb ex)), (Hw (j - i)). rewrite len_app.
    split; [by apply bytes_ok_app|lia].
Qed.
Lemma encode_rle_ok b : wf b -> bytes_ok (encode_rle b) /\ u64 (len (encode_rle b)).
Proof.
  intros Hwf. pose proof (wf_count b Hwf). unfold MAX_CHUNK_COUNT in *. unfold encode_rle.
  destruct (encode_loop_ok b (2 * Z.to_nat (chunk_count b)) 0 false) as [Hb Hl].
  split; [done|]. split; [apply len_nonneg|lia].
Qed.

(** ** What [decode_rle] accepts *)
Lemma read_leb128_loop_safe rest pos acc shift :
  0 <= acc -> match read_leb128_loop rest pos acc shift with
  | Ok (v, pos') => 0 <= v /\ pos < pos'
  | Err _ => True
  | Panic => False
  end.
Proof.
  revert pos acc shift. induction rest as [|x rest IH]; intros pos acc shift Ha; cbn; [done|].
  destruct (64 <=? shift); [done|]. unfold checked_shl. destruct (shift <? 64); [|done].
  set (y := wrap 64 (Z.shiftl (Z.land x 127) shift)).
  assert (0 <= Z.lor acc y).
  { apply Z.lor_nonneg. split; [done|]. apply Z.mod_pos_bound. lia. }
  destruct (Z.land x 128 =? 0).
  - destruct (_ && _); [done|]. split; [done|lia].
  - specialize (IH (pos + 1) (Z.lor acc y) (shift + 7) ltac:(done)).
    destruct (read_leb128_loop _ _ _ _) as [[v pos']|e|]; [|done|done]. split; [|lia]. tauto.
Qed.

Lemma decode_loop_safe encoded n fuel pos i is_set bm :
  wf bm -> chunk_count bm = n -> 0 <= i <= n -> 0 <= pos -> len encoded - pos <= Z.of_nat fuel ->
  match decode_loop encoded n fuel pos i is_set bm with
  | Ok b => wf b /\ chunk_count b = n
  | Err _ => True
  | Panic => False
  end.
Proof.
  revert pos i is_set bm. induction fuel as [|fuel IH]; intros pos i is_set bm Hwf Hn Hi Hp Hf;
    cbn [decode_loop]; destruct (Z.ltb_spec pos (len encoded)) as [Hlt|].
  - lia.
  - by destruct (negb _).
  - unfold read_leb128.
    pose proof (read_leb128_loop_safe (drop (Z.to_nat pos) encoded) pos 0 0 ltac:(lia)) as Hr.
    destruct (read_leb128_loop _ _ _ _) as [[run pos']|e|]; cbn [rbind]; [|done|done].
    destruct Hr as [Hr Hpos]. destruct (Z.ltb_spec (n - i) run); [done|].
    destruct is_set; cbn [rbind].
    + destruct (set_range_spec (Z.to_nat run) bm i Hwf ltac:(lia) ltac:(lia)) as (b' & -> & H1 & H2 & _).
      cbn [rbind]. apply IH; [done|lia..].
    + apply IH; [done|lia..].
  - by destruct (negb _).
Qed.

Lemma decode_rle_total n encoded : u64 n ->
  match decode_rle n encoded with
  | Ok b => wf b /\ chunk_count b = n
  | Err _ => True
  | Panic => False
  end.
Proof.
  intros Hn. unfold decode_rle. destruct (Z.ltb_spec MAX_CHUNK_COUNT n); [done|].
  unfold uint_range in Hn.
  destruct (new_spec n ltac:(lia)) as (bm & -> & Hwf & Hc & _). cbn [rbind].
  apply decode_loop_safe; [done|done|lia|lia|unfold len; lia].
Qed.

(** [decode_rle] is total on untrusted input: it never panics, and what
    it returns is a well-formed bitmap of exactly the requested size. *)
Theorem decode_rle_safe n encoded : u64 n ->
  match decode_rle n encoded with
  | Ok b => wf b /\ chunk_count b = n
  | Err _ => True
  | Panic => False
  end.
Proof. apply decode_rle_total. Qed.

Lemma decode_rle_safe_witness :
  match decode_rle 20 [2; 3; 0; 15] with
  | Ok b => wf b /\ chunk_count b = 20
  | Err _ => True
  | Panic => False
  end.
Proof. apply (decode_rle_safe 20 [2; 3; 0; 15]). done. Defined.

(** The encoding is not canonical: the tenth LEB128 byte is shifted by 63
    and loses its upper bits, so a run of eight chunks has a second ten-byte
    encoding that [decode_rle] also accepts; a zero run between two others is
    accepted as well. *)
Theorem rle_not_canonical :
  let b := mkBitmap 8 [0] 0 in
  decode_rle 8 [8] = Ok b /\
  decode_rle 8 [0x88; 0x80; 0x80; 0x80; 0x80; 0x80; 0x80; 0x80; 0x80; 0x02] = Ok b /\
  decode_rle 8 [3; 0; 5] = Ok b /\ encode_rle b = [8].
Proof. by vm_compute. Qed.
