(* ===== verification/Crypto.v ===== *)
(** * Cryptographic primitives (crypto.rs) and their interface

    The hash, KDF, MAC and AEAD algorithms are third-party crates (blake3,
    sha2, hkdf, hmac, chacha20poly1305).  They are the operations of the
    class [Primitives]; what the core relies on is the class
    [PrimitiveLaws]: fixed output lengths and AEAD correctness.  The
    public-key algorithms are the class [PkPrimitives] of [Identity].
    Nothing is assumed about secrecy or collision resistance; theorems that
    need a collision-free set of inputs say which inputs. *)

From S2P Require Import Prelude.

(** crypto.rs 10-10 [SUITE_ID] *)
Definition SUITE_ID : Z := 1.
(** crypto.rs 11-11 [PROTOCOL_MAJOR] *)
Definition PROTOCOL_MAJOR : Z := 2.
(** crypto.rs 12-12 [PROTOCOL_MINOR] *)
Definition PROTOCOL_MINOR : Z := 0.
(** crypto.rs 13-13 [ALPN] *)
Definition ALPN : bytes := lit "reyta-transfer/2".
(** crypto.rs 15-15 [HASH_LEN] *)
Definition HASH_LEN : Z := 48.

(** The operations of the crates. *)
Class Primitives : Type := {
  blake3_hash : bytes -> bytes;
  blake3_derive_key : bytes -> bytes -> bytes;
  sha384_digest : bytes -> bytes;
  hkdf_extract_sha384 : bytes -> bytes -> bytes;
  hkdf_expand_sha384 : Z -> bytes -> bytes -> bytes;
  hmac_sha384_tag : bytes -> bytes -> bytes;
  (** [XChaCha20Poly1305::new_from_slice(key)?.encrypt(nonce, {msg, aad})] *)
  aead_encrypt : bytes -> bytes -> bytes -> bytes -> option bytes;
  aead_decrypt : bytes -> bytes -> bytes -> bytes -> option bytes
}.

(** Largest message any caller encrypts; far below the cipher's own limit
    of 2^38 - 64 bytes. *)
Definition AEAD_MAX : Z := 2 ^ 38 - 64.

(** Documented behaviour of the crates. *)
Class PrimitiveLaws {P : Primitives} : Prop := {
  blake3_len x : array 32 (blake3_hash x);
  derive_key_len c x : array 32 (blake3_derive_key c x);
  sha384_len x : array HASH_LEN (sha384_digest x);
  hkdf_extract_len s x : array HASH_LEN (hkdf_extract_sha384 s x);
  hkdf_expand_len n k i : 0 <= n <= 255 * HASH_LEN -> array n (hkdf_expand_sha384 n k i);
  hmac_len k x : array HASH_LEN (hmac_sha384_tag k x);
  aead_correct key nonce aad msg :
    array 32 key -> array 24 nonce -> bytes_ok msg -> len msg <= AEAD_MAX ->
    exists ct, aead_encrypt key nonce aad msg = Some ct /\ len ct = len msg + 16 /\
      bytes_ok ct /\ aead_decrypt key nonce aad ct = Some msg;
  aead_open_len key nonce aad ct msg :
    aead_decrypt key nonce aad ct = Some msg -> len ct = len msg + 16 /\ bytes_ok msg
}.

(** A collision-free set of hash inputs. *)
Definition collision_free {P : Primitives} (xs ys : list bytes) : Prop :=
  forall x y, x ∈ xs -> y ∈ ys -> blake3_hash x = blake3_hash y -> x = y.

(** SHA-384 does not collide on these two inputs. *)
Definition no_collision {P : Primitives} (x y : bytes) : Prop := sha384_digest x = sha384_digest y -> x = y.

(** Decided by computation on concrete inputs. *)
Lemma collision_free_check {P : Primitives} xs ys :
  forallb (fun x => forallb (fun y => implb (bytes_eqb (blake3_hash x) (blake3_hash y)) (bytes_eqb x y)) ys) xs = true ->
  collision_free xs ys.
Proof.
  intros H x y Hx Hy He. rewrite forallb_forall in H. specialize (H x ltac:(by apply list_elem_of_In)).
  rewrite forallb_forall in H. specialize (H y ltac:(by apply list_elem_of_In)).
  rewrite He, (proj2 (bytes_eqb_true _ _) eq_refl) in H. by apply bytes_eqb_true.
Qed.

Section Crypto.
Context {P : Primitives}.

(** crypto.rs 20-26 [sha384] *)
Definition sha384 (parts : list bytes) : bytes := sha384_digest (concat parts).
(** crypto.rs 29-32 [hkdf_extract] *)
Definition hkdf_extract (salt ikm : bytes) : bytes := hkdf_extract_sha384 salt ikm.
(** crypto.rs 35-42 [hkdf_expand] *)
Definition hkdf_expand (n : Z) (prk : bytes) (info : list bytes) : bytes :=
  hkdf_expand_sha384 n prk (concat info).
(** crypto.rs 45-49 [hmac_sha384] *)
Definition hmac_sha384 (key data : bytes) : bytes := hmac_sha384_tag key data.
End Crypto.

(** crypto.rs 52-55 [ct_eq] *)
Definition ct_eq (a b : bytes) : bool := (len a =? len b) && bytes_eqb a b.

Lemma ct_eq_true a b : ct_eq a b = true <-> a = b.
Proof.
  unfold ct_eq. rewrite andb_true_iff, bytes_eqb_true, Z.eqb_eq.
  split; [by intros [_ ->]|by intros ->].
Qed.

(** ** A concrete instance

    Checksums in place of the algorithms: it satisfies every law, so the
    theorems stated over [PrimitiveLaws] can be run. *)
Module Toy.
Definition checksum (n : nat) (x : bytes) : bytes :=
  be_bytes n (fold_left (fun acc b => Z.land (257 * acc + b + 1) (Z.ones 127)) x 0).
Definition toy_tag (key nonce aad msg : bytes) : bytes := checksum 16 (key ++ nonce ++ aad ++ msg).
Definition toy_seal (key nonce aad msg : bytes) : option bytes := Some (msg ++ toy_tag key nonce aad msg).
Definition toy_open (key nonce aad ct : bytes) : option bytes :=
  let n := (length ct - 16)%nat in
  let msg := take n ct in
  if bool_decide (drop n ct = toy_tag key nonce aad msg /\ bytes_ok msg) then Some msg else None.

#[export] Instance prims : Primitives := {
  blake3_hash := checksum 32;
  blake3_derive_key c x := checksum 32 (c ++ x);
  sha384_digest := checksum 48;
  hkdf_extract_sha384 s x := checksum 48 (s ++ x);
  hkdf_expand_sha384 n k i := checksum (Z.to_nat n) (k ++ i);
  hmac_sha384_tag k x := checksum 48 (k ++ x);
  aead_encrypt := toy_seal;
  aead_decrypt := toy_open
}.

Lemma checksum_array n x : array (Z.of_nat n) (checksum n x).
Proof. split; [apply len_be_bytes|apply bytes_ok_be]. Qed.

#[export] Instance laws : PrimitiveLaws.
Proof.
  split.
  - intros. apply (checksum_array 32).
  - intros. apply (checksum_array 32).
  - intros. apply (checksum_array 48).
  - intros. apply (checksum_array 48).
  - intros n k i Hn. cbn. pose proof (checksum_array (Z.to_nat n) (k ++ i)) as H.
    by rewrite Z2Nat.id in H by lia.
  - intros. apply (checksum_array 48).
  - intros key nonce aad msg _ _ Hm _. cbn. unfold toy_seal, toy_open.
    assert (Ht : array 16 (toy_tag key nonce aad msg)) by apply (checksum_array 16).
    eexists; split_and!; [done| | |].
    + rewrite len_app. destruct Ht as [-> _]. done.
    + apply bytes_ok_app. split; [done|apply Ht].
    + destruct Ht as [Hl _]. unfold len in Hl.
      assert (length (msg ++ toy_tag key nonce aad msg) - 16 = length msg)%nat as ->
        by (rewrite length_app; lia).
      rewrite take_app_length, drop_app_length. by rewrite bool_decide_true.
  - cbn. unfold toy_open. intros key nonce aad ct msg. case_bool_decide as H; [|done].
    destruct H as [Ht Hm]. intros [= <-]. split; [|done].
    apply (f_equal len) in Ht.
    assert (len (toy_tag key nonce aad (take (length ct - 16) ct)) = 16) as Hl
      by apply (checksum_array 16).
    rewrite Hl in Ht. unfold len in *. rewrite length_drop in Ht. rewrite length_take. lia.
Qed.
End Toy.
