(* ===== verification/Merkle.v ===== *)
(** * The ciphertext Merkle commitment (merkle.rs)

    A left-balanced BLAKE3 tree over the leaf hashes.  The recursive
    functions take the recursion depth as fuel; a tree over [n] leaves has
    depth at most 64 for every [n] below 2^64, so the fuel never runs out
    ([root_fuel], [dirs_fuel]). *)

From S2P Require Import Prelude Crypto.

(** merkle.rs 6-6 [LEAF_DOMAIN] *)
Definition LEAF_DOMAIN : bytes := lit "RTP2-MERKLE-LEAF-v1" ++ [0].
(** merkle.rs 7-7 [NODE_DOMAIN] *)
Definition NODE_DOMAIN : bytes := lit "RTP2-MERKLE-NODE-v1" ++ [0].
(** merkle.rs 8-8 [EMPTY_DOMAIN] *)
Definition EMPTY_DOMAIN : bytes := lit "RTP2-MERKLE-EMPTY-v1" ++ [0].

(** merkle.rs 11-17 [ProofError] *)
Inductive ProofError : Type :=
| IndexOutOfRange
| DepthExceeded
| TrailingSiblings
| RootMismatch
| Malformed.

(** merkle.rs 20-23 [Direction] *)
Inductive Direction : Type := Left | Right.
#[export] Instance Direction_eq_dec : EqDecision Direction.
Proof. solve_decision. Defined.

(** merkle.rs 26-29 [ProofStep] *)
Record ProofStep : Type := mkStep { direction : Direction; hash : bytes }.

(** The doubling loop [while k * 2 < n { k *= 2; }] on [usize]. *)
Fixpoint double_below (fuel : nat) (k n : Z) : Z :=
  match fuel with
  | O => k
  | S f => if wrap 64 (k * 2) <? n then double_below f (wrap 64 (k * 2)) n else k
  end.
(** merkle.rs 70-77 [largest_power_of_two_below] *)
Definition largest_power_of_two_below (n : Z) : Z := double_below 64 1 n.

(** The overflow-free loop [while k <= (leaf_count - 1) / 2 { k *= 2; }]. *)
Fixpoint double_upto (fuel : nat) (k leaf_count : Z) : Z :=
  match fuel with
  | O => k
  | S f => if k <=? (leaf_count - 1) / 2 then double_upto f (wrap 64 (k * 2)) leaf_count else k
  end.

(** merkle.rs 167-185 [expected_directions_inner] *)
Fixpoint expected_directions_inner (fuel : nat) (leaf_count index : Z) (dirs : list Direction)
  : list Direction :=
  match fuel with
  | O => dirs
  | S f =>
    if leaf_count <=? 1 then dirs else
    let k := double_upto 64 1 leaf_count in
    if index <? k then expected_directions_inner f k index dirs ++ [Right]
    else expected_directions_inner f (leaf_count - k) (index - k) dirs ++ [Left]
  end.
(** merkle.rs 161-165 [expected_directions] *)
Definition expected_directions (leaf_count index : Z) : list Direction :=
  expected_directions_inner 64 leaf_count index [].

(** [x.leading_zeros()] on [u64] *)
Definition leading_zeros (x : Z) : Z := if x =? 0 then 64 else 63 - Z.log2 x.

(** The zip comparing the directions of the siblings with the expected ones. *)
Fixpoint dirs_match (siblings : list ProofStep) (expected : list Direction) : bool :=
  match siblings, expected with
  | s :: ss, e :: es => bool_decide (direction s = e) && dirs_match ss es
  | _, _ => true
  end.

Section Merkle.
Context {P : Primitives}.

(** merkle.rs 32-39 [leaf_hash] *)
Definition leaf_hash (index : Z) (ciphertext : bytes) : bytes :=
  blake3_hash (LEAF_DOMAIN ++ be_bytes 8 index ++ be_bytes 4 (wrap 32 (len ciphertext)) ++ ciphertext).

(** The bytes an inner node hashes. *)
Definition node_input (left right : bytes) : bytes := NODE_DOMAIN ++ left ++ right.
(** merkle.rs 42-48 [node_hash] *)
Definition node_hash (left right : bytes) : bytes := blake3_hash (node_input left right).

(** merkle.rs 51-53 [empty_root] *)
Definition empty_root : bytes := blake3_hash EMPTY_DOMAIN.

Fixpoint root_aux (fuel : nat) (leaves : list bytes) : bytes :=
  match leaves with
  | [] => empty_root
  | [l] => l
  | _ =>
    match fuel with
    | O => []
    | S f =>
      let k := Z.to_nat (largest_power_of_two_below (len leaves)) in
      node_hash (root_aux f (take k leaves)) (root_aux f (drop k leaves))
    end
  end.
(** merkle.rs 57-68 [merkle_root] *)
Definition merkle_root (leaves : list bytes) : bytes := root_aux 64 leaves.

(** merkle.rs 90-108 [build_proof_inner] *)
Fixpoint build_proof_inner (fuel : nat) (leaves : list bytes) (index : Z) (proof : list ProofStep)
  : list ProofStep :=
  match fuel with
  | O => proof
  | S f =>
    if len leaves <=? 1 then proof else
    let k := largest_power_of_two_below (len leaves) in
    if index <? k then
      build_proof_inner f (take (Z.to_nat k) leaves) index proof
        ++ [mkStep Right (merkle_root (drop (Z.to_nat k) leaves))]
    else
      build_proof_inner f (drop (Z.to_nat k) leaves) (index - k) proof
        ++ [mkStep Left (merkle_root (take (Z.to_nat k) leaves))]
  end.
(** merkle.rs 81-88 [build_proof] *)
Definition build_proof (leaves : list bytes) (index : Z) : result ProofError (list ProofStep) :=
  if len leaves <=? index then Err IndexOutOfRange
  else Ok (build_proof_inner 64 leaves index []).

(** One level of the climb. *)
Definition climb (acc : bytes) (step : ProofStep) : bytes :=
  match direction step with
  | Left => node_hash (hash step) acc
  | Right => node_hash acc (hash step)
  end.

(** merkle.rs 115-158 [verify_proof] *)
Definition verify_proof (leaf : bytes) (index leaf_count : Z) (siblings : list ProofStep)
    (expected_root : bytes) : result ProofError unit :=
  if leaf_count <=? index then Err IndexOutOfRange else
  if leaf_count =? 0 then Err Malformed else
  let max_depth := 64 - leading_zeros (leaf_count - 1) in
  if max_depth <? len siblings then Err DepthExceeded else
  let expected_dirs := expected_directions leaf_count index in
  if negb (len siblings =? len expected_dirs) then Err TrailingSiblings else
  if negb (dirs_match siblings expected_dirs) then Err Malformed else
  let acc := fold_left climb siblings leaf in
  if ct_eq acc expected_root then Ok tt else Err RootMismatch.
End Merkle.

Example dirs_7 : map (expected_directions 7) [0; 3; 4; 6]
  = [[Right; Right; Right]; [Left; Left; Right]; [Right; Right; Left]; [Left; Left]].
Proof. reflexivity. Qed.
Example dirs_max : len (expected_directions (2 ^ 64 - 1) 0) = 64.
Proof. vm_compute. reflexivity. Qed.

(** ** The split point *)
(** [split n k]: [k] is the largest power of two below [n]. *)
Definition split_at (n k : Z) : Prop := (exists j, 0 <= j /\ k = 2 ^ j) /\ k < n <= 2 * k.

Lemma split_at_unique n k1 k2 : split_at n k1 -> split_at n k2 -> k1 = k2.
Proof.
  intros [(j1 & Hj1 & ->) H1] [(j2 & Hj2 & ->) H2].
  f_equal. destruct (Z.lt_trichotomy j1 j2) as [H|[H|H]]; [|done|].
  - assert (2 ^ (j1 + 1) <= 2 ^ j2) by (apply Z.pow_le_mono_r; lia).
    rewrite Z.pow_add_r in * by lia. lia.
  - assert (2 ^ (j2 + 1) <= 2 ^ j1) by (apply Z.pow_le_mono_r; lia).
    rewrite Z.pow_add_r in * by lia. lia.
Qed.

Lemma double_upto_split fuel j n :
  2 <= n < 2 ^ 64 -> 0 <= j -> 2 ^ j < n -> n <= 2 ^ (j + Z.of_nat fuel) ->
  split_at n (double_upto fuel (2 ^ j) n).
Proof.
  intros Hn. revert j. induction fuel as [|f IH]; intros j Hj Hlt Hf; cbn [double_upto].
  { rewrite Z.add_0_r in Hf. lia. }
  destruct (Z.leb_spec (2 ^ j) ((n - 1) / 2)) as [Hle|Hgt].
  - assert (H2 : 2 ^ j * 2 = 2 ^ (j + 1)) by (rewrite Z.pow_add_r by lia; lia).
    assert (2 ^ j * 2 < n) by dlia.
    unfold wrap. rewrite Z.mod_small, H2 by lia. apply IH; [lia|lia|].
    by replace (j + 1 + Z.of_nat f) with (j + Z.of_nat (S f)) by lia.
  - split; [by exists j|]. split; [done|]. dlia.
Qed.

Lemma double_below_split fuel j n :
  2 <= n <= 2 ^ 63 -> 0 <= j -> 2 ^ j < n -> n <= 2 ^ (j + Z.of_nat fuel) ->
  split_at n (double_below fuel (2 ^ j) n).
Proof.
  intros Hn. revert j. induction fuel as [|f IH]; intros j Hj Hlt Hf; cbn [double_below].
  { rewrite Z.add_0_r in Hf. lia. }
  assert (H2 : 2 ^ j * 2 = 2 ^ (j + 1)) by (rewrite Z.pow_add_r by lia; lia).
  unfold wrap. rewrite Z.mod_small, H2 by lia.
  destruct (Z.ltb_spec (2 ^ (j + 1)) n) as [Hle|Hgt].
  - apply IH; [lia|lia|]. by replace (j + 1 + Z.of_nat f) with (j + Z.of_nat (S f)) by lia.
  - split; [by exists j|]. lia.
Qed.

(** The two loops of the file compute the same split where both are defined. *)
Lemma upto_split n : 2 <= n < 2 ^ 64 -> split_at n (double_upto 64 1 n).
Proof. intros Hn. apply (double_upto_split 64 0 n); [done|lia|lia|]. cbn. lia. Qed.
Lemma lp2_split n : 2 <= n <= 2 ^ 63 -> split_at n (largest_power_of_two_below n).
Proof. intros Hn. apply (double_below_split 64 0 n); [done|lia|lia|]. cbn. lia. Qed.

Lemma split_halves n k f : split_at n k -> n <= 2 ^ Z.of_nat (S f) ->
  0 < k < n /\ k <= 2 ^ Z.of_nat f /\ n - k <= 2 ^ Z.of_nat f.
Proof.
  intros [(j & Hj & ->) Hk] Hn. rewrite Nat2Z.inj_succ in Hn.
  assert (Hjf : j <= Z.of_nat f).
  { apply Z.lt_succ_r. apply (Z.pow_lt_mono_r_iff 2); lia. }
  assert (2 ^ j <= 2 ^ Z.of_nat f) by (apply Z.pow_le_mono_r; lia). lia.
Qed.

Lemma pow63 f : 2 ^ Z.of_nat f <= 2 ^ 63 -> (f <= 63)%nat.
Proof. intros H. apply Z.pow_le_mono_r_iff in H; lia. Qed.

Lemma lp2_upto n : 2 <= n <= 2 ^ 63 -> double_upto 64 1 n = largest_power_of_two_below n.
Proof. intros Hn. eapply split_at_unique; [apply upto_split; lia|by apply lp2_split]. Qed.

(** ** The recursion depth is enough *)
Lemma len_take_k {A} (l : list A) k : 0 <= k <= len l -> len (take (Z.to_nat k) l) = k.
Proof. intros Hk. unfold len in *. rewrite length_take. lia. Qed.
Lemma len_drop_k {A} (l : list A) k : 0 <= k <= len l -> len (drop (Z.to_nat k) l) = len l - k.
Proof. intros Hk. unfold len in *. rewrite length_drop. lia. Qed.

Lemma dirs_step f n i : expected_directions_inner (S f) n i [] =
  if n <=? 1 then [] else
  if i <? double_upto 64 1 n then expected_directions_inner f (double_upto 64 1 n) i [] ++ [Right]
  else expected_directions_inner f (n - double_upto 64 1 n) (i - double_upto 64 1 n) [] ++ [Left].
Proof. done. Qed.

Lemma dirs_fuel f g n i : 0 <= n < 2 ^ 64 -> n <= 2 ^ Z.of_nat f -> n <= 2 ^ Z.of_nat g ->
  expected_directions_inner f n i [] = expected_directions_inner g n i [].
Proof.
  revert g n i. induction f as [|f IH]; intros [|g] n i Hn Hf Hg; rewrite ?dirs_step;
    destruct (Z.leb_spec n 1) as [|Hgt]; try done; try (cbn in *; lia).
  pose proof (upto_split n ltac:(lia)) as Hs.
  destruct (split_halves _ _ f Hs Hf) as (H1 & H2 & H3).
  destruct (split_halves _ _ g Hs Hg) as (_ & H2' & H3').
  destruct (i <? double_upto 64 1 n); f_equal; apply IH; lia.
Qed.

Lemma dirs_63 n i : 0 <= n <= 2 ^ 63 ->
  expected_directions_inner 63 n i [] = expected_directions n i.
Proof. intros Hn. apply (dirs_fuel 63 64); [lia|exact (proj2 Hn)|]. change (n <= 2 ^ 64). lia. Qed.
(** One level of the canonical path, without fuel. *)
Lemma expected_directions_step n i : 2 <= n <= 2 ^ 63 ->
  let k := largest_power_of_two_below n in
  expected_directions n i =
    if i <? k then expected_directions k i ++ [Right]
    else expected_directions (n - k) (i - k) ++ [Left].
Proof.
  intros Hn. cbn zeta. unfold expected_directions at 1. rewrite (dirs_step 63).
  destruct (Z.leb_spec n 1); [lia|]. rewrite lp2_upto by done.
  destruct (lp2_split n Hn) as [_ Hk].
  destruct (i <? largest_power_of_two_below n); by rewrite dirs_63 by lia.
Qed.
Lemma expected_directions_one n i : n <= 1 -> expected_directions n i = [].
Proof.
  intros Hn. unfold expected_directions. rewrite (dirs_step 63).
  by destruct (Z.leb_spec n 1); [|lia].
Qed.

#[global] Opaque expected_directions.

(** The path is no longer than the depth the verifier allows. *)
Lemma expected_directions_depth f n i : n <= 2 ^ Z.of_nat f -> n <= 2 ^ 63 ->
  len (expected_directions n i) <= Z.of_nat f.
Proof.
  revert n i. induction f as [|f IH]; intros n i Hf Hn.
  { by rewrite expected_directions_one by (cbn in Hf; lia). }
  destruct (decide (n <= 1)); [rewrite expected_directions_one by done; unfold len; cbn [length]; lia|].
  rewrite expected_directions_step by lia.
  destruct (split_halves _ _ f (lp2_split n ltac:(lia)) Hf) as (H1 & H2 & H3).
  destruct (_ <? _); rewrite len_app;
    change (len [Right]) with 1; change (len [Left]) with 1.
  - specialize (IH (largest_power_of_two_below n) i ltac:(lia) ltac:(lia)). lia.
  - specialize (IH (n - largest_power_of_two_below n) (i - largest_power_of_two_below n)
      ltac:(lia) ltac:(lia)). lia.
Qed.

(** A path determines its position. *)
Lemma expected_directions_inj f n i j : n <= 2 ^ Z.of_nat f -> n <= 2 ^ 63 ->
  0 <= i < n -> 0 <= j < n -> expected_directions n i = expected_directions n j -> i = j.
Proof.
  revert n i j. induction f as [|f IH]; intros n i j Hf Hn Hi Hj; [cbn in Hf; lia|].
  destruct (decide (n <= 1)); [lia|]. rewrite (expected_directions_step n i), (expected_directions_step n j) by lia. cbn zeta.
  destruct (split_halves _ _ f (lp2_split n ltac:(lia)) Hf) as (H1 & H2 & H3).
  set (k := largest_power_of_two_below n) in *.
  destruct (Z.ltb_spec i k), (Z.ltb_spec j k); intros He;
    (apply app_inj_2 in He as [He Hl]; [|done]); try discriminate Hl; apply IH in He; lia.
Qed.

Section Proofs.
Context {P : Primitives} {L : PrimitiveLaws}.

Lemma root_short f (leaves : list bytes) : len leaves <= 1 ->
  root_aux f leaves = match leaves with [] => empty_root | l :: _ => l end.
Proof.
  destruct leaves as [|a [|b l]]; [by destruct f..|].
  rewrite !len_cons. pose proof (len_nonneg l). lia.
Qed.
Lemma root_step f (leaves : list bytes) : 1 < len leaves ->
  root_aux (S f) leaves =
    node_hash (root_aux f (take (Z.to_nat (largest_power_of_two_below (len leaves))) leaves))
              (root_aux f (drop (Z.to_nat (largest_power_of_two_below (len leaves))) leaves)).
Proof. destruct leaves as [|a [|b l]]; [by cbn..|done]. Qed.

Lemma root_fuel f g (leaves : list bytes) :
  len leaves <= 2 ^ 63 -> len leaves <= 2 ^ Z.of_nat f -> len leaves <= 2 ^ Z.of_nat g ->
  root_aux f leaves = root_aux g leaves.
Proof.
  revert g leaves. induction f as [|f IH]; intros g leaves Hn Hf Hg;
    (destruct (decide (len leaves <= 1)); [by rewrite !root_short by done|]);
    [cbn in Hf; lia|].
  destruct g as [|g]; [cbn in Hg; lia|]. rewrite !root_step by lia.
  pose proof (lp2_split (len leaves) ltac:(lia)) as Hs.
  destruct (split_halves _ _ f Hs Hf) as (H1 & H2 & H3).
  destruct (split_halves _ _ g Hs Hg) as (_ & H2' & H3').
  f_equal; apply IH; rewrite ?len_take_k, ?len_drop_k by lia; lia.
Qed.

Lemma root_63 (leaves : list bytes) : len leaves <= 2 ^ 63 -> root_aux 63 leaves = merkle_root leaves.
Proof. intros Hn. apply (root_fuel 63 64); [done|done|]. change (len leaves <= 2 ^ 64). lia. Qed.
(** [merkle_root] satisfies the recursion of the source, without fuel. *)
Lemma merkle_root_step (leaves : list bytes) : 1 < len leaves <= 2 ^ 63 ->
  let k := Z.to_nat (largest_power_of_two_below (len leaves)) in
  merkle_root leaves = node_hash (merkle_root (take k leaves)) (merkle_root (drop k leaves)).
Proof.
  intros Hn. cbn zeta. unfold merkle_root at 1.
  rewrite (root_step 63) by lia.
  destruct (lp2_split (len leaves) ltac:(lia)) as [_ Hk].
  by rewrite !root_63 by (rewrite ?len_take_k, ?len_drop_k by lia; lia).
Qed.
Lemma merkle_root_nil : merkle_root [] = empty_root.
Proof. done. Qed.
Lemma root_array (leaves : list bytes) : Forall (array 32) leaves -> array 32 (merkle_root leaves).
Proof.
  intros H. destruct leaves as [|l [|l2 leaves]]; [rewrite merkle_root_nil; apply blake3_len|by apply Forall_inv in H|].
  unfold merkle_root. rewrite (root_step 63); [apply blake3_len|]. rewrite !len_cons. pose proof (len_nonneg leaves). lia.
Qed.
Lemma merkle_root_one (l : bytes) : merkle_root [l] = l.
Proof. done. Qed.
#[global] Opaque merkle_root.

Lemma build_step f leaves i : build_proof_inner (S f) leaves i [] =
  if len leaves <=? 1 then [] else
  let k := largest_power_of_two_below (len leaves) in
  if i <? k then
    build_proof_inner f (take (Z.to_nat k) leaves) i []
      ++ [mkStep Right (merkle_root (drop (Z.to_nat k) leaves))]
  else
    build_proof_inner f (drop (Z.to_nat k) leaves) (i - k) []
      ++ [mkStep Left (merkle_root (take (Z.to_nat k) leaves))].
Proof. done. Qed.

(** The builder walks the canonical path and the climb reaches the root. *)
Lemma build_proof_climbs f (leaves : list bytes) i leaf :
  len leaves <= 2 ^ Z.of_nat f -> len leaves <= 2 ^ 63 -> 0 <= i ->
  leaves !! Z.to_nat i = Some leaf ->
  map direction (build_proof_inner f leaves i []) = expected_directions (len leaves) i /\
  fold_left climb (build_proof_inner f leaves i []) leaf = merkle_root leaves.
Proof.
  revert leaves i. induction f as [|f IH]; intros leaves i Hf Hn Hi Hl;
    (destruct (decide (len leaves <= 1)) as [Hs|Hs];
     [destruct leaves as [|a [|b l]]; [done| |rewrite !len_cons in Hs; pose proof (len_nonneg l); lia];
      apply lookup_lt_Some in Hl as Hlt; cbn in Hlt;
      assert (i = 0) as -> by lia; injection Hl as ->;
      rewrite expected_directions_one by done; by rewrite merkle_root_one|]); [cbn in Hf; lia|].
  rewrite build_step. destruct (Z.leb_spec (len leaves) 1); [lia|]. cbn zeta.
  pose proof (lp2_split (len leaves) ltac:(lia)) as Hsp.
  destruct (split_halves _ _ f Hsp Hf) as (H1 & H2 & H3).
  rewrite expected_directions_step, (merkle_root_step leaves) by lia. cbn zeta.
  set (k := largest_power_of_two_below (len leaves)) in *.
  destruct (Z.ltb_spec i k) as [Hik|Hik]; rewrite map_app, fold_left_app; cbn [map fold_left].
  - destruct (IH (take (Z.to_nat k) leaves) i) as [Hd Hc];
      rewrite ?len_take_k by lia; [lia|lia|lia|by rewrite lookup_take_lt by lia|].
    rewrite Hd, Hc, len_take_k by lia. done.
  - destruct (IH (drop (Z.to_nat k) leaves) (i - k)) as [Hd Hc];
      rewrite ?len_drop_k by lia; [lia|lia|lia| |].
    { rewrite lookup_drop, <- Hl. f_equal. lia. }
    rewrite Hd, Hc, len_drop_k by lia. done.
Qed.

Lemma dirs_match_map p : dirs_match p (map direction p) = true.
Proof. induction p as [|s p IH]; [done|]. cbn. by rewrite bool_decide_true, IH. Qed.
Lemma dirs_match_eq p ds : len p = len ds -> dirs_match p ds = true -> map direction p = ds.
Proof.
  revert ds. induction p as [|s p IH]; intros [|d ds] Hl; try done.
  cbn. intros [Hd%bool_decide_eq_true Hm]%andb_true_iff. rewrite !len_cons in Hl.
  f_equal; [done|]. apply IH; [lia|done].
Qed.

Lemma max_depth_enough n i : 1 <= n <= 2 ^ 63 ->
  len (expected_directions n i) <= 64 - leading_zeros (n - 1).
Proof.
  intros Hn. unfold leading_zeros. destruct (Z.eqb_spec (n - 1) 0) as [H0|H0].
  { by rewrite expected_directions_one by lia. }
  pose proof (Z.log2_nonneg (n - 1)). pose proof (Z.log2_spec (n - 1) ltac:(lia)).
  assert (Hd : Z.of_nat (Z.to_nat (Z.log2 (n - 1) + 1)) = Z.log2 (n - 1) + 1) by lia.
  assert (Hle : len (expected_directions n i) <= Z.of_nat (Z.to_nat (Z.log2 (n - 1) + 1))).
  { apply expected_directions_depth; [|lia]. rewrite Hd.
    rewrite <- Z.add_1_r in *. lia. }
  lia.
Qed.

(** What [verify_proof] accepts: the canonical path that climbs to the root. *)
Lemma verify_proof_spec leaf i n p root : 0 <= i -> n <= 2 ^ 63 ->
  verify_proof leaf i n p root = Ok tt <->
  i < n /\ map direction p = expected_directions n i /\ fold_left climb p leaf = root.
Proof.
  intros Hi Hn. unfold verify_proof. split.
  - destruct (Z.leb_spec n i); [done|]. destruct (n =? 0); [done|].
    destruct (_ <? _); [done|]. destruct (Z.eqb_spec (len p) (len (expected_directions n i))); [|done].
    cbn [negb]. destruct (dirs_match _ _) eqn:Hm; [|done]. cbn [negb].
    destruct (ct_eq _ _) eqn:Hc; [|done]. intros _. apply ct_eq_true in Hc.
    split_and!; [done| |done]. by apply dirs_match_eq.
  - intros (Hin & Hd & Hc). destruct (Z.leb_spec n i); [lia|].
    destruct (Z.eqb_spec n 0); [lia|].
    assert (Hlen : len p = len (expected_directions n i)).
    { rewrite <- Hd. unfold len. by rewrite length_map. }
    pose proof (max_depth_enough n i ltac:(lia)).
    destruct (Z.ltb_spec (64 - leading_zeros (n - 1)) (len p)); [lia|].
    rewrite Hlen, Z.eqb_refl. cbn [negb]. rewrite <- Hd, dirs_match_map. cbn [negb].
    rewrite Hc. destruct (ct_eq root root) eqn:He; [done|].
    assert (ct_eq root root = true) by (by apply ct_eq_true). congruence.
Qed.

(** Completeness of the Merkle proofs: the proof [build_proof] returns for
    a chunk of a tree of up to 2^63 leaves is accepted by [verify_proof]
    against the tree's root, for every position and every (unbalanced) size;
    an index past the end is refused. *)
Theorem proof_verifies leaves i : len leaves <= 2 ^ 63 -> 0 <= i ->
  match leaves !! Z.to_nat i with
  | Some leaf => exists p, build_proof leaves i = Ok p /\
      verify_proof leaf i (len leaves) p (merkle_root leaves) = Ok tt
  | None => build_proof leaves i = Err IndexOutOfRange
  end.
Proof.
  intros Hn Hi. unfold build_proof. destruct (leaves !! Z.to_nat i) as [leaf|] eqn:Hl.
  - apply lookup_lt_Some in Hl as Hlt. unfold len in *.
    destruct (Z.leb_spec (Z.of_nat (length leaves)) i); [lia|].
    eexists; split; [done|]. apply verify_proof_spec; [done|done|].
    split; [lia|]. apply (build_proof_climbs 64 leaves i leaf); [|done|done|done].
    change (Z.of_nat (length leaves) <= 2 ^ 64). lia.
  - apply lookup_ge_None in Hl. unfold len.
    by destruct (Z.leb_spec (Z.of_nat (length leaves)) i); [|lia].
Qed.
End Proofs.

(** ** Binding

    The inputs of the node hashes on the path from a leaf. *)
Definition step_input (acc : bytes) (s : ProofStep) : bytes :=
  match direction s with Left => node_input (hash s) acc | Right => node_input acc (hash s) end.
Fixpoint path_inputs `{Primitives} (acc : bytes) (p : list ProofStep) : list bytes :=
  match p with
  | [] => []
  | s :: p' => step_input acc s :: path_inputs (climb acc s) p'
  end.

Section Binding.
Context {P : Primitives} {L : PrimitiveLaws}.

Lemma climb_input acc s : climb acc s = blake3_hash (step_input acc s).
Proof. unfold climb, step_input. by destruct (direction s). Qed.
Lemma path_inputs_app acc p s :
  path_inputs acc (p ++ [s]) = path_inputs acc p ++ [step_input (fold_left climb p acc) s].
Proof. revert acc. induction p as [|s' p IH]; intros acc; [done|]. cbn. by rewrite IH. Qed.

Lemma climb_len leaf p : len leaf = 32 -> len (fold_left climb p leaf) = 32.
Proof.
  revert leaf. induction p as [|s p IH]; intros leaf Hl; [done|]. cbn. apply IH.
  rewrite climb_input. apply blake3_len.
Qed.

(** Whatever holds of every hash and of the leaves holds of the root and of
    the siblings of a proof. *)
Lemma root_all (Q : bytes -> Prop) (leaves : list bytes) : (forall x, Q (blake3_hash x)) ->
  len leaves <= 2 ^ 63 -> Forall Q leaves -> Q (merkle_root leaves).
Proof.
  intros HQ Hn Hl. destruct leaves as [|a [|b l]].
  - rewrite merkle_root_nil. apply HQ.
  - rewrite merkle_root_one. by apply Forall_cons_iff in Hl as [? _].
  - rewrite merkle_root_step; [apply HQ|].
    rewrite !len_cons. pose proof (len_nonneg l). rewrite !len_cons in *. lia.
Qed.
Lemma build_proof_all (Q : bytes -> Prop) f (leaves : list bytes) i : (forall x, Q (blake3_hash x)) ->
  len leaves <= 2 ^ Z.of_nat f -> len leaves <= 2 ^ 63 -> Forall Q leaves ->
  Forall (fun s => Q (hash s)) (build_proof_inner f leaves i []).
Proof.
  intros HQ. revert leaves i. induction f as [|f IH]; intros leaves i Hf Hn Hl; [constructor|].
  rewrite build_step. destruct (Z.leb_spec (len leaves) 1); [constructor|]. cbn zeta.
  destruct (split_halves _ _ f (lp2_split (len leaves) ltac:(lia)) Hf) as (H1 & H2 & H3).
  set (k := largest_power_of_two_below (len leaves)) in *.
  destruct (i <? k); apply Forall_app; (split; [apply IH|apply Forall_singleton; apply (root_all Q)]);
    rewrite ?len_take_k, ?len_drop_k by lia; try lia; try done;
    first [by apply Forall_take | by apply Forall_drop].
Qed.

Lemma node_input_inj a b c d : len a = len c -> node_input a b = node_input c d -> a = c /\ b = d.
Proof.
  unfold node_input. intros Hl H. apply app_inv_head in H. apply app_inj_1 in H; [done|].
  unfold len in Hl. lia.
Qed.

Lemma collision_free_app xs x ys y :
  collision_free (xs ++ [x]) (ys ++ [y]) ->
  collision_free xs ys /\ (blake3_hash x = blake3_hash y -> x = y).
Proof.
  intros H. split.
  - intros a b Ha Hb. apply H; apply elem_of_app; by left.
  - apply H; apply elem_of_app; right; by apply list_elem_of_singleton.
Qed.

(** The last step of an accepted path agrees with the honest one. *)
Lemma top_step leaf p s l q t :
  len leaf = 32 -> len l = 32 -> len (hash s) = 32 -> len (hash t) = 32 ->
  direction s = direction t ->
  fold_left climb (p ++ [s]) leaf = fold_left climb (q ++ [t]) l ->
  collision_free (path_inputs leaf (p ++ [s])) (path_inputs l (q ++ [t])) ->
  s = t /\ fold_left climb p leaf = fold_left climb q l /\
  collision_free (path_inputs leaf p) (path_inputs l q).
Proof.
  intros Hlf Hl Hs Ht Hd Hc Hcf. rewrite !path_inputs_app in Hcf.
  apply collision_free_app in Hcf as [Hcf Hx].
  rewrite !fold_left_app in Hc. cbn [fold_left] in Hc. rewrite !climb_input in Hc.
  specialize (Hx Hc). pose proof (climb_len leaf p Hlf). pose proof (climb_len l q Hl).
  unfold step_input in Hx. destruct s as [d h], t as [d' h']. cbn in *. subst d'.
  destruct d; apply node_input_inj in Hx as [-> ->]; try done; congruence.
Qed.

(** A path of the right shape that climbs to the honest value is honest. *)
Lemma path_binding leaf l q : forall p,
  len leaf = 32 -> len l = 32 ->
  Forall (fun s => len (hash s) = 32) p -> Forall (fun s => len (hash s) = 32) q ->
  map direction p = map direction q -> fold_left climb p leaf = fold_left climb q l ->
  collision_free (path_inputs leaf p) (path_inputs l q) -> leaf = l /\ p = q.
Proof.
  induction q as [|t q IH] using rev_ind; intros p Hlf Hl Hp Hq Hd Hc Hcf.
  - apply map_eq_nil in Hd as ->. done.
  - destruct p as [|s p _] using rev_ind.
    { rewrite map_app in Hd. by destruct (map direction q). }
    rewrite !map_app in Hd. cbn in Hd. apply app_inj_2 in Hd as [Hd Hdt]; [|done].
    injection Hdt as Hdt. apply Forall_app in Hp as [Hp [Hs _]%Forall_cons_iff].
    apply Forall_app in Hq as [Hq [Ht _]%Forall_cons_iff].
    destruct (top_step leaf p s l q t) as (-> & Hc' & Hcf'); [done..|].
    destruct (IH p) as [-> ->]; done.
Qed.

Lemma build_proof_hashes f (leaves : list bytes) i :
  len leaves <= 2 ^ Z.of_nat f -> len leaves <= 2 ^ 63 -> Forall (fun l => len l = 32) leaves ->
  Forall (fun s => len (hash s) = 32) (build_proof_inner f leaves i []).
Proof. apply (build_proof_all (fun x => len x = 32)). intros x. apply blake3_len. Qed.

(** C32: Binding of the Merkle commitment: a proof accepted for index [i]
    against the root of a tree can only be the proof [build_proof] returns
    and its leaf the committed leaf [i], as long as BLAKE3 does not collide
    on the node inputs of the two paths. *)
Theorem proof_binding leaves i l leaf p q : len leaves <= 2 ^ 63 -> 0 <= i ->
  Forall (fun x => len x = 32) leaves -> len leaf = 32 -> Forall (fun s => len (hash s) = 32) p ->
  leaves !! Z.to_nat i = Some l -> build_proof leaves i = Ok q ->
  verify_proof leaf i (len leaves) p (merkle_root leaves) = Ok tt ->
  collision_free (path_inputs leaf p) (path_inputs l q) ->
  leaf = l /\ p = q.
Proof.
  intros Hn Hi Hls Hlf Hp Hl Hq Hv Hcf. apply verify_proof_spec in Hv as (_ & Hd & Hc); [|done|done].
  unfold build_proof in Hq. destruct (len leaves <=? i); [done|]. apply Ok_inj in Hq as <-.
  assert (Hf : len leaves <= 2 ^ Z.of_nat 64) by (change (len leaves <= 2 ^ 64); lia).
  destruct (build_proof_climbs 64 leaves i l Hf Hn Hi Hl) as [Hd' Hc'].
  apply (path_binding leaf l); [done|by eapply (Forall_lookup_1 _ _ _ _ Hls)|done|
    by apply build_proof_hashes|by rewrite Hd'|by rewrite Hc'|done].
Qed.

(** A proof fixes its position: the same sibling list is never accepted
    for two different indices of a tree. *)
Theorem proof_index_unique leaf leaf' i j n p root root' :
  0 <= i -> 0 <= j -> n <= 2 ^ 63 ->
  verify_proof leaf i n p root = Ok tt -> verify_proof leaf' j n p root' = Ok tt -> i = j.
Proof.
  intros Hi Hj Hn H1 H2. apply verify_proof_spec in H1 as (? & Hd1 & _); [|done|done].
  apply verify_proof_spec in H2 as (? & Hd2 & _); [|done|done].
  apply (expected_directions_inj 63 n); [exact Hn|done|lia|lia|congruence].
Qed.

Lemma leaf_hash_inj i j c c' : u64 i -> u64 j ->
  collision_free [LEAF_DOMAIN ++ be_bytes 8 i ++ be_bytes 4 (wrap 32 (len c)) ++ c]
                 [LEAF_DOMAIN ++ be_bytes 8 j ++ be_bytes 4 (wrap 32 (len c')) ++ c'] ->
  leaf_hash i c = leaf_hash j c' -> i = j /\ c = c'.
Proof.
  intros Hi Hj Hcf H. apply Hcf in H; [|by apply list_elem_of_singleton..].
  apply app_inv_head in H. apply app_inj_1 in H as [H1 H]; [|done].
  apply app_inj_1 in H as [_ H]; [|done]. split; [|done]. by apply (be_bytes_inj 8) in H1.
Qed.
End Binding.

(** ** Witnesses, on the concrete instance *)
Module MerkleWitness.
Import Toy.
Definition three : list bytes := [replicate 32 1; replicate 32 2; replicate 32 3].
Definition proof2 : list ProofStep :=
  [mkStep Left (node_hash (replicate 32 1) (replicate 32 2))].

Lemma proof_verifies_witness :
  match three !! Z.to_nat 1 with
  | Some leaf => exists p, build_proof three 1 = Ok p /\
      verify_proof leaf 1 (len three) p (merkle_root three) = Ok tt
  | None => build_proof three 1 = Err IndexOutOfRange
  end.
Proof. apply (proof_verifies three 1); by vm_compute. Defined.

Lemma proof_binding_witness : replicate 32 3 = replicate 32 3 /\ proof2 = proof2.
Proof.
  apply (proof_binding three 2 (replicate 32 3) (replicate 32 3) proof2 proof2);
    [by vm_compute|done|by repeat constructor|done|by repeat constructor|done
    |by vm_compute|by vm_compute|].
  intros x y Hx%list_elem_of_singleton Hy%list_elem_of_singleton _. by subst.
Defined.

Lemma proof_index_unique_witness : 2 = 2.
Proof.
  apply (proof_index_unique (replicate 32 3) (replicate 32 3) 2 2 3 proof2
    (merkle_root three) (merkle_root three)); by vm_compute.
Defined.
End MerkleWitness.
