(* ===== verification/Keys.v ===== *)
(** * File keys and the key envelope (keys.rs)

    Random values ([os_random_array]) are arguments of the operations that
    draw them. *)

From S2P Require Import Prelude Cbor Wire Crypto.

(** keys.rs 22-22 [CHUNK_NONCE_CONTEXT] *)
Definition CHUNK_NONCE_CONTEXT : bytes := lit "Reyta RTP2 2026-08-01 chunk nonce v1".
(** keys.rs 128-128 [ENVELOPE_AAD] *)
Definition ENVELOPE_AAD : bytes := lit "RTP2-ENVELOPE-AAD-v1".

(** keys.rs 25-25 [KeyError] *)
Inductive KeyError : Type := key_error.
(** keys.rs 27-31 [From] *)
#[export] Instance key_from_cbor : From CborError KeyError := fun _ => key_error.

(** keys.rs 35-40 [FileSecrets] *)
Record FileSecrets : Type := mkSecrets {
  transfer_id : bytes;
  object_id : bytes;
  file_master_key : bytes;
  file_nonce_seed : bytes
}.

(** keys.rs 86-92 [FileKeySchedule] *)
Record FileKeySchedule : Type := mkSchedule {
  sched_transfer_id : bytes;
  sched_object_id : bytes;
  sched_nonce_seed : bytes;
  sched_manifest_key : bytes;
  chunk_key_base : bytes
}.

(** keys.rs 139-142 [SealedEnvelope] *)
Record SealedEnvelope : Type := mkSealed { env_nonce : bytes; env_ciphertext : bytes }.

(** keys.rs 208-215 [OpenedEnvelope] *)
Record OpenedEnvelope : Type := mkOpened {
  secrets : FileSecrets;
  env_suite_id : Z;
  created_at : Z;
  expires_at : Z;
  sender_device_id : bytes;
  recipient_device_id : bytes
}.

(** keys.rs 52-64 [FileSecrets::from_parts] *)
Definition from_parts (tid oid master seed : bytes) : FileSecrets := mkSecrets tid oid master seed.

(** keys.rs 43-50 [FileSecrets::generate] *)
Definition generate (r1 r2 r3 r4 : bytes) : FileSecrets := mkSecrets r1 r2 r3 r4.

(** The envelope plaintext.  keys.rs 177-189 [seal_envelope_with_suite] *)
Definition write_envelope {E} (o : OpenedEnvelope) : Writer.t -> result E Writer.t :=
  write_map 9 [
    MapWriter.bytes 0 (transfer_id (secrets o));
    MapWriter.bytes 1 (object_id (secrets o));
    MapWriter.bytes 2 (file_master_key (secrets o));
    MapWriter.bytes 3 (file_nonce_seed (secrets o));
    MapWriter.uint 4 (env_suite_id o);
    MapWriter.uint 5 (created_at o);
    MapWriter.uint 6 (expires_at o);
    MapWriter.bytes 7 (sender_device_id o);
    MapWriter.bytes 8 (recipient_device_id o)].

(** keys.rs 237-260 [open_envelope] *)
Definition read_envelope : M Reader.t KeyError OpenedEnvelope :=
  in_map (
    expect 0 ;;; transfer_id <- get (Reader.bytes_exact 32) ;;
    expect 1 ;;; object_id <- get (Reader.bytes_exact 32) ;;
    expect 2 ;;; file_master_key <- get (Reader.bytes_exact 32) ;;
    expect 3 ;;; file_nonce_seed <- get (Reader.bytes_exact 32) ;;
    expect 4 ;;; suite_id <- get Reader.uint ;;
    expect 5 ;;; created_at <- get Reader.uint ;;
    expect 6 ;;; expires_at <- get Reader.uint ;;
    expect 7 ;;; sender_device_id <- get (Reader.bytes_exact 32) ;;
    expect 8 ;;; recipient_device_id <- get (Reader.bytes_exact 32) ;;
    no_more key_error ;;;
    ret (mkOpened (from_parts transfer_id object_id file_master_key file_nonce_seed)
           suite_id created_at expires_at sender_device_id recipient_device_id)).

Section Keys.
Context {P : Primitives}.

(** keys.rs 67-81 [FileSecrets::key_schedule] *)
Definition key_schedule (s : FileSecrets) : FileKeySchedule :=
  let salt := sha384 [lit "RTP2-FILE-SALT-v1"; transfer_id s; object_id s] in
  let file_prk := hkdf_extract salt (file_master_key s) in
  let manifest_key := hkdf_expand 32 file_prk [lit "RTP2 private manifest key v1"] in
  let base := hkdf_expand 48 file_prk [lit "RTP2 chunk key base v1"] in
  mkSchedule (transfer_id s) (object_id s) (file_nonce_seed s) manifest_key base.

(** keys.rs 96-98 [FileKeySchedule::manifest_key] *)
Definition manifest_key (k : FileKeySchedule) : bytes := sched_manifest_key k.

(** keys.rs 101-106 [FileKeySchedule::chunk_key] *)
Definition chunk_key (k : FileKeySchedule) (index : Z) : bytes :=
  hkdf_expand 32 (chunk_key_base k)
    [lit "RTP2-CHUNK-KEY-v1"; sched_object_id k; be_bytes 8 index].

(** keys.rs 109-121 [FileKeySchedule::chunk_nonce] *)
Definition chunk_nonce (k : FileKeySchedule) (index : Z) : bytes :=
  let material := sched_nonce_seed k ++ sched_transfer_id k ++ sched_object_id k ++ be_bytes 8 index in
  take 24 (blake3_derive_key CHUNK_NONCE_CONTEXT material).

(** keys.rs 134-137 [envelope_key] *)
Definition envelope_key (transfer_wrap_key : bytes) : bytes :=
  hkdf_expand 32 (hkdf_extract (lit "RTP2-ENVELOPE-SALT-v1") transfer_wrap_key)
    [lit "RTP2 envelope key v1"].

(** keys.rs 168-206 [seal_envelope_with_suite] *)
Definition seal_envelope_with_suite (s : FileSecrets) (wrap_key : bytes) (created expires : Z)
    (sender recipient : bytes) (suite_id : Z) (nonce : bytes) : result KeyError SealedEnvelope :=
  let* w := write_envelope (mkOpened s suite_id created expires sender recipient) Writer.new in
  let plaintext := Writer.into_bytes w in
  match aead_encrypt (envelope_key wrap_key) nonce ENVELOPE_AAD plaintext with
  | Some ct => Ok (mkSealed nonce ct)
  | None => Err key_error
  end.

(** keys.rs 145-162 [seal_envelope] *)
Definition seal_envelope (s : FileSecrets) (wrap_key : bytes) (created expires : Z)
    (sender recipient nonce : bytes) : result KeyError SealedEnvelope :=
  seal_envelope_with_suite s wrap_key created expires sender recipient SUITE_ID nonce.

(** keys.rs 219-274 [open_envelope] *)
Definition open_envelope (e : SealedEnvelope) (wrap_key : bytes) : result KeyError OpenedEnvelope :=
  match aead_decrypt (envelope_key wrap_key) (env_nonce e) ENVELOPE_AAD (env_ciphertext e) with
  | None => Err key_error
  | Some plaintext =>
    let* o := decode_all plaintext read_envelope in
    if negb (env_suite_id o =? SUITE_ID) then Err key_error else
    Ok (mkOpened (secrets o) (wrap 16 (env_suite_id o)) (created_at o) (expires_at o)
          (sender_device_id o) (recipient_device_id o))
  end.

(** keys.rs 277-291 [open_envelope_at] *)
Definition open_envelope_at (e : SealedEnvelope) (wrap_key : bytes) (now : Z)
  : result KeyError OpenedEnvelope :=
  let* opened := open_envelope e wrap_key in
  if expires_at opened <=? now then Err key_error else
  if saturating_add now 300 <? created_at opened then Err key_error else
  Ok opened.
End Keys.

(** ** Lemmas *)
Definition envelope_value (o : OpenedEnvelope) : value :=
  VMap [(0, VBytes (transfer_id (secrets o))); (1, VBytes (object_id (secrets o)));
        (2, VBytes (file_master_key (secrets o))); (3, VBytes (file_nonce_seed (secrets o)));
        (4, VUint (env_suite_id o)); (5, VUint (created_at o)); (6, VUint (expires_at o));
        (7, VBytes (sender_device_id o)); (8, VBytes (recipient_device_id o))].
Definition secrets_wf (s : FileSecrets) : Prop :=
  array 32 (transfer_id s) /\ array 32 (object_id s) /\ array 32 (file_master_key s) /\
  array 32 (file_nonce_seed s).
Definition envelope_wf (o : OpenedEnvelope) : Prop :=
  secrets_wf (secrets o) /\ u64 (env_suite_id o) /\ u64 (created_at o) /\ u64 (expires_at o) /\
  array 32 (sender_device_id o) /\ array 32 (recipient_device_id o).

Lemma write_envelope_emits {E} o : emits (write_envelope (E := E) o) (envelope_value o).
Proof. unfold write_envelope, envelope_value. wemit. Qed.

#[export] Instance envelope_codec : codec 1 read_envelope envelope_value envelope_wf.
Proof.
  split.
  - intros pre tl d [[a b c e] f g h i j] ((H1 & H2 & H3 & H4) & H5 & H6 & H7 & H8 & H9) Hd Hd'.
    unfold read_envelope, envelope_value;
      cbn [secrets transfer_id object_id file_master_key file_nonce_seed env_suite_id created_at
           expires_at sender_device_id recipient_device_id] in *.
    wforward.
  - intros pre rest d x r Hok Hd H. unfold read_envelope in H. wbackward H. unfold envelope_value;
      cbn [from_parts secrets transfer_id object_id file_master_key file_nonce_seed env_suite_id created_at
           expires_at sender_device_id recipient_device_id].
    wfinish. split_and!; cbn; try done; split_and!; done.
Qed.

Lemma envelope_size o : envelope_wf o -> len (cbor (envelope_value o)) <= MAX_CONTROL_SIZE.
Proof.
  intros (((? & _) & (? & _) & (? & _) & (? & _)) & _ & _ & _ & (? & _) & (? & _)).
  unfold envelope_value. wsize.
Qed.

Lemma envelope_small o : envelope_wf o -> len (cbor (envelope_value o)) <= 400.
Proof.
  intros (([H1 _] & [H2 _] & [H3 _] & [H4 _]) & _ & _ & _ & [H5 _] & [H6 _]). unfold envelope_value. wsize.
Qed.
Lemma envelope_bytes o : envelope_wf o -> bytes_ok (cbor (envelope_value o)).
Proof.
  intros ((? & ? & ? & ?) & ? & ? & ? & ? & ?). apply cbor_bytes_ok. unfold envelope_value. vok.
Qed.

Section Laws.
Context {P : Primitives} {L : PrimitiveLaws}.

Lemma chunk_key_array k i : array 32 (chunk_key k i).
Proof. apply hkdf_expand_len. unfold HASH_LEN. lia. Qed.
Lemma chunk_nonce_array k i : array 24 (chunk_nonce k i).
Proof.
  unfold chunk_nonce. destruct (derive_key_len CHUNK_NONCE_CONTEXT
    (sched_nonce_seed k ++ sched_transfer_id k ++ sched_object_id k ++ be_bytes 8 i)) as [Hl Hb].
  split; [|by apply Forall_take]. unfold len in *. rewrite length_take. lia.
Qed.
Lemma envelope_key_array k : array 32 (envelope_key k).
Proof. apply hkdf_expand_len. unfold HASH_LEN. lia. Qed.
Lemma manifest_key_array s : array 32 (manifest_key (key_schedule s)).
Proof. apply hkdf_expand_len. unfold HASH_LEN. lia. Qed.

(** Sealing an envelope, with the size of the result. *)
Lemma seal_envelope_spec s wrap_key created expires sender recipient suite nonce :
  secrets_wf s -> u64 created -> u64 expires -> array 32 sender -> array 32 recipient ->
  u16 suite -> array 24 nonce ->
  exists e, seal_envelope_with_suite s wrap_key created expires sender recipient suite nonce = Ok e /\
    env_nonce e = nonce /\ len (env_ciphertext e) <= 512 /\ bytes_ok (env_ciphertext e) /\
    open_envelope e wrap_key =
      if suite =? SUITE_ID
      then Ok (mkOpened s SUITE_ID created expires sender recipient) else Err key_error.
Proof.
  intros Hs Hc He Hse Hr Hsu Hn. set (o := mkOpened s suite created expires sender recipient).
  assert (Ho : envelope_wf o).
  { split_and!; try done. cbn. unfold uint_range in *. lia. }
  unfold seal_envelope_with_suite. fold o. rewrite write_envelope_emits. cbn [rbind].
  unfold Writer.into_bytes, Writer.new. cbn [app].
  destruct (aead_correct (envelope_key wrap_key) nonce ENVELOPE_AAD (cbor (envelope_value o)))
    as (ct & Hct & Hlen & Hok & Hopen);
    [apply envelope_key_array|done|by apply envelope_bytes|
     pose proof (envelope_size o Ho); unfold AEAD_MAX, MAX_CONTROL_SIZE in *; lia|].
  rewrite Hct. eexists; split; [done|]. cbn [env_nonce env_ciphertext]. split; [done|].
  split; [pose proof (envelope_small o Ho); lia|]. split; [done|]. unfold open_envelope. cbn [env_nonce env_ciphertext].
  rewrite Hopen, decode_message by (done || by apply envelope_size). cbn.
  destruct (Z.eqb_spec suite SUITE_ID) as [->|]; done.
Qed.

(** The key envelope delivers the file secrets: sealing never fails, and
    the recipient holding the same wrap key opens exactly the sealed secrets,
    times and device ids; an envelope of another suite is refused. *)
Theorem envelope_roundtrip s wrap_key created expires sender recipient suite nonce :
  secrets_wf s -> u64 created -> u64 expires -> array 32 sender -> array 32 recipient ->
  u16 suite -> array 24 nonce ->
  exists e, seal_envelope_with_suite s wrap_key created expires sender recipient suite nonce = Ok e /\
    open_envelope e wrap_key =
      if suite =? SUITE_ID
      then Ok (mkOpened s SUITE_ID created expires sender recipient) else Err key_error.
Proof.
  intros. destruct (seal_envelope_spec s wrap_key created expires sender recipient suite nonce) as (e & ? & _ & _ & _ & ?); try done.
  by exists e.
Qed.

(** [open_envelope_at] admits an envelope exactly while it is live: before
    its expiry and not dated more than 300 seconds into the future. *)
Theorem open_envelope_at_window e wrap_key now o : u64 now ->
  open_envelope e wrap_key = Ok o -> u64 (created_at o) ->
  (open_envelope_at e wrap_key now = Ok o <-> now < expires_at o /\ created_at o <= now + 300) /\
  (open_envelope_at e wrap_key now = Ok o \/ open_envelope_at e wrap_key now = Err key_error).
Proof.
  intros Hnow Ho Hc. unfold open_envelope_at. rewrite Ho. cbn [rbind].
  unfold saturating_add, U64_MAX, uint_range in *.
  destruct (Z.leb_spec (expires_at o) now); [split; [split; [done|lia]|by right]|].
  destruct (Z.ltb_spec (Z.min (now + 300) (2 ^ 64 - 1)) (created_at o)).
  - split; [split; [done|lia]|by right].
  - split; [split; [lia|done]|by left].
Qed.
End Laws.

Module KeysWitness.
Import Toy.
Definition secrets1 : FileSecrets :=
  mkSecrets (replicate 32 1) (replicate 32 2) (replicate 32 3) (replicate 32 4).
Definition sealed1 : SealedEnvelope :=
  match seal_envelope secrets1 (replicate 32 5) 1000 2000 (replicate 32 6) (replicate 32 7) (replicate 24 8)
  with Ok e => e | _ => mkSealed [] [] end.

Lemma envelope_roundtrip_witness :
  exists e, seal_envelope_with_suite secrets1 (replicate 32 5) 1000 2000 (replicate 32 6)
      (replicate 32 7) 2 (replicate 24 8) = Ok e /\
    open_envelope e (replicate 32 5) =
      if 2 =? SUITE_ID
      then Ok (mkOpened secrets1 SUITE_ID 1000 2000 (replicate 32 6) (replicate 32 7)) else Err key_error.
Proof.
  apply (envelope_roundtrip secrets1 (replicate 32 5) 1000 2000 (replicate 32 6) (replicate 32 7) 2);
    repeat split; try done; by repeat constructor.
Defined.

Definition opened1 : OpenedEnvelope :=
  mkOpened secrets1 SUITE_ID 1000 2000 (replicate 32 6) (replicate 32 7).
Lemma open_envelope_at_window_witness :
  (open_envelope_at sealed1 (replicate 32 5) 1500 = Ok opened1 <-> 1500 < 2000 /\ 1000 <= 1500 + 300) /\
  (open_envelope_at sealed1 (replicate 32 5) 1500 = Ok opened1 \/
   open_envelope_at sealed1 (replicate 32 5) 1500 = Err key_error).
Proof.
  apply (open_envelope_at_window sealed1 (replicate 32 5) 1500 opened1); [done|by vm_compute|done].
Defined.
End KeysWitness.
