(* ===== verification/Identity.v ===== *)
(** * Device identities and hybrid signatures (identity.rs, pqc.rs)

    The public-key algorithms are third-party crates (ed25519-dalek,
    x25519-dalek, libcrux): the operations of [PkPrimitives], with their
    documented behaviour in [PkLaws].  Random draws are arguments. *)

From S2P Require Import Prelude Cbor Wire Crypto.

(** ** Lengths *)
(** pqc.rs 16-16 [MLKEM768_PUBLIC_KEY_LEN] *)
Definition MLKEM768_PUBLIC_KEY_LEN : Z := 1184.
(** pqc.rs 17-17 [MLKEM768_CIPHERTEXT_LEN] *)
Definition MLKEM768_CIPHERTEXT_LEN : Z := 1088.
(** pqc.rs 18-18 [MLKEM768_SHARED_SECRET_LEN] *)
Definition MLKEM768_SHARED_SECRET_LEN : Z := 32.
(** pqc.rs 19-19 [MLDSA65_VERIFICATION_KEY_LEN] *)
Definition MLDSA65_VERIFICATION_KEY_LEN : Z := 1952.
(** pqc.rs 20-20 [MLDSA65_SIGNATURE_LEN] *)
Definition MLDSA65_SIGNATURE_LEN : Z := 3309.
(** pqc.rs 23-23 [MLDSA_CONTEXT] *)
Definition MLDSA_CONTEXT : bytes := lit "RTP2-DEVICE-SIG-v1".

(** The operations of the crates.  Keys the core only stores are byte
    strings too. *)
Class PkPrimitives : Type := {
  (** [SigningKey::from_bytes(seed).verifying_key()], [sign], and
      [VerifyingKey::from_bytes(key)?.verify(msg, sig)]. *)
  ed25519_public : bytes -> bytes;
  ed25519_sign : bytes -> bytes -> bytes;
  ed25519_key_valid : bytes -> bool;
  ed25519_verify : bytes -> bytes -> bytes -> bool;
  (** [ml_dsa_65::generate_key_pair], [sign(key, msg, context, randomness)],
      [verify(key, msg, context, sig)]. *)
  mldsa65_generate : bytes -> bytes * bytes;
  mldsa65_sign : bytes -> bytes -> bytes -> bytes -> option bytes;
  mldsa65_verify : bytes -> bytes -> bytes -> bytes -> bool;
  (** [mlkem768::generate_key_pair] (secret, public), [validate_public_key],
      [encapsulate(key, randomness)] (ciphertext, secret), [decapsulate]. *)
  mlkem768_generate : bytes -> bytes * bytes;
  mlkem768_validate : bytes -> bool;
  mlkem768_encapsulate : bytes -> bytes -> bytes * bytes;
  mlkem768_decapsulate : bytes -> bytes -> bytes;
  (** [PublicKey::from(&secret)] and [secret.diffie_hellman(peer)]. *)
  x25519_public : bytes -> bytes;
  x25519 : bytes -> bytes -> bytes
}.

(** Documented behaviour: output lengths, signatures of a key pair verify
    (ML-DSA signing accepts contexts of at most 255 bytes and repeats its
    rejection sampling until it succeeds),
    encapsulation is undone by the secret key (the failure probability of
    2^-164 is taken as zero), and X25519 agreement between honest keys is
    symmetric and never the all-zero string. *)
Class PkLaws {K : PkPrimitives} : Prop := {
  ed25519_public_len s : array 32 (ed25519_public s);
  ed25519_sign_len s m : array 64 (ed25519_sign s m);
  ed25519_correct s m : ed25519_key_valid (ed25519_public s) = true /\
    ed25519_verify (ed25519_public s) m (ed25519_sign s m) = true;
  mldsa65_public_len s : array MLDSA65_VERIFICATION_KEY_LEN (mldsa65_generate s).2;
  mldsa65_correct s m c r : len c <= 255 -> exists sig, mldsa65_sign (mldsa65_generate s).1 m c r = Some sig /\
    array MLDSA65_SIGNATURE_LEN sig /\ mldsa65_verify (mldsa65_generate s).2 m c sig = true;
  mlkem768_public_len s : array MLKEM768_PUBLIC_KEY_LEN (mlkem768_generate s).2;
  mlkem768_cipher_len k r : array MLKEM768_CIPHERTEXT_LEN (mlkem768_encapsulate k r).1;
  mlkem768_secret_len k r : array MLKEM768_SHARED_SECRET_LEN (mlkem768_encapsulate k r).2;
  mlkem768_valid s : mlkem768_validate (mlkem768_generate s).2 = true;
  mlkem768_correct s r : mlkem768_decapsulate (mlkem768_generate s).1
      (mlkem768_encapsulate (mlkem768_generate s).2 r).1 = (mlkem768_encapsulate (mlkem768_generate s).2 r).2;
  x25519_public_len s : array 32 (x25519_public s);
  x25519_symmetric a b : x25519 a (x25519_public b) = x25519 b (x25519_public a);
  x25519_honest a b : x25519 a (x25519_public b) <> replicate 32 0
}.

(** pqc.rs 26-26 [PqcError] *)
Inductive PqcError : Type := pqc_error.
(** identity.rs 20-20 [IdentityError] *)
Inductive IdentityError : Type := identity_error.

Section Pqc.
Context {K : PkPrimitives}.

(** pqc.rs 32-35 [MlKemKeyPair] *)
Record MlKemKeyPair : Type := mkKem { kem_secret : bytes; kem_public : bytes }.
(** pqc.rs 38-43 [MlKemKeyPair::generate] *)
Definition kem_generate (randomness : bytes) : MlKemKeyPair :=
  let '(secret, public) := mlkem768_generate randomness in mkKem secret public.
(** The conversion of the slice fails on any other length.
    pqc.rs 51-57 [MlKemKeyPair::decapsulate] *)
Definition decapsulate (k : MlKemKeyPair) (ciphertext : bytes) : result PqcError bytes :=
  if negb (len ciphertext =? MLKEM768_CIPHERTEXT_LEN) then Err pqc_error
  else Ok (mlkem768_decapsulate (kem_secret k) ciphertext).
(** pqc.rs 61-71 [mlkem_encapsulate] *)
Definition mlkem_encapsulate (public_key randomness : bytes) : result PqcError (bytes * bytes) :=
  if negb (len public_key =? MLKEM768_PUBLIC_KEY_LEN) then Err pqc_error else
  if negb (mlkem768_validate public_key) then Err pqc_error
  else Ok (mlkem768_encapsulate public_key randomness).

(** pqc.rs 77-80 [MlDsaKeyPair] *)
Record MlDsaKeyPair : Type := mkDsa { dsa_signing : bytes; dsa_verification : bytes }.
(** pqc.rs 91-97 [MlDsaKeyPair::from_seed] *)
Definition dsa_from_seed (seed : bytes) : MlDsaKeyPair :=
  let '(signing, verification) := mldsa65_generate seed in mkDsa signing verification.
(** pqc.rs 110-115 [MlDsaKeyPair::sign] *)
Definition dsa_sign (k : MlDsaKeyPair) (message randomness : bytes) : result PqcError bytes :=
  match mldsa65_sign (dsa_signing k) message MLDSA_CONTEXT randomness with
  | Some sig => Ok sig
  | None => Err pqc_error
  end.
(** pqc.rs 124-135 [mldsa_verify] *)
Definition mldsa_verify (verification_key message signature : bytes) : result PqcError unit :=
  if negb (len verification_key =? MLDSA65_VERIFICATION_KEY_LEN) then Err pqc_error else
  if negb (len signature =? MLDSA65_SIGNATURE_LEN) then Err pqc_error else
  if mldsa65_verify verification_key message MLDSA_CONTEXT signature then Ok tt else Err pqc_error.
End Pqc.

(** ** Identities *)
(** identity.rs 43-43 [SEED_SALT] *)
Definition SEED_SALT : bytes := lit "RTP2-IDENTITY-SALT-v1".
(** identity.rs 44-44 [INFO_DEVICE_ID] *)
Definition INFO_DEVICE_ID : bytes := lit "RTP2 device id v1".
(** identity.rs 45-45 [INFO_ED25519] *)
Definition INFO_ED25519 : bytes := lit "RTP2 device ed25519 v1".
(** identity.rs 46-46 [INFO_MLDSA] *)
Definition INFO_MLDSA : bytes := lit "RTP2 device mldsa65 v1".
(** identity.rs 47-47 [INFO_ENDPOINT] *)
Definition INFO_ENDPOINT : bytes := lit "RTP2 device endpoint v1".

(** The Ed25519 signing key is kept as its seed.
    identity.rs 51-56 [DeviceIdentity] *)
Record DeviceIdentity : Type := mkIdentity {
  id_device_id : bytes;
  id_seed : bytes;
  id_ed25519 : bytes;
  id_mldsa : MlDsaKeyPair
}.
(** identity.rs 116-120 [DevicePublic] *)
Record DevicePublic : Type := mkPublic { device_id : bytes; pub_ed25519 : bytes; pub_mldsa : bytes }.
(** identity.rs 164-167 [HybridSignature] *)
Record HybridSignature : Type := mkSig { sig_ed25519 : bytes; sig_mldsa : bytes }.

#[export] Instance device_public_eq : EqDecision DevicePublic.
Proof. solve_decision. Defined.

Section Identity.
Context {P : Primitives} {K : PkPrimitives}.

(** identity.rs 73-85 [DeviceIdentity::from_seed] *)
Definition from_seed (seed : bytes) : DeviceIdentity :=
  let prk := hkdf_extract SEED_SALT seed in
  mkIdentity (hkdf_expand 32 prk [INFO_DEVICE_ID]) seed (hkdf_expand 32 prk [INFO_ED25519])
    (dsa_from_seed (hkdf_expand 32 prk [INFO_MLDSA])).
(** identity.rs 90-93 [DeviceIdentity::endpoint_secret] *)
Definition endpoint_secret (i : DeviceIdentity) : bytes :=
  hkdf_expand 32 (hkdf_extract SEED_SALT (id_seed i)) [INFO_ENDPOINT].
(** identity.rs 95-101 [DeviceIdentity::public] *)
Definition public (i : DeviceIdentity) : DevicePublic :=
  mkPublic (id_device_id i) (ed25519_public (id_ed25519 i)) (dsa_verification (id_mldsa i)).
(** [randomness] is the draw of the ML-DSA signature.
    identity.rs 104-111 [DeviceIdentity::hybrid_sign] *)
Definition hybrid_sign (i : DeviceIdentity) (transcript_hash randomness : bytes) : result IdentityError HybridSignature :=
  let ed := ed25519_sign (id_ed25519 i) transcript_hash in
  let* mldsa := map_err (fun _ => identity_error) (dsa_sign (id_mldsa i) transcript_hash randomness) in
  Ok (mkSig ed mldsa).
(** identity.rs 150-160 [DevicePublic::hybrid_verify] *)
Definition hybrid_verify (d : DevicePublic) (transcript_hash : bytes) (sig : HybridSignature) : result IdentityError unit :=
  if negb (ed25519_key_valid (pub_ed25519 d)) then Err identity_error else
  if negb (ed25519_verify (pub_ed25519 d) transcript_hash (sig_ed25519 sig)) then Err identity_error else
  map_err (fun _ => identity_error) (mldsa_verify (pub_mldsa d) transcript_hash (sig_mldsa sig)).
End Identity.

(** ** Wire forms *)
(** identity.rs 123-129 [DevicePublic::encode] *)
Definition write_device {E} (d : DevicePublic) : Writer.t -> result E Writer.t :=
  write_map 3 [MapWriter.bytes 0 (device_id d); MapWriter.bytes 1 (pub_ed25519 d); MapWriter.bytes 2 (pub_mldsa d)].
(** identity.rs 131-147 [DevicePublic::decode] *)
Definition read_device : M Reader.t CborError DevicePublic :=
  in_map (
    expect 0 ;;; id <- get (Reader.bytes_exact 32) ;;
    expect 1 ;;; ed <- get (Reader.bytes_exact 32) ;;
    expect 2 ;;; ml <- get (Reader.bytes_exact MLDSA65_VERIFICATION_KEY_LEN) ;;
    no_more InvalidValue ;;;
    ret (mkPublic id ed ml)).
(** identity.rs 170-175 [HybridSignature::encode] *)
Definition write_signature {E} (s : HybridSignature) : Writer.t -> result E Writer.t :=
  write_map 2 [MapWriter.bytes 0 (sig_ed25519 s); MapWriter.bytes 1 (sig_mldsa s)].
(** identity.rs 177-187 [HybridSignature::decode] *)
Definition read_signature : M Reader.t CborError HybridSignature :=
  in_map (
    expect 0 ;;; ed <- get (Reader.bytes_exact 64) ;;
    expect 1 ;;; ml <- get (Reader.bytes_exact MLDSA65_SIGNATURE_LEN) ;;
    no_more InvalidValue ;;;
    ret (mkSig ed ml)).

Definition device_value (d : DevicePublic) : value :=
  VMap [(0, VBytes (device_id d)); (1, VBytes (pub_ed25519 d)); (2, VBytes (pub_mldsa d))].
Definition device_wf (d : DevicePublic) : Prop :=
  array 32 (device_id d) /\ array 32 (pub_ed25519 d) /\ array MLDSA65_VERIFICATION_KEY_LEN (pub_mldsa d).
Definition signature_value (s : HybridSignature) : value :=
  VMap [(0, VBytes (sig_ed25519 s)); (1, VBytes (sig_mldsa s))].
Definition signature_wf (s : HybridSignature) : Prop :=
  array 64 (sig_ed25519 s) /\ array MLDSA65_SIGNATURE_LEN (sig_mldsa s).

#[export] Instance device_codec : codec 1 read_device device_value device_wf.
Proof.
  split.
  - intros pre tl d [a b c] (H1 & H2 & H3) Hd Hd'. unfold read_device, device_value;
      cbn [device_id pub_ed25519 pub_mldsa] in *. wforward.
  - intros pre rest d x r Hok Hd H. unfold read_device in H. wbackward H. unfold device_value;
      cbn [device_id pub_ed25519 pub_mldsa]. wfinish. split_and!; done.
Qed.
#[export] Instance signature_codec : codec 1 read_signature signature_value signature_wf.
Proof.
  split.
  - intros pre tl d [a b] (H1 & H2) Hd Hd'. unfold read_signature, signature_value;
      cbn [sig_ed25519 sig_mldsa] in *. wforward.
  - intros pre rest d x r Hok Hd H. unfold read_signature in H. wbackward H. unfold signature_value;
      cbn [sig_ed25519 sig_mldsa]. wfinish. split_and!; done.
Qed.

Lemma write_device_emits {E} d : emits (write_device (E := E) d) (device_value d).
Proof. unfold write_device, device_value. wemit. Qed.
Lemma write_signature_emits {E} s : emits (write_signature (E := E) s) (signature_value s).
Proof. unfold write_signature, signature_value. wemit. Qed.
#[export] Hint Resolve write_device_emits write_signature_emits : wire.

Lemma device_value_ok d : device_wf d -> value_ok (device_value d).
Proof. intros (H1 & H2 & H3). unfold device_value. vok. Qed.
Lemma signature_value_ok s : signature_wf s -> value_ok (signature_value s).
Proof. intros (H1 & H2). unfold signature_value. vok. Qed.

(** ** Signatures *)
Section Laws.
Context {P : Primitives} {L : PrimitiveLaws} {K : PkPrimitives} {KL : PkLaws}.

Lemma from_seed_wf seed : device_wf (public (from_seed seed)).
Proof.
  unfold public, from_seed, dsa_from_seed; cbn [id_device_id id_ed25519 id_mldsa].
  pose proof (mldsa65_public_len (hkdf_expand 32 (hkdf_extract SEED_SALT seed) [INFO_MLDSA])) as Hm.
  destruct (mldsa65_generate _) as [s v]. cbn [dsa_verification snd] in *.
  split_and!; [by apply hkdf_expand_len|apply ed25519_public_len|exact Hm].
Qed.

(** What a hybrid verification checks. *)
Lemma hybrid_verify_iff d m s : hybrid_verify d m s = Ok tt <->
  ed25519_key_valid (pub_ed25519 d) = true /\ ed25519_verify (pub_ed25519 d) m (sig_ed25519 s) = true /\
  len (pub_mldsa d) = MLDSA65_VERIFICATION_KEY_LEN /\ len (sig_mldsa s) = MLDSA65_SIGNATURE_LEN /\
  mldsa65_verify (pub_mldsa d) m MLDSA_CONTEXT (sig_mldsa s) = true.
Proof.
  unfold hybrid_verify, mldsa_verify.
  destruct (ed25519_key_valid _); cbn [negb]; [|by split; [|intros (? & _)]].
  destruct (ed25519_verify _ _ _); cbn [negb]; [|by split; [|intros (_ & ? & _)]].
  destruct (Z.eqb_spec (len (pub_mldsa d)) MLDSA65_VERIFICATION_KEY_LEN); cbn [negb]; [|by split; [|intros (_ & _ & ? & _)]].
  destruct (Z.eqb_spec (len (sig_mldsa s)) MLDSA65_SIGNATURE_LEN); cbn [negb]; [|by split; [|intros (_ & _ & _ & ? & _)]].
  destruct (mldsa65_verify _ _ _ _); by split; [|intros (_ & _ & _ & _ & ?)].
Qed.

Lemma sign_verifies seed m r : exists s, hybrid_sign (from_seed seed) m r = Ok s /\ signature_wf s /\
  hybrid_verify (public (from_seed seed)) m s = Ok tt.
Proof.
  unfold hybrid_sign, dsa_sign, public, from_seed, dsa_from_seed; cbn [id_ed25519 id_mldsa id_device_id].
  set (es := hkdf_expand 32 _ [INFO_ED25519]). set (ms := hkdf_expand 32 _ [INFO_MLDSA]).
  destruct (mldsa65_correct ms m MLDSA_CONTEXT r ltac:(by vm_compute)) as (sig & Hs & Hl & Hv). pose proof (mldsa65_public_len ms) as [Hp _].
  destruct (ed25519_correct es m) as [Hk He].
  destruct (mldsa65_generate ms) as [sk vk]. cbn [dsa_signing dsa_verification fst snd] in *. rewrite Hs. cbn [map_err rbind].
  eexists. split; [done|]. split; [split; [apply ed25519_sign_len|exact Hl]|].
  apply hybrid_verify_iff. cbn [pub_ed25519 pub_mldsa sig_ed25519 sig_mldsa]. split_and!; try done. apply Hl.
Qed.

(** An identity whose signatures verify under its public bundle. *)
Definition signer (i : DeviceIdentity) : Prop := device_wf (public i) /\
  forall m r, exists s, hybrid_sign i m r = Ok s /\ signature_wf s /\ hybrid_verify (public i) m s = Ok tt.
Lemma from_seed_signer seed : signer (from_seed seed).
Proof. split; [apply from_seed_wf|]. intros. apply sign_verifies. Qed.
(** The device id is no part of what is signed or verified: the same keys
    sign under any id. *)
Definition with_device_id (d : bytes) (i : DeviceIdentity) : DeviceIdentity := mkIdentity d (id_seed i) (id_ed25519 i) (id_mldsa i).
Lemma renamed_signer d i : signer i -> array 32 d -> signer (with_device_id d i).
Proof. intros [(_ & H1 & H2) Hs] Hd. by split. Qed.

Lemma kem_roundtrip seed r : exists ct ss, mlkem_encapsulate (kem_public (kem_generate seed)) r = Ok (ct, ss) /\
  decapsulate (kem_generate seed) ct = Ok ss /\ array MLKEM768_CIPHERTEXT_LEN ct /\ array MLKEM768_SHARED_SECRET_LEN ss.
Proof.
  unfold kem_generate, mlkem_encapsulate, decapsulate.
  pose proof (mlkem768_public_len seed) as [Hp _]. pose proof (mlkem768_valid seed) as Hv.
  pose proof (mlkem768_correct seed r) as Hc. pose proof (mlkem768_cipher_len (mlkem768_generate seed).2 r) as Hct.
  pose proof (mlkem768_secret_len (mlkem768_generate seed).2 r) as Hss.
  destruct (mlkem768_generate seed) as [sk pk]. cbn [kem_public kem_secret fst snd] in *.
  destruct (mlkem768_encapsulate pk r) as [ct ss]. cbn [fst snd] in *.
  exists ct, ss. rewrite Hp, Z.eqb_refl, Hv. cbn [negb]. split; [done|].
  destruct Hct as [Hl Ho]. rewrite Hl, Z.eqb_refl, Hc. cbn [negb]. split; [done|]. split; [by split|exact Hss].
Qed.

Lemma kem_public_len seed : array MLKEM768_PUBLIC_KEY_LEN (kem_public (kem_generate seed)).
Proof. unfold kem_generate. pose proof (mlkem768_public_len seed) as H. by destruct (mlkem768_generate seed). Qed.

(** A device signs for its own public bundle: signing with the identity
    derived from any seed succeeds, the bundle it publishes has the wire
    lengths, and the pair of signatures verifies under that bundle; and a
    verification succeeds only when the Ed25519 key is valid, both lengths
    are right and both signatures verify the same message. *)
Theorem hybrid_signature_sound seed m r d m' s' :
  (exists s, hybrid_sign (from_seed seed) m r = Ok s /\ hybrid_verify (public (from_seed seed)) m s = Ok tt) /\
  device_wf (public (from_seed seed)) /\
  (hybrid_verify d m' s' = Ok tt <->
     ed25519_key_valid (pub_ed25519 d) = true /\ ed25519_verify (pub_ed25519 d) m' (sig_ed25519 s') = true /\
     len (pub_mldsa d) = MLDSA65_VERIFICATION_KEY_LEN /\ len (sig_mldsa s') = MLDSA65_SIGNATURE_LEN /\
     mldsa65_verify (pub_mldsa d) m' MLDSA_CONTEXT (sig_mldsa s') = true).
Proof.
  split; [|split; [apply from_seed_wf|apply hybrid_verify_iff]].
  destruct (sign_verifies seed m r) as (s & ? & _ & ?). by exists s.
Qed.
End Laws.

(** ** A concrete instance

    Keys are their seeds, padded; agreement adds the two keys. *)
Module ToyPk.
Import Toy.
Definition pad (n : nat) (x : bytes) : bytes := replicate (n - 16) 0 ++ checksum 16 x.
Definition agree (a b : bytes) : bytes := be_bytes 32 (1 + (from_be a mod 2 ^ 64 + from_be b mod 2 ^ 64)).
Definition point (a : bytes) : bytes := be_bytes 32 (from_be a mod 2 ^ 64).

#[export] Instance pk_prims : PkPrimitives := {
  ed25519_public s := checksum 32 s;
  ed25519_sign s m := checksum 64 (checksum 32 s ++ m);
  ed25519_key_valid _ := true;
  ed25519_verify k m sig := bytes_eqb sig (checksum 64 (k ++ m));
  mldsa65_generate s := (s, pad (Z.to_nat 1952) s);
  mldsa65_sign s m c _ := Some (pad (Z.to_nat 3309) (pad (Z.to_nat 1952) s ++ c ++ m));
  mldsa65_verify k m c sig := bytes_eqb sig (pad (Z.to_nat 3309) (k ++ c ++ m));
  mlkem768_generate s := (s, pad (Z.to_nat 1184) s);
  mlkem768_validate _ := true;
  mlkem768_encapsulate k r := (pad (Z.to_nat 1088) r, checksum 32 (pad (Z.to_nat 1088) r));
  mlkem768_decapsulate _ ct := checksum 32 ct;
  x25519_public := point;
  x25519 := agree
}.

Lemma pad_array n x : (16 <= n)%nat -> array (Z.of_nat n) (pad n x).
Proof.
  intros Hn. unfold pad. destruct (checksum_array 16 x) as [Hl Hok]. split.
  - rewrite len_app, Hl. unfold len. rewrite length_replicate. lia.
  - apply bytes_ok_app. split; [|done]. by apply Forall_replicate.
Qed.
Lemma point_value s : from_be (point s) mod 2 ^ 64 = from_be s mod 2 ^ 64.
Proof.
  unfold point. rewrite from_be_be_bytes. change (2 ^ (8 * Z.of_nat 32)) with (2 ^ 256).
  pose proof (Z.mod_pos_bound (from_be s) (2 ^ 64) ltac:(lia)).
  rewrite (Z.mod_small (from_be s mod 2 ^ 64) (2 ^ 256)) by lia. by rewrite Z.mod_mod by lia.
Qed.

Lemma pad_len (n : Z) x : 16 <= n -> array n (pad (Z.to_nat n) x).
Proof. intros Hn. pose proof (pad_array (Z.to_nat n) x ltac:(lia)) as H. by rewrite Z2Nat.id in H by lia. Qed.
Lemma agree_symmetric a b : agree a (point b) = agree b (point a).
Proof. unfold agree. rewrite !point_value. f_equal. lia. Qed.
Lemma agree_honest a b : agree a (point b) <> replicate 32 0.
Proof.
  intros H. unfold agree in H. rewrite point_value in H.
  pose proof (Z.mod_pos_bound (from_be a) (2 ^ 64) ltac:(lia)). pose proof (Z.mod_pos_bound (from_be b) (2 ^ 64) ltac:(lia)).
  apply (f_equal from_be) in H. rewrite from_be_be_bytes in H. change (2 ^ (8 * Z.of_nat 32)) with (2 ^ 256) in H.
  rewrite Z.mod_small in H by lia. change (from_be (replicate 32 0)) with 0 in H. lia.
Qed.

#[export] Instance pk_laws : PkLaws.
Proof.
  split.
  - intros. exact (checksum_array 32 _).
  - intros. exact (checksum_array 64 _).
  - intros. split; [reflexivity|]. by apply bytes_eqb_true.
  - intros. apply (pad_len 1952). lia.
  - intros s m c r _. eexists. split; [reflexivity|]. split; [apply (pad_len 3309); lia|]. by apply bytes_eqb_true.
  - intros. apply (pad_len 1184). lia.
  - intros. apply (pad_len 1088). lia.
  - intros. exact (checksum_array 32 _).
  - reflexivity.
  - reflexivity.
  - intros. split; [exact (len_be_bytes 32 _)|apply bytes_ok_be].
  - exact agree_symmetric.
  - exact agree_honest.
Qed.

Lemma hybrid_signature_sound_witness :
  (exists s, hybrid_sign (from_seed (replicate 32 7)) [1; 2; 3] (replicate 32 9) = Ok s /\
     hybrid_verify (public (from_seed (replicate 32 7))) [1; 2; 3] s = Ok tt) /\
  device_wf (public (from_seed (replicate 32 7))).
Proof.
  destruct (hybrid_signature_sound (replicate 32 7) [1; 2; 3] (replicate 32 9) (public (from_seed (replicate 32 7)))
    [1; 2; 3] (mkSig [] [])) as (H1 & H2 & _).
  split; [exact H1|exact H2].
Defined.
End ToyPk.
