(* ===== verification/Object.v ===== *)
(** * Object geometry and chunk encryption (object.rs) *)

From S2P Require Import Prelude Cbor Wire Crypto Keys.

(** object.rs 18-26 [ALLOWED_CHUNK_SIZES] *)
Definition ALLOWED_CHUNK_SIZES : list Z :=
  [64 * 1024; 128 * 1024; 256 * 1024; 512 * 1024; 1024 * 1024; 2 * 1024 * 1024; 4 * 1024 * 1024].
(** object.rs 28-28 [AEAD_TAG_LEN] *)
Definition AEAD_TAG_LEN : Z := 16.
(** object.rs 34-34 [MAX_CHUNK_COUNT] *)
Definition MAX_CHUNK_COUNT : Z := 2 ^ 32.
(** object.rs 37-37 [PADDING_NONE] *)
Definition PADDING_NONE : Z := 0.
(** object.rs 40-40 [ROLE_PRIMARY] *)
Definition ROLE_PRIMARY : Z := 0.

(** object.rs 43-43 [ObjectError] *)
Inductive ObjectError : Type := object_error.

(** object.rs 48-57 [ObjectContext] *)
Record ObjectContext : Type := mkContext {
  ctx_transfer_id : bytes;
  ctx_object_id : bytes;
  logical_plaintext_size : Z;
  encoded_plaintext_size : Z;
  chunk_plaintext_size : Z;
  chunk_count : Z;
  padding_policy : Z;
  object_role : Z
}.

(** object.rs 60-90 [ObjectContext::for_file] *)
Definition for_file (transfer_id object_id : bytes) (file_size chunk_size : Z)
  : result ObjectError ObjectContext :=
  if negb (bool_decide (chunk_size ∈ ALLOWED_CHUNK_SIZES)) then Err object_error else
  let count := if file_size =? 0 then 0 else div_ceil file_size chunk_size in
  if MAX_CHUNK_COUNT <? count then Err object_error else
  Ok (mkContext transfer_id object_id file_size file_size chunk_size count PADDING_NONE ROLE_PRIMARY).

(** object.rs 92-107 [ObjectContext::encode] *)
Definition write_context {E} (c : ObjectContext) : Writer.t -> result E Writer.t :=
  write_map 10 [
    MapWriter.uint 0 PROTOCOL_MAJOR;
    MapWriter.uint 1 SUITE_ID;
    MapWriter.bytes 2 (ctx_transfer_id c);
    MapWriter.bytes 3 (ctx_object_id c);
    MapWriter.uint 4 (logical_plaintext_size c);
    MapWriter.uint 5 (encoded_plaintext_size c);
    MapWriter.uint 6 (chunk_plaintext_size c);
    MapWriter.uint 7 (chunk_count c);
    MapWriter.uint 8 (padding_policy c);
    MapWriter.uint 9 (object_role c)].

(** object.rs 124-126 [ObjectContext::chunk_ciphertext_size] *)
Definition chunk_ciphertext_size (c : ObjectContext) : Z := chunk_plaintext_size c + AEAD_TAG_LEN.

(** Release-mode [u64] arithmetic.  object.rs 130-135 [ObjectContext::ciphertext_size] *)
Definition ciphertext_size (c : ObjectContext) : Z :=
  if chunk_count c =? 0 then 0
  else wrap 64 (encoded_plaintext_size c + wrap 64 (chunk_count c * AEAD_TAG_LEN)).

(** object.rs 156-163 [ObjectContext::chunk_len] *)
Definition chunk_len (c : ObjectContext) (index : Z) : result ObjectError Z :=
  if chunk_count c <=? index then Err object_error else
  let start := wrap 64 (index * chunk_plaintext_size c) in
  let remaining := wrap 64 (encoded_plaintext_size c - start) in
  Ok (wrap 32 (Z.min remaining (chunk_plaintext_size c))).

(** object.rs 139-141 [ObjectContext::chunk_ciphertext_len] *)
Definition chunk_ciphertext_len (c : ObjectContext) (index : Z) : result ObjectError Z :=
  let* n := chunk_len c index in Ok (n + AEAD_TAG_LEN).

(** object.rs 148-154 [ObjectContext::chunk_plaintext_size_from_ciphertext] *)
Definition chunk_plaintext_size_from_ciphertext (ciphertext : Z) : result ObjectError Z :=
  if ciphertext <? AEAD_TAG_LEN then Err object_error else
  let v := ciphertext - AEAD_TAG_LEN in
  if v <=? U32_MAX then Ok (wrap 32 v) else Err object_error.

(** object.rs 167-187 [chunk_aad] *)
Definition chunk_aad (c : ObjectContext) (object_context_hash : bytes)
    (chunk_index plaintext_offset actual_plaintext_len chunk_flags : Z) : bytes :=
  lit "RTP2CHNK" ++ be_bytes 2 PROTOCOL_MAJOR ++ be_bytes 2 SUITE_ID ++
  ctx_transfer_id c ++ ctx_object_id c ++ object_context_hash ++
  be_bytes 8 chunk_index ++ be_bytes 8 plaintext_offset ++
  be_bytes 4 actual_plaintext_len ++ be_bytes 4 chunk_flags.

Section Object.
Context {P : Primitives}.

(** object.rs 110-115 [ObjectContext::context_hash] *)
Definition context_hash (c : ObjectContext) : result ObjectError bytes :=
  let* w := write_context c Writer.new in
  Ok (blake3_hash (lit "RTP2-OBJECT-CONTEXT-v1" ++ Writer.into_bytes w)).

(** object.rs 190-221 [encrypt_chunk] *)
Definition encrypt_chunk (schedule : FileKeySchedule) (c : ObjectContext)
    (object_context_hash : bytes) (index : Z) (plaintext : bytes) : result ObjectError bytes :=
  let* expected := chunk_len c index in
  if negb (len plaintext =? expected) then Err object_error else
  let key := chunk_key schedule index in
  let nonce := chunk_nonce schedule index in
  let aad := chunk_aad c object_context_hash index
               (wrap 64 (index * chunk_plaintext_size c)) expected 0 in
  match aead_encrypt key nonce aad plaintext with
  | Some ct => Ok ct
  | None => Err object_error
  end.

(** object.rs 224-259 [decrypt_chunk] *)
Definition decrypt_chunk (schedule : FileKeySchedule) (c : ObjectContext)
    (object_context_hash : bytes) (index : Z) (ciphertext : bytes) : result ObjectError bytes :=
  let* expected := chunk_len c index in
  if negb (len ciphertext =? expected + AEAD_TAG_LEN) then Err object_error else
  let key := chunk_key schedule index in
  let nonce := chunk_nonce schedule index in
  let aad := chunk_aad c object_context_hash index
               (wrap 64 (index * chunk_plaintext_size c)) expected 0 in
  match aead_decrypt key nonce aad ciphertext with
  | None => Err object_error
  | Some plaintext =>
      if negb (len plaintext =? expected) then Err object_error else Ok plaintext
  end.
End Object.

(** ** Geometry *)
(** What [for_file] establishes about a context. *)
Record geometry (c : ObjectContext) : Prop := {
  geo_size : u64 (encoded_plaintext_size c);
  geo_chunk : 0 < chunk_plaintext_size c <= 2 ^ 22;
  geo_count : 0 <= chunk_count c <= MAX_CHUNK_COUNT;
  geo_cover : (chunk_count c - 1) * chunk_plaintext_size c < encoded_plaintext_size c
              \/ chunk_count c = 0 /\ encoded_plaintext_size c = 0;
  geo_end : encoded_plaintext_size c <= chunk_count c * chunk_plaintext_size c
}.

Lemma allowed_range z : z ∈ ALLOWED_CHUNK_SIZES -> 0 < z <= 2 ^ 22.
Proof.
  unfold ALLOWED_CHUNK_SIZES. intros H.
  repeat (apply elem_of_cons in H as [->|H]; [lia|]). by apply elem_of_nil in H.
Qed.

Lemma for_file_geometry tid oid size chunk c : u64 size ->
  for_file tid oid size chunk = Ok c ->
  geometry c /\ encoded_plaintext_size c = size /\ chunk_plaintext_size c = chunk /\
  ctx_transfer_id c = tid /\ ctx_object_id c = oid /\ logical_plaintext_size c = size.
Proof.
  intros Hs. unfold for_file. case_bool_decide as Hc; [cbn [negb]|done].
  apply allowed_range in Hc. destruct (Z.ltb_spec MAX_CHUNK_COUNT
    (if size =? 0 then 0 else div_ceil size chunk)) as [|Hle]; [done|]. intros [= <-].
  split; [|done]. unfold uint_range in Hs.
  destruct (Z.eqb_spec size 0) as [->|Hne]; split; cbn; unfold uint_range; try lia.
  - split; [|done]. unfold div_ceil. apply Z.div_pos; lia.
  - left. unfold div_ceil in *.
    pose proof (Z.mul_div_le (size + chunk - 1) chunk ltac:(lia)). nia.
  - unfold div_ceil in *.
    pose proof (Z.mul_succ_div_gt (size + chunk - 1) chunk ltac:(lia)). nia.
Qed.

(** The length of every chunk, without machine arithmetic. *)
Lemma chunk_len_spec c i : geometry c -> 0 <= i ->
  chunk_len c i = if chunk_count c <=? i then Err object_error
    else Ok (Z.min (encoded_plaintext_size c - i * chunk_plaintext_size c) (chunk_plaintext_size c)).
Proof.
  intros [Hs Hc Hn Hcov He] Hi. unfold chunk_len. destruct (Z.leb_spec (chunk_count c) i); [done|].
  unfold wrap, uint_range, MAX_CHUNK_COUNT in *.
  assert (Hlt : i * chunk_plaintext_size c < encoded_plaintext_size c) by nia.
  rewrite (Z.mod_small (i * chunk_plaintext_size c)) by nia.
  rewrite (Z.mod_small (encoded_plaintext_size c - _)) by nia.
  rewrite Z.mod_small by lia. done.
Qed.

Lemma chunk_len_range c i n : geometry c -> 0 <= i -> chunk_len c i = Ok n ->
  i < chunk_count c /\ 0 < n <= chunk_plaintext_size c /\
  i * chunk_plaintext_size c + n <= encoded_plaintext_size c.
Proof.
  intros Hg Hi. rewrite chunk_len_spec by done. destruct (Z.leb_spec (chunk_count c) i); [done|].
  intros [= <-]. destruct Hg. nia.
Qed.

(** The plaintext of chunk [i] of a file. *)
Definition file_chunk (c : ObjectContext) (file : bytes) (i : Z) : bytes :=
  match chunk_len c i with
  | Ok n => take (Z.to_nat n) (drop (Z.to_nat (i * chunk_plaintext_size c)) file)
  | _ => []
  end.
(** Bytes on the wire of chunk [i]. *)
Definition wire_len (c : ObjectContext) (i : Z) : Z :=
  match chunk_ciphertext_len c i with Ok n => n | _ => 0 end.

Lemma file_chunk_len c file i n : geometry c -> len file = encoded_plaintext_size c ->
  0 <= i -> chunk_len c i = Ok n -> len (file_chunk c file i) = n.
Proof.
  intros Hg Hf Hi Hn. pose proof (chunk_len_range c i n Hg Hi Hn).
  unfold file_chunk. rewrite Hn. unfold len in *. rewrite length_take, length_drop. nia.
Qed.

Lemma tile_prefix c file m : geometry c -> len file = encoded_plaintext_size c ->
  Z.of_nat m <= chunk_count c ->
  concat (map (file_chunk c file) (seqZ 0 (Z.of_nat m)))
    = take (Z.to_nat (Z.of_nat m * chunk_plaintext_size c)) file.
Proof.
  intros Hg Hf. induction m as [|m IH]; intros Hm; [done|].
  assert (Hlen := chunk_len_spec c (Z.of_nat m) Hg ltac:(lia)).
  destruct (Z.leb_spec (chunk_count c) (Z.of_nat m)); [lia|].
  destruct (chunk_len_range c (Z.of_nat m) _ Hg ltac:(lia) Hlen) as (_ & Hr & Hend).
  rewrite seqZ_S, map_app, concat_app, IH by lia.
  cbn [map concat]. rewrite app_nil_r, Z.add_0_l. unfold file_chunk. rewrite Hlen.
  set (s := chunk_plaintext_size c) in *. set (k := Z.of_nat m) in *.
  replace (Z.to_nat (Z.of_nat (S m) * s)) with (Z.to_nat (k * s) + Z.to_nat s)%nat by nia.
  rewrite <- take_take_drop. f_equal.
  destruct (decide (encoded_plaintext_size c - k * s <= s)).
  - rewrite Z.min_l by done. rewrite !take_ge; [done| |]; rewrite length_drop; unfold len in Hf; nia.
  - by rewrite Z.min_r by lia.
Qed.

Lemma wire_prefix c m : geometry c -> Z.of_nat m <= chunk_count c ->
  foldr Z.add 0 (map (wire_len c) (seqZ 0 (Z.of_nat m)))
    = Z.min (Z.of_nat m * chunk_plaintext_size c) (encoded_plaintext_size c) + 16 * Z.of_nat m.
Proof.
  intros Hg. induction m as [|m IH]; intros Hm.
  { destruct (geo_size c Hg). change (Z.of_nat 0) with 0. rewrite Z.mul_0_l, Z.min_l by done. done. }
  assert (Hlen := chunk_len_spec c (Z.of_nat m) Hg ltac:(lia)).
  destruct (Z.leb_spec (chunk_count c) (Z.of_nat m)); [lia|].
  destruct (chunk_len_range c (Z.of_nat m) _ Hg ltac:(lia) Hlen) as (_ & Hr & Hend).
  rewrite seqZ_S, map_app, foldr_app, Z.add_0_l.
  cbn [map foldr]. rewrite !Z.add_0_r. unfold wire_len at 1, chunk_ciphertext_len.
  rewrite Hlen. cbn [rbind]. unfold AEAD_TAG_LEN.
  assert (Hacc : forall l a, foldr Z.add a l = foldr Z.add 0 l + a).
  { intros l a. induction l as [|x l IHl]; cbn; [done|]. rewrite IHl. lia. }
  rewrite Hacc, IH by lia. nia.
Qed.

(** The chunks tile the file: for every file size and allowed chunk size,
    concatenating the plaintext chunks in order gives the file back, each
    chunk has the length [chunk_len] says, and the advertised ciphertext size
    is the sum of the chunk lengths on the wire. *)
Theorem chunks_tile_file tid oid size chunk c file : u64 size -> len file = size ->
  for_file tid oid size chunk = Ok c ->
  concat (map (file_chunk c file) (seqZ 0 (chunk_count c))) = file /\
  (forall i n, 0 <= i -> chunk_len c i = Ok n -> len (file_chunk c file i) = n) /\
  foldr Z.add 0 (map (wire_len c) (seqZ 0 (chunk_count c))) = ciphertext_size c.
Proof.
  intros Hs Hf Hc. destruct (for_file_geometry _ _ _ _ _ Hs Hc) as (Hg & He & _). pose proof Hg as [? ? ? ? ?].
  split_and!.
  - rewrite <- (Z2Nat.id (chunk_count c)) by lia. rewrite tile_prefix by (done || lia).
    apply take_ge. unfold len in Hf. nia.
  - intros i n Hi Hn. by apply file_chunk_len; [|lia|..].
  - rewrite <- (Z2Nat.id (chunk_count c)) at 1 by lia. rewrite wire_prefix by (done || lia).
    unfold ciphertext_size, AEAD_TAG_LEN, wrap, MAX_CHUNK_COUNT, uint_range in *.
    rewrite Z2Nat.id by lia.
    destruct (Z.eqb_spec (chunk_count c) 0) as [H0|H0]; [rewrite H0; lia|].
    rewrite (Z.mod_small (chunk_count c * 16)) by lia. rewrite Z.mod_small by nia. nia.
Qed.

(** The receiver recovers the sender's plaintext chunk size from the
    chunk size on the wire, and nothing too small to carry a tag is taken. *)
Theorem chunk_size_inverse ct : u64 ct ->
  match chunk_plaintext_size_from_ciphertext ct with
  | Ok n => u32 n /\ ct = n + AEAD_TAG_LEN /\
      (forall c, chunk_plaintext_size c = n -> chunk_ciphertext_size c = ct)
  | _ => ct < AEAD_TAG_LEN \/ U32_MAX + AEAD_TAG_LEN < ct
  end.
Proof.
  intros Hct. unfold chunk_plaintext_size_from_ciphertext, AEAD_TAG_LEN, U32_MAX, uint_range, wrap in *.
  destruct (Z.ltb_spec ct 16); [lia|]. destruct (Z.leb_spec (ct - 16) (2 ^ 32 - 1)); [|lia].
  rewrite Z.mod_small by lia. split_and!; try lia.
  intros c Hc. unfold chunk_ciphertext_size, AEAD_TAG_LEN. lia.
Qed.

(** ** Associated data and encryption *)
Definition context_wf (c : ObjectContext) : Prop :=
  array 32 (ctx_transfer_id c) /\ array 32 (ctx_object_id c) /\
  u64 (logical_plaintext_size c) /\ u64 (encoded_plaintext_size c) /\
  u32 (chunk_plaintext_size c) /\ u64 (chunk_count c) /\ u8 (padding_policy c) /\ u8 (object_role c).

Lemma app_inj_len {A} (a b c d : list A) n : len a = n -> len c = n ->
  a ++ b = c ++ d -> a = c /\ b = d.
Proof. intros Ha Hc He. apply app_inj_1 in He; [done|]. unfold len in *. lia. Qed.

(** The associated data of a chunk has its fixed 132-byte layout and
    determines every field it binds: two chunks with equal associated data
    agree on transfer, object, context hash, index, offset, length and flags. *)
Theorem chunk_aad_binds c h i o n f c' h' i' o' n' f' :
  array 32 (ctx_transfer_id c) -> array 32 (ctx_object_id c) -> array 32 h ->
  array 32 (ctx_transfer_id c') -> array 32 (ctx_object_id c') -> array 32 h' ->
  u64 i -> u64 o -> u32 n -> u32 f -> u64 i' -> u64 o' -> u32 n' -> u32 f' ->
  len (chunk_aad c h i o n f) = 132 /\
  (chunk_aad c h i o n f = chunk_aad c' h' i' o' n' f' ->
   ctx_transfer_id c = ctx_transfer_id c' /\ ctx_object_id c = ctx_object_id c' /\ h = h' /\
   i = i' /\ o = o' /\ n = n' /\ f = f').
Proof.
  intros [H1 _] [H2 _] [H3 _] [H1' _] [H2' _] [H3' _] Hi Ho Hn Hf Hi' Ho' Hn' Hf'.
  unfold chunk_aad. split.
  { rewrite !len_app, !len_be_bytes, H1, H2, H3. done. }
  intros He. do 3 apply app_inv_head in He.
  apply (app_inj_len _ _ _ _ 32) in He as [? He]; [|done..].
  apply (app_inj_len _ _ _ _ 32) in He as [? He]; [|done..].
  apply (app_inj_len _ _ _ _ 32) in He as [? He]; [|done..].
  apply (app_inj_len _ _ _ _ 8) in He as [E1 He]; [|apply len_be_bytes..].
  apply (app_inj_len _ _ _ _ 8) in He as [E2 He]; [|apply len_be_bytes..].
  apply (app_inj_len _ _ _ _ 4) in He as [E3 E4]; [|apply len_be_bytes..].
  apply (be_bytes_inj 8) in E1, E2; [|done..]. apply (be_bytes_inj 4) in E3, E4; done.
Qed.

Definition context_value (c : ObjectContext) : value :=
  VMap [(0, VUint PROTOCOL_MAJOR); (1, VUint SUITE_ID); (2, VBytes (ctx_transfer_id c));
        (3, VBytes (ctx_object_id c)); (4, VUint (logical_plaintext_size c));
        (5, VUint (encoded_plaintext_size c)); (6, VUint (chunk_plaintext_size c));
        (7, VUint (chunk_count c)); (8, VUint (padding_policy c)); (9, VUint (object_role c))].
Definition context_input (c : ObjectContext) : bytes :=
  lit "RTP2-OBJECT-CONTEXT-v1" ++ cbor (context_value c).

Lemma write_context_emits {E} c : emits (write_context (E := E) c) (context_value c).
Proof. unfold write_context, context_value. wemit. Qed.

Lemma u_widen a b x : 0 <= a <= b -> uint_range a x -> uint_range b x.
Proof.
  unfold uint_range. intros Hab Hx. pose proof (Z.pow_le_mono_r 2 a b ltac:(lia) ltac:(lia)). lia.
Qed.

Lemma context_value_ok c : context_wf c -> value_ok (context_value c).
Proof.
  intros (? & ? & ? & ? & H5 & ? & H7 & H8). apply (u_widen _ 64) in H5, H7, H8; [|lia..].
  unfold context_value. vok.
Qed.

Section Laws.
Context {P : Primitives} {L : PrimitiveLaws}.

Lemma context_hash_eq c : context_hash c = Ok (blake3_hash (context_input c)).
Proof. unfold context_hash. by rewrite write_context_emits. Qed.

(** The object context hash commits to the whole geometry: two contexts
    with the same hash are the same context, unless BLAKE3 collides on their
    two encodings. *)
Theorem context_hash_binds c c' : context_wf c -> context_wf c' ->
  collision_free [context_input c] [context_input c'] ->
  context_hash c = context_hash c' -> c = c'.
Proof.
  intros Hc Hc' Hcf He. rewrite !context_hash_eq in He. apply Ok_inj in He.
  apply Hcf in He; [|by apply list_elem_of_singleton..]. apply app_inv_head in He.
  apply cbor_inj in He; [|by apply context_value_ok..].
  destruct c, c'. unfold context_value in He. cbn in He. by injection He as -> -> -> -> -> -> -> ->.
Qed.

Lemma encrypt_chunk_ok sched c h i n plaintext : geometry c -> 0 <= i ->
  chunk_len c i = Ok n -> len plaintext = n -> bytes_ok plaintext ->
  exists ct, encrypt_chunk sched c h i plaintext = Ok ct /\ len ct = n + 16 /\ bytes_ok ct /\
    decrypt_chunk sched c h i ct = Ok plaintext.
Proof.
  intros Hg Hi Hn Hl Hok.
  destruct (chunk_len_range c i n Hg Hi Hn) as (_ & Hr & _). pose proof (geo_chunk c Hg).
  unfold encrypt_chunk, decrypt_chunk. rewrite Hn. cbn [rbind].
  rewrite Hl, Z.eqb_refl. cbn [negb]. set (aad := chunk_aad _ _ _ _ _ _).
  destruct (aead_correct (chunk_key sched i) (chunk_nonce sched i) aad plaintext)
    as (ct & Hct & Hlen & Hb & Hopen);
    [apply chunk_key_array|apply chunk_nonce_array|done|unfold AEAD_MAX; lia|].
  rewrite Hct. exists ct. unfold AEAD_TAG_LEN. rewrite Hlen, Hl, Z.eqb_refl. cbn [negb].
  by rewrite Hopen, Hl, Z.eqb_refl.
Qed.

Lemma decrypt_chunk_len sched c h i ct plaintext : decrypt_chunk sched c h i ct = Ok plaintext ->
  chunk_len c i = Ok (len plaintext) /\ bytes_ok plaintext.
Proof.
  unfold decrypt_chunk. intros H. minv H.
  destruct (negb (len ct =? a + AEAD_TAG_LEN)); [done|].
  destruct (aead_decrypt _ _ _ _) as [pt|] eqn:Ho; [|done]. apply aead_open_len in Ho as [_ Hb].
  destruct (Z.eqb_spec (len pt) a) as [<-|]; [|done]. cbn in Hk. by injection Hk as <-.
Qed.

(** Chunk encryption round-trips: for every chunk of a prepared file the
    sender's [encrypt_chunk] succeeds, produces exactly the advertised number
    of bytes, and the receiver's [decrypt_chunk] returns the plaintext. *)
Theorem chunk_roundtrip sched tid oid size chunk c h i n plaintext :
  u64 size -> for_file tid oid size chunk = Ok c -> 0 <= i ->
  chunk_len c i = Ok n -> len plaintext = n -> bytes_ok plaintext ->
  exists ct, encrypt_chunk sched c h i plaintext = Ok ct /\
    chunk_ciphertext_len c i = Ok (len ct) /\
    decrypt_chunk sched c h i ct = Ok plaintext.
Proof.
  intros Hs Hc Hi Hn Hl Hok. destruct (for_file_geometry _ _ _ _ _ Hs Hc) as (Hg & _).
  destruct (encrypt_chunk_ok sched c h i n plaintext Hg Hi Hn Hl Hok) as (ct & He & Hlen & _ & Hd).
  exists ct. unfold chunk_ciphertext_len, AEAD_TAG_LEN. by rewrite Hn, Hlen.
Qed.

(** Whatever [decrypt_chunk] releases was authenticated under the key,
    nonce and associated data of exactly that chunk, and has exactly the
    length the geometry assigns to it. *)
Theorem decrypt_chunk_authentic sched c h i ct plaintext :
  decrypt_chunk sched c h i ct = Ok plaintext ->
  exists n, chunk_len c i = Ok n /\ len plaintext = n /\ len ct = n + AEAD_TAG_LEN /\
    aead_decrypt (chunk_key sched i) (chunk_nonce sched i)
      (chunk_aad c h i (wrap 64 (i * chunk_plaintext_size c)) n 0) ct = Some plaintext.
Proof.
  unfold decrypt_chunk. intros H. minv H. exists a. rewrite Hp.
  destruct (Z.eqb_spec (len ct) (a + AEAD_TAG_LEN)); [cbn [negb] in Hk|done].
  destruct (aead_decrypt _ _ _ _) as [pt|]; [|done].
  destruct (Z.eqb_spec (len pt) a); [cbn in Hk|done]. by injection Hk as ->.
Qed.
End Laws.

Module ObjectWitness.
Import Toy.
Definition tid : bytes := replicate 32 1.
Definition oid : bytes := replicate 32 2.
Definition ctx3 : ObjectContext := mkContext tid oid 3 3 65536 1 PADDING_NONE ROLE_PRIMARY.
Definition sched3 : FileKeySchedule := key_schedule (mkSecrets tid oid (replicate 32 3) (replicate 32 4)).
Definition hash3 : bytes := replicate 32 9.
Definition ct3 : bytes :=
  match encrypt_chunk sched3 ctx3 hash3 0 [7; 8; 9] with Ok ct => ct | _ => [] end.

Example for_file_edges :
  for_file tid oid 0 65536 = Ok (mkContext tid oid 0 0 65536 0 0 0) /\
  for_file tid oid (2 ^ 48) 65536 = Ok (mkContext tid oid (2 ^ 48) (2 ^ 48) 65536 (2 ^ 32) 0 0) /\
  for_file tid oid (2 ^ 48 + 1) 65536 = Err object_error /\
  for_file tid oid 10 65537 = Err object_error.
Proof. by vm_compute. Qed.

Lemma chunks_tile_file_witness :
  concat (map (file_chunk ctx3 [7; 8; 9]) (seqZ 0 (chunk_count ctx3))) = [7; 8; 9] /\
  (forall i n, 0 <= i -> chunk_len ctx3 i = Ok n -> len (file_chunk ctx3 [7; 8; 9] i) = n) /\
  foldr Z.add 0 (map (wire_len ctx3) (seqZ 0 (chunk_count ctx3))) = ciphertext_size ctx3.
Proof. apply (chunks_tile_file tid oid 3 65536 ctx3 [7; 8; 9]); [done|done|by vm_compute]. Defined.

Lemma chunk_size_inverse_witness :
  match chunk_plaintext_size_from_ciphertext 65552 with
  | Ok n => u32 n /\ 65552 = n + AEAD_TAG_LEN /\
      (forall c, chunk_plaintext_size c = n -> chunk_ciphertext_size c = 65552)
  | _ => 65552 < AEAD_TAG_LEN \/ U32_MAX + AEAD_TAG_LEN < 65552
  end.
Proof. apply (chunk_size_inverse 65552). done. Defined.

Lemma chunk_aad_binds_witness :
  len (chunk_aad ctx3 hash3 0 0 3 0) = 132 /\
  (chunk_aad ctx3 hash3 0 0 3 0 = chunk_aad ctx3 hash3 1 0 3 0 ->
   ctx_transfer_id ctx3 = ctx_transfer_id ctx3 /\ ctx_object_id ctx3 = ctx_object_id ctx3 /\
   hash3 = hash3 /\ 0 = 1 /\ 0 = 0 /\ 3 = 3 /\ 0 = 0).
Proof.
  apply (chunk_aad_binds ctx3 hash3 0 0 3 0 ctx3 hash3 1 0 3 0); repeat split; try done; by repeat constructor.
Defined.

Lemma context_hash_binds_witness : ctx3 = ctx3.
Proof.
  apply (context_hash_binds ctx3 ctx3);
    [repeat split; try done; by repeat constructor..| |done].
  by intros x y ->%list_elem_of_singleton ->%list_elem_of_singleton.
Defined.

Lemma chunk_roundtrip_witness :
  exists ct, encrypt_chunk sched3 ctx3 hash3 0 [7; 8; 9] = Ok ct /\
    chunk_ciphertext_len ctx3 0 = Ok (len ct) /\
    decrypt_chunk sched3 ctx3 hash3 0 ct = Ok [7; 8; 9].
Proof.
  apply (chunk_roundtrip sched3 tid oid 3 65536 ctx3 hash3 0 3 [7; 8; 9]);
    [done|by vm_compute|done|by vm_compute|done|by repeat constructor].
Defined.

Lemma decrypt_chunk_authentic_witness :
  exists n, chunk_len ctx3 0 = Ok n /\ len [7; 8; 9] = n /\ len ct3 = n + AEAD_TAG_LEN /\
    aead_decrypt (chunk_key sched3 0) (chunk_nonce sched3 0)
      (chunk_aad ctx3 hash3 0 (wrap 64 (0 * chunk_plaintext_size ctx3)) n 0) ct3 = Some [7; 8; 9].
Proof. apply (decrypt_chunk_authentic sched3 ctx3 hash3 0 ct3 [7; 8; 9]). by vm_compute. Defined.
End ObjectWitness.
