(* ===== verification/Extension.v ===== *)
(** * Noncritical extensions (manifest.rs)

    The manifests may carry entries the core does not know, which the reader
    skips without keeping them.  A decoder that skips accepts more than one
    encoding of a message, so its specification is a relation [parses] between
    messages and values, where [Wire.codec] has a function. *)

From S2P Require Import Prelude Cbor Wire.

(** manifest.rs 42-52 [ManifestError] *)
Inductive ManifestError : Type :=
| Encoding
| UnknownCriticalField
| UnsupportedVersion
| UnsupportedSuite
| InvalidValue
| TooManyObjects
| TextTooLong
| Crypto
| CommitmentMismatch.
(** manifest.rs 54-58 [From] *)
#[export] Instance mf_from_cbor : From CborError ManifestError := fun _ => Encoding.

(** ** Skipping a value

    The recursion of [skip_value] and its loops run over the unread bytes:
    [fuel] is a bound on the calls, and running out of it is [Panic], which
    [skip_total] excludes. *)
(** manifest.rs 183-211 [skip_value] *)
Fixpoint skip_value (fuel : nat) : M Reader.t ManifestError unit :=
  match fuel with
  | O => fun _ => Panic
  | S f =>
    major <- q Reader.peek_major ;;
    if major =? 0 then q Reader.uint ;;; ret tt
    else if major =? 2 then q Reader.bytes ;;; ret tt
    else if major =? 3 then q Reader.text ;;; ret tt
    else if major =? 4 then n <- q Reader.array ;; skip_items f n ;;; Reader.leave
    else if major =? 5 then in_map (skip_entries f)
    else fail Encoding
  end
with skip_items (fuel : nat) (n : Z) : M Reader.t ManifestError unit :=
  match fuel with
  | O => fun _ => Panic
  | S f => if n =? 0 then ret tt else skip_value f ;;; skip_items f (n - 1)
  end
with skip_entries (fuel : nat) : M MapReader.t ManifestError unit :=
  match fuel with
  | O => fun _ => Panic
  | S f =>
    k <- next ;;
    match k with
    | None => ret tt
    | Some _ => get (skip_value f) ;;; skip_entries f
    end
  end.
(** Enough fuel for any value the reader still holds. *)
Definition skip_fuel (r : Reader.t) : nat := 2 * length (drop (Z.to_nat (Reader.pos r)) (Reader.buf r)) + 2.
(** manifest.rs 175-181 [skip_extension_map] *)
Definition skip_extension_map : M Reader.t ManifestError unit := fun r => in_map (skip_entries (skip_fuel r)) r.

(** [match m.next_key()? { None => .., Some(key) => skip the map, no more, _ => Err }] *)
Definition extension (key : Z) : M MapReader.t ManifestError unit :=
  k <- next ;;
  match k with
  | None => ret tt
  | Some k' =>
    if k' =? key then get skip_extension_map ;;; no_more UnknownCriticalField
    else fail UnknownCriticalField
  end.

(** ** Depth of a value *)
Fixpoint vdepth (v : value) : Z :=
  match v with
  | VArray l => 1 + fold_right (fun x acc => Z.max (vdepth x) acc) 0 l
  | VMap l => 1 + fold_right (fun kv acc => Z.max (vdepth kv.2) acc) 0 l
  | _ => 0
  end.
Definition vdepths (l : list value) : Z := fold_right (fun x acc => Z.max (vdepth x) acc) 0 l.
Definition edepths (l : list (Z * value)) : Z := fold_right (fun kv acc => Z.max (vdepth kv.2) acc) 0 l.

Lemma vdepths_nonneg l : 0 <= vdepths l.
Proof. induction l; cbn; [done|]. unfold vdepths in *. lia. Qed.
Lemma edepths_nonneg l : 0 <= edepths l.
Proof. induction l; cbn; [done|]. unfold edepths in *. lia. Qed.
Lemma vdepths_cons x l : vdepths (x :: l) = Z.max (vdepth x) (vdepths l).
Proof. done. Qed.
Lemma edepths_cons k x l : edepths ((k, x) :: l) = Z.max (vdepth x) (edepths l).
Proof. done. Qed.
Lemma edepths_app l1 l2 : edepths (l1 ++ l2) = Z.max (edepths l1) (edepths l2).
Proof.
  induction l1 as [|[k x] l1 IH]; cbn [app]; [pose proof (edepths_nonneg l2); unfold edepths at 2; cbn; lia|].
  rewrite !edepths_cons, IH. lia.
Qed.
Lemma edepths_single k x : edepths [(k, x)] = Z.max (vdepth x) 0.
Proof. done. Qed.
Lemma vdepth_array l : vdepth (VArray l) = 1 + vdepths l.
Proof. done. Qed.
Lemma vdepth_map l : vdepth (VMap l) = 1 + edepths l.
Proof. done. Qed.

(** The values the reader can skip: every shape but the booleans. *)
#[warnings="-register-all"]
Inductive skippable : value -> Prop :=
| skip_uint n : u64 n -> skippable (VUint n)
| skip_bytes b : byte_string b -> skippable (VBytes b)
| skip_text b : text_string b -> skippable (VText b)
| skip_array l : u64 (len l) -> Forall skippable l -> skippable (VArray l)
| skip_map l : u64 (len l) -> keys_increase None l -> Forall (fun kv => u64 kv.1 /\ skippable kv.2) l ->
    skippable (VMap l).
Definition extension_ok (l : list (Z * value)) : Prop := skippable (VMap l).

Lemma skippable_value_ok v : skippable v -> value_ok v.
Proof.
  revert v. fix IH 2. intros v [n Hn|b Hb|b [Hb _]|l Hl Hvs|l Hl _ Hvs].
  - by apply ok_uint.
  - by apply ok_bytes.
  - by apply ok_text.
  - apply ok_array; [done|]. clear Hl. induction Hvs as [|x l Hx _ IHl]; constructor; [by apply IH|done].
  - apply ok_map; [done|]. clear Hl. induction Hvs as [|[k x] l [Hk Hx] _ IHl]; constructor; [|done].
    split; [done|by apply IH].
Qed.

(** ** Peeking *)
Lemma peek_fwd pre v tl d : value_ok v -> Reader.peek_major (mkr pre (cbor v ++ tl) d) = Ok ((value_head v).1, mkr pre (cbor v ++ tl) d).
Proof.
  intros Hv. destruct (value_head_ok v Hv) as (Hm & Hu & Hs). rewrite cbor_head_body, <- app_assoc.
  unfold Reader.peek_major, mkr; cbn [Reader.buf Reader.pos].
  rewrite !len_app. pose proof (hdr_len (value_head v).1 (value_head v).2). pose proof (len_nonneg (value_body v ++ tl)).
  rewrite len_app in *. destruct (Z.leb_spec (len pre + (len (hdr (value_head v).1 (value_head v).2) + (len (value_body v) + len tl))) (len pre)); [lia|].
  assert (Hh : exists ai rest, 0 <= ai < 32 /\ hdr (value_head v).1 (value_head v).2 = (32 * (value_head v).1 + ai) :: rest).
  { rewrite hdr_eq by done. unfold uint_range in Hu. zbool; eexists _, _; (split; [|reflexivity]); lia. }
  destruct Hh as (ai & rest & Hai & ->). unfold len. rewrite Nat2Z.id, lookup_app_r by lia.
  rewrite Nat.sub_diag. cbn [app lookup list_lookup]. by rewrite hdr_byte_major.
Qed.

Lemma peek_inv r a r' : Reader.peek_major r = Ok (a, r') -> r' = r.
Proof. unfold Reader.peek_major. destruct (_ <=? _); [done|]. destruct (_ !! _); [|done]. by intros [= _ <-]. Qed.

(** ** What skipping accepts *)
Lemma cbor_len v : 1 <= len (cbor v).
Proof. rewrite cbor_head_body, len_app. pose proof (hdr_len (value_head v).1 (value_head v).2). pose proof (len_nonneg (value_body v)). lia. Qed.

Definition skips_value (f : nat) : Prop := forall v pre tl d, skippable v -> 0 <= d -> d + vdepth v <= MAX_DEPTH ->
  2 * len (cbor v) <= Z.of_nat f -> skip_value f (mkr pre (cbor v ++ tl) d) = Ok (tt, mkr (pre ++ cbor v) tl d).
Definition skips_items (f : nat) : Prop := forall l pre tl d, Forall skippable l -> 0 <= d -> d + vdepths l <= MAX_DEPTH ->
  2 * len (items l) + 1 <= Z.of_nat f -> skip_items f (len l) (mkr pre (items l ++ tl) d) = Ok (tt, mkr (pre ++ items l) tl d).
Definition skips_entries (f : nat) : Prop := forall l pre tl d last,
  Forall (fun kv => u64 kv.1 /\ skippable kv.2) l -> keys_increase last l -> 0 < d -> d + edepths l <= MAX_DEPTH ->
  2 * len (entries l) + 1 <= Z.of_nat f ->
  exists last', skip_entries f (mkm pre (entries l ++ tl) d (len l) last) = Ok (tt, mkm (pre ++ entries l) tl (d - 1) 0 last').

Lemma skip_value_step f : skips_items f -> skips_entries f -> skips_value (S f).
Proof.
  intros Hi He v pre tl d Hv Hd Hdep Hf. cbn [skip_value].
  eapply bind_ok; [apply q_fwd, peek_fwd; by apply skippable_value_ok|].
  destruct Hv as [n Hn|b Hb|b Hb|l Hl Hvs|l Hl Hks Hvs]; cbn [value_head fst];
    unfold MAJOR_UINT, MAJOR_BYTES, MAJOR_TEXT, MAJOR_ARRAY, MAJOR_MAP; cbn [Z.eqb Pos.eqb].
  - eapply bind_ok; [apply q_fwd; by apply (codec_fwd codec_uint)|done].
  - eapply bind_ok; [apply q_fwd; by apply (codec_fwd codec_bytes)|done].
  - eapply bind_ok; [apply q_fwd; by apply (codec_fwd codec_text)|done].
  - rewrite vdepth_array in Hdep. pose proof (vdepths_nonneg l).
    rewrite cbor_array, len_app in Hf. pose proof (hdr_len MAJOR_ARRAY (len l)).
    rewrite cbor_array, <- app_assoc. eapply bind_ok; [apply q_fwd, array_fwd; [done|lia]|].
    eapply bind_ok; [apply Hi; first [done|lia]|]. rewrite leave_fwd by lia.
    rewrite <- app_assoc. by replace (d + 1 - 1) with d by lia.
  - rewrite vdepth_map in Hdep. pose proof (edepths_nonneg l).
    rewrite cbor_map, len_app in Hf. pose proof (hdr_len MAJOR_MAP (len l)).
    destruct (He l (pre ++ hdr MAJOR_MAP (len l)) tl (d + 1) None) as [last' Hr]; [done|done|lia..|].
    eapply in_map_close; [done|lia|exact Hr|lia|]. by rewrite cbor_map, app_assoc.
Qed.
Lemma skip_items_step f : skips_value f -> skips_items f -> skips_items (S f).
Proof.
  intros Hv Hi [|v l] pre tl d Hvs Hd Hdep Hf; cbn [skip_items].
  - unfold items; cbn. by rewrite app_nil_r.
  - apply Forall_cons_iff in Hvs as [Hx Hvs]. rewrite vdepths_cons in Hdep.
    rewrite items_cons, len_app in Hf. pose proof (cbor_len v). pose proof (len_nonneg (items l)). pose proof (len_nonneg l).
    rewrite len_cons. destruct (Z.eqb_spec (1 + len l) 0); [lia|].
    rewrite items_cons, <- app_assoc. eapply bind_ok; [apply Hv; first [done|lia]|].
    replace (1 + len l - 1) with (len l) by lia. rewrite (app_assoc pre). apply Hi; first [done|lia].
Qed.
Lemma skip_entries_step f : skips_value f -> skips_entries f -> skips_entries (S f).
Proof.
  intros Hv He [|[k v] l] pre tl d last Hvs Hks Hd Hdep Hf; cbn [skip_entries].
  - exists last. eapply bind_ok; [by apply next_none_fwd|]. unfold entries; cbn. by rewrite app_nil_r.
  - apply Forall_cons_iff in Hvs as [[Hk Hx] Hvs]. destruct Hks as [Hk1 Hks]. cbn [fst snd] in *. rewrite edepths_cons in Hdep.
    rewrite entries_cons, !len_app in Hf. pose proof (cbor_len v). pose proof (len_nonneg (entries l)). pose proof (len_nonneg l).
    pose proof (hdr_len MAJOR_UINT k).
    destruct (He l (pre ++ hdr MAJOR_UINT k ++ cbor v) tl d (Some k)) as [last' Hr]; [done|done|lia..|].
    exists last'. eapply bind_ok; [apply next_some_fwd; [done|rewrite len_cons; lia|done]|].
    eapply bind_ok; [apply get_fwd; apply Hv; first [done|lia]|].
    rewrite len_cons. replace (1 + len l - 1) with (len l) by lia.
    rewrite entries_cons, <- (app_assoc pre). rewrite <- (app_assoc pre), <- (app_assoc _ (cbor v)) in Hr. exact Hr.
Qed.
Lemma skips_all f : skips_value f /\ skips_items f /\ skips_entries f.
Proof.
  induction f as [|f (Hv & Hi & He)].
  - split_and!.
    + intros v pre tl d _ _ _ Hf. pose proof (cbor_len v). lia.
    + intros l pre tl d _ _ _ Hf. pose proof (len_nonneg (items l)). lia.
    + intros l pre tl d last _ _ _ _ Hf. pose proof (len_nonneg (entries l)). lia.
  - split_and!; [by apply skip_value_step|by apply skip_items_step|by apply skip_entries_step].
Qed.

(** What was skipped was a value. *)
Definition skipped_value (f : nat) : Prop := forall pre rest d r, bytes_ok rest -> 0 <= d ->
  skip_value f (mkr pre rest d) = Ok (tt, r) ->
  exists v tl, rest = cbor v ++ tl /\ r = mkr (pre ++ cbor v) tl d /\ bytes_ok tl /\ skippable v.
Definition skipped_items (f : nat) : Prop := forall n pre rest d r, bytes_ok rest -> 0 <= d -> 0 <= n ->
  skip_items f n (mkr pre rest d) = Ok (tt, r) ->
  exists l tl, rest = items l ++ tl /\ r = mkr (pre ++ items l) tl d /\ bytes_ok tl /\ Forall skippable l /\ len l = n.
Definition skipped_entries (f : nat) : Prop := forall n pre rest d last m, bytes_ok rest -> 0 <= d -> 0 <= n ->
  skip_entries f (mkm pre rest d n last) = Ok (tt, m) ->
  exists l tl last', rest = entries l ++ tl /\ m = mkm (pre ++ entries l) tl (d - 1) 0 last' /\ bytes_ok tl /\
    Forall (fun kv => u64 kv.1 /\ skippable kv.2) l /\ keys_increase last l /\ len l = n.

Lemma next_bwd {E} `{From CborError E} pre rest d n last k m : bytes_ok rest -> 0 <= d ->
  next (E := E) (mkm pre rest d n last) = Ok (k, m) ->
  (k = None /\ n = 0 /\ 0 < d /\ m = mkm pre rest (d - 1) 0 last) \/
  (exists k' tl, k = Some k' /\ n <> 0 /\ u64 k' /\ key_after last k' /\ rest = hdr MAJOR_UINT k' ++ tl /\ bytes_ok tl /\
     m = mkm (pre ++ hdr MAJOR_UINT k') tl d (n - 1) (Some k')).
Proof.
  intros Hok Hd Hn. unfold next in Hn. apply q_bwd in Hn. unfold MapReader.next_key, mkm in Hn; cbn in Hn.
  destruct (Z.eqb_spec n 0) as [->|Hne].
  - left. minv Hn. destruct a as [u r]. apply leave_bwd in Hp as [Hd' ->]. by injection Hk as <- <-.
  - right. minv Hn. destruct a as [k' r]. apply (codec_bwd codec_uint) in Hp as (tl & -> & -> & Hok' & Hu); [|done|done].
    cbn in Hk. exists k', tl.
    assert (Hlast : key_after last k' /\ k = Some k' /\ m = mkm (pre ++ cbor (VUint k')) tl d (n - 1) (Some k')).
    { destruct last as [l0|]; cbn.
      - destruct (Z.leb_spec k' l0); [done|]. injection Hk as <- <-. by split; [lia|].
      - by injection Hk as <- <-. }
    destruct Hlast as (? & -> & ->). by split_and!.
Qed.

Lemma skipped_value_step f : skipped_items f -> skipped_entries f -> skipped_value (S f).
Proof.
  intros Hi He pre rest d r Hok Hd H. cbn [skip_value] in H. minv H.
  apply q_bwd in Hp. apply peek_inv in Hp as ->.
  destruct (a =? 0); [|destruct (a =? 2); [|destruct (a =? 3); [|destruct (a =? 4); [|destruct (a =? 5); [|done]]]]].
  - minv Hk. apply q_bwd in Hp. apply (codec_bwd codec_uint) in Hp as (tl & -> & -> & ? & ?); [|done|done]. apply ret_inv in Hk0 as [_ ->].
    eexists (VUint _), tl. split_and!; first [reflexivity|done|by constructor].
  - minv Hk. apply q_bwd in Hp. apply (codec_bwd codec_bytes) in Hp as (tl & -> & -> & ? & ?); [|done|done]. apply ret_inv in Hk0 as [_ ->].
    eexists (VBytes _), tl. split_and!; first [reflexivity|done|by constructor].
  - minv Hk. apply q_bwd in Hp. apply (codec_bwd codec_text) in Hp as (tl & -> & -> & ? & ?); [|done|done]. apply ret_inv in Hk0 as [_ ->].
    eexists (VText _), tl. split_and!; first [reflexivity|done|by constructor].
  - minv Hk. apply q_bwd in Hp. apply array_bwd in Hp as (tl & -> & -> & Hu & Hok' & _); [|done].
    minv Hk0. destruct a1. apply Hi in Hp as (l & tl' & -> & -> & Hok'' & Hl & <-); [|done|lia|by destruct Hu].
    apply leave_bwd in Hk as [_ ->]. exists (VArray l), tl'. rewrite cbor_array, <- !app_assoc.
    split_and!; [done|by replace (d + 1 - 1) with d by lia|done|by constructor].
  - apply in_map_bwd in Hk as (n & tl & m & -> & Hu & Hok' & H & ->); [|done].
    apply He in H as (l & tl' & last' & -> & -> & Hok'' & Hl & Hks & <-); [|done|lia|by destruct Hu].
    exists (VMap l), tl'. rewrite cbor_map, <- !app_assoc. cbn [mkm MapReader.reader].
    split_and!; [done|by replace (d + 1 - 1) with d by lia|done|by constructor].
Qed.
Lemma skipped_items_step f : skipped_value f -> skipped_items f -> skipped_items (S f).
Proof.
  intros Hv Hi n pre rest d r Hok Hd Hn H. cbn [skip_items] in H. destruct (Z.eqb_spec n 0) as [->|].
  - apply ret_inv in H as [_ ->]. exists [], rest. unfold items; cbn. by rewrite app_nil_r.
  - minv H. destruct a. apply Hv in Hp as (v & tl & -> & -> & Hok' & Hx); [|done|done].
    apply Hi in Hk as (l & tl' & -> & -> & Hok'' & Hl & Hlen); [|done|done|lia].
    exists (v :: l), tl'. rewrite items_cons, <- !app_assoc, len_cons. split_and!; [done|done|done|by constructor|lia].
Qed.
Lemma skipped_entries_step f : skipped_value f -> skipped_entries f -> skipped_entries (S f).
Proof.
  intros Hv He n pre rest d last m Hok Hd Hn H. cbn [skip_entries] in H. minv H.
  apply next_bwd in Hp as [(-> & -> & Hd' & ->)|(k & tl & -> & Hne & Hk' & Hlast & -> & Hok' & ->)]; [| |done|done].
  - apply ret_inv in Hk as [_ ->]. exists [], rest, last. unfold entries; cbn. by rewrite app_nil_r.
  - minv Hk. destruct a. apply get_bwd in Hp as (r & Hp & ->). apply Hv in Hp as (v & tl' & -> & -> & Hok'' & Hx); [|done|done].
    apply (He (n - 1) _ tl' d (Some k)) in Hk0 as (l & tl2 & last' & -> & -> & Hok2 & Hl & Hks & Hlen); [|done|done|lia].
    exists ((k, v) :: l), tl2, last'. rewrite entries_cons, <- !app_assoc, len_cons.
    split_and!; [done|done|done|by constructor|done|lia].
Qed.
Lemma skipped_all f : skipped_value f /\ skipped_items f /\ skipped_entries f.
Proof.
  induction f as [|f (Hv & Hi & He)].
  - by split_and!.
  - split_and!; [by apply skipped_value_step|by apply skipped_items_step|by apply skipped_entries_step].
Qed.

(** ** Skipping is total

    On any input, with the fuel of [skip_fuel], skipping ends with a result
    or an error: the fuel is never the limit. *)
Lemma bind_total {S E A B} (p : M S E A) (k : A -> M S E B) s :
  p s <> Panic -> (forall a s', p s = Ok (a, s') -> k a s' <> Panic) -> bind p k s <> Panic.
Proof. unfold bind. destruct (p s) as [[a s']|e|]; cbn; [|done..]. intros _ Hk. by apply Hk. Qed.
Lemma q_total {S E' E A} `{From E' E} (p : M S E' A) s : p s <> Panic -> q p s <> Panic.
Proof. unfold q, try, map_err. by destruct (p s). Qed.
Lemma take_total n r : Reader.take n r <> Panic.
Proof. unfold Reader.take. by destruct (_ <? _). Qed.
Lemma take_byte_total pre rest d : Reader.take_byte (mkr pre rest d) <> Panic.
Proof.
  apply bind_total; [apply take_total|]. intros a s H. apply take_bwd in H as (tl & _ & Hl & _); [|done].
  by destruct a.
Qed.
Lemma head_total pre rest d : bytes_ok rest -> Reader.head (mkr pre rest d) <> Panic.
Proof.
  intros Hok. apply bind_total; [apply take_byte_total|]. intros b s H.
  apply take_byte_bwd in H as (tl & -> & ->). cbv zeta. apply bind_total.
  - repeat (match goal with |- (if ?c then _ else _) _ <> _ => destruct c end); try done;
      (apply bind_total; [first [apply take_byte_total|apply take_total]|]); intros v s H; cbv zeta;
      by (match goal with |- (if ?c then _ else _) _ <> _ => destruct c end).
  - intros v s H. by destruct (_ && _).
Qed.
Lemma uint_total pre rest d : bytes_ok rest -> Reader.uint (mkr pre rest d) <> Panic.
Proof. intros Hok. apply bind_total; [by apply head_total|]. intros a s _. by destruct (negb _). Qed.
Lemma bytes_total pre rest d : bytes_ok rest -> Reader.bytes (mkr pre rest d) <> Panic.
Proof. intros Hok. apply bind_total; [by apply head_total|]. intros a s _. destruct (negb _); [done|apply take_total]. Qed.
Lemma text_total pre rest d : bytes_ok rest -> Reader.text (mkr pre rest d) <> Panic.
Proof.
  intros Hok. apply bind_total; [by apply head_total|]. intros a s _. destruct (negb _); [done|].
  apply bind_total; [apply take_total|]. intros b s' _. by destruct (utf8_valid b).
Qed.
Lemma array_total pre rest d : bytes_ok rest -> Reader.array (mkr pre rest d) <> Panic.
Proof.
  intros Hok. apply bind_total; [by apply head_total|]. intros a s _. destruct (negb _); [done|].
  apply bind_total; [unfold Reader.enter; by destruct (_ <? _)|done].
Qed.
Lemma map_total pre rest d : bytes_ok rest -> Reader.map (mkr pre rest d) <> Panic.
Proof.
  intros Hok. apply bind_total; [by apply head_total|]. intros a s _. destruct (negb _); [done|].
  apply bind_total; [unfold Reader.enter; by destruct (_ <? _)|done].
Qed.
Lemma peek_total pre rest d : Reader.peek_major (mkr pre rest d) <> Panic.
Proof.
  unfold Reader.peek_major, mkr; cbn. destruct (Z.leb_spec (len (pre ++ rest)) (len pre)) as [|Hl]; [done|].
  rewrite len_app in Hl. destruct ((pre ++ rest) !! Z.to_nat (len pre)) eqn:E; [done|].
  apply lookup_ge_None in E. rewrite length_app in E. unfold len in *. lia.
Qed.
Lemma next_total {E} `{From CborError E} pre rest d n last : bytes_ok rest -> 0 < d ->
  next (E := E) (mkm pre rest d n last) <> Panic.
Proof.
  intros Hok Hd. apply q_total. unfold MapReader.next_key, mkm; cbn. destruct (n =? 0).
  - by rewrite leave_fwd.
  - pose proof (uint_total pre rest d Hok). destruct (Reader.uint (mkr pre rest d)) as [[k r]|e|]; cbn; [|done..].
    destruct last as [l|]; [by destruct (k <=? l)|done].
Qed.
Lemma get_total {E' E A} `{From E' E} (p : M Reader.t E' A) pre rest d n last :
  p (mkr pre rest d) <> Panic -> get (F := E) p (mkm pre rest d n last) <> Panic.
Proof.
  intros Hp. apply q_total in Hp. unfold get, MapReader.on, mkm; cbn.
  by destruct (q p (mkr pre rest d)) as [[a r]|e|].
Qed.

Definition total_value (f : nat) : Prop := forall pre rest d, bytes_ok rest -> 0 <= d ->
  2 * len rest + 1 <= Z.of_nat f -> skip_value f (mkr pre rest d) <> Panic.
Definition total_items (f : nat) : Prop := forall n pre rest d, bytes_ok rest -> 0 <= d ->
  2 * len rest + 2 <= Z.of_nat f -> skip_items f n (mkr pre rest d) <> Panic.
Definition total_entries (f : nat) : Prop := forall n pre rest d last, bytes_ok rest -> 0 < d ->
  2 * len rest + 2 <= Z.of_nat f -> skip_entries f (mkm pre rest d n last) <> Panic.

(** What a map decoder sees, whatever the bytes. *)
Lemma in_map_total {E A} `{From CborError E} (p : M MapReader.t E A) pre rest d : bytes_ok rest ->
  (forall n tl, rest = hdr MAJOR_MAP n ++ tl -> bytes_ok tl -> p (mkm (pre ++ hdr MAJOR_MAP n) tl (d + 1) n None) <> Panic) ->
  in_map p (mkr pre rest d) <> Panic.
Proof.
  intros Hok Hp. unfold in_map. pose proof (map_total pre rest d Hok) as Hm.
  destruct (Reader.map (mkr pre rest d)) as [[n r]|e|] eqn:Hr; cbn; [|done..].
  apply map_bwd in Hr as (tl & -> & -> & Hu & Hok' & _); [|done]. specialize (Hp n tl eq_refl Hok'). unfold mkm in Hp.
  destruct (p _) as [[a m]|e|]; done.
Qed.

Lemma total_value_step f : total_items f -> total_entries f -> total_value (S f).
Proof.
  intros Hi He pre rest d Hok Hd Hf. cbn [skip_value]. apply bind_total; [apply q_total, peek_total|].
  intros major s Hp. apply q_bwd, peek_inv in Hp as ->.
  destruct (major =? 0); [apply bind_total; [by apply q_total, uint_total|done]|].
  destruct (major =? 2); [apply bind_total; [by apply q_total, bytes_total|done]|].
  destruct (major =? 3); [apply bind_total; [by apply q_total, text_total|done]|].
  destruct (major =? 4).
  { apply bind_total; [by apply q_total, array_total|]. intros n s Hn. apply q_bwd in Hn.
    apply array_bwd in Hn as (tl & -> & -> & Hu & Hok' & _); [|done]. rewrite len_app in Hf. pose proof (hdr_len MAJOR_ARRAY n).
    apply bind_total; [apply Hi; first [done|lia]|]. intros [] s Hs.
    apply (proj1 (proj2 (skipped_all f))) in Hs as (l & tl' & -> & -> & _); [|done|lia|by destruct Hu]. by rewrite leave_fwd by lia. }
  destruct (major =? 5); [|done]. apply in_map_total; [done|]. intros n tl -> Hok'.
  rewrite len_app in Hf. pose proof (hdr_len MAJOR_MAP n). apply He; first [done|lia].
Qed.
Lemma total_items_step f : total_value f -> total_items f -> total_items (S f).
Proof.
  intros Hv Hi n pre rest d Hok Hd Hf. cbn [skip_items]. destruct (n =? 0); [done|].
  apply bind_total; [apply Hv; first [done|lia]|]. intros [] s Hs.
  apply (proj1 (skipped_all f)) in Hs as (v & tl & -> & -> & Hok' & _); [|done|done].
  rewrite len_app in Hf. pose proof (cbor_len v). apply Hi; first [done|lia].
Qed.
Lemma total_entries_step f : total_value f -> total_entries f -> total_entries (S f).
Proof.
  intros Hv He n pre rest d last Hok Hd Hf. cbn [skip_entries]. apply bind_total; [by apply next_total|].
  intros k s Hk. apply next_bwd in Hk as [(-> & _)|(k' & tl & -> & _ & _ & _ & -> & Hok' & ->)]; [done| |done|lia].
  rewrite len_app in Hf. pose proof (hdr_len MAJOR_UINT k').
  apply bind_total; [apply get_total, Hv; first [done|lia]|]. intros [] s Hs.
  apply get_bwd in Hs as (r & Hs & ->). apply (proj1 (skipped_all f)) in Hs as (v & tl' & -> & -> & Hok'' & _); [|done|lia].
  rewrite len_app in Hf. pose proof (cbor_len v). apply He; first [done|lia].
Qed.
Lemma total_all f : total_value f /\ total_items f /\ total_entries f.
Proof.
  induction f as [|f (Hv & Hi & He)].
  - split_and!.
    + intros pre rest d _ _ Hf. pose proof (len_nonneg rest). lia.
    + intros n pre rest d _ _ Hf. pose proof (len_nonneg rest). lia.
    + intros n pre rest d last _ _ Hf. pose proof (len_nonneg rest). lia.
  - split_and!; [by apply total_value_step|by apply total_items_step|by apply total_entries_step].
Qed.

Lemma skip_fuel_eq pre rest d : skip_fuel (mkr pre rest d) = (2 * length rest + 2)%nat.
Proof. unfold skip_fuel, mkr; cbn [Reader.buf Reader.pos]. by rewrite drop_pre. Qed.
Lemma skip_total pre rest d : bytes_ok rest -> 0 <= d -> skip_extension_map (mkr pre rest d) <> Panic.
Proof.
  intros Hok Hd. unfold skip_extension_map. rewrite skip_fuel_eq. apply in_map_total; [done|]. intros n tl -> Hok'.
  apply (proj2 (proj2 (total_all _))); [done|lia|]. rewrite length_app. unfold len. lia.
Qed.

(** ** The extension map of a message *)
Lemma skip_extension_map_fwd l pre tl d : extension_ok l -> 0 <= d -> d + vdepth (VMap l) <= MAX_DEPTH ->
  skip_extension_map (mkr pre (cbor (VMap l) ++ tl) d) = Ok (tt, mkr (pre ++ cbor (VMap l)) tl d).
Proof.
  intros Hl Hd Hdep. unfold skip_extension_map. rewrite skip_fuel_eq.
  inversion Hl as [| | | |l' Hlen Hks Hvs]; subst. rewrite vdepth_map in Hdep. pose proof (edepths_nonneg l).
  destruct (proj2 (proj2 (skips_all (2 * length (cbor (VMap l) ++ tl) + 2))) l (pre ++ hdr MAJOR_MAP (len l)) tl (d + 1) None)
    as [last' Hr]; [done|done|lia|lia| |].
  - rewrite cbor_map, <- app_assoc, !length_app. unfold len. lia.
  - eapply in_map_close; [done|lia|exact Hr|lia|]. by rewrite cbor_map, app_assoc.
Qed.
Lemma skip_extension_map_bwd pre rest d r : bytes_ok rest -> 0 <= d -> skip_extension_map (mkr pre rest d) = Ok (tt, r) ->
  exists l tl, rest = cbor (VMap l) ++ tl /\ r = mkr (pre ++ cbor (VMap l)) tl d /\ bytes_ok tl /\ extension_ok l.
Proof.
  intros Hok Hd H. unfold skip_extension_map in H. apply in_map_bwd in H as (n & tl & m & -> & Hu & Hok' & H & ->); [|done].
  apply (proj2 (proj2 (skipped_all _))) in H as (l & tl' & last' & -> & -> & Hok'' & Hl & Hks & <-); [|done|lia|by destruct Hu].
  exists l, tl'. rewrite cbor_map, <- !app_assoc. cbn [mkm MapReader.reader].
  split_and!; [done|by replace (d + 1 - 1) with d by lia|done|by constructor].
Qed.

(** An optional extension map as entries of the enclosing map. *)
Definition ext_entries (key : Z) (e : option (list (Z * value))) : list (Z * value) :=
  match e with Some l => [(key, VMap l)] | None => [] end.
Definition ext_ok (e : option (list (Z * value))) : Prop := match e with Some l => extension_ok l | None => True end.

Lemma extension_fwd key e pre tl d last : u64 key -> key_after last key -> ext_ok e -> 0 < d ->
  d + edepths (ext_entries key e) <= MAX_DEPTH ->
  exists last', extension key (mkm pre (entries (ext_entries key e) ++ tl) d (len (ext_entries key e)) last)
    = Ok (tt, mkm (pre ++ entries (ext_entries key e)) tl (d - 1) 0 last').
Proof.
  intros Hk Hlast He Hd Hdep. unfold extension. destruct e as [l|]; cbn [ext_entries] in *.
  - exists (Some key). eapply bind_ok; [by apply next_some_fwd|]. cbn beta iota. rewrite Z.eqb_refl. rewrite edepths_cons in Hdep.
    eapply bind_ok; [apply get_fwd, skip_extension_map_fwd; [done|lia|lia]|]. change (len [(key, VMap l)] - 1) with 0.
    change (entries [] ++ tl) with tl. rewrite no_more_fwd by lia. rewrite entries_cons. unfold entries.
    by rewrite <- !app_assoc, !app_nil_r.
  - exists last. eapply bind_ok; [by apply next_none_fwd|]. unfold entries; cbn. by rewrite app_nil_r.
Qed.
Lemma extension_bwd key pre rest d n last m : bytes_ok rest -> 0 <= d ->
  extension key (mkm pre rest d n last) = Ok (tt, m) ->
  exists e tl last', rest = entries (ext_entries key e) ++ tl /\ bytes_ok tl /\ ext_ok e /\ n = len (ext_entries key e) /\
    m = mkm (pre ++ entries (ext_entries key e)) tl (d - 1) 0 last'.
Proof.
  intros Hok Hd H. unfold extension in H. minv H.
  apply next_bwd in Hp as [(-> & -> & _ & ->)|(k & tl & -> & Hne & _ & _ & -> & Hok' & ->)]; [| |done|done].
  - apply ret_inv in Hk as [_ ->]. exists None, rest, last. unfold entries; cbn. by rewrite app_nil_r.
  - destruct (Z.eqb_spec k key) as [->|]; [|done]. minv Hk. destruct a. apply get_bwd in Hp as (r & Hp & ->).
    apply skip_extension_map_bwd in Hp as (l & tl' & -> & -> & Hok'' & Hl); [|done|done].
    apply no_more_bwd in Hk0 as (Hn & ->). exists (Some l), tl', (Some key). cbn [ext_entries]. rewrite entries_cons.
    unfold entries. rewrite !app_nil_r, <- !app_assoc. split_and!; [done|done|done|unfold len; cbn; lia|done].
Qed.

(** ** Relational codecs

    [parses k p R]: the reader [p] accepts exactly the encodings of the values
    [v] related to its result by [R], given room for [k] nesting levels and for
    those of [v]. *)
Class parses {E A} (k : Z) (p : M Reader.t E A) (R : A -> value -> Prop) : Prop := {
  parses_fwd pre tl d a v :
    R a v -> 0 <= d -> d + k <= MAX_DEPTH -> d + vdepth v <= MAX_DEPTH ->
    p (mkr pre (cbor v ++ tl) d) = Ok (a, mkr (pre ++ cbor v) tl d);
  parses_bwd pre rest d a r :
    bytes_ok rest -> 0 <= d -> p (mkr pre rest d) = Ok (a, r) ->
    exists v tl, rest = cbor v ++ tl /\ r = mkr (pre ++ cbor v) tl d /\ bytes_ok tl /\ R a v
}.

Section Parses.
Context {E A : Type} {k : Z} {p : M Reader.t E A} {R : A -> value -> Prop} `{Hp : !parses k p R}.

Lemma parses_repeat_fwd xs vs pre tl d : Forall2 R xs vs -> 0 <= d -> d + k <= MAX_DEPTH -> d + vdepths vs <= MAX_DEPTH ->
  repeat_m (length xs) p (mkr pre (items vs ++ tl) d) = Ok (xs, mkr (pre ++ items vs) tl d).
Proof.
  intros Hxs Hd Hk. revert pre. induction Hxs as [|x v xs vs Hx Hxs IH]; intros pre Hdep.
  - cbn. unfold ret. by rewrite app_nil_r.
  - rewrite vdepths_cons in Hdep. cbn [length repeat_m]. rewrite items_cons, <- app_assoc.
    eapply bind_ok; [apply (parses_fwd (R := R)); first [done|lia]|].
    eapply bind_ok; [apply IH; lia|]. unfold ret. by rewrite <- app_assoc.
Qed.
Lemma parses_repeat_bwd n xs pre rest d r : bytes_ok rest -> 0 <= d -> repeat_m n p (mkr pre rest d) = Ok (xs, r) ->
  exists vs tl, rest = items vs ++ tl /\ r = mkr (pre ++ items vs) tl d /\ bytes_ok tl /\ Forall2 R xs vs /\ length vs = n.
Proof.
  intros Hok Hd. revert xs pre rest r Hok. induction n as [|n IH]; intros xs pre rest r Hok H; cbn [repeat_m] in H.
  - apply ret_inv in H as [-> ->]. exists [], rest. unfold items; cbn. by rewrite app_nil_r.
  - minv H. apply (parses_bwd (R := R)) in Hp0 as (v & tl & -> & -> & Hok' & Hx); [|done|done].
    minv Hk. apply IH in Hp0 as (vs & tl' & -> & -> & Hok'' & Hxs & <-); [|done]. apply ret_inv in Hk0 as [-> ->].
    exists (v :: vs), tl'. rewrite items_cons, <- !app_assoc. split_and!; try done. by constructor.
Qed.
Lemma get_parses_fwd {F} `{From E F} a v pre tl d n last : R a v -> 0 <= d -> d + k <= MAX_DEPTH -> d + vdepth v <= MAX_DEPTH ->
  get (F := F) p (mkm pre (cbor v ++ tl) d n last) = Ok (a, mkm (pre ++ cbor v) tl d n last).
Proof. intros. apply get_fwd. by apply (parses_fwd (R := R)). Qed.
Lemma get_parses_bwd {F} `{From E F} pre rest d n last a m : bytes_ok rest -> 0 <= d ->
  get (F := F) p (mkm pre rest d n last) = Ok (a, m) ->
  exists v tl, rest = cbor v ++ tl /\ m = mkm (pre ++ cbor v) tl d n last /\ bytes_ok tl /\ R a v.
Proof.
  intros Hok Hd H0. apply get_bwd in H0 as (r & H0 & ->). apply (parses_bwd (R := R)) in H0 as (v & tl & -> & -> & ? & ?); [|done|done].
  by exists v, tl.
Qed.
Lemma get_parses_repeat_fwd {F} `{From E F} xs vs c pre tl d n last : c = length xs -> Forall2 R xs vs -> 0 <= d ->
  d + k <= MAX_DEPTH -> d + vdepths vs <= MAX_DEPTH ->
  get (F := F) (repeat_m c p) (mkm pre (items vs ++ tl) d n last) = Ok (xs, mkm (pre ++ items vs) tl d n last).
Proof. intros ->. intros. apply get_fwd. by apply parses_repeat_fwd. Qed.
Lemma get_parses_repeat_bwd {F} `{From E F} c pre rest d n last xs m : bytes_ok rest -> 0 <= d ->
  get (F := F) (repeat_m c p) (mkm pre rest d n last) = Ok (xs, m) ->
  exists vs tl, rest = items vs ++ tl /\ m = mkm (pre ++ items vs) tl d n last /\ bytes_ok tl /\ Forall2 R xs vs /\ length vs = c.
Proof.
  intros Hok Hd H0. apply get_bwd in H0 as (r & H0 & ->). apply parses_repeat_bwd in H0 as (vs & tl & -> & -> & ? & ? & ?); [|done|done].
  by exists vs, tl.
Qed.

Lemma decode_parses_fwd `{From CborError E} a v : k <= MAX_DEPTH -> vdepth v <= MAX_DEPTH -> R a v ->
  len (cbor v) <= MAX_CONTROL_SIZE -> decode_all (cbor v) p = Ok a.
Proof.
  intros Hk Hd HR Hl. eapply decode_all_fwd; [done|]. apply (parses_fwd (R := R)); first [done|lia].
Qed.
Lemma decode_parses_bwd `{From CborError E} b a : bytes_ok b -> decode_all b p = Ok a -> exists v, b = cbor v /\ R a v.
Proof.
  intros Hok H0. unfold decode_all in H0. minv H0. minv Hp0.
  unfold Reader.new in Hp0. destruct (MAX_CONTROL_SIZE <? len b); [done|]. injection Hp0 as <-.
  minv Hk. destruct a0 as [a' r]. minv Hk0. injection Hk as ->.
  apply (parses_bwd [] b 0) in Hp0 as (v & tl & -> & -> & _ & HR); [|done|lia].
  exists v. split; [|done]. minv Hp1. unfold Reader.finish, mkr in Hp1. cbn in Hp1.
  rewrite len_app in Hp1. destruct (Z.eqb_spec (len (cbor v)) (len (cbor v) + len tl)); [|done].
  assert (len tl = 0) as ->%len_0_nil by lia. by rewrite app_nil_r.
Qed.
End Parses.

(** The two cases of an extension, in the form symbolic execution meets them. *)
Lemma extension_some_fwd key l pre tl d n last : u64 key -> key_after last key -> extension_ok l -> 0 < d ->
  d + vdepth (VMap l) <= MAX_DEPTH -> n = 1 ->
  extension key (mkm pre (entries [(key, VMap l)] ++ tl) d n last)
    = Ok (tt, mkm (pre ++ entries [(key, VMap l)]) tl (d - 1) 0 (Some key)).
Proof.
  intros Hk Hlast He Hd Hdep ->. unfold extension. eapply bind_ok; [by apply next_some_fwd|]. cbn beta iota. rewrite Z.eqb_refl.
  eapply bind_ok; [apply get_fwd, skip_extension_map_fwd; [done|lia|lia]|].
  rewrite no_more_fwd by lia. rewrite entries_cons. unfold entries. by rewrite <- !app_assoc, !app_nil_r.
Qed.
Lemma extension_none_fwd key pre tl d n last : 0 < d -> n = 0 ->
  extension key (mkm pre tl d n last) = Ok (tt, mkm pre tl (d - 1) 0 last).
Proof. intros Hd ->. unfold extension. by eapply bind_ok; [apply next_none_fwd|]. Qed.
Lemma extension_cases key pre rest d n last u m : bytes_ok rest -> 0 <= d -> extension key (mkm pre rest d n last) = Ok (u, m) ->
  (exists last', n = 0 /\ m = mkm pre rest (d - 1) 0 last') \/
  (exists l tl last', n - 1 = 0 /\ rest = entries [(key, VMap l)] ++ tl /\ bytes_ok tl /\ extension_ok l /\
     m = mkm (pre ++ entries [(key, VMap l)]) tl (d - 1) 0 last').
Proof.
  destruct u. intros Hok Hd H. apply extension_bwd in H as ([l|] & tl & last' & -> & Hok' & He & -> & ->); [| |done|done].
  - right. by exists l, tl, last'.
  - left. exists last'. split; [done|]. unfold entries; cbn. by rewrite app_nil_r.
Qed.

(** The steps of [Wire] know extensions and relational codecs from here on. *)
Ltac wprim ::=
  first [ eapply expect_fwd; wside
        | eapply get_codec_fwd; wside
        | eapply get_array_fwd; wside
        | eapply get_repeat_fwd; wside
        | eapply get_leave_fwd; wside
        | eapply no_more_fwd; wside
        | eapply guard_ok; wside
        | eapply extension_some_fwd; wside
        | eapply extension_none_fwd; wside
        | eapply get_parses_fwd; [eassumption|wside..]
        | eapply get_parses_repeat_fwd; [|eassumption|wside..]; wside ].
Ltac wback H ::=
  lazymatch type of H with
  | expect _ _ = Ok _ =>
      let tl := fresh "tl" in let Hn := fresh "Hn" in let Hok := fresh "Hok" in
      apply expect_bwd in H as (tl & -> & Hn & -> & Hok); [clear Hn|eassumption|lia]
  | get Reader.array _ = Ok _ =>
      let tl := fresh "tl" in let Hn := fresh "Hu" in let Hok := fresh "Hok" in
      apply get_array_bwd in H as (tl & -> & -> & Hn & Hok); [|eassumption]
  | get (repeat_m _ ?p) _ = Ok _ =>
      let vs := fresh "vs" in
      let tl := fresh "tl" in let Hok := fresh "Hok" in let HP := fresh "HP" in let Hl := fresh "Hlen" in
      first [ let c := constr:(_ : codec _ p _ _) in
              eapply get_repeat_bwd in H as (tl & -> & -> & Hok & HP & Hl); [|eassumption|lia]
            | eapply get_parses_repeat_bwd in H as (vs & tl & -> & -> & Hok & HP & Hl); [|eassumption|lia] ]
  | get Reader.leave _ = Ok _ => apply get_leave_bwd in H; subst
  | get ?p _ = Ok _ =>
      let v := fresh "v" in
      let tl := fresh "tl" in let Hok := fresh "Hok" in let HP := fresh "HP" in
      first [ let c := constr:(_ : codec _ p _ _) in
              eapply get_codec_bwd in H as (tl & -> & -> & Hok & HP); [|eassumption|lia]
            | eapply get_parses_bwd in H as (v & tl & -> & -> & Hok & HP); [|eassumption|lia] ]
  | no_more _ _ = Ok _ =>
      let Hn := fresh "Hn" in apply no_more_bwd in H as (Hn & ->)
  | guard _ _ _ = Ok _ =>
      let H1 := fresh "Hg" in apply guard_inv in H as (H1 & ->)
  | extension _ _ = Ok _ =>
      let Hn := fresh "Hn" in let e := fresh "e" in let tl := fresh "tl" in let last := fresh "last" in
      let Hok := fresh "Hok" in let He := fresh "He" in
      apply extension_cases in H as [(last & Hn & ->)|(e & tl & last & Hn & -> & Hok & He & ->)]; [| |eassumption|lia]
  end.
