(* ===== verification/Manifest.v ===== *)
(** * The public and the private manifest (manifest.rs)

    The public manifest is what a relay may see, the private one is sealed
    for the recipient; a commitment binds the pair.  Both decoders skip a
    noncritical extension map, so a message has many accepted encodings and
    one that the encoder writes. *)

From stdpp Require Import gmap.
From S2P Require Import Prelude Cbor Wire Extension Crypto Object.
#[local] Open Scope Z_scope.

(** manifest.rs 30-30 [COMMITMENT_DOMAIN] *)
Definition COMMITMENT_DOMAIN : bytes := lit "RTP2-MANIFEST-COMMITMENT-v1" ++ [0].
(** manifest.rs 32-32 [MANIFEST_AAD_DOMAIN] *)
Definition MANIFEST_AAD_DOMAIN : bytes := lit "RTP2-MANIFEST-AAD-v1".
(** manifest.rs 34-34 [SCOPE_DOMAIN] *)
Definition SCOPE_DOMAIN : bytes := lit "RTP2-RECIPIENT-SCOPE-v1".
(** manifest.rs 37-37 [MAX_OBJECTS] *)
Definition MAX_OBJECTS : Z := 1024.
(** manifest.rs 39-39 [MAX_TEXT_LEN] *)
Definition MAX_TEXT_LEN : Z := 4096.
(** manifest.rs 66-66 [ROUTE_BALANCED] *)
Definition ROUTE_BALANCED : Z := 1.
(** manifest.rs 68-68 [ROUTE_STEALTH_TRANSFER] *)
Definition ROUTE_STEALTH_TRANSFER : Z := 3.
(** manifest.rs 76-76 [ROLE_SIDECAR] *)
Definition ROLE_SIDECAR : Z := 5.
(** manifest.rs 82-82 [PADDING_FIXED_BUCKET] *)
Definition PADDING_FIXED_BUCKET : Z := 3.
(** manifest.rs 85-85 [CAPABILITY_SCHEME] *)
Definition CAPABILITY_SCHEME : Z := 1.

(** manifest.rs 87-89 [valid_route_profile] *)
Definition valid_route_profile (v : Z) : bool := v <=? ROUTE_STEALTH_TRANSFER.
(** manifest.rs 91-93 [valid_role] *)
Definition valid_role (v : Z) : bool := v <=? ROLE_SIDECAR.
(** manifest.rs 95-97 [valid_padding] *)
Definition valid_padding (v : Z) : bool := v <=? PADDING_FIXED_BUCKET.

(** ** Objects of the public manifest *)
(** manifest.rs 106-114 [ObjectPublic] *)
Record ObjectPublic : Type := mkObject {
  op_object_id : bytes;
  op_object_role : Z;
  op_ciphertext_root : bytes;
  op_ciphertext_size : Z;
  op_chunk_ciphertext_size : Z;
  op_chunk_count : Z;
  op_padding_policy : Z
}.
(** manifest.rs 117-127 [ObjectPublic::encode] *)
Definition write_object {E} (o : ObjectPublic) : Writer.t -> result E Writer.t :=
  write_map 7 [
    MapWriter.bytes 0 (op_object_id o);
    MapWriter.uint 1 (op_object_role o);
    MapWriter.bytes 2 (op_ciphertext_root o);
    MapWriter.uint 3 (op_ciphertext_size o);
    MapWriter.uint 4 (op_chunk_ciphertext_size o);
    MapWriter.uint 5 (op_chunk_count o);
    MapWriter.uint 6 (op_padding_policy o)].
(** manifest.rs 129-170 [ObjectPublic::decode] *)
Definition read_object : M Reader.t ManifestError ObjectPublic :=
  in_map (
    expect 0 ;;; object_id <- get (Reader.bytes_exact 32) ;;
    expect 1 ;;; object_role <- get Reader.uint ;;
    expect 2 ;;; ciphertext_root <- get (Reader.bytes_exact 32) ;;
    expect 3 ;;; ciphertext_size <- get Reader.uint ;;
    expect 4 ;;; chunk_ciphertext_size <- get Reader.uint ;;
    expect 5 ;;; chunk_count <- get Reader.uint ;;
    expect 6 ;;; padding_policy <- get Reader.uint ;;
    extension 7 ;;;
    guard (valid_role object_role && valid_padding padding_policy) InvalidValue ;;;
    ret (mkObject object_id object_role ciphertext_root ciphertext_size chunk_ciphertext_size chunk_count padding_policy)).

(** ** The public manifest *)
(** manifest.rs 217-227 [PublicManifest] *)
Record PublicManifest : Type := mkPublicManifest {
  protocol_minor : Z;
  suite_id : Z;
  pm_transfer_id : bytes;
  pm_created_at : Z;
  pm_expires_at : Z;
  route_profile : Z;
  objects : list ObjectPublic;
  private_manifest_ciphertext_hash : bytes;
  capability_scheme : Z
}.
(** manifest.rs 230-251 [PublicManifest::encode] *)
Definition write_public {E} (m : PublicManifest) : Writer.t -> result E Writer.t :=
  write_map 10 [
    MapWriter.uint 0 PROTOCOL_MAJOR;
    MapWriter.uint 1 (protocol_minor m);
    MapWriter.uint 2 (suite_id m);
    MapWriter.bytes 3 (pm_transfer_id m);
    MapWriter.uint 4 (pm_created_at m);
    MapWriter.uint 5 (pm_expires_at m);
    MapWriter.uint 6 (route_profile m);
    MapWriter.nested 7 (fun w => write_each write_object (objects m) (Writer.array (len (objects m)) w));
    MapWriter.bytes 8 (private_manifest_ciphertext_hash m);
    MapWriter.uint 9 (capability_scheme m)].
(** manifest.rs 230-251 [PublicManifest::encode] *)
Definition encode_public {E} (m : PublicManifest) : result E bytes :=
  let* w := write_public m Writer.new in
  Ok (Writer.into_bytes w).

(** The size relation of one object, in the wrapping arithmetic of a release
    build.  manifest.rs 347-366 [PublicManifest::validate] *)
Definition validate_object (o : ObjectPublic) : result ManifestError unit :=
  if op_chunk_ciphertext_size o <? AEAD_TAG_LEN then Err InvalidValue else
  let plaintext_chunk := op_chunk_ciphertext_size o - AEAD_TAG_LEN in
  if negb (bool_decide (wrap 32 plaintext_chunk ∈ ALLOWED_CHUNK_SIZES)) then Err InvalidValue else
  if op_chunk_count o =? 0 then
    if negb (op_ciphertext_size o =? 0) then Err InvalidValue else Ok tt
  else
    let max := wrap 64 (op_chunk_count o * op_chunk_ciphertext_size o) in
    let min := wrap 64 (wrap 64 (wrap 64 (max - op_chunk_ciphertext_size o) + 1) + AEAD_TAG_LEN) in
    if (max <? op_ciphertext_size o) || (op_ciphertext_size o <? min) then Err InvalidValue else Ok tt.
(** manifest.rs 340-368 [PublicManifest::validate] *)
Fixpoint validate_objects (seen : gset bytes) (l : list ObjectPublic) : result ManifestError unit :=
  match l with
  | [] => Ok tt
  | o :: rest =>
    if bool_decide (op_object_id o ∈ seen) then Err InvalidValue else
    let* _ := validate_object o in
    validate_objects ({[op_object_id o]} ∪ seen) rest
  end.
(** manifest.rs 320-369 [PublicManifest::validate] *)
Definition validate (m : PublicManifest) : result ManifestError unit :=
  if len (objects m) =? 0 then Err InvalidValue else
  if pm_expires_at m <=? pm_created_at m then Err InvalidValue else
  if negb (capability_scheme m =? CAPABILITY_SCHEME) then Err InvalidValue else
  if negb (len (filter (fun o => op_object_role o = ROLE_PRIMARY) (objects m)) =? 1) then Err InvalidValue else
  validate_objects ∅ (objects m).

(** manifest.rs 255-301 [PublicManifest::decode] *)
Definition read_public : M Reader.t ManifestError PublicManifest :=
  in_map (
    expect 0 ;;; major <- get Reader.uint ;;
    guard (major =? PROTOCOL_MAJOR) UnsupportedVersion ;;;
    expect 1 ;;; minor <- get Reader.uint ;;
    expect 2 ;;; suite <- get Reader.uint ;;
    guard (suite =? SUITE_ID) UnsupportedSuite ;;;
    expect 3 ;;; transfer_id <- get (Reader.bytes_exact 32) ;;
    expect 4 ;;; created_at <- get Reader.uint ;;
    expect 5 ;;; expires_at <- get Reader.uint ;;
    expect 6 ;;; route <- get Reader.uint ;;
    guard (valid_route_profile route) InvalidValue ;;;
    expect 7 ;;; count <- get Reader.array ;;
    guard (negb (MAX_OBJECTS <? count)) TooManyObjects ;;;
    objects <- get (repeat_m (Z.to_nat count) read_object) ;;
    get Reader.leave ;;;
    expect 8 ;;; hash <- get (Reader.bytes_exact 32) ;;
    expect 9 ;;; scheme <- get Reader.uint ;;
    extension 10 ;;;
    ret (mkPublicManifest minor suite transfer_id created_at expires_at route objects hash scheme)).
(** manifest.rs 253-317 [PublicManifest::decode] *)
Definition decode_public (b : bytes) : result ManifestError PublicManifest :=
  let* m := decode_all b read_public in
  let* _ := validate m in
  Ok m.
(** manifest.rs 371-373 [PublicManifest::primary] *)
Definition primary (m : PublicManifest) : option ObjectPublic :=
  head (filter (fun o => op_object_role o = ROLE_PRIMARY) (objects m)).

(** ** Recipient scopes *)
(** manifest.rs 393-396 [RecipientScope] *)
Record RecipientScope : Type := mkScope { scope_type : Z; scope_id : bytes }.
#[export] Instance scope_eq : EqDecision RecipientScope.
Proof. solve_decision. Defined.
(** manifest.rs 400-400 [RecipientScope::TYPE_DEVICE] *)
Definition TYPE_DEVICE : Z := 0.
(** manifest.rs 404-409 [RecipientScope::device] *)
Definition device_scope (device_id : bytes) : RecipientScope := mkScope TYPE_DEVICE device_id.
(** manifest.rs 411-416 [RecipientScope::encode] *)
Definition write_scope {E} (s : RecipientScope) : Writer.t -> result E Writer.t :=
  write_map 2 [MapWriter.uint 0 (scope_type s); MapWriter.bytes 1 (scope_id s)].
(** manifest.rs 418-431 [RecipientScope::decode] *)
Definition read_scope : M Reader.t ManifestError RecipientScope :=
  in_map (
    expect 0 ;;; scope_type <- get Reader.uint ;;
    expect 1 ;;; id <- get Reader.bytes ;;
    no_more UnknownCriticalField ;;;
    guard (negb (MAX_TEXT_LEN <? len id)) InvalidValue ;;;
    ret (mkScope scope_type id)).

(** ** The private manifest *)
(** manifest.rs 446-450 [KeyPolicy] *)
Record KeyPolicy : Type := mkKeyPolicy { kp_mode : Z; kp_minimum_security_level : Z; kp_pqc_required : bool }.
(** manifest.rs 454-458 [RetentionPolicy] *)
Record RetentionPolicy : Type := mkRetention { rp_expires_at : Z; rp_view_once : bool; rp_allow_local_save : bool }.
(** manifest.rs 463-467 [ObjectPrivate] *)
Record ObjectPrivate : Type := mkPrivateObject { or_object_id : bytes; or_object_role : Z; or_relationship : Z }.
(** manifest.rs 470-476 [ObjectPrivate::encode] *)
Definition write_private_object {E} (o : ObjectPrivate) : Writer.t -> result E Writer.t :=
  write_map 3 [MapWriter.bytes 0 (or_object_id o); MapWriter.uint 1 (or_object_role o); MapWriter.uint 2 (or_relationship o)].
(** The keys strictly increase, so the loop over 3, 4 and 5 runs at most four
    times.  manifest.rs 487-493 [ObjectPrivate::decode] *)
Fixpoint skip_optional (fuel : nat) : M MapReader.t ManifestError unit :=
  match fuel with
  | O => fun _ => Panic
  | S f =>
    k <- next ;;
    match k with
    | None => ret tt
    | Some k' =>
      if (3 <=? k') && (k' <=? 5) then get (fun r => skip_value (skip_fuel r) r) ;;; skip_optional f
      else fail UnknownCriticalField
    end
  end.
(** manifest.rs 478-502 [ObjectPrivate::decode] *)
Definition read_private_object : M Reader.t ManifestError ObjectPrivate :=
  in_map (
    expect 0 ;;; object_id <- get (Reader.bytes_exact 32) ;;
    expect 1 ;;; object_role <- get Reader.uint ;;
    expect 2 ;;; relationship <- get Reader.uint ;;
    skip_optional 4 ;;;
    guard (valid_role object_role) InvalidValue ;;;
    ret (mkPrivateObject object_id object_role relationship)).

(** manifest.rs 507-521 [PrivateManifest] *)
Record PrivateManifest : Type := mkPrivate {
  sender_account_id : bytes;
  pv_sender_device_id : bytes;
  recipient_scope : RecipientScope;
  display_name : bytes;
  original_filename : bytes;
  mime_type : bytes;
  pv_logical_plaintext_size : Z;
  pv_plaintext_digest : bytes;
  pv_created_at : Z;
  user_caption : option bytes;
  pv_objects : list ObjectPrivate;
  key_policy : KeyPolicy;
  retention_policy : RetentionPolicy
}.
(** manifest.rs 566-570 [PrivateManifest::encode] *)
Definition write_key_policy {E} (k : KeyPolicy) : Writer.t -> result E Writer.t :=
  write_map 3 [MapWriter.uint 0 (kp_mode k); MapWriter.uint 1 (kp_minimum_security_level k); MapWriter.boolean 2 (kp_pqc_required k)].
(** manifest.rs 574-578 [PrivateManifest::encode] *)
Definition write_retention {E} (p : RetentionPolicy) : Writer.t -> result E Writer.t :=
  write_map 3 [MapWriter.uint 0 (rp_expires_at p); MapWriter.boolean 1 (rp_view_once p); MapWriter.boolean 2 (rp_allow_local_save p)].
(** manifest.rs 539-580 [PrivateManifest::encode] *)
Definition write_private {E} (m : PrivateManifest) : Writer.t -> result E Writer.t :=
  write_map (match user_caption m with Some _ => 13 | None => 12 end) ([
    MapWriter.bytes 0 (sender_account_id m);
    MapWriter.bytes 1 (pv_sender_device_id m);
    MapWriter.nested 2 (write_scope (recipient_scope m));
    MapWriter.text 3 (display_name m);
    MapWriter.text 4 (original_filename m);
    MapWriter.text 5 (mime_type m);
    MapWriter.uint 6 (pv_logical_plaintext_size m);
    MapWriter.bytes 7 (pv_plaintext_digest m);
    MapWriter.uint 8 (pv_created_at m)]
    ++ match user_caption m with Some caption => [MapWriter.text 9 caption] | None => [] end ++ [
    MapWriter.nested 10 (fun w => write_each write_private_object (pv_objects m) (Writer.array (len (pv_objects m)) w));
    MapWriter.nested 11 (write_key_policy (key_policy m));
    MapWriter.nested 12 (write_retention (retention_policy m))]).
(** manifest.rs 524-582 [PrivateManifest::encode] *)
Definition encode_private (m : PrivateManifest) : result ManifestError bytes :=
  if existsb (fun text => MAX_TEXT_LEN <? len text) [display_name m; original_filename m; mime_type m]
  then Err TextTooLong else
  if match user_caption m with Some caption => MAX_TEXT_LEN <? len caption | None => false end
  then Err TextTooLong else
  if MAX_OBJECTS <? len (pv_objects m) then Err TooManyObjects else
  let* w := write_private m Writer.new in
  Ok (Writer.into_bytes w).

(** manifest.rs 627-643 [PrivateManifest::decode] *)
Definition read_key_policy : M Reader.t ManifestError KeyPolicy :=
  in_map (
    expect 0 ;;; mode <- get Reader.uint ;;
    expect 1 ;;; level <- get Reader.uint ;;
    expect 2 ;;; pqc_required <- get Reader.boolean ;;
    no_more UnknownCriticalField ;;;
    ret (mkKeyPolicy mode level pqc_required)).
(** manifest.rs 645-661 [PrivateManifest::decode] *)
Definition read_retention : M Reader.t ManifestError RetentionPolicy :=
  in_map (
    expect 0 ;;; expires_at <- get Reader.uint ;;
    expect 1 ;;; view_once <- get Reader.boolean ;;
    expect 2 ;;; allow_local_save <- get Reader.boolean ;;
    no_more UnknownCriticalField ;;;
    ret (mkRetention expires_at view_once allow_local_save)).
(** The optional caption and the key of the objects.
    manifest.rs 607-615 [PrivateManifest::decode] *)
Definition read_caption : M MapReader.t ManifestError (option bytes) :=
  k <- next ;;
  match k with
  | None => fail Encoding
  | Some k1 =>
    if k1 =? 9 then
      caption <- get Reader.text ;;
      k' <- next ;;
      match k' with
      | None => fail Encoding
      | Some k2 => guard (k2 =? 10) Encoding ;;; ret (Some caption)
      end
    else guard (k1 =? 10) Encoding ;;; ret None
  end.
(** manifest.rs 586-671 [PrivateManifest::decode] *)
Definition read_private : M Reader.t ManifestError PrivateManifest :=
  in_map (
    expect 0 ;;; account <- get (Reader.bytes_exact 32) ;;
    expect 1 ;;; device <- get (Reader.bytes_exact 32) ;;
    expect 2 ;;; scope <- get read_scope ;;
    expect 3 ;;; display <- get Reader.text ;;
    expect 4 ;;; filename <- get Reader.text ;;
    expect 5 ;;; mime <- get Reader.text ;;
    expect 6 ;;; size <- get Reader.uint ;;
    expect 7 ;;; digest <- get (Reader.bytes_exact 32) ;;
    expect 8 ;;; created_at <- get Reader.uint ;;
    caption <- read_caption ;;
    count <- get Reader.array ;;
    guard (negb (MAX_OBJECTS <? count)) TooManyObjects ;;;
    objects <- get (repeat_m (Z.to_nat count) read_private_object) ;;
    get Reader.leave ;;;
    expect 11 ;;; key_policy <- get read_key_policy ;;
    expect 12 ;;; retention <- get read_retention ;;
    extension 13 ;;;
    ret (mkPrivate account device scope display filename mime size digest created_at caption objects key_policy retention)).
(** manifest.rs 693-712 [PrivateManifest::validate] *)
Definition validate_private (m : PrivateManifest) : result ManifestError unit :=
  if len (pv_objects m) =? 0 then Err InvalidValue else
  if negb (len (filter (fun o => or_object_role o = ROLE_PRIMARY) (pv_objects m)) =? 1) then Err InvalidValue else
  if negb (kp_pqc_required (key_policy m)) || (kp_minimum_security_level (key_policy m) =? 0) then Err InvalidValue else
  Ok tt.
(** manifest.rs 584-691 [PrivateManifest::decode] *)
Definition decode_private (b : bytes) : result ManifestError PrivateManifest :=
  let* m := decode_all b read_private in
  let* _ := validate_private m in
  Ok m.

(** ** Commitment and sealing *)
(** manifest.rs 739-742 [SealedManifest] *)
Record SealedManifest : Type := mkSealedManifest { sm_nonce : bytes; sm_ciphertext : bytes }.

Section Sealing.
Context {P : Primitives}.

(** manifest.rs 377-383 [PublicManifest::commitment] *)
Definition commitment {E} (m : PublicManifest) : result E bytes :=
  let* b := encode_public m in
  Ok (blake3_hash (COMMITMENT_DOMAIN ++ b ++ private_manifest_ciphertext_hash m)).
(** manifest.rs 434-441 [RecipientScope::hash] *)
Definition scope_hash {E} (s : RecipientScope) : result E bytes :=
  let* w := write_scope s Writer.new in
  Ok (blake3_hash (SCOPE_DOMAIN ++ Writer.into_bytes w)).
(** manifest.rs 722-736 [manifest_aad] *)
Definition manifest_aad {E} (transfer_id primary_object_id sender : bytes) (scope : RecipientScope) : result E bytes :=
  let* h := scope_hash scope in
  Ok (MANIFEST_AAD_DOMAIN ++ transfer_id ++ primary_object_id ++ be_bytes 2 SUITE_ID ++ sender ++ h).
(** manifest.rs 747-752 [SealedManifest::ciphertext_hash] *)
Definition ciphertext_hash (s : SealedManifest) : bytes := blake3_hash (sm_nonce s ++ sm_ciphertext s).
(** [nonce] is the drawn nonce.  manifest.rs 756-783 [seal_private_manifest] *)
Definition seal_private_manifest (m : PrivateManifest) (key transfer_id primary_object_id nonce : bytes)
  : result ManifestError SealedManifest :=
  let* _ := validate_private m in
  let* plaintext := encode_private m in
  let* aad := manifest_aad transfer_id primary_object_id (pv_sender_device_id m) (recipient_scope m) in
  match aead_encrypt key nonce aad plaintext with
  | Some ct => Ok (mkSealedManifest nonce ct)
  | None => Err Crypto
  end.
(** manifest.rs 785-820 [open_private_manifest] *)
Definition open_private_manifest (s : SealedManifest) (key transfer_id primary_object_id sender : bytes)
    (scope : RecipientScope) : result ManifestError PrivateManifest :=
  let* aad := manifest_aad transfer_id primary_object_id sender scope in
  match aead_decrypt key (sm_nonce s) aad (sm_ciphertext s) with
  | Some plaintext =>
    let* m := decode_private plaintext in
    if negb (bytes_eqb (pv_sender_device_id m) sender) || negb (bool_decide (recipient_scope m = scope))
    then Err InvalidValue else Ok m
  | None => Err Crypto
  end.
(** manifest.rs 824-839 [verify_commitment] *)
Definition verify_commitment (m : PublicManifest) (s : SealedManifest) (expected : bytes) : result ManifestError unit :=
  if negb (ct_eq (private_manifest_ciphertext_hash m) (ciphertext_hash s)) then Err CommitmentMismatch else
  let* c := commitment m in
  if negb (ct_eq c expected) then Err CommitmentMismatch else Ok tt.
End Sealing.

(** ** The values these encodings denote *)
Definition object_entries (o : ObjectPublic) : list (Z * value) :=
  [(0, VBytes (op_object_id o)); (1, VUint (op_object_role o)); (2, VBytes (op_ciphertext_root o));
   (3, VUint (op_ciphertext_size o)); (4, VUint (op_chunk_ciphertext_size o)); (5, VUint (op_chunk_count o));
   (6, VUint (op_padding_policy o))].
Definition object_value (o : ObjectPublic) : value := VMap (object_entries o).
Definition object_wf (o : ObjectPublic) : Prop :=
  array 32 (op_object_id o) /\ 0 <= op_object_role o <= ROLE_SIDECAR /\ array 32 (op_ciphertext_root o) /\
  u64 (op_ciphertext_size o) /\ u64 (op_chunk_ciphertext_size o) /\ u64 (op_chunk_count o) /\
  0 <= op_padding_policy o <= PADDING_FIXED_BUCKET.
(** An object and one of its accepted encodings. *)
Definition object_denotes (o : ObjectPublic) (v : value) : Prop :=
  object_wf o /\ exists e, ext_ok e /\ v = VMap (object_entries o ++ ext_entries 7 e).

Definition public_entries (m : PublicManifest) (vs : list value) : list (Z * value) :=
  [(0, VUint PROTOCOL_MAJOR); (1, VUint (protocol_minor m)); (2, VUint (suite_id m)); (3, VBytes (pm_transfer_id m));
   (4, VUint (pm_created_at m)); (5, VUint (pm_expires_at m)); (6, VUint (route_profile m)); (7, VArray vs);
   (8, VBytes (private_manifest_ciphertext_hash m)); (9, VUint (capability_scheme m))].
Definition public_value (m : PublicManifest) : value := VMap (public_entries m (map object_value (objects m))).
Definition public_wf (m : PublicManifest) : Prop :=
  u64 (protocol_minor m) /\ suite_id m = SUITE_ID /\ array 32 (pm_transfer_id m) /\ u64 (pm_created_at m) /\
  u64 (pm_expires_at m) /\ 0 <= route_profile m <= ROUTE_STEALTH_TRANSFER /\ len (objects m) <= MAX_OBJECTS /\
  Forall object_wf (objects m) /\ array 32 (private_manifest_ciphertext_hash m) /\ u64 (capability_scheme m).
Definition public_denotes (m : PublicManifest) (v : value) : Prop :=
  public_wf m /\ exists vs e, Forall2 object_denotes (objects m) vs /\ ext_ok e /\
    v = VMap (public_entries m vs ++ ext_entries 10 e).

Lemma u64_le n b : 0 <= n <= b -> b < 2 ^ 64 -> u64 n.
Proof. unfold uint_range. lia. Qed.

#[export] Instance object_parses : parses 1 read_object object_denotes.
Proof.
  split.
  - intros pre tl d [id role root size cs count pad] v [(H1 & H2 & H3 & H4 & H5 & H6 & H7) (e & He & ->)] Hd Hk Hdep.
    unfold read_object, object_entries in *; cbn [op_object_id op_object_role op_ciphertext_root op_ciphertext_size
      op_chunk_ciphertext_size op_chunk_count op_padding_policy] in *.
    assert (u64 role) by (eapply u64_le; [exact H2|done]). assert (u64 pad) by (eapply u64_le; [exact H7|done]).
    assert (Hg : valid_role role && valid_padding pad = true) by (unfold valid_role, valid_padding; lia).
    rewrite vdepth_map, edepths_app in Hdep. destruct e as [l|]; cbn [ext_entries app ext_ok] in *.
    + rewrite edepths_single in Hdep. wforward.
    + wforward.
  - intros pre rest d o r Hok Hd H. unfold read_object in H. wbackward H.
    all: apply andb_true_iff in Hg as [Hg1 Hg2]; unfold valid_role, valid_padding in *.
    + exists (VMap (object_entries (mkObject x0 x2 x4 x6 x8 x10 x12) ++ ext_entries 7 None)).
      unfold object_entries; cbn [op_object_id op_object_role op_ciphertext_root op_ciphertext_size
        op_chunk_ciphertext_size op_chunk_count op_padding_policy ext_entries app].
      wfinish. split; [|by exists None]. unfold object_wf; cbn. unfold uint_range in *. split_and!; try done; lia.
    + exists (VMap (object_entries (mkObject x0 x2 x4 x6 x8 x10 x12) ++ ext_entries 7 (Some e))).
      unfold object_entries; cbn [op_object_id op_object_role op_ciphertext_root op_ciphertext_size
        op_chunk_ciphertext_size op_chunk_count op_padding_policy ext_entries app].
      wfinish. split; [|by exists (Some e)]. unfold object_wf; cbn. unfold uint_range in *. split_and!; try done; lia.
Qed.

Lemma denoted_objects os vs : Forall2 object_denotes os vs -> Forall object_wf os /\ len os = len vs.
Proof.
  induction 1 as [|o v os vs [Ho _] _ [IH1 IH2]]; [by split|]. rewrite !len_cons, IH2. split; [by constructor|done].
Qed.

#[export] Instance public_parses : parses 3 read_public public_denotes.
Proof.
  split.
  - intros pre tl d [minor suite tid created expires route objs hash scheme] v
      [(H1 & H2 & H3 & H4 & H5 & H6 & H7 & H8 & H9 & H10) (vs & e & Hobjs & He & ->)] Hd Hk Hdep.
    unfold read_public, public_entries in *; cbn [protocol_minor suite_id pm_transfer_id pm_created_at pm_expires_at
      route_profile objects private_manifest_ciphertext_hash capability_scheme] in *.
    assert (u64 route) by (eapply u64_le; [exact H6|done]). assert (u64 suite) by (rewrite H2; by split).
    assert (Hr : valid_route_profile route = true) by (unfold valid_route_profile; lia).
    assert (Hs : (suite =? SUITE_ID) = true) by lia.
    pose proof (Forall2_length _ _ _ Hobjs) as Hlen.
    assert (Hcount : Z.to_nat (len vs) = length objs) by (unfold len; lia).
    assert (Hlv : len vs = len objs) by (unfold len; lia).
    assert (Hmax : negb (MAX_OBJECTS <? len vs) = true) by (unfold MAX_OBJECTS in *; lia).
    assert (u64 (len vs)) by (pose proof (len_nonneg vs); unfold MAX_OBJECTS, uint_range in *; lia).
    rewrite vdepth_map, edepths_app in Hdep. destruct e as [l|]; cbn [ext_entries app ext_ok] in *.
    + rewrite edepths_single in Hdep. rewrite !edepths_cons, vdepth_array in Hdep. pose proof (vdepths_nonneg vs). wforward.
    + rewrite !edepths_cons, vdepth_array in Hdep. pose proof (vdepths_nonneg vs). wforward.
  - intros pre rest d m r Hok Hd H. unfold read_public in H. wbackward H.
    all: apply Z.eqb_eq in Hg, Hg0; subst; unfold valid_route_profile in *.
    + exists (VMap (public_entries (mkPublicManifest x3 SUITE_ID x8 x10 x12 x14 x19 x22 x24) vs ++ ext_entries 10 None)).
      unfold public_entries; cbn [protocol_minor suite_id pm_transfer_id pm_created_at pm_expires_at
        route_profile objects private_manifest_ciphertext_hash capability_scheme ext_entries app].
      destruct (denoted_objects _ _ HP6) as [Hwf Hlo]. wfinish. split; [|by exists vs, None]. unfold public_wf; cbn. unfold uint_range in *. split_and!; try done; lia.
    + exists (VMap (public_entries (mkPublicManifest x3 SUITE_ID x8 x10 x12 x14 x19 x22 x24) vs ++ ext_entries 10 (Some e))).
      unfold public_entries; cbn [protocol_minor suite_id pm_transfer_id pm_created_at pm_expires_at
        route_profile objects private_manifest_ciphertext_hash capability_scheme ext_entries app].
      destruct (denoted_objects _ _ HP6) as [Hwf Hlo]. wfinish. split; [|by exists vs, (Some e)]. unfold public_wf; cbn. unfold uint_range in *. split_and!; try done; lia.
Qed.

(** ** Private objects *)
Definition private_object_entries (o : ObjectPrivate) : list (Z * value) :=
  [(0, VBytes (or_object_id o)); (1, VUint (or_object_role o)); (2, VUint (or_relationship o))].
Definition private_object_value (o : ObjectPrivate) : value := VMap (private_object_entries o).
Definition private_object_wf (o : ObjectPrivate) : Prop :=
  array 32 (or_object_id o) /\ 0 <= or_object_role o <= ROLE_SIDECAR /\ u64 (or_relationship o).
(** The entries under the optional keys 3, 4 and 5. *)
Definition optional_ok (last : option Z) (l : list (Z * value)) : Prop :=
  Forall (fun kv => 3 <= kv.1 <= 5 /\ skippable kv.2) l /\ keys_increase last l.
Definition private_object_denotes (o : ObjectPrivate) (v : value) : Prop :=
  private_object_wf o /\ exists l, optional_ok (Some 2) l /\ v = VMap (private_object_entries o ++ l).

Lemma optional_len a l : 2 <= a -> optional_ok (Some a) l -> len l <= Z.max 0 (5 - a).
Proof.
  revert a. induction l as [|[k v] l IH]; intros a Ha [Hf Hk]; [unfold len; cbn; lia|].
  apply Forall_cons_iff in Hf as [[H1 _] Hf]. destruct Hk as [H2 Hk]. cbn [fst key_after] in *.
  specialize (IH k ltac:(lia) (conj Hf Hk)). rewrite len_cons. lia.
Qed.

Lemma skip_one_fwd v pre tl d n last : skippable v -> 0 <= d -> d + vdepth v <= MAX_DEPTH ->
  get (fun r => skip_value (skip_fuel r) r) (mkm pre (cbor v ++ tl) d n last) = Ok (tt, mkm (pre ++ cbor v) tl d n last).
Proof.
  intros Hv Hd Hdep. apply get_fwd. rewrite skip_fuel_eq. apply (proj1 (skips_all _)); [done..|].
  rewrite length_app. unfold len. lia.
Qed.
Lemma skip_optional_fwd f l last pre tl d : optional_ok last l -> len l < Z.of_nat f -> 0 < d -> d + edepths l <= MAX_DEPTH ->
  exists last', skip_optional f (mkm pre (entries l ++ tl) d (len l) last) = Ok (tt, mkm (pre ++ entries l) tl (d - 1) 0 last').
Proof.
  revert f last pre. induction l as [|[k v] l IH]; intros [|f] last pre [Hl Hks] Hf Hd Hdep;
    try (unfold len in Hf; cbn [length] in Hf; lia); cbn [skip_optional].
  - exists last. eapply bind_ok; [by apply next_none_fwd|]. unfold entries; cbn. by rewrite app_nil_r.
  - apply Forall_cons_iff in Hl as [[Hk Hv] Hl]. destruct Hks as [Hk1 Hks]. cbn [fst snd] in *.
    rewrite edepths_cons in Hdep. rewrite len_cons in Hf. pose proof (len_nonneg l).
    destruct (IH f (Some k) (pre ++ hdr MAJOR_UINT k ++ cbor v) (conj Hl Hks)) as [last' Hr]; [lia..|].
    exists last'. eapply bind_ok; [apply next_some_fwd; [unfold uint_range; lia|rewrite len_cons; lia|done]|]. cbn beta iota.
    assert ((3 <=? k) && (k <=? 5) = true) as -> by lia.
    eapply bind_ok; [apply skip_one_fwd; [done|lia|lia]|]. rewrite len_cons. replace (1 + len l - 1) with (len l) by lia.
    rewrite entries_cons, <- (app_assoc pre). rewrite <- (app_assoc pre), <- (app_assoc _ (cbor v)) in Hr. exact Hr.
Qed.
Lemma skip_optional_bwd f n pre rest d last m : bytes_ok rest -> 0 <= d ->
  skip_optional f (mkm pre rest d n last) = Ok (tt, m) ->
  exists l tl last', rest = entries l ++ tl /\ m = mkm (pre ++ entries l) tl (d - 1) 0 last' /\ bytes_ok tl /\
    optional_ok last l /\ len l = n.
Proof.
  revert n pre rest last. induction f as [|f IH]; intros n pre rest last Hok Hd H; [done|]. cbn [skip_optional] in H. minv H.
  apply next_bwd in Hp as [(-> & -> & Hd' & ->)|(k & tl & -> & Hne & Hu & Hlast & -> & Hok' & ->)]; [| |done|done].
  - apply ret_inv in Hk as [_ ->]. exists [], rest, last. unfold entries; cbn. rewrite app_nil_r. by repeat split.
  - destruct ((3 <=? k) && (k <=? 5)) eqn:Hb; [|done]. minv Hk. destruct a.
    apply get_bwd in Hp as (r & Hp & ->). apply (proj1 (skipped_all _)) in Hp as (v & tl' & -> & -> & Hok'' & Hv); [|done|done].
    apply (IH (n - 1) _ tl' (Some k)) in Hk0 as (l & tl2 & last' & -> & -> & Hok2 & [Hl Hks] & Hlen); [|done|done].
    exists ((k, v) :: l), tl2, last'. rewrite entries_cons, <- !app_assoc, len_cons.
    split_and!; [done|done|done|split; [constructor; [cbn; split; [lia|done]|done]|by split]|lia].
Qed.

#[export] Instance private_object_parses : parses 1 read_private_object private_object_denotes.
Proof.
  split.
  - intros pre tl d [id role rel] v [(H1 & H2 & H3) (l & Hl & ->)] Hd Hk Hdep.
    unfold read_private_object, private_object_entries in *; cbn [or_object_id or_object_role or_relationship app] in *.
    assert (u64 role) by (eapply u64_le; [exact H2|done]).
    assert (Hg : valid_role role = true) by (unfold valid_role; lia).
    pose proof (optional_len 2 l ltac:(lia) Hl) as Hlen. pose proof (len_nonneg l).
    rewrite vdepth_map, !edepths_cons in Hdep.
    destruct (skip_optional_fwd 4 l (Some 2)
      ((((((pre ++ hdr MAJOR_MAP (len ((0, VBytes id) :: (1, VUint role) :: (2, VUint rel) :: l))) ++ hdr MAJOR_UINT 0) ++ cbor (VBytes id)) ++
        hdr MAJOR_UINT 1) ++ cbor (VUint role)) ++ hdr MAJOR_UINT 2 ++ cbor (VUint rel)) tl (d + 1) Hl) as [last' Hs]; [lia..|].
    rewrite !len_cons in Hs.
    eapply in_map_close; [rewrite !len_cons; unfold uint_range; lia|lia| | |].
    + rewrite !len_cons. do 6 wstep. eapply bind_ok.
      { replace (1 + (1 + (1 + len l)) - 1 - 1 - 1) with (len l) by lia. rewrite <- (app_assoc _ (hdr MAJOR_UINT 2)). exact Hs. }
      cbn beta iota zeta. wstep. reflexivity.
    + lia.
    + rewrite cbor_map, !entries_cons, !len_cons. by rewrite <- !app_assoc.
  - intros pre rest d o r Hok Hd H. unfold read_private_object in H.
    apply in_map_bwd in H as (n & tl & m & -> & Hn & Hok' & H & ->); [|done].
    do 6 (apply bind_inv in H as (? & ? & Hp & Hk); cbn beta iota zeta in Hk; wback Hp; rename Hk into H).
    apply bind_inv in H as ([] & ? & Hp & Hk); cbn beta iota zeta in Hk.
    apply skip_optional_bwd in Hp as (l & tl' & last' & -> & -> & Hokz & Hl & Hlen); [|done|lia]. rename Hk into H.
    apply bind_inv in H as (? & ? & Hp & Hk); wback Hp. apply ret_inv in Hk as [-> ->]. unfold valid_role in *.
    eexists (VMap (private_object_entries (mkPrivateObject _ _ _) ++ l)), tl'.
    unfold private_object_entries; cbn [or_object_id or_object_role or_relationship app mkm MapReader.reader].
    assert (n = 1 + (1 + (1 + len l))) as -> by lia.
    split_and!.
    + by rewrite cbor_map, !entries_cons, !len_cons, <- !app_assoc.
    + unfold mkm; cbn [MapReader.reader]. f_equal; [|lia].
      by rewrite cbor_map, !entries_cons, !len_cons, <- !app_assoc.
    + done.
    + split; [|by exists l]. unfold private_object_wf; cbn. unfold uint_range in *. split_and!; try done; lia.
Qed.

(** ** The private manifest *)
Definition scope_value (s : RecipientScope) : value := VMap [(0, VUint (scope_type s)); (1, VBytes (scope_id s))].
Definition scope_wf (s : RecipientScope) : Prop := u64 (scope_type s) /\ bytes_ok (scope_id s) /\ len (scope_id s) <= MAX_TEXT_LEN.
Definition key_policy_value (k : KeyPolicy) : value :=
  VMap [(0, VUint (kp_mode k)); (1, VUint (kp_minimum_security_level k)); (2, VBool (kp_pqc_required k))].
Definition key_policy_wf (k : KeyPolicy) : Prop := u64 (kp_mode k) /\ u64 (kp_minimum_security_level k).
Definition retention_value (p : RetentionPolicy) : value :=
  VMap [(0, VUint (rp_expires_at p)); (1, VBool (rp_view_once p)); (2, VBool (rp_allow_local_save p))].
Definition retention_wf (p : RetentionPolicy) : Prop := u64 (rp_expires_at p).

#[export] Instance scope_codec : codec 1 read_scope scope_value scope_wf.
Proof.
  split.
  - intros pre tl d [ty id] (H1 & H2 & H3) Hd Hd'. unfold read_scope, scope_value; cbn [scope_type scope_id] in *.
    pose proof (len_nonneg id). assert (byte_string id) by (split; [done|unfold uint_range, MAX_TEXT_LEN in *; lia]).
    assert (Hg : negb (MAX_TEXT_LEN <? len id) = true) by lia. wforward.
  - intros pre rest d s r Hok Hd H. unfold read_scope in H. wbackward H.
    unfold scope_value; cbn [scope_type scope_id]. wfinish. destruct HP0. unfold scope_wf; cbn. split_and!; try done; lia.
Qed.
#[export] Instance key_policy_codec : codec 1 read_key_policy key_policy_value key_policy_wf.
Proof.
  split.
  - intros pre tl d [m l q] [H1 H2] Hd Hd'. unfold read_key_policy, key_policy_value; cbn in *. wforward.
  - intros pre rest d s r Hok Hd H. unfold read_key_policy in H. wbackward H. unfold key_policy_value; cbn. wfinish. done.
Qed.
#[export] Instance retention_codec : codec 1 read_retention retention_value retention_wf.
Proof.
  split.
  - intros pre tl d [m l q] H1 Hd Hd'. unfold read_retention, retention_value, retention_wf in *; cbn in *. wforward.
  - intros pre rest d s r Hok Hd H. unfold read_retention in H. wbackward H. unfold retention_value; cbn. wfinish. done.
Qed.

Definition caption_entries (c : option bytes) : list (Z * value) := match c with Some t => [(9, VText t)] | None => [] end.
Definition private_entries (m : PrivateManifest) (vs : list value) : list (Z * value) :=
  [(0, VBytes (sender_account_id m)); (1, VBytes (pv_sender_device_id m)); (2, scope_value (recipient_scope m));
   (3, VText (display_name m)); (4, VText (original_filename m)); (5, VText (mime_type m));
   (6, VUint (pv_logical_plaintext_size m)); (7, VBytes (pv_plaintext_digest m)); (8, VUint (pv_created_at m))]
  ++ caption_entries (user_caption m) ++
  [(10, VArray vs); (11, key_policy_value (key_policy m)); (12, retention_value (retention_policy m))].
Definition private_value (m : PrivateManifest) : value := VMap (private_entries m (map private_object_value (pv_objects m))).
Definition private_wf (m : PrivateManifest) : Prop :=
  array 32 (sender_account_id m) /\ array 32 (pv_sender_device_id m) /\ scope_wf (recipient_scope m) /\
  text_string (display_name m) /\ text_string (original_filename m) /\ text_string (mime_type m) /\
  u64 (pv_logical_plaintext_size m) /\ array 32 (pv_plaintext_digest m) /\ u64 (pv_created_at m) /\
  match user_caption m with Some t => text_string t | None => True end /\
  len (pv_objects m) <= MAX_OBJECTS /\ Forall private_object_wf (pv_objects m) /\
  key_policy_wf (key_policy m) /\ retention_wf (retention_policy m).
Definition private_denotes (m : PrivateManifest) (v : value) : Prop :=
  private_wf m /\ exists vs e, Forall2 private_object_denotes (pv_objects m) vs /\ ext_ok e /\
    v = VMap (private_entries m vs ++ ext_entries 13 e).

Lemma read_caption_some_fwd c v l pre tl d n last : text_string c -> key_after last 9 -> 0 <= d <= MAX_DEPTH -> 2 <= n ->
  read_caption (mkm pre (entries ((9, VText c) :: (10, v) :: l) ++ tl) d n last)
    = Ok (Some c, mkm (((pre ++ hdr MAJOR_UINT 9) ++ cbor (VText c)) ++ hdr MAJOR_UINT 10) (cbor v ++ entries l ++ tl) d (n - 1 - 1) (Some 10)).
Proof.
  intros Hc Hl Hd Hn. unfold read_caption. eapply bind_ok; [apply next_some_fwd; [by split|lia|done]|]. cbn beta iota.
  eapply bind_ok; [eapply get_codec_fwd; [done|lia|lia]|].
  eapply bind_ok; [apply next_some_fwd; [by split|lia|done]|]. done.
Qed.
Lemma read_caption_none_fwd v l pre tl d n last : key_after last 10 -> 1 <= n ->
  read_caption (mkm pre (entries ((10, v) :: l) ++ tl) d n last)
    = Ok (None, mkm (pre ++ hdr MAJOR_UINT 10) (cbor v ++ entries l ++ tl) d (n - 1) (Some 10)).
Proof.
  intros Hl Hn. unfold read_caption. eapply bind_ok; [apply next_some_fwd; [by split|lia|done]|]. done.
Qed.
Lemma read_caption_bwd pre rest d n last c m : bytes_ok rest -> 0 <= d -> read_caption (mkm pre rest d n last) = Ok (c, m) ->
  exists tl, rest = entries (caption_entries c) ++ hdr MAJOR_UINT 10 ++ tl /\ bytes_ok tl /\
    m = mkm (pre ++ entries (caption_entries c) ++ hdr MAJOR_UINT 10) tl d (n - 1 - len (caption_entries c)) (Some 10) /\
    match c with Some t => text_string t | None => True end.
Proof.
  intros Hok Hd H. unfold read_caption in H. minv H.
  apply next_bwd in Hp as [(-> & _)|(k & tl & -> & Hne & _ & _ & -> & Hok' & ->)]; [done| |done|done].
  destruct (Z.eqb_spec k 9) as [->|].
  - minv Hk. eapply get_codec_bwd in Hp as (tl' & -> & -> & Hok'' & Hc); [|done|done]. minv Hk0.
    apply next_bwd in Hp as [(-> & _)|(k & tl & -> & Hne' & _ & _ & -> & Hok2 & ->)]; [done| |done|done].
    minv Hk. apply guard_inv in Hp as [Hk%Z.eqb_eq ->]. subst k. apply ret_inv in Hk0 as [-> ->].
    exists tl. cbn [caption_entries]. rewrite entries_cons. unfold entries. rewrite !app_nil_r, <- !app_assoc.
    change (len [(9, VText a)]) with 1. done.
  - minv Hk. apply guard_inv in Hp as [Hk%Z.eqb_eq ->]. subst k. apply ret_inv in Hk0 as [-> ->].
    exists tl. cbn [caption_entries]. unfold entries; cbn [app]. change (len []) with 0. by rewrite Z.sub_0_r.
Qed.

Lemma denoted_private_objects os vs : Forall2 private_object_denotes os vs -> Forall private_object_wf os /\ len os = len vs.
Proof.
  induction 1 as [|o v os vs [Ho _] _ [IH1 IH2]]; [by split|]. rewrite !len_cons, IH2. split; [by constructor|done].
Qed.

#[export] Instance private_parses : parses 3 read_private private_denotes.
Proof.
  split.
  - intros pre tl d [acc dev scope disp name mime size digest created cap objs kp rp] v
      [(H1 & H2 & H3 & H4 & H5 & H6 & H7 & H8 & H9 & H10 & H11 & H12 & H13 & H14) (vs & e & Hobjs & He & ->)] Hd Hk Hdep.
    unfold read_private, private_entries in *; cbn [sender_account_id pv_sender_device_id recipient_scope display_name
      original_filename mime_type pv_logical_plaintext_size pv_plaintext_digest pv_created_at user_caption pv_objects
      key_policy retention_policy] in *.
    pose proof (Forall2_length _ _ _ Hobjs) as Hlen.
    assert (Hcount : Z.to_nat (len vs) = length objs) by (unfold len; lia).
    assert (Hlv : len vs = len objs) by (unfold len; lia).
    assert (Hmax : negb (MAX_OBJECTS <? len vs) = true) by (unfold MAX_OBJECTS in *; lia).
    assert (u64 (len vs)) by (pose proof (len_nonneg vs); unfold MAX_OBJECTS, uint_range in *; lia).
    rewrite vdepth_map, !edepths_app in Hdep. pose proof (vdepths_nonneg vs).
    rewrite (edepths_cons 10), vdepth_array in Hdep.
    destruct e as [l|]; cbn [ext_entries ext_ok] in *; [rewrite edepths_single in Hdep|];
      (destruct cap as [c|]; cbn [caption_entries app] in *; (eapply in_map_close; [wside|wside|do 18 wstep;
      eapply bind_ok; [first [eapply read_caption_some_fwd; wside|eapply read_caption_none_fwd; wside]|cbn beta iota zeta];
      repeat wstep; reflexivity|wside|wpre])).
  - intros pre rest d m r Hok Hd H. unfold read_private in H.
    apply in_map_bwd in H as (n & tl & m0 & -> & Hn & Hok' & H & ->); [|done].
    do 18 (apply bind_inv in H as (? & ? & Hp & Hk); cbn beta iota zeta in Hk; wback Hp; rename Hk into H).
    apply bind_inv in H as (cap & ? & Hp & Hk); cbn beta iota zeta in Hk.
    apply read_caption_bwd in Hp as (tlc & -> & Hokc & -> & Hcap); [|done|lia]. rename Hk into H.
    repeat (lazymatch type of H with bind _ _ _ = Ok _ => idtac end;
          let Hp := fresh "Hstep" in let Hk := fresh "Hrest" in
          apply bind_inv in H as (? & ? & Hp & Hk); cbn beta iota zeta in Hk;
          wback Hp; rename Hk into H); apply ret_inv in H as [-> ->].
    all: destruct (denoted_private_objects _ _ HP8) as [Hwf Hlo]; wcounts.
    + exists (VMap (private_entries (mkPrivate x0 x2 x4 x6 x8 x10 x12 x14 x16 cap x19 x22 x24) vs ++ ext_entries 13 None)).
      unfold private_entries; cbn [sender_account_id pv_sender_device_id recipient_scope display_name
        original_filename mime_type pv_logical_plaintext_size pv_plaintext_digest pv_created_at user_caption pv_objects
        key_policy retention_policy ext_entries].
      assert (HR : private_denotes (mkPrivate x0 x2 x4 x6 x8 x10 x12 x14 x16 cap x19 x22 x24)
        (VMap (private_entries (mkPrivate x0 x2 x4 x6 x8 x10 x12 x14 x16 cap x19 x22 x24) vs ++ ext_entries 13 None))).
      { split; [|by exists vs, None]. unfold private_wf; cbn. unfold MAX_OBJECTS in *. split_and!; try done; lia. }
      destruct cap as [c|]; cbn [caption_entries app] in *;
        [change (len [(9, VText c)]) with 1 in *|change (@len (Z * value) []) with 0 in *]; wfinish; exact HR.
    + exists (VMap (private_entries (mkPrivate x0 x2 x4 x6 x8 x10 x12 x14 x16 cap x19 x22 x24) vs ++ ext_entries 13 (Some e))).
      unfold private_entries; cbn [sender_account_id pv_sender_device_id recipient_scope display_name
        original_filename mime_type pv_logical_plaintext_size pv_plaintext_digest pv_created_at user_caption pv_objects
        key_policy retention_policy ext_entries].
      assert (HR : private_denotes (mkPrivate x0 x2 x4 x6 x8 x10 x12 x14 x16 cap x19 x22 x24)
        (VMap (private_entries (mkPrivate x0 x2 x4 x6 x8 x10 x12 x14 x16 cap x19 x22 x24) vs ++ ext_entries 13 (Some e)))).
      { split; [|by exists vs, (Some e)]. unfold private_wf; cbn. unfold MAX_OBJECTS in *. split_and!; try done; lia. }
      destruct cap as [c|]; cbn [caption_entries app] in *;
        [change (len [(9, VText c)]) with 1 in *|change (@len (Z * value) []) with 0 in *]; wfinish; exact HR.
Qed.

(** ** What the encoders write *)
Lemma write_object_emits {E} o : emits (E := E) (write_object o) (object_value o).
Proof. unfold write_object, object_value, object_entries. wemit. Qed.
Lemma write_public_emits {E} m : emits (E := E) (write_public m) (public_value m).
Proof.
  assert (Ha : emits (E := E) (fun w => write_each write_object (objects m) (Writer.array (len (objects m)) w))
    (VArray (map object_value (objects m)))) by (apply array_emits; intros x _; apply write_object_emits).
  apply (writes_nested 7) in Ha. unfold write_public, public_value, public_entries. wemit.
Qed.
Lemma encode_public_eq {E} m : encode_public (E := E) m = Ok (cbor (public_value m)).
Proof. unfold encode_public. by rewrite write_public_emits. Qed.
Lemma write_scope_emits {E} s : emits (E := E) (write_scope s) (scope_value s).
Proof. unfold write_scope, scope_value. wemit. Qed.
Lemma write_private_object_emits {E} o : emits (E := E) (write_private_object o) (private_object_value o).
Proof. unfold write_private_object, private_object_value, private_object_entries. wemit. Qed.
Lemma write_private_emits {E} m : emits (E := E) (write_private m) (private_value m).
Proof.
  assert (Ho : emits (E := E) (fun w => write_each write_private_object (pv_objects m) (Writer.array (len (pv_objects m)) w))
    (VArray (map private_object_value (pv_objects m)))) by (apply array_emits; intros x _; apply write_private_object_emits).
  assert (Hs : emits (E := E) (write_scope (recipient_scope m)) (scope_value (recipient_scope m))) by apply write_scope_emits.
  assert (Hk : emits (E := E) (write_key_policy (key_policy m)) (key_policy_value (key_policy m)))
    by (unfold write_key_policy, key_policy_value; wemit).
  assert (Hr : emits (E := E) (write_retention (retention_policy m)) (retention_value (retention_policy m)))
    by (unfold write_retention, retention_value; wemit).
  apply (writes_nested 10) in Ho. apply (writes_nested 2) in Hs. apply (writes_nested 11) in Hk. apply (writes_nested 12) in Hr.
  unfold write_private, private_value, private_entries. destruct (user_caption m) as [c|]; cbn [app caption_entries]; wemit.
Qed.

Lemma vdepths_const {A} (f : A -> value) c l : 0 <= c -> (forall x, vdepth (f x) <= c) -> vdepths (map f l) <= c.
Proof. intros Hc Hf. induction l as [|x l IH]; [done|]. cbn [map]. rewrite vdepths_cons. specialize (Hf x). lia. Qed.
Lemma items_size {A} (f : A -> value) c (P : A -> Prop) l : (forall x, P x -> len (cbor (f x)) <= c) -> Forall P l ->
  len (items (map f l)) <= c * len l.
Proof.
  intros Hf. induction 1 as [|x l Hx _ IH]; [change (0 <= c * 0); lia|]. cbn [map]. rewrite items_cons, len_app, len_cons.
  specialize (Hf x Hx). lia.
Qed.
Lemma object_size o : object_wf o -> len (cbor (object_value o)) <= 256.
Proof. intros ([H1 _] & _ & [H3 _] & _). unfold object_value, object_entries. wsize. Qed.
Lemma public_size m : public_wf m -> len (cbor (public_value m)) <= MAX_CONTROL_SIZE.
Proof.
  intros (_ & _ & [H3 _] & _ & _ & _ & H7 & H8 & [H9 _] & _). pose proof (items_size object_value 256 _ _ object_size H8).
  unfold MAX_OBJECTS in *. unfold public_value, public_entries. wsize.
Qed.
Lemma public_value_denotes m : public_wf m -> public_denotes m (public_value m) /\ vdepth (public_value m) <= 3.
Proof.
  intros Hm. split.
  - split; [done|]. exists (map object_value (objects m)), None. split; [|by split; [|rewrite app_nil_r]].
    destruct Hm as (_ & _ & _ & _ & _ & _ & _ & H8 & _). induction H8 as [|o os Ho _ IH]; [constructor|].
    constructor; [|done]. split; [done|]. by exists None.
  - unfold public_value, public_entries. rewrite vdepth_map, !edepths_cons, vdepth_array.
    pose proof (vdepths_const object_value 1 (objects m) ltac:(lia) ltac:(intros; by cbn)). cbn. lia.
Qed.
Lemma object_value_ok o : object_wf o -> value_ok (object_value o).
Proof.
  intros (H1 & H2 & H3 & H4 & H5 & H6 & H7). unfold object_value, object_entries.
  assert (u64 (op_object_role o)) by (eapply u64_le; [exact H2|done]).
  assert (u64 (op_padding_policy o)) by (eapply u64_le; [exact H7|done]). vok.
Qed.
Lemma map_array_ok {A} (f : A -> value) (P : A -> Prop) l : u64 (len l) -> (forall x, P x -> value_ok (f x)) -> Forall P l ->
  value_ok (VArray (map f l)).
Proof.
  intros Hl Hf H. apply ok_array; [by rewrite len_map|]. apply Forall_fmap. eapply Forall_impl; [exact H|done].
Qed.
Lemma public_value_ok m : public_wf m -> value_ok (public_value m).
Proof.
  intros (H1 & H2 & H3 & H4 & H5 & H6 & H7 & H8 & H9 & H10). unfold public_value, public_entries.
  assert (u64 (route_profile m)) by (eapply u64_le; [exact H6|done]). assert (u64 (suite_id m)) by (rewrite H2; by split).
  assert (value_ok (VArray (map object_value (objects m)))).
  { apply (map_array_ok _ object_wf); [|apply object_value_ok|done]. pose proof (len_nonneg (objects m)). unfold MAX_OBJECTS, uint_range in *. lia. }
  vok.
Qed.

(** ** Validation *)
(** The sizes of an object, as the protocol means them. *)
Definition sized (o : ObjectPublic) : Prop :=
  AEAD_TAG_LEN <= op_chunk_ciphertext_size o /\ op_chunk_ciphertext_size o - AEAD_TAG_LEN ∈ ALLOWED_CHUNK_SIZES /\
  (if op_chunk_count o =? 0 then op_ciphertext_size o = 0
   else (op_chunk_count o - 1) * op_chunk_ciphertext_size o + AEAD_TAG_LEN < op_ciphertext_size o <= op_chunk_count o * op_chunk_ciphertext_size o).
(** Neither the product nor the chunk size wraps. *)
Definition unwrapped (o : ObjectPublic) : Prop :=
  op_chunk_count o * op_chunk_ciphertext_size o < 2 ^ 64 /\ op_chunk_ciphertext_size o < 2 ^ 32.

Lemma allowed_small c : c ∈ ALLOWED_CHUNK_SIZES -> 65536 <= c <= 4194304.
Proof. unfold ALLOWED_CHUNK_SIZES. rewrite !elem_of_cons, elem_of_nil. lia. Qed.

Lemma validate_object_iff o : object_wf o -> unwrapped o -> validate_object o = Ok tt <-> sized o.
Proof.
  intros (_ & _ & _ & [H4 _] & [H5 _] & [H6 _] & _) [Hp Hc]. unfold validate_object, sized.
  destruct (Z.ltb_spec (op_chunk_ciphertext_size o) AEAD_TAG_LEN) as [Hl|Hl]; [split; [done|lia]|].
  assert (wrap 32 (op_chunk_ciphertext_size o - AEAD_TAG_LEN) = op_chunk_ciphertext_size o - AEAD_TAG_LEN) as ->
    by (unfold wrap, AEAD_TAG_LEN in *; rewrite Z.mod_small by lia; lia).
  case_bool_decide as Ha; cbn [negb]; [|split; [done|tauto]]. apply allowed_small in Ha as Hs.
  destruct (Z.eqb_spec (op_chunk_count o) 0) as [Hz|Hz].
  { destruct (Z.eqb_spec (op_ciphertext_size o) 0); cbn [negb]; [tauto|split; [done|tauto]]. }
  cbv zeta. set (k := op_chunk_count o) in *. set (c := op_chunk_ciphertext_size o) in *. unfold AEAD_TAG_LEN in *.
  assert (Hkc : c <= k * c) by nia.
  assert (wrap 64 (k * c) = k * c) as -> by (unfold wrap; rewrite Z.mod_small; lia).
  assert (wrap 64 (k * c - c) = k * c - c) as -> by (unfold wrap; rewrite Z.mod_small; lia).
  assert (wrap 64 (k * c - c + 1) = k * c - c + 1) as -> by (unfold wrap; rewrite Z.mod_small; lia).
  assert (wrap 64 (k * c - c + 1 + 16) = k * c - c + 17) as -> by (unfold wrap; rewrite Z.mod_small; lia).
  destruct (Z.ltb_spec (k * c) (op_ciphertext_size o)), (Z.ltb_spec (op_ciphertext_size o) (k * c - c + 17)); cbn [orb];
    (split; [|try done]); try done; try lia; intros; split_and!; try done; lia.
Qed.

Lemma validate_objects_iff seen l : validate_objects seen l = Ok tt <->
  NoDup (map op_object_id l) /\ (forall o, o ∈ l -> op_object_id o ∉ seen) /\ Forall (fun o => validate_object o = Ok tt) l.
Proof.
  revert seen. induction l as [|o l IH]; intros seen; cbn [validate_objects map].
  { split; [intros _|done]. split; [constructor|]. split; [set_solver|constructor]. }
  case_bool_decide as Hin; [split; [done|]; intros (_ & H & _); by destruct (H o ltac:(left))|].
  destruct (validate_object o) as [[]|e|] eqn:Ho; cbn [rbind];
    [|split; [done|intros (_ & _ & H); apply Forall_cons_iff in H as [H _]; congruence]..].
  rewrite IH, NoDup_cons, Forall_cons_iff, list_elem_of_fmap. split.
  - intros (H1 & H2 & H3). split_and!; try done.
    + intros (o' & He & Ho'). apply (H2 o' Ho'). rewrite He. set_solver.
    + intros o' [->|Ho']%elem_of_cons; [done|]. specialize (H2 o' Ho'). set_solver.
  - intros ([H0 H1] & H2 & _ & H3). split_and!; try done. intros o' Ho'.
    assert (op_object_id o' <> op_object_id o) by (intros He; apply H0; by exists o').
    specialize (H2 o' ltac:(by right)). set_solver.
Qed.
Lemma validate_iff m : validate m = Ok tt <->
  objects m <> [] /\ pm_created_at m < pm_expires_at m /\ capability_scheme m = CAPABILITY_SCHEME /\
  len (filter (fun o => op_object_role o = ROLE_PRIMARY) (objects m)) = 1 /\
  NoDup (map op_object_id (objects m)) /\ Forall (fun o => validate_object o = Ok tt) (objects m).
Proof.
  unfold validate. destruct (Z.eqb_spec (len (objects m)) 0) as [H0|H0].
  { apply len_0_nil in H0. split; [done|by intros [? _]]. }
  assert (objects m <> []) by (intros Hn; apply H0; by rewrite Hn).
  destruct (Z.leb_spec (pm_expires_at m) (pm_created_at m)); [split; [done|lia]|].
  destruct (Z.eqb_spec (capability_scheme m) CAPABILITY_SCHEME); cbn [negb]; [|split; [done|tauto]].
  destruct (Z.eqb_spec (len (filter (fun o => op_object_role o = ROLE_PRIMARY) (objects m))) 1); cbn [negb]; [|split; [done|tauto]].
  rewrite validate_objects_iff. split; [intros (Hd & _ & Hv)|intros (_ & _ & _ & _ & Hd & Hv)]; split_and!; try done; set_solver.
Qed.

(** ** Decoding *)
Lemma decode_public_fwd m v : public_denotes m v -> vdepth v <= MAX_DEPTH -> len (cbor v) <= MAX_CONTROL_SIZE ->
  validate m = Ok tt -> decode_public (cbor v) = Ok m.
Proof. intros Hm Hd Hl Hv. unfold decode_public. rewrite (decode_parses_fwd m v) by done. cbn [rbind]. by rewrite Hv. Qed.
Lemma decode_public_inv b m : bytes_ok b -> decode_public b = Ok m ->
  exists v, b = cbor v /\ public_denotes m v /\ validate m = Ok tt.
Proof.
  intros Hok H. unfold decode_public in H. minv H. apply decode_parses_bwd in Hp as (v & -> & Hv); [|done].
  minv Hk. destruct a0. apply Ok_inj in Hk0 as ->. by exists v.
Qed.
Lemma decode_public_encoded m : public_wf m -> validate m = Ok tt -> decode_public (cbor (public_value m)) = Ok m.
Proof.
  intros Hm Hv. destruct (public_value_denotes m Hm) as [Hd Hdep]. apply decode_public_fwd; try done; [unfold MAX_DEPTH; lia|].
  by apply public_size.
Qed.

Lemma public_value_inj m m' : public_wf m -> public_wf m' -> public_value m = public_value m' -> m = m'.
Proof.
  intros H H' He. destruct (public_value_denotes m H) as [Hd Hk], (public_value_denotes m' H') as [Hd' Hk'].
  pose proof (parses_fwd (k := 3) (p := read_public) [] [] 0 m _ Hd ltac:(lia) ltac:(unfold MAX_DEPTH; lia) ltac:(unfold MAX_DEPTH; lia)) as D.
  rewrite He in D. rewrite (parses_fwd (k := 3) (p := read_public) [] [] 0 m' _ Hd' ltac:(lia) ltac:(unfold MAX_DEPTH; lia) ltac:(unfold MAX_DEPTH; lia)) in D.
  by injection D.
Qed.

(** ** The private manifest *)
(** What [encode] requires beyond the types. *)
Definition within_limits (m : PrivateManifest) : Prop :=
  len (display_name m) <= MAX_TEXT_LEN /\ len (original_filename m) <= MAX_TEXT_LEN /\ len (mime_type m) <= MAX_TEXT_LEN /\
  match user_caption m with Some t => len t <= MAX_TEXT_LEN | None => True end.
Lemma encode_private_eq m : within_limits m -> len (pv_objects m) <= MAX_OBJECTS ->
  encode_private m = Ok (cbor (private_value m)).
Proof.
  intros (H1 & H2 & H3 & H4) H5. unfold encode_private. cbn [existsb].
  destruct (Z.ltb_spec MAX_TEXT_LEN (len (display_name m))); [lia|]. destruct (Z.ltb_spec MAX_TEXT_LEN (len (original_filename m))); [lia|].
  destruct (Z.ltb_spec MAX_TEXT_LEN (len (mime_type m))); [lia|]. cbn [orb].
  assert ((match user_caption m with Some caption => MAX_TEXT_LEN <? len caption | None => false end) = false) as ->
    by (destruct (user_caption m); [lia|done]).
  destruct (Z.ltb_spec MAX_OBJECTS (len (pv_objects m))); [lia|]. by rewrite write_private_emits.
Qed.
Lemma private_object_size o : private_object_wf o -> len (cbor (private_object_value o)) <= 128.
Proof. intros ([H1 _] & _). unfold private_object_value, private_object_entries. wsize. Qed.
Lemma private_size m : private_wf m -> within_limits m -> len (cbor (private_value m)) <= MAX_CONTROL_SIZE.
Proof.
  intros ([H1 _] & [H2 _] & (_ & _ & H3) & _ & _ & _ & _ & [H8 _] & _ & _ & H11 & H12 & _) (L1 & L2 & L3 & L4).
  pose proof (items_size private_object_value 128 _ _ private_object_size H12). unfold MAX_OBJECTS, MAX_TEXT_LEN in *.
  unfold private_value, private_entries, scope_value, key_policy_value, retention_value.
  destruct (user_caption m) as [c|]; cbn [caption_entries app]; rewrite !cbor_map, !entries_cons, ?cbor_map, ?entries_cons; wsize.
Qed.
Lemma private_value_denotes m : private_wf m -> private_denotes m (private_value m) /\ vdepth (private_value m) <= 3.
Proof.
  intros Hm. split.
  - split; [done|]. exists (map private_object_value (pv_objects m)), None. split; [|by split; [|rewrite app_nil_r]].
    destruct Hm as (_ & _ & _ & _ & _ & _ & _ & _ & _ & _ & _ & H & _). induction H as [|o os Ho _ IH]; [constructor|].
    constructor; [|done]. split; [done|]. exists []. split; [by repeat split|by rewrite app_nil_r].
  - unfold private_value, private_entries. rewrite vdepth_map, !edepths_app.
    pose proof (vdepths_const private_object_value 1 (pv_objects m) ltac:(lia) ltac:(intros; by cbn)).
    rewrite (edepths_cons 10), vdepth_array. destruct (user_caption m); cbn [caption_entries]; cbn; lia.
Qed.
Lemma private_object_ok o : private_object_wf o -> value_ok (private_object_value o).
Proof.
  intros (H1 & H2 & H3). unfold private_object_value, private_object_entries.
  assert (u64 (or_object_role o)) by (eapply u64_le; [exact H2|done]). vok.
Qed.
Lemma scope_value_ok s : scope_wf s -> value_ok (scope_value s).
Proof.
  intros (H1 & H2 & H3). unfold scope_value. pose proof (len_nonneg (scope_id s)).
  assert (byte_string (scope_id s)) by (split; [done|unfold uint_range, MAX_TEXT_LEN in *; lia]). vok.
Qed.
Lemma private_value_ok m : private_wf m -> value_ok (private_value m).
Proof.
  intros (H1 & H2 & H3 & [H4 _] & [H5 _] & [H6 _] & H7 & H8 & H9 & H10 & H11 & H12 & [H13 H14] & H15).
  apply scope_value_ok in H3.
  assert (value_ok (VArray (map private_object_value (pv_objects m)))).
  { apply (map_array_ok _ private_object_wf); [|apply private_object_ok|done].
    pose proof (len_nonneg (pv_objects m)). unfold MAX_OBJECTS, uint_range in *. lia. }
  unfold retention_wf in H15. unfold private_value, private_entries, key_policy_value, retention_value.
  destruct (user_caption m) as [c|]; cbn [caption_entries app]; [destruct H10|]; vok.
Qed.
Lemma decode_private_encoded m : private_wf m -> within_limits m -> validate_private m = Ok tt ->
  decode_private (cbor (private_value m)) = Ok m.
Proof.
  intros Hm Hl Hv. unfold decode_private. destruct (private_value_denotes m Hm) as [Hd Hdep].
  rewrite (decode_parses_fwd m (private_value m)); [cbn [rbind]; by rewrite Hv|done|unfold MAX_DEPTH; lia|done|by apply private_size].
Qed.
Lemma validate_private_iff m : validate_private m = Ok tt <->
  pv_objects m <> [] /\ len (filter (fun o => or_object_role o = ROLE_PRIMARY) (pv_objects m)) = 1 /\
  kp_pqc_required (key_policy m) = true /\ kp_minimum_security_level (key_policy m) <> 0.
Proof.
  unfold validate_private. destruct (Z.eqb_spec (len (pv_objects m)) 0) as [H0|H0].
  { apply len_0_nil in H0. split; [done|by intros [? _]]. }
  assert (pv_objects m <> []) by (intros Hn; apply H0; by rewrite Hn).
  destruct (Z.eqb_spec (len (filter (fun o => or_object_role o = ROLE_PRIMARY) (pv_objects m))) 1); cbn [negb]; [|split; [done|tauto]].
  destruct (kp_pqc_required (key_policy m)); cbn [negb orb]; [|split; [done|intros (_ & _ & ? & _); done]].
  destruct (Z.eqb_spec (kp_minimum_security_level (key_policy m)) 0); [split; [done|tauto]|]. tauto.
Qed.

Section Bindings.
Context {P : Primitives}.

Lemma commitment_eq {E} m :
  commitment (E := E) m = Ok (blake3_hash (COMMITMENT_DOMAIN ++ cbor (public_value m) ++ private_manifest_ciphertext_hash m)).
Proof. unfold commitment. by rewrite encode_public_eq. Qed.
Lemma scope_hash_eq {E} s : scope_hash (E := E) s = Ok (blake3_hash (SCOPE_DOMAIN ++ cbor (scope_value s))).
Proof. unfold scope_hash. by rewrite write_scope_emits. Qed.
Lemma manifest_aad_eq {E} t o sender s : manifest_aad (E := E) t o sender s =
  Ok (MANIFEST_AAD_DOMAIN ++ t ++ o ++ be_bytes 2 SUITE_ID ++ sender ++ blake3_hash (SCOPE_DOMAIN ++ cbor (scope_value s))).
Proof. unfold manifest_aad. by rewrite scope_hash_eq. Qed.
Lemma verify_commitment_iff m s c : verify_commitment m s c = Ok tt <->
  private_manifest_ciphertext_hash m = ciphertext_hash s /\ commitment (E := ManifestError) m = Ok c.
Proof.
  unfold verify_commitment. destruct (ct_eq (private_manifest_ciphertext_hash m) _) eqn:H1; cbn [negb].
  - apply ct_eq_true in H1. rewrite commitment_eq. cbn [rbind].
    match goal with |- context [ct_eq ?a c] => destruct (ct_eq a c) eqn:H2 end; cbn [negb].
    + apply ct_eq_true in H2 as ->. by split.
    + split; [done|]. intros [_ [= <-]]. by rewrite (proj2 (ct_eq_true _ _) eq_refl) in H2.
  - split; [done|]. intros [H2 _]. rewrite H2, (proj2 (ct_eq_true _ _) eq_refl) in H1. done.
Qed.
(** The inputs of the two hashes behind a commitment. *)
Definition committed_inputs (m : PublicManifest) (s : SealedManifest) : list bytes :=
  [COMMITMENT_DOMAIN ++ cbor (public_value m) ++ private_manifest_ciphertext_hash m; sm_nonce s ++ sm_ciphertext s].
Lemma commitment_inj {E} m m' s s' : public_wf m -> public_wf m' -> len (sm_nonce s) = 24 -> len (sm_nonce s') = 24 ->
  collision_free (committed_inputs m s) (committed_inputs m' s') ->
  commitment (E := E) m = commitment m' -> private_manifest_ciphertext_hash m = ciphertext_hash s ->
  private_manifest_ciphertext_hash m' = ciphertext_hash s' -> m = m' /\ s = s'.
Proof.
  intros Hm Hm' Hn Hn' Hcf Hc Hs Hs'. rewrite !commitment_eq in Hc. apply Ok_inj in Hc.
  apply (Hcf (COMMITMENT_DOMAIN ++ cbor (public_value m) ++ private_manifest_ciphertext_hash m)
    (COMMITMENT_DOMAIN ++ cbor (public_value m') ++ private_manifest_ciphertext_hash m')) in Hc; [|by left|by left].
  apply app_inv_head in Hc.
  apply cbor_prefix in Hc as [Hv Hh]; [|by apply public_value_ok|by apply public_value_ok].
  split; [by apply public_value_inj|]. rewrite Hs, Hs' in Hh. unfold ciphertext_hash in Hh.
  apply (Hcf (sm_nonce s ++ sm_ciphertext s) (sm_nonce s' ++ sm_ciphertext s')) in Hh; [|by right; left|by right; left].
  destruct s as [n c], s' as [n' c']; cbn in *. apply app_inj_1 in Hh as [-> ->]; [done|]. unfold len in *. lia.
Qed.

Context {L : PrimitiveLaws}.
Lemma seal_open m key tid oid nonce : private_wf m -> within_limits m -> validate_private m = Ok tt ->
  array 32 key -> array 24 nonce ->
  exists s, seal_private_manifest m key tid oid nonce = Ok s /\ sm_nonce s = nonce /\ bytes_ok (sm_ciphertext s) /\
    len (sm_ciphertext s) = len (cbor (private_value m)) + 16 /\
    open_private_manifest s key tid oid (pv_sender_device_id m) (recipient_scope m) = Ok m.
Proof.
  intros Hm Hl Hv Hk Hn. unfold seal_private_manifest. rewrite Hv. cbn [rbind].
  assert (Ho : len (pv_objects m) <= MAX_OBJECTS) by apply Hm. rewrite encode_private_eq by done. cbn [rbind].
  rewrite manifest_aad_eq. cbn [rbind].
  match goal with |- context [aead_encrypt key nonce ?a ?p] => destruct (aead_correct key nonce a p) as (ct & -> & Hlen & Hok & Hd) end;
    [done|done|by apply cbor_bytes_ok, private_value_ok|pose proof (private_size m Hm Hl); unfold AEAD_MAX, MAX_CONTROL_SIZE in *; lia|].
  eexists. split; [done|]. cbn [sm_nonce sm_ciphertext]. split_and!; [done..|].
  unfold open_private_manifest. rewrite manifest_aad_eq. cbn [rbind sm_nonce sm_ciphertext]. rewrite Hd.
  rewrite decode_private_encoded by done. cbn [rbind]. rewrite (proj2 (bytes_eqb_true _ _) eq_refl).
  by rewrite bool_decide_true.
Qed.
End Bindings.

(** ** Properties *)
(** The same manifest with an extension map added. *)
Lemma decode_extended m e : public_wf m -> validate m = Ok tt -> extension_ok e -> 2 + vdepth (VMap e) <= MAX_DEPTH ->
  len (cbor (VMap (public_entries m (map object_value (objects m)) ++ [(10, VMap e)]))) <= MAX_CONTROL_SIZE ->
  decode_public (cbor (VMap (public_entries m (map object_value (objects m)) ++ [(10, VMap e)]))) = Ok m.
Proof.
  intros Hm Hv He Hd Hl. destruct (public_value_denotes m Hm) as [[_ (vs & [l|] & Hvs & _ & Ev)] Hdep];
    [apply (f_equal (fun v => match v with VMap l => length l | _ => 0%nat end)) in Ev; done|].
  apply decode_public_fwd; [| |done|done].
  - split; [done|]. exists vs, (Some e). split; [done|]. split; [done|]. cbn [ext_entries] in *. rewrite app_nil_r in Ev.
    unfold public_value, public_entries in Ev. injection Ev as ->. done.
  - unfold public_value in Hdep. rewrite vdepth_map in Hdep. rewrite vdepth_map, edepths_app, edepths_single. unfold MAX_DEPTH in *. lia.
Qed.

(** The public manifest survives the wire: a well-formed, valid manifest is
    encoded without panicking and decodes to itself; so does every encoding
    of it that adds a noncritical extension map the reader can skip. *)
Theorem public_manifest_roundtrip m e : public_wf m -> validate m = Ok tt -> extension_ok e ->
  2 + vdepth (VMap e) <= MAX_DEPTH ->
  len (cbor (VMap (public_entries m (map object_value (objects m)) ++ [(10, VMap e)]))) <= MAX_CONTROL_SIZE ->
  exists b, encode_public (E := ManifestError) m = Ok b /\ decode_public b = Ok m /\
    decode_public (cbor (VMap (public_entries m (map object_value (objects m)) ++ [(10, VMap e)]))) = Ok m.
Proof.
  intros Hm Hv He Hd Hl. exists (cbor (public_value m)). split; [apply encode_public_eq|]. split; [by apply decode_public_encoded|].
  by apply decode_extended.
Qed.

(** C13: What a decoded public manifest guarantees: whatever the bytes, they are
    the encoding of that manifest up to noncritical extensions, every field
    is in range, it has objects, expires after its creation, exactly one
    object is primary, no two share an id, and each object whose sizes do
    not wrap has a chunk size the protocol allows and a ciphertext size that
    fills all its chunks but the last. *)
Theorem public_manifest_sound b m : bytes_ok b -> decode_public b = Ok m ->
  (exists v, b = cbor v /\ public_denotes m v) /\ pm_created_at m < pm_expires_at m /\
  (exists o, primary m = Some o /\ forall o', o' ∈ objects m -> op_object_role o' = ROLE_PRIMARY -> o' = o) /\
  NoDup (map op_object_id (objects m)) /\
  forall o, o ∈ objects m -> object_wf o /\ (unwrapped o -> sized o).
Proof.
  intros Hok H. destruct (decode_public_inv b m Hok H) as (v & -> & Hd & Hv). pose proof Hd as [Hwf _].
  apply validate_iff in Hv as (_ & Ht & _ & Hp & Hn & Ho). split; [by exists v|]. split; [done|]. split; [|split; [done|]].
  - unfold primary. destruct (filter _ (objects m)) as [|o [|o2 os]] eqn:Hf;
      [done| |rewrite !len_cons in Hp; pose proof (len_nonneg os); lia].
    exists o. split; [done|]. intros o' Hin Hr. assert (Hi : o' ∈ filter (fun o => op_object_role o = ROLE_PRIMARY) (objects m))
      by (by apply list_elem_of_filter). rewrite Hf in Hi. by apply list_elem_of_singleton in Hi.
  - intros o Hin. rewrite Forall_forall in Ho. destruct Hwf as (_ & _ & _ & _ & _ & _ & _ & Hwf & _).
    rewrite Forall_forall in Hwf. split; [by apply Hwf|]. intros Hu. apply validate_object_iff; [by apply Hwf|done|by apply Ho].
Qed.

(** The size check is made modulo the machine width: there is a manifest
    with a chunk count of 2^48 whose product with the chunk size wraps, and
    one with a chunk size of 2^32 + 65552 whose cast to 32 bits is allowed;
    both are encoded, decoded and accepted although their sizes are
    impossible. *)
Theorem sizes_checked_modulo : exists m1 m2 o1 o2,
  decode_public (cbor (public_value m1)) = Ok m1 /\ objects m1 = [o1] /\
  op_chunk_count o1 = 2 ^ 48 /\ op_ciphertext_size o1 = 2 ^ 52 /\ ~ sized o1 /\
  decode_public (cbor (public_value m2)) = Ok m2 /\ objects m2 = [o2] /\
  op_chunk_ciphertext_size o2 = 2 ^ 32 + 65552 /\ ~ sized o2.
Proof.
  set (object size chunk count := mkObject (replicate 32 1) ROLE_PRIMARY (replicate 32 2) size chunk count PADDING_NONE).
  set (manifest o := mkPublicManifest 0 SUITE_ID (replicate 32 3) 10 20 ROUTE_BALANCED [o] (replicate 32 4) CAPABILITY_SCHEME).
  exists (manifest (object (2 ^ 52) 65552 (2 ^ 48))), (manifest (object 100 (2 ^ 32 + 65552) 1)),
    (object (2 ^ 52) 65552 (2 ^ 48)), (object 100 (2 ^ 32 + 65552) 1).
  split_and!; try reflexivity; try (vm_compute; reflexivity).
  - intros (_ & _ & H). vm_compute in H. destruct H as [H _]. discriminate H.
  - intros (_ & H & _). revert H. apply (bool_decide_unpack _). by vm_compute.
Qed.

(** The private manifest reaches the recipient: sealing a well-formed, valid
    manifest within the text limits succeeds, and opening the result with
    the same key, transfer, object, sender and scope gives it back. *)
Theorem private_manifest_sealed {P : Primitives} {L : PrimitiveLaws} m key tid oid nonce :
  private_wf m -> within_limits m -> validate_private m = Ok tt -> array 32 key -> array 24 nonce ->
  exists s, seal_private_manifest m key tid oid nonce = Ok s /\
    open_private_manifest s key tid oid (pv_sender_device_id m) (recipient_scope m) = Ok m.
Proof. intros. destruct (seal_open m key tid oid nonce) as (s & ? & _ & _ & _ & ?); [done..|]. by exists s. Qed.

Lemma private_opened {P : Primitives} {L : PrimitiveLaws} s mkey tid oid sender scope m :
  open_private_manifest s mkey tid oid sender scope = Ok m ->
  (exists v, aead_decrypt mkey (sm_nonce s) (MANIFEST_AAD_DOMAIN ++ tid ++ oid ++ be_bytes 2 SUITE_ID ++ sender ++
       blake3_hash (SCOPE_DOMAIN ++ cbor (scope_value scope))) (sm_ciphertext s) = Some (cbor v) /\ private_denotes m v) /\
  pv_sender_device_id m = sender /\ recipient_scope m = scope /\
  len (filter (fun o => or_object_role o = ROLE_PRIMARY) (pv_objects m)) = 1 /\
  kp_pqc_required (key_policy m) = true /\ kp_minimum_security_level (key_policy m) <> 0.
Proof.
  intros H. unfold open_private_manifest in H. rewrite manifest_aad_eq in H. cbn [rbind] in H.
  destruct (aead_decrypt _ _ _ _) as [pt|] eqn:Hd; [|done]. minv H.
  unfold decode_private in Hp. minv Hp. apply aead_open_len in Hd as Hok. destruct Hok as [_ Hok].
  apply decode_parses_bwd in Hp0 as (v & -> & Hv); [|done]. minv Hk0. destruct a1. apply Ok_inj in Hk1 as ->.
  apply validate_private_iff in Hp as (_ & Hp1 & Hp2 & Hp3).
  destruct (negb (bytes_eqb _ sender)) eqn:E1; cbn [orb] in Hk; [done|].
  case_bool_decide as E2; cbn [negb] in Hk; [|done]. apply Ok_inj in Hk as ->. apply negb_false_iff, bytes_eqb_true in E1.
  split_and!; try done. by exists v.
Qed.

(** What an opened private manifest guarantees: it is the decoding of a
    plaintext that authenticated under the key with the transfer, object,
    suite, sender and scope hash as associated data; it names that sender
    and scope; it has exactly one primary object, and its key policy
    requires post-quantum security. *)
Theorem private_manifest_opened {P : Primitives} {L : PrimitiveLaws} s mkey tid oid sender scope m :
  open_private_manifest s mkey tid oid sender scope = Ok m ->
  (exists v, aead_decrypt mkey (sm_nonce s) (MANIFEST_AAD_DOMAIN ++ tid ++ oid ++ be_bytes 2 SUITE_ID ++ sender ++
       blake3_hash (SCOPE_DOMAIN ++ cbor (scope_value scope))) (sm_ciphertext s) = Some (cbor v) /\ private_denotes m v) /\
  pv_sender_device_id m = sender /\ recipient_scope m = scope /\
  len (filter (fun o => or_object_role o = ROLE_PRIMARY) (pv_objects m)) = 1 /\
  kp_pqc_required (key_policy m) = true /\ kp_minimum_security_level (key_policy m) <> 0.
Proof. apply private_opened. Qed.

(** The commitment binds both manifests: if two pairs of a well-formed public
    manifest and a sealed private one both verify against the same
    commitment, and BLAKE3 does not collide on the inputs hashed for them,
    the public manifests are equal and so are the sealed ones. *)
Theorem commitment_binds {P : Primitives} m m' s s' c : public_wf m -> public_wf m' ->
  len (sm_nonce s) = 24 -> len (sm_nonce s') = 24 -> collision_free (committed_inputs m s) (committed_inputs m' s') ->
  verify_commitment m s c = Ok tt -> verify_commitment m' s' c = Ok tt -> m = m' /\ s = s'.
Proof.
  intros Hm Hm' Hn Hn' Hcf [H1 H2]%verify_commitment_iff [H1' H2']%verify_commitment_iff.
  apply (commitment_inj (E := ManifestError)); try done. congruence.
Qed.

(** ** Concrete manifests *)
Module ManifestWitness.
Import Toy.
Definition object1 : ObjectPublic := mkObject (replicate 32 1) ROLE_PRIMARY (replicate 32 2) 100 65552 1 PADDING_NONE.
Definition sealed1 : SealedManifest := mkSealedManifest (replicate 24 7) [1; 2; 3].
Definition public1 : PublicManifest :=
  mkPublicManifest 0 SUITE_ID (replicate 32 3) 10 20 ROUTE_BALANCED [object1] (ciphertext_hash sealed1) CAPABILITY_SCHEME.
Definition extension1 : list (Z * value) := [(0, VUint 5); (9, VArray [VText [104; 105]; VMap [(1, VBytes [1; 2])]])].
(** Closed facts about lengths, ranges and bytes. *)
Ltac closed_bytes := apply bytes_ok_check; vm_compute; reflexivity.
Ltac closed_range := vm_compute; split; [discriminate|reflexivity].
Ltac closed_bound := vm_compute; split; discriminate.
Ltac closed_array := split; [vm_compute; reflexivity|closed_bytes].
Ltac closed_text := split; [split; [closed_bytes|closed_range]|vm_compute; reflexivity].
Lemma object1_wf : object_wf object1.
Proof.
  unfold object_wf. split; [closed_array|]. split; [closed_bound|]. split; [closed_array|].
  split; [closed_range|]. split; [closed_range|]. split; [closed_range|closed_bound].
Qed.
Lemma public1_wf : public_wf public1.
Proof.
  unfold public_wf. split; [closed_range|]. split; [reflexivity|]. split; [closed_array|]. split; [closed_range|].
  split; [closed_range|]. split; [closed_bound|]. split; [vm_compute; discriminate|].
  split; [constructor; [exact object1_wf|constructor]|]. split; [closed_array|closed_range].
Qed.
Lemma extension1_ok : extension_ok extension1.
Proof.
  repeat first [apply skip_map|apply skip_array|apply skip_uint|apply skip_bytes|apply skip_text|apply Forall_cons_2|apply Forall_nil_2
    |split; cbn [fst snd]|by apply bytes_ok_check|done].
Qed.
Lemma public_manifest_roundtrip_witness : exists b, encode_public (E := ManifestError) public1 = Ok b /\ decode_public b = Ok public1.
Proof.
  destruct (public_manifest_roundtrip public1 extension1 public1_wf) as (b & H1 & H2 & _).
  - vm_compute. reflexivity.
  - exact extension1_ok.
  - vm_compute. discriminate.
  - vm_compute. discriminate.
  - exists b. split; [exact H1|exact H2].
Defined.
Lemma public_manifest_sound_witness : exists o, primary public1 = Some o.
Proof.
  destruct (public_manifest_sound (cbor (public_value public1)) public1) as (_ & _ & (o & H & _) & _).
  - apply bytes_ok_check. vm_compute. reflexivity.
  - vm_compute. reflexivity.
  - exists o. exact H.
Defined.
Definition private1 : PrivateManifest :=
  mkPrivate (replicate 32 5) (replicate 32 5) (device_scope (replicate 32 6)) [97] [98] [99] 84 (replicate 32 8) 10 (Some [104; 105])
    [mkPrivateObject (replicate 32 1) ROLE_PRIMARY 0] (mkKeyPolicy 0 1 true) (mkRetention 20 false true).
Lemma private1_wf : private_wf private1 /\ within_limits private1.
Proof.
  split.
  - unfold private_wf. split; [closed_array|]. split; [closed_array|].
    split; [split; [closed_range|split; [closed_bytes|vm_compute; discriminate]]|].
    split; [closed_text|]. split; [closed_text|]. split; [closed_text|]. split; [closed_range|]. split; [closed_array|].
    split; [closed_range|]. split; [closed_text|]. split; [vm_compute; discriminate|].
    split; [constructor; [split; [closed_array|split; [closed_bound|closed_range]]|constructor]|].
    split; [split; closed_range|closed_range].
  - split_and!; vm_compute; discriminate.
Qed.
Lemma private_manifest_sealed_witness :
  exists s, seal_private_manifest private1 (replicate 32 9) (replicate 32 3) (replicate 32 1) (replicate 24 7) = Ok s /\
    open_private_manifest s (replicate 32 9) (replicate 32 3) (replicate 32 1) (replicate 32 5) (device_scope (replicate 32 6)) = Ok private1.
Proof.
  apply (private_manifest_sealed private1).
  - exact (proj1 private1_wf).
  - exact (proj2 private1_wf).
  - reflexivity.
  - split; [reflexivity|by apply bytes_ok_check].
  - split; [reflexivity|by apply bytes_ok_check].
Defined.
Definition opened1 : SealedManifest := Eval vm_compute in
  match seal_private_manifest private1 (replicate 32 9) (replicate 32 3) (replicate 32 1) (replicate 24 7) with Ok s => s | _ => sealed1 end.
Lemma private_manifest_opened_witness : recipient_scope private1 = device_scope (replicate 32 6).
Proof.
  destruct (private_manifest_opened opened1 (replicate 32 9) (replicate 32 3) (replicate 32 1) (replicate 32 5)
    (device_scope (replicate 32 6)) private1) as (_ & _ & H & _).
  - vm_compute. reflexivity.
  - exact H.
Defined.
Definition commitment1 : bytes := Eval vm_compute in
  match commitment (E := ManifestError) public1 with Ok c => c | _ => [] end.
Lemma commitment_binds_witness : public1 = public1 /\ sealed1 = sealed1.
Proof.
  apply (commitment_binds public1 public1 sealed1 sealed1 commitment1 public1_wf public1_wf eq_refl eq_refl).
  - apply collision_free_check. vm_compute. reflexivity.
  - vm_compute. reflexivity.
  - vm_compute. reflexivity.
Defined.
End ManifestWitness.
