(* ===== verification/Offer.v ===== *)
(** * The transfer offer (offer.rs)

    The offer carries the public manifest, the sealed private one, a key
    envelope per recipient device and the provider addresses, under one
    hybrid signature of the sender's device. *)

From S2P Require Import Prelude Cbor Wire Crypto Identity Extension Manifest.

(** offer.rs 37-37 [OFFER_SIGN_DOMAIN] *)
Definition OFFER_SIGN_DOMAIN : bytes := lit "RTP2-OFFER-SIGN-v1".
(** offer.rs 38-38 [OFFER_MAC_DOMAIN] *)
Definition OFFER_MAC_DOMAIN : bytes := lit "RTP2-OFFER-MAC-v1".
(** offer.rs 40-40 [OFFER_BINDING_DOMAIN] *)
Definition OFFER_BINDING_DOMAIN : bytes := lit "RTP2-OFFER-BINDING-v1".
(** offer.rs 46-46 [MAX_ENVELOPES] *)
Definition MAX_ENVELOPES : Z := 64.
(** offer.rs 47-47 [MAX_PROVIDERS] *)
Definition MAX_PROVIDERS : Z := 32.
(** offer.rs 48-48 [MAX_PROVIDER_ADDR_LEN] *)
Definition MAX_PROVIDER_ADDR_LEN : Z := 512.

(** offer.rs 52-64 [OfferError] *)
Inductive OfferError : Type :=
| Encoding
| UnsupportedAuthMode
| UnsupportedVersion
| InvalidSignature
| CommitmentMismatch
| ScopeMismatch
| Expired
| TooManyEnvelopes
| TooManyProviders
| ValueTooLong
| NoEnvelope.
(** offer.rs 66-70 [From] *)
#[export] Instance of_from_cbor : From CborError OfferError := fun _ => Encoding.
(** offer.rs 72-79 [From] *)
#[export] Instance of_from_manifest : From ManifestError OfferError := fun e =>
  match e with Extension.CommitmentMismatch => CommitmentMismatch | _ => Encoding end.

(** offer.rs 83-86 [AuthMode] *)
Inductive AuthMode : Type := BoundSessionMac | StandaloneHybridSignature.
#[export] Instance auth_mode_eq : EqDecision AuthMode.
Proof. solve_decision. Defined.
(** offer.rs 89-94 [AuthMode::to_u64] *)
Definition to_u64 (a : AuthMode) : Z := match a with BoundSessionMac => 0 | StandaloneHybridSignature => 1 end.
(** offer.rs 96-102 [AuthMode::from_u64] *)
Definition from_u64 (v : Z) : result OfferError AuthMode :=
  if v =? 0 then Ok BoundSessionMac else if v =? 1 then Ok StandaloneHybridSignature else Err UnsupportedAuthMode.

(** offer.rs 108-112 [KeyEnvelopeEntry] *)
Record KeyEnvelopeEntry : Type := mkEntry { ke_recipient : bytes; ke_nonce : bytes; ke_ciphertext : bytes }.
(** offer.rs 116-119 [ProviderAddress] *)
Record ProviderAddress : Type := mkProvider { pa_kind : Z; pa_address : bytes }.
(** offer.rs 123-123 [ProviderAddress::KIND_SENDER_DEVICE] *)
Definition KIND_SENDER_DEVICE : Z := 0.

(** The entries of both encoders. *)
Definition write_entry {E} (e : KeyEnvelopeEntry) : Writer.t -> result E Writer.t :=
  write_map 3 [MapWriter.bytes 0 (ke_recipient e); MapWriter.bytes 1 (ke_nonce e); MapWriter.bytes 2 (ke_ciphertext e)].
Definition write_provider {E} (p : ProviderAddress) : Writer.t -> result E Writer.t :=
  write_map 2 [MapWriter.uint 0 (pa_kind p); MapWriter.bytes 1 (pa_address p)].
Definition write_entries {E} (l : list KeyEnvelopeEntry) (w : Writer.t) : result E Writer.t :=
  write_each write_entry l (Writer.array (len l) w).
Definition write_providers {E} (l : list ProviderAddress) (w : Writer.t) : result E Writer.t :=
  write_each write_provider l (Writer.array (len l) w).
(** offer.rs 152-181 [offer_binding_hash] *)
Definition write_binding {E} (key_envelopes : list KeyEnvelopeEntry) (providers : list ProviderAddress)
    (sender_device : DevicePublic) (auth_mode : AuthMode) : Writer.t -> result E Writer.t :=
  write_map 4 [
    MapWriter.nested 0 (write_entries key_envelopes);
    MapWriter.nested 1 (write_providers providers);
    MapWriter.nested 2 (write_device sender_device);
    MapWriter.uint 3 (to_u64 auth_mode)].

(** offer.rs 222-231 [TransferOffer] *)
Record TransferOffer : Type := mkOffer {
  public_manifest_bytes : bytes;
  sealed_manifest : SealedManifest;
  key_envelopes : list KeyEnvelopeEntry;
  providers : list ProviderAddress;
  sender_device : DevicePublic;
  offer_scope : RecipientScope;
  auth_mode : AuthMode;
  offer_signature : HybridSignature
}.
(** [encode_scope] writes the map of [RecipientScope::encode].
    offer.rs 276-318 [TransferOffer::encode] *)
Definition write_offer {E} (o : TransferOffer) : Writer.t -> result E Writer.t :=
  write_map 9 [
    MapWriter.bytes 0 (public_manifest_bytes o);
    MapWriter.bytes 1 (sm_nonce (sealed_manifest o));
    MapWriter.bytes 2 (sm_ciphertext (sealed_manifest o));
    MapWriter.nested 3 (write_entries (key_envelopes o));
    MapWriter.nested 4 (write_providers (providers o));
    MapWriter.nested 5 (write_device (sender_device o));
    MapWriter.nested 6 (write_scope (offer_scope o));
    MapWriter.uint 7 (to_u64 (auth_mode o));
    MapWriter.nested 8 (write_signature (offer_signature o))].
(** offer.rs 276-318 [TransferOffer::encode] *)
Definition encode_offer {E} (o : TransferOffer) : result E bytes :=
  let* w := write_offer o Writer.new in
  Ok (Writer.into_bytes w).

(** One envelope.  offer.rs 336-353 [TransferOffer::decode] *)
Definition read_entry : M Reader.t OfferError KeyEnvelopeEntry :=
  in_map (
    expect 0 ;;; recipient <- get (Reader.bytes_exact 32) ;;
    expect 1 ;;; nonce <- get (Reader.bytes_exact 24) ;;
    expect 2 ;;; ct <- get Reader.bytes ;;
    no_more Encoding ;;;
    ret (mkEntry recipient nonce ct)).
(** One provider.  offer.rs 360-373 [TransferOffer::decode] *)
Definition read_provider : M Reader.t OfferError ProviderAddress :=
  in_map (
    expect 0 ;;; kind <- get Reader.uint ;;
    expect 1 ;;; address <- get Reader.bytes ;;
    no_more Encoding ;;;
    guard (negb (MAX_PROVIDER_ADDR_LEN <? len address)) ValueTooLong ;;;
    ret (mkProvider kind address)).
(** offer.rs 467-480 [decode_scope] *)
Definition decode_scope : M Reader.t OfferError RecipientScope :=
  in_map (
    expect 0 ;;; scope_type <- get Reader.uint ;;
    expect 1 ;;; id <- get Reader.bytes ;;
    no_more Encoding ;;;
    guard (negb (MAX_PROVIDER_ADDR_LEN <? len id)) ValueTooLong ;;;
    ret (mkScope scope_type id)).
(** [AuthMode::from_u64(m.reader.uint()?)?] *)
Definition read_auth_mode : M Reader.t OfferError AuthMode := v <- q Reader.uint ;; lift (from_u64 v).
(** offer.rs 322-385 [TransferOffer::decode] *)
Definition read_offer : M Reader.t OfferError TransferOffer :=
  in_map (
    expect 0 ;;; public_bytes <- get Reader.bytes ;;
    expect 1 ;;; nonce <- get (Reader.bytes_exact 24) ;;
    expect 2 ;;; ciphertext <- get Reader.bytes ;;
    expect 3 ;;; count <- get Reader.array ;;
    guard (negb (MAX_ENVELOPES <? count)) TooManyEnvelopes ;;;
    envelopes <- get (repeat_m (Z.to_nat count) read_entry) ;;
    get Reader.leave ;;;
    expect 4 ;;; count <- get Reader.array ;;
    guard (negb (MAX_PROVIDERS <? count)) TooManyProviders ;;;
    providers <- get (repeat_m (Z.to_nat count) read_provider) ;;
    get Reader.leave ;;;
    expect 5 ;;; sender <- get read_device ;;
    expect 6 ;;; scope <- get decode_scope ;;
    expect 7 ;;; mode <- get read_auth_mode ;;
    expect 8 ;;; signature <- get read_signature ;;
    no_more Encoding ;;;
    ret (mkOffer public_bytes (mkSealedManifest nonce ciphertext) envelopes providers sender scope mode signature)).
(** offer.rs 320-401 [TransferOffer::decode] *)
Definition decode_offer (b : bytes) : result OfferError TransferOffer :=
  let* o := decode_all b read_offer in
  if len (key_envelopes o) =? 0 then Err NoEnvelope else Ok o.
(** offer.rs 449-453 [TransferOffer::envelope_for] *)
Definition envelope_for (o : TransferOffer) (device_id : bytes) : option KeyEnvelopeEntry :=
  find (fun e => ct_eq (ke_recipient e) device_id) (key_envelopes o).

Section Offer.
Context {P : Primitives} {K : PkPrimitives}.

(** offer.rs 133-142 [offer_signing_hash_spec] *)
Definition offer_signing_hash_spec {E} (manifest_commitment : bytes) (scope : RecipientScope) : result E bytes :=
  let* h := scope_hash scope in
  Ok (sha384 [OFFER_SIGN_DOMAIN; manifest_commitment; h]).
(** offer.rs 146-186 [offer_binding_hash] *)
Definition offer_binding_hash {E} (key_envelopes : list KeyEnvelopeEntry) (providers : list ProviderAddress)
    (sender_device : DevicePublic) (auth_mode : AuthMode) : result E bytes :=
  let* w := write_binding key_envelopes providers sender_device auth_mode Writer.new in
  Ok (blake3_hash (OFFER_BINDING_DOMAIN ++ Writer.into_bytes w)).
(** offer.rs 190-201 [offer_signing_hash] *)
Definition offer_signing_hash {E} (manifest_commitment : bytes) (scope : RecipientScope) (offer_binding : bytes) : result E bytes :=
  let* h := scope_hash scope in
  Ok (sha384 [OFFER_SIGN_DOMAIN; manifest_commitment; h; offer_binding]).
(** offer.rs 205-214 [offer_mac_message] *)
Definition offer_mac_message {E} (manifest_commitment : bytes) (scope : RecipientScope) : result E bytes :=
  let* h := scope_hash scope in
  Ok (OFFER_MAC_DOMAIN ++ manifest_commitment ++ h).

(** [randomness] is the draw of the signature.
    offer.rs 235-274 [TransferOffer::create] *)
Definition create (identity : DeviceIdentity) (pm : PublicManifest) (sealed : SealedManifest)
    (envelopes : list KeyEnvelopeEntry) (provs : list ProviderAddress) (scope : RecipientScope) (randomness : bytes)
  : result OfferError TransferOffer :=
  let* _ := try (validate pm) in
  if len envelopes =? 0 then Err NoEnvelope else
  if MAX_ENVELOPES <? len envelopes then Err TooManyEnvelopes else
  if MAX_PROVIDERS <? len provs then Err TooManyProviders else
  let* c := commitment pm in
  let* _ := try (verify_commitment pm sealed c) in
  let sender := public identity in
  let mode := StandaloneHybridSignature in
  let* binding := offer_binding_hash envelopes provs sender mode in
  let* hash := offer_signing_hash c scope binding in
  let* signature := map_err (fun _ => InvalidSignature) (hybrid_sign identity hash randomness) in
  let* b := encode_public pm in
  Ok (mkOffer b sealed envelopes provs sender scope mode signature).
(** offer.rs 406-446 [TransferOffer::verify] *)
Definition verify (o : TransferOffer) (expected_scope : RecipientScope) (now : Z) : result OfferError PublicManifest :=
  if negb (bool_decide (auth_mode o = StandaloneHybridSignature)) then Err UnsupportedAuthMode else
  if negb (bool_decide (offer_scope o = expected_scope)) then Err ScopeMismatch else
  let* pm := try (decode_public (public_manifest_bytes o)) in
  if negb (suite_id pm =? SUITE_ID) then Err UnsupportedVersion else
  let* c := commitment pm in
  let* _ := try (verify_commitment pm (sealed_manifest o) c) in
  let* binding := offer_binding_hash (key_envelopes o) (providers o) (sender_device o) (auth_mode o) in
  let* hash := offer_signing_hash c (offer_scope o) binding in
  let* _ := map_err (fun _ => InvalidSignature) (hybrid_verify (sender_device o) hash (offer_signature o)) in
  if pm_expires_at pm <=? now then Err Expired else
  Ok pm.
(** offer.rs 455-457 [TransferOffer::manifest_commitment] *)
Definition manifest_commitment (o : TransferOffer) : result OfferError bytes :=
  let* pm := try (decode_public (public_manifest_bytes o)) in
  commitment pm.
End Offer.

(** ** The values the encodings denote *)
Definition entry_value (e : KeyEnvelopeEntry) : value :=
  VMap [(0, VBytes (ke_recipient e)); (1, VBytes (ke_nonce e)); (2, VBytes (ke_ciphertext e))].
Definition entry_wf (e : KeyEnvelopeEntry) : Prop :=
  array 32 (ke_recipient e) /\ array 24 (ke_nonce e) /\ byte_string (ke_ciphertext e).
Definition provider_value (p : ProviderAddress) : value := VMap [(0, VUint (pa_kind p)); (1, VBytes (pa_address p))].
Definition provider_wf (p : ProviderAddress) : Prop :=
  u64 (pa_kind p) /\ bytes_ok (pa_address p) /\ len (pa_address p) <= MAX_PROVIDER_ADDR_LEN.
Definition offer_scope_wf (s : RecipientScope) : Prop :=
  u64 (scope_type s) /\ bytes_ok (scope_id s) /\ len (scope_id s) <= MAX_PROVIDER_ADDR_LEN.
Definition auth_value (a : AuthMode) : value := VUint (to_u64 a).
Definition offer_value (o : TransferOffer) : value :=
  VMap [(0, VBytes (public_manifest_bytes o)); (1, VBytes (sm_nonce (sealed_manifest o)));
    (2, VBytes (sm_ciphertext (sealed_manifest o))); (3, VArray (map entry_value (key_envelopes o)));
    (4, VArray (map provider_value (providers o))); (5, device_value (sender_device o)); (6, scope_value (offer_scope o));
    (7, auth_value (auth_mode o)); (8, signature_value (offer_signature o))].
Definition offer_wf (o : TransferOffer) : Prop :=
  byte_string (public_manifest_bytes o) /\ array 24 (sm_nonce (sealed_manifest o)) /\
  byte_string (sm_ciphertext (sealed_manifest o)) /\
  Forall entry_wf (key_envelopes o) /\ len (key_envelopes o) <= MAX_ENVELOPES /\
  Forall provider_wf (providers o) /\ len (providers o) <= MAX_PROVIDERS /\
  device_wf (sender_device o) /\ offer_scope_wf (offer_scope o) /\ signature_wf (offer_signature o).

#[export] Instance entry_codec : codec 1 read_entry entry_value entry_wf.
Proof.
  split.
  - intros pre tl d [r n c] (H1 & H2 & H3) Hd Hd'. unfold read_entry, entry_value; cbn [ke_recipient ke_nonce ke_ciphertext] in *. wforward.
  - intros pre rest d x r Hok Hd H. unfold read_entry in H. wbackward H.
    unfold entry_value; cbn [ke_recipient ke_nonce ke_ciphertext]. wfinish. by split_and!.
Qed.
Lemma short_bytes b n : bytes_ok b -> len b <= n -> n < 2 ^ 64 -> byte_string b.
Proof. intros Hb Hl Hn. pose proof (len_nonneg b). split; [done|]. unfold uint_range. lia. Qed.
#[export] Instance provider_codec : codec 1 read_provider provider_value provider_wf.
Proof.
  split.
  - intros pre tl d [k a] (H1 & H2 & H3) Hd Hd'. unfold read_provider, provider_value; cbn [pa_kind pa_address] in *.
    assert (byte_string a) by (by apply (short_bytes _ MAX_PROVIDER_ADDR_LEN)).
    assert (Hg : negb (MAX_PROVIDER_ADDR_LEN <? len a) = true) by lia. wforward.
  - intros pre rest d x r Hok Hd H. unfold read_provider in H. wbackward H.
    unfold provider_value; cbn [pa_kind pa_address]. wfinish. destruct HP0. unfold provider_wf; cbn. split_and!; try done; lia.
Qed.
#[export] Instance offer_scope_codec : codec 1 decode_scope scope_value offer_scope_wf.
Proof.
  split.
  - intros pre tl d [k a] (H1 & H2 & H3) Hd Hd'. unfold decode_scope, scope_value; cbn [scope_type scope_id] in *.
    assert (byte_string a) by (by apply (short_bytes _ MAX_PROVIDER_ADDR_LEN)).
    assert (Hg : negb (MAX_PROVIDER_ADDR_LEN <? len a) = true) by lia. wforward.
  - intros pre rest d x r Hok Hd H. unfold decode_scope in H. wbackward H.
    unfold scope_value; cbn [scope_type scope_id]. wfinish. destruct HP0. unfold offer_scope_wf; cbn. split_and!; try done; lia.
Qed.
#[export] Instance auth_codec : codec 0 read_auth_mode auth_value (fun _ => True).
Proof.
  split.
  - intros pre tl d a _ Hd Hd'. unfold read_auth_mode, auth_value. eapply bind_ok.
    + apply q_fwd. apply (codec_fwd codec_uint); [destruct a; by split|done|done].
    + by destruct a.
  - intros pre rest d a r Hok Hd H. unfold read_auth_mode in H. minv H. apply q_bwd in Hp.
    apply (codec_bwd codec_uint) in Hp as (tl & -> & -> & Hok' & Hu); [|done|done].
    unfold lift, from_u64 in Hk. destruct (Z.eqb_spec a0 0) as [->|]; [|destruct (Z.eqb_spec a0 1) as [->|]; [|done]];
      injection Hk as <- <-; by exists tl.
Qed.
#[export] Instance offer_codec : codec 3 read_offer offer_value offer_wf.
Proof.
  split.
  - intros pre tl d [pb [n c] es ps dev sc am sg] (H1 & H2 & H3 & H4 & H5 & H6 & H7 & H8 & H9 & H10) Hd Hd'.
    unfold read_offer, offer_value; cbn [public_manifest_bytes sealed_manifest sm_nonce sm_ciphertext key_envelopes providers
      sender_device offer_scope auth_mode offer_signature] in *.
    pose proof (len_nonneg es). pose proof (len_nonneg ps).
    assert (Hg1 : negb (MAX_ENVELOPES <? len (map entry_value es)) = true) by (rewrite len_map; lia).
    assert (Hg2 : negb (MAX_PROVIDERS <? len (map provider_value ps)) = true) by (rewrite len_map; lia).
    assert (u64 (len (map entry_value es))) by (rewrite len_map; unfold MAX_ENVELOPES, uint_range in *; lia).
    assert (u64 (len (map provider_value ps))) by (rewrite len_map; unfold MAX_PROVIDERS, uint_range in *; lia).
    wforward.
  - intros pre rest d x r Hok Hd H. unfold read_offer in H. wbackward H.
    unfold offer_value; cbn [public_manifest_bytes sealed_manifest sm_nonce sm_ciphertext key_envelopes providers
      sender_device offer_scope auth_mode offer_signature]. wfinish.
    unfold offer_wf; cbn [public_manifest_bytes sealed_manifest sm_nonce sm_ciphertext key_envelopes providers
      sender_device offer_scope auth_mode offer_signature]. split_and!; try done; lia.
Qed.

(** ** What the encoders write *)
Lemma write_entries_emits {E} l : emits (E := E) (write_entries l) (VArray (map entry_value l)).
Proof. apply array_emits. intros e _. unfold write_entry, entry_value. wemit. Qed.
Lemma write_providers_emits {E} l : emits (E := E) (write_providers l) (VArray (map provider_value l)).
Proof. apply array_emits. intros e _. unfold write_provider, provider_value. wemit. Qed.
#[export] Hint Resolve write_entries_emits write_providers_emits write_scope_emits : wire.
Definition binding_value (es : list KeyEnvelopeEntry) (ps : list ProviderAddress) (dev : DevicePublic) (a : AuthMode) : value :=
  VMap [(0, VArray (map entry_value es)); (1, VArray (map provider_value ps)); (2, device_value dev); (3, auth_value a)].
Lemma write_binding_emits {E} es ps dev a : emits (E := E) (write_binding es ps dev a) (binding_value es ps dev a).
Proof. unfold write_binding, binding_value, auth_value. wemit. Qed.
Lemma encode_offer_eq {E} o : encode_offer (E := E) o = Ok (cbor (offer_value o)).
Proof.
  unfold encode_offer. assert (H : emits (E := E) (write_offer o) (offer_value o))
    by (unfold write_offer, offer_value, auth_value; wemit). by rewrite H.
Qed.

Lemma entry_value_ok e : entry_wf e -> value_ok (entry_value e).
Proof. intros (H1 & H2 & H3). unfold entry_value. vok. Qed.
Lemma provider_value_ok p : provider_wf p -> value_ok (provider_value p).
Proof.
  intros (H1 & H2 & H3). assert (byte_string (pa_address p)) by (by apply (short_bytes _ MAX_PROVIDER_ADDR_LEN)).
  unfold provider_value. vok.
Qed.
Lemma entries_value_ok es : len es <= MAX_ENVELOPES -> Forall entry_wf es -> value_ok (VArray (map entry_value es)).
Proof.
  intros Hl H. apply (map_array_ok _ entry_wf); [|apply entry_value_ok|done]. pose proof (len_nonneg es).
  unfold MAX_ENVELOPES, uint_range in *. lia.
Qed.
Lemma providers_value_ok ps : len ps <= MAX_PROVIDERS -> Forall provider_wf ps -> value_ok (VArray (map provider_value ps)).
Proof.
  intros Hl H. apply (map_array_ok _ provider_wf); [|apply provider_value_ok|done]. pose proof (len_nonneg ps).
  unfold MAX_PROVIDERS, uint_range in *. lia.
Qed.
Lemma auth_value_ok a : value_ok (auth_value a).
Proof. apply ok_uint. by destruct a. Qed.
Lemma offer_scope_ok s : offer_scope_wf s -> scope_wf s.
Proof. intros (? & ? & ?). unfold scope_wf, MAX_PROVIDER_ADDR_LEN, MAX_TEXT_LEN in *. split_and!; try done. lia. Qed.
Lemma offer_value_ok o : offer_wf o -> value_ok (offer_value o).
Proof.
  intros (H1 & H2 & H3 & H4 & H5 & H6 & H7 & H8 & H9 & H10).
  apply entries_value_ok in H4; [|done]. apply providers_value_ok in H6; [|done]. apply device_value_ok in H8.
  apply offer_scope_ok, scope_value_ok in H9. apply signature_value_ok in H10. pose proof (auth_value_ok (auth_mode o)).
  unfold offer_value. vok.
Qed.
Lemma binding_value_ok es ps dev a : len es <= MAX_ENVELOPES -> Forall entry_wf es -> len ps <= MAX_PROVIDERS ->
  Forall provider_wf ps -> device_wf dev -> value_ok (binding_value es ps dev a).
Proof.
  intros H1 H2 H3 H4 H5. apply entries_value_ok in H2; [|done]. apply providers_value_ok in H4; [|done].
  apply device_value_ok in H5. pose proof (auth_value_ok a). unfold binding_value. vok.
Qed.

Lemma decode_offer_fwd o : offer_wf o -> key_envelopes o <> [] -> len (cbor (offer_value o)) <= MAX_CONTROL_SIZE ->
  decode_offer (cbor (offer_value o)) = Ok o.
Proof.
  intros Ho He Hl. unfold decode_offer. rewrite (decode_message o) by done. cbn [rbind].
  destruct (Z.eqb_spec (len (key_envelopes o)) 0) as [H0|]; [by apply len_0_nil in H0|done].
Qed.
Lemma decode_offer_inv b o : bytes_ok b -> decode_offer b = Ok o ->
  b = cbor (offer_value o) /\ offer_wf o /\ key_envelopes o <> [].
Proof.
  intros Hok H. unfold decode_offer in H. minv H. apply (decode_message_inv b) in Hp as [-> Hw]; [|done].
  destruct (Z.eqb_spec (len (key_envelopes a)) 0) as [|Hn]; [done|]. apply Ok_inj in Hk as ->.
  split_and!; [done|done|]. intros H0. apply Hn. by rewrite H0.
Qed.

(** ** Verification *)
Section Verified.
Context {P : Primitives} {K : PkPrimitives}.

(** The hash inputs behind the signature of an offer. *)
Definition scope_input (s : RecipientScope) : bytes := SCOPE_DOMAIN ++ cbor (scope_value s).
Definition binding_input (o : TransferOffer) : bytes :=
  OFFER_BINDING_DOMAIN ++ cbor (binding_value (key_envelopes o) (providers o) (sender_device o) (auth_mode o)).
Definition commitment_input (m : PublicManifest) : bytes :=
  COMMITMENT_DOMAIN ++ cbor (public_value m) ++ private_manifest_ciphertext_hash m.
Definition signed_input (o : TransferOffer) (m : PublicManifest) : bytes :=
  concat [OFFER_SIGN_DOMAIN; blake3_hash (commitment_input m); blake3_hash (scope_input (offer_scope o));
          blake3_hash (binding_input o)].
Definition blake3_inputs (o : TransferOffer) (m : PublicManifest) : list bytes :=
  [commitment_input m; sm_nonce (sealed_manifest o) ++ sm_ciphertext (sealed_manifest o); scope_input (offer_scope o); binding_input o].

(** The hash the code computes for an offer and its manifest, as [create] and
    [verify] do. *)
Definition signing_hash {E} (o : TransferOffer) (m : PublicManifest) : result E bytes :=
  let* c := commitment m in
  let* binding := offer_binding_hash (key_envelopes o) (providers o) (sender_device o) (auth_mode o) in
  offer_signing_hash c (offer_scope o) binding.
Lemma signing_hash_eq {E} o m : signing_hash o m = Ok (E := E) (sha384_digest (signed_input o m)).
Proof.
  unfold signing_hash. rewrite commitment_eq. cbn [rbind]. unfold offer_binding_hash. rewrite write_binding_emits. cbn [rbind].
  unfold offer_signing_hash. by rewrite scope_hash_eq.
Qed.

Lemma verify_iff o scope now m : verify o scope now = Ok m <->
  auth_mode o = StandaloneHybridSignature /\ offer_scope o = scope /\ decode_public (public_manifest_bytes o) = Ok m /\
  suite_id m = SUITE_ID /\ private_manifest_ciphertext_hash m = ciphertext_hash (sealed_manifest o) /\
  hybrid_verify (sender_device o) (sha384_digest (signed_input o m)) (offer_signature o) = Ok tt /\ now < pm_expires_at m.
Proof.
  unfold verify. case_bool_decide; cbn [negb]; [|split; [done|tauto]]. case_bool_decide; cbn [negb]; [|split; [done|tauto]].
  destruct (decode_public _) as [m'|e|]; cbn [try map_err rbind]; [|split; [done|intros (_ & _ & ? & _); done]..].
  destruct (Z.eqb_spec (suite_id m') SUITE_ID); cbn [negb];
    [|split; [done|intros (_ & _ & [= ->] & ? & _); done]].
  pose proof (signing_hash_eq (E := OfferError) o m') as Hs. unfold signing_hash in Hs. rewrite commitment_eq in Hs |- *. cbn [rbind] in *.
  destruct (verify_commitment m' (sealed_manifest o) _) as [[]|e'|] eqn:Hv; cbn [try map_err rbind].
  - apply verify_commitment_iff in Hv as [Hv _].
    destruct (offer_binding_hash _ _ _ _) as [bh|?|]; cbn [rbind] in *; [|done..].
    rewrite Hs. cbn [rbind]. destruct (hybrid_verify _ _ _) as [[]|?|] eqn:Hh; cbn [map_err rbind].
    + destruct (Z.leb_spec (pm_expires_at m') now); split; try done.
      * intros (_ & _ & [= <-] & _ & _ & _ & ?). lia.
      * intros [= <-]. by split_and!.
      * by intros (_ & _ & [= <-] & _).
    + split; [done|]. intros (_ & _ & [= <-] & _ & _ & ? & _). congruence.
    + split; [done|]. intros (_ & _ & [= <-] & _ & _ & ? & _). congruence.
  - split; [done|]. intros (_ & _ & [= <-] & _ & Hc & _).
    by rewrite (proj2 (verify_commitment_iff m' (sealed_manifest o) _) (conj Hc (commitment_eq m'))) in Hv.
  - split; [done|]. intros (_ & _ & [= <-] & _ & Hc & _).
    by rewrite (proj2 (verify_commitment_iff m' (sealed_manifest o) _) (conj Hc (commitment_eq m'))) in Hv.
Qed.

Lemma verified_manifest b m : bytes_ok b -> decode_public b = Ok m -> public_wf m.
Proof. intros Hb H. by apply decode_public_inv in H as (v & _ & [Hw _] & _). Qed.

Context {L : PrimitiveLaws}.
Lemma hash_split x y a a' b b' c c' : array 32 a -> array 32 a' -> array 32 b -> array 32 b' -> array 32 c -> array 32 c' ->
  x = y -> concat [x; a; b; c] = concat [y; a'; b'; c'] -> a = a' /\ b = b' /\ c = c'.
Proof.
  intros [Ha _] [Ha' _] [Hb _] [Hb' _] [Hc _] [Hc' _] -> H. cbn [concat] in H. rewrite !app_nil_r in H.
  apply app_inv_head in H. apply app_inj_1 in H as [-> H]; [|unfold len in *; lia].
  by apply app_inj_1 in H as [-> ->]; [|unfold len in *; lia].
Qed.

Lemma map_value_inj {A} (f : A -> value) (wf : A -> Prop) l l' :
  (forall x y, wf x -> wf y -> f x = f y -> x = y) -> Forall wf l -> Forall wf l' -> map f l = map f l' -> l = l'.
Proof.
  intros Hf H. revert l'. induction H as [|x l Hx _ IH]; intros [|y l'] H' E; try done.
  apply Forall_cons_iff in H' as [Hy H']. injection E as E1 E2. f_equal; [by apply Hf|by apply IH].
Qed.
Lemma same_signed_content o o' m m' : offer_wf o -> offer_wf o' -> public_wf m -> public_wf m' ->
  private_manifest_ciphertext_hash m = ciphertext_hash (sealed_manifest o) ->
  private_manifest_ciphertext_hash m' = ciphertext_hash (sealed_manifest o') ->
  no_collision (signed_input o m) (signed_input o' m') -> collision_free (blake3_inputs o m) (blake3_inputs o' m') ->
  sha384_digest (signed_input o m) = sha384_digest (signed_input o' m') ->
  m = m' /\ sealed_manifest o = sealed_manifest o' /\ key_envelopes o = key_envelopes o' /\ providers o = providers o' /\
  sender_device o = sender_device o' /\ offer_scope o = offer_scope o' /\ auth_mode o = auth_mode o'.
Proof.
  intros (_ & N1 & _ & E1 & E2 & P1 & P2 & D1 & S1 & _) (_ & N1' & _ & E1' & E2' & P1' & P2' & D1' & S1' & _) Hm Hm' Hh Hh' Hn Hcf H.
  apply Hn in H. apply hash_split in H as (Hc & Hs & Hb); [|apply blake3_len..|done].
  apply (Hcf (scope_input (offer_scope o)) (scope_input (offer_scope o'))) in Hs; [|set_solver..].
  apply (Hcf (binding_input o) (binding_input o')) in Hb; [|set_solver..].
  apply app_inv_head in Hs. apply cbor_inj in Hs; [|by apply scope_value_ok, offer_scope_ok..].
  apply app_inv_head in Hb. apply cbor_inj in Hb; [|by apply binding_value_ok..]. injection Hb as He Hp Hd Ha.
  destruct (commitment_inj (E := OfferError) m m' (sealed_manifest o) (sealed_manifest o')) as [<- Hsm]; try done;
    [by destruct N1|by destruct N1'| |by rewrite !commitment_eq; f_equal|].
  { intros x y Hx Hy. unfold committed_inputs in *. apply Hcf; unfold blake3_inputs, commitment_input; set_solver. }
  split_and!; try done.
  - apply (map_value_inj entry_value entry_wf) in He; try done. intros [] [] _ _ [=]. by subst.
  - apply (map_value_inj provider_value provider_wf) in Hp; try done. intros [] [] _ _ [=]. by subst.
  - destruct (sender_device o), (sender_device o'). cbn in *. by subst.
  - destruct (offer_scope o), (offer_scope o'). injection Hs as -> ->. done.
  - by destruct (auth_mode o), (auth_mode o').
Qed.
End Verified.

(** ** Creation *)
Section Created.
Context {P : Primitives} {L : PrimitiveLaws} {K : PkPrimitives} {KL : PkLaws}.

(** What [create] checks of its arguments. *)
Definition offerable (pm : PublicManifest) (sealed : SealedManifest) (es : list KeyEnvelopeEntry) (ps : list ProviderAddress) : Prop :=
  validate pm = Ok tt /\ es <> [] /\ len es <= MAX_ENVELOPES /\ len ps <= MAX_PROVIDERS /\
  private_manifest_ciphertext_hash pm = ciphertext_hash sealed.

Lemma create_spec i pm sealed es ps scope r : signer i -> offerable pm sealed es ps ->
  exists o, create i pm sealed es ps scope r = Ok o /\
    public_manifest_bytes o = cbor (public_value pm) /\ sealed_manifest o = sealed /\ key_envelopes o = es /\ providers o = ps /\
    sender_device o = public i /\ offer_scope o = scope /\ auth_mode o = StandaloneHybridSignature /\
    signature_wf (offer_signature o) /\
    hybrid_verify (sender_device o) (sha384_digest (signed_input o pm)) (offer_signature o) = Ok tt.
Proof.
  intros [_ Hsign] (Hv & He & He2 & Hp & Hh). unfold create. rewrite Hv. cbn [try map_err rbind].
  destruct (Z.eqb_spec (len es) 0) as [H0|]; [by apply len_0_nil in H0|].
  destruct (Z.ltb_spec MAX_ENVELOPES (len es)); [lia|]. destruct (Z.ltb_spec MAX_PROVIDERS (len ps)); [lia|].
  rewrite commitment_eq. cbn [rbind].
  rewrite (proj2 (verify_commitment_iff pm sealed _) (conj Hh (commitment_eq pm))). cbn [try map_err rbind].
  unfold offer_binding_hash. rewrite write_binding_emits. cbn [rbind]. unfold offer_signing_hash. rewrite scope_hash_eq. cbn [rbind].
  match goal with |- context [hybrid_sign _ ?h r] => destruct (Hsign h r) as (s & -> & Hw & Hver) end.
  cbn [map_err rbind]. rewrite encode_public_eq. cbn [rbind]. eexists. split; [reflexivity|]. by split_and!.
Qed.
Lemma create_err identity pm sealed es ps scope r o : create identity pm sealed es ps scope r = Ok o -> offerable pm sealed es ps.
Proof.
  intros H. unfold create in H. minv H. apply try_inv in Hp. destruct a.
  destruct (Z.eqb_spec (len es) 0) as [|H0]; [done|]. destruct (Z.ltb_spec MAX_ENVELOPES (len es)); [done|].
  destruct (Z.ltb_spec MAX_PROVIDERS (len ps)); [done|]. rewrite commitment_eq in Hk. cbn [rbind] in Hk.
  minv Hk. apply try_inv in Hp0. destruct a. apply verify_commitment_iff in Hp0 as [Hh _].
  split_and!; [done| |lia|lia|done]. intros ->. by apply H0.
Qed.
End Created.

Section Claims.
Context {P : Primitives} {L : PrimitiveLaws} {K : PkPrimitives} {KL : PkLaws}.

(** An offer made by any identity whose signatures verify. *)
Lemma create_accepted i pm sealed es ps scope r : signer i -> public_wf pm -> offerable pm sealed es ps ->
  array 24 (sm_nonce sealed) -> byte_string (sm_ciphertext sealed) -> Forall entry_wf es -> Forall provider_wf ps ->
  offer_scope_wf scope ->
  exists o, create i pm sealed es ps scope r = Ok o /\ sealed_manifest o = sealed /\ key_envelopes o = es /\
    sender_device o = public i /\ offer_wf o /\ providers o = ps /\ offer_scope o = scope /\
    public_manifest_bytes o = cbor (public_value pm) /\
    encode_offer (E := OfferError) o = Ok (cbor (offer_value o)) /\
    (len (cbor (offer_value o)) <= MAX_CONTROL_SIZE -> decode_offer (cbor (offer_value o)) = Ok o) /\
    (forall now, now < pm_expires_at pm -> verify o scope now = Ok pm) /\ manifest_commitment o = commitment pm.
Proof.
  intros Hi Hpm Hof Hn Hct Hes Hps Hsc. destruct (create_spec i pm sealed es ps scope r Hi Hof) as
    (o & Hc & Hb & Hs & He & Hp & Hd & Hscope & Ha & Hw & Hv). pose proof Hof as (Hval & Hne & Hl1 & Hl2 & Hh).
  assert (Hdec : decode_public (public_manifest_bytes o) = Ok pm) by (rewrite Hb; by apply decode_public_encoded).
  assert (Hwf : offer_wf o).
  { assert (byte_string (cbor (public_value pm))).
    { split; [by apply cbor_bytes_ok, public_value_ok|]. pose proof (public_size pm Hpm).
      pose proof (len_nonneg (cbor (public_value pm))). unfold uint_range, MAX_CONTROL_SIZE in *. lia. }
    pose proof Hi as [Hi' _]. unfold offer_wf. rewrite Hb, Hs, He, Hp, Hd, Hscope. tauto. }
  exists o. split_and!; try done.
  - apply encode_offer_eq.
  - intros Hl. apply decode_offer_fwd; [done|by rewrite He|done].
  - intros now Hnow. apply verify_iff. rewrite Hs. split_and!; try done. apply Hpm.
  - unfold manifest_commitment. rewrite Hdec. done.
Qed.

(** An honest offer is accepted: for a valid manifest that commits to the
    sealed one, at least one and at most 64 envelopes and at most 32
    providers, [create] succeeds; if the fields are within the lengths the
    decoder accepts and the encoding within its size limit, the encoded
    offer decodes to itself, and until the manifest expires the recipient
    named by the scope verifies it and gets exactly the manifest. *)
Theorem offer_accepted seed pm sealed es ps scope r now : public_wf pm -> offerable pm sealed es ps ->
  array 24 (sm_nonce sealed) -> byte_string (sm_ciphertext sealed) -> Forall entry_wf es -> Forall provider_wf ps ->
  offer_scope_wf scope -> now < pm_expires_at pm ->
  exists o, create (from_seed seed) pm sealed es ps scope r = Ok o /\
    (len (cbor (offer_value o)) <= MAX_CONTROL_SIZE ->
       exists b, encode_offer (E := OfferError) o = Ok b /\ decode_offer b = Ok o) /\
    verify o scope now = Ok pm /\ manifest_commitment o = commitment pm.
Proof.
  intros Hpm Hof Hn Hct Hes Hps Hsc Hnow. destruct (create_accepted _ pm sealed es ps scope r (from_seed_signer seed) Hpm Hof Hn Hct Hes Hps Hsc)
    as (o & Hc & _ & _ & _ & _ & _ & _ & _ & He & Hd & Hv & Hm). exists o. split; [done|]. split; [|by split; [apply Hv|]].
  intros Hl. exists (cbor (offer_value o)). split; [done|by apply Hd].
Qed.
(** What a verified offer guarantees: it is in Standalone Mode, names the
    expected scope, its manifest bytes decode to the manifest returned,
    that manifest commits to the sealed one, has the mandatory suite and
    has not expired, and the sender's hybrid signature verifies over the
    hash of commitment, scope and binding; and these together are enough
    for it to verify. *)
Theorem offer_verified o scope now m : verify o scope now = Ok m <->
  auth_mode o = StandaloneHybridSignature /\ offer_scope o = scope /\ decode_public (public_manifest_bytes o) = Ok m /\
  suite_id m = SUITE_ID /\ private_manifest_ciphertext_hash m = ciphertext_hash (sealed_manifest o) /\
  hybrid_verify (sender_device o) (sha384_digest (signed_input o m)) (offer_signature o) = Ok tt /\ now < pm_expires_at m.
Proof. apply verify_iff. Qed.

(** C12: The signature covers the whole offer: when two decoded offers verify,
    the hash the code computes for each, [offer_signing_hash] of the
    commitment, the scope and the binding, is the one the sender's hybrid
    signature verifies over, and it is SHA-384 of the signed input; and if the
    two hashes are equal, and the hash functions do not collide on the inputs
    of the two, the offers agree on the manifest, the sealed manifest, every
    envelope, every provider, the sender, the scope and the mode. *)
Theorem offer_signature_binds b b' o o' scope scope' now now' m m' : bytes_ok b -> bytes_ok b' ->
  decode_offer b = Ok o -> decode_offer b' = Ok o' -> verify o scope now = Ok m -> verify o' scope' now' = Ok m' ->
  exists h h', signing_hash (E := OfferError) o m = Ok h /\ signing_hash (E := OfferError) o' m' = Ok h' /\
    hybrid_verify (sender_device o) h (offer_signature o) = Ok tt /\ hybrid_verify (sender_device o') h' (offer_signature o') = Ok tt /\
    h = sha384_digest (signed_input o m) /\ h' = sha384_digest (signed_input o' m') /\
    (no_collision (signed_input o m) (signed_input o' m') -> collision_free (blake3_inputs o m) (blake3_inputs o' m') -> h = h' ->
     m = m' /\ sealed_manifest o = sealed_manifest o' /\ key_envelopes o = key_envelopes o' /\ providers o = providers o' /\
     sender_device o = sender_device o' /\ offer_scope o = offer_scope o' /\ auth_mode o = auth_mode o').
Proof.
  intros Hb Hb' [_ [Hw _]]%decode_offer_inv [_ [Hw' _]]%decode_offer_inv Hv Hv'; try done.
  apply verify_iff in Hv as (_ & _ & Hd & _ & Hh & Hsig & _). apply verify_iff in Hv' as (_ & _ & Hd' & _ & Hh' & Hsig' & _).
  apply verified_manifest in Hd; [|apply Hw]. apply verified_manifest in Hd'; [|apply Hw'].
  eexists _, _. split; [apply signing_hash_eq|]. split; [apply signing_hash_eq|]. do 2 (split; [assumption|]). do 2 (split; [done|]).
  intros. by apply same_signed_content.
Qed.

(** The signature does not cover the extensions of the public manifest: an
    offer that verifies still verifies, with the same result, after its
    manifest bytes are replaced by an encoding with any noncritical
    extension map added. *)
Theorem offer_signature_ignores_extensions o scope now m e : bytes_ok (public_manifest_bytes o) ->
  verify o scope now = Ok m -> extension_ok e -> 2 + vdepth (VMap e) <= MAX_DEPTH ->
  let b := cbor (VMap (public_entries m (map object_value (objects m)) ++ [(10, VMap e)])) in
  len b <= MAX_CONTROL_SIZE ->
  verify (mkOffer b (sealed_manifest o) (key_envelopes o) (providers o) (sender_device o) (offer_scope o) (auth_mode o)
            (offer_signature o)) scope now = Ok m.
Proof.
  cbv zeta. intros Hb Hv He Hdep Hl. apply verify_iff in Hv as (H1 & H2 & H3 & H4 & H5 & H6 & H7).
  apply verify_iff. cbn [auth_mode offer_scope public_manifest_bytes sealed_manifest sender_device offer_signature].
  split_and!; try done. pose proof (verified_manifest _ _ Hb H3) as Hw. apply decode_public_inv in H3 as (_ & _ & _ & Hval); [|done].
  by apply decode_extended.
Qed.

(** [create] does not enforce what [decode] does: an offer with a provider
    address or a scope id longer than 512 bytes is created and signed, its
    fields being of their Rust types, and its own encoding is refused. *)
Theorem offer_created_undecodable seed pm sealed es ps scope r o : create (from_seed seed) pm sealed es ps scope r = Ok o ->
  value_ok (offer_value o) ->
  (MAX_PROVIDER_ADDR_LEN < len (scope_id scope) \/ exists p, p ∈ ps /\ MAX_PROVIDER_ADDR_LEN < len (pa_address p)) ->
  exists b, encode_offer (E := OfferError) o = Ok b /\ forall o', decode_offer b <> Ok o'.
Proof.
  intros Hc Hok Hlong. exists (cbor (offer_value o)). split; [apply encode_offer_eq|]. intros o' Hd.
  apply decode_offer_inv in Hd as (Heq & Hw & _); [|by apply cbor_bytes_ok].
  apply cbor_inj in Heq; [|done|by apply offer_value_ok].
  pose proof (create_err _ _ _ _ _ _ _ _ Hc) as Hof.
  destruct (create_spec _ pm sealed es ps scope r (from_seed_signer seed) Hof) as (o1 & Hc1 & _ & _ & _ & Hp & _ & Hs & _).
  rewrite Hc in Hc1. apply Ok_inj in Hc1 as <-. destruct Hw as (_ & _ & _ & _ & _ & Hps & _ & _ & (_ & _ & Hsc) & _).
  unfold offer_value in Heq. injection Heq as _ _ _ _ Hpp _ _ _ _ Hid _ _ _. rewrite Hs in Hid. rewrite Hp in Hpp.
  destruct Hlong as [Hl|(p & Hin & Hl)]; [rewrite Hid in Hl; lia|].
  apply (list_elem_of_fmap_2' provider_value _ _ (provider_value p)) in Hin; [|done].
  change (provider_value p ∈ map provider_value ps) in Hin. rewrite Hpp in Hin. apply list_elem_of_fmap in Hin as (p' & He & Hin).
  rewrite Forall_forall in Hps. destruct (Hps p' Hin) as (_ & _ & Hl'). injection He as _ He. rewrite He in Hl. lia.
Qed.
End Claims.

(** ** A concrete offer *)
Module OfferWitness.
Import Toy ToyPk ManifestWitness.
Definition seed1 : bytes := replicate 32 11.
Definition entry1 : KeyEnvelopeEntry := mkEntry (replicate 32 6) (replicate 24 5) [1; 2; 3; 4].
Definition provider1 : ProviderAddress := mkProvider KIND_SENDER_DEVICE (replicate 32 9).
Definition scope1 : RecipientScope := device_scope (replicate 32 6).
Definition the_offer (r : result OfferError TransferOffer) (d : TransferOffer) : TransferOffer := match r with Ok o => o | _ => d end.
Definition none : TransferOffer := mkOffer [] sealed1 [] [] (mkPublic [] [] []) scope1 BoundSessionMac (mkSig [] []).
Definition offer1 : TransferOffer := Eval vm_compute in
  the_offer (create (from_seed seed1) public1 sealed1 [entry1] [provider1] scope1 (replicate 32 8)) none.

Lemma entry1_wf : Forall entry_wf [entry1].
Proof.
  constructor; [|constructor]. unfold entry_wf. split; [closed_array|]. split; [closed_array|].
  split; [closed_bytes|closed_range].
Qed.
Lemma provider1_wf : Forall provider_wf [provider1].
Proof.
  constructor; [|constructor]. unfold provider_wf. split; [closed_range|]. split; [closed_bytes|vm_compute; discriminate].
Qed.
Lemma scope1_wf : offer_scope_wf scope1.
Proof. split; [closed_range|]. split; [closed_bytes|vm_compute; discriminate]. Qed.
Lemma offerable1 : offerable public1 sealed1 [entry1] [provider1].
Proof.
  split; [vm_compute; reflexivity|]. split; [discriminate|]. split; [vm_compute; discriminate|].
  split; [vm_compute; discriminate|vm_compute; reflexivity].
Qed.
Lemma created1 : create (from_seed seed1) public1 sealed1 [entry1] [provider1] scope1 (replicate 32 8) = Ok offer1.
Proof. vm_compute. reflexivity. Qed.
Lemma verified1 : verify offer1 scope1 15 = Ok public1.
Proof. vm_compute. reflexivity. Qed.
Definition bytes1 : bytes := Eval vm_compute in cbor (offer_value offer1).
Lemma bytes1_ok : bytes_ok bytes1.
Proof. apply bytes_ok_check. vm_compute. reflexivity. Qed.
Lemma decoded1 : decode_offer bytes1 = Ok offer1.
Proof. vm_compute. reflexivity. Qed.

Lemma offer_accepted_witness : exists o, create (from_seed seed1) public1 sealed1 [entry1] [provider1] scope1 (replicate 32 8) = Ok o /\
  verify o scope1 15 = Ok public1.
Proof.
  destruct (offer_accepted seed1 public1 sealed1 [entry1] [provider1] scope1 (replicate 32 8) 15 public1_wf offerable1)
    as (o & H1 & _ & H2 & _).
  - closed_array.
  - split; [closed_bytes|closed_range].
  - exact entry1_wf.
  - exact provider1_wf.
  - exact scope1_wf.
  - vm_compute. reflexivity.
  - exists o. split; [exact H1|exact H2].
Defined.
Lemma offer_signature_binds_witness : exists h, signing_hash (E := OfferError) offer1 public1 = Ok h /\
  hybrid_verify (sender_device offer1) h (offer_signature offer1) = Ok tt /\ providers offer1 = [provider1].
Proof.
  destruct (offer_signature_binds bytes1 bytes1 offer1 offer1 scope1 scope1 15 15 public1 public1 bytes1_ok bytes1_ok decoded1 decoded1
    verified1 verified1) as (h & h' & H1 & H2 & H3 & _ & Hh & Hh' & H).
  destruct H as (_ & _ & _ & Hp & _).
  - intros _. reflexivity.
  - apply collision_free_check. vm_compute. reflexivity.
  - congruence.
  - exists h. split; [exact H1|]. split; [exact H3|reflexivity].
Defined.
Lemma offer_signature_ignores_extensions_witness : exists b, b <> public_manifest_bytes offer1 /\
  verify (mkOffer b (sealed_manifest offer1) (key_envelopes offer1) (providers offer1) (sender_device offer1) (offer_scope offer1)
            (auth_mode offer1) (offer_signature offer1)) scope1 15 = Ok public1.
Proof.
  eexists. split; [|apply (offer_signature_ignores_extensions offer1 scope1 15 public1 extension1)].
  - vm_compute. discriminate.
  - apply bytes_ok_check. vm_compute. reflexivity.
  - exact verified1.
  - exact extension1_ok.
  - vm_compute. discriminate.
  - vm_compute. discriminate.
Defined.

Definition long_scope : RecipientScope := device_scope (replicate 513 6).
Definition offer2 : TransferOffer := Eval vm_compute in
  the_offer (create (from_seed seed1) public1 sealed1 [entry1] [provider1] long_scope (replicate 32 8)) none.
Lemma offer2_ok : value_ok (offer_value offer2).
Proof.
  unfold offer_value.
  assert (H : forall b, forallb (fun x => (0 <=? x) && (x <? 256)) b = true -> (len b <? 2 ^ 64) = true -> value_ok (VBytes b)).
  { intros b Hb Hl. apply ok_bytes. split; [by apply bytes_ok_check|]. pose proof (len_nonneg b). unfold uint_range. lia. }
  apply ok_map; [closed_range|].
  repeat apply Forall_cons_2; [..|apply Forall_nil_2]; (split; [closed_range|]); cbn [fst snd].
  - apply H; vm_compute; reflexivity.
  - apply H; vm_compute; reflexivity.
  - apply H; vm_compute; reflexivity.
  - apply entries_value_ok; [vm_compute; discriminate|exact entry1_wf].
  - apply providers_value_ok; [vm_compute; discriminate|exact provider1_wf].
  - apply ok_map; [closed_range|]. repeat apply Forall_cons_2; [..|apply Forall_nil_2]; (split; [closed_range|]); cbn [fst snd];
      apply H; vm_compute; reflexivity.
  - apply ok_map; [closed_range|]. repeat apply Forall_cons_2; [..|apply Forall_nil_2]; (split; [closed_range|]); cbn [fst snd];
      [apply ok_uint; closed_range|apply H; vm_compute; reflexivity].
  - apply auth_value_ok.
  - apply ok_map; [closed_range|]. repeat apply Forall_cons_2; [..|apply Forall_nil_2]; (split; [closed_range|]); cbn [fst snd];
      apply H; vm_compute; reflexivity.
Qed.
Lemma offer_created_undecodable_witness : exists b, encode_offer (E := OfferError) offer2 = Ok b /\ forall o', decode_offer b <> Ok o'.
Proof.
  apply (offer_created_undecodable seed1 public1 sealed1 [entry1] [provider1] long_scope (replicate 32 8)).
  - vm_compute. reflexivity.
  - exact offer2_ok.
  - left. vm_compute. reflexivity.
Defined.
End OfferWitness.
