(* ===== verification/Ticket.v ===== *)
(** * Tickets and base64url (offer.rs)

    A ticket is the CBOR map that a share link carries, in the text form
    [rtp2:<base64url without padding>].  The encoder and the decoder work on
    groups of three bytes and four characters; a [&str] is the list of its
    bytes. *)

From S2P Require Import Prelude Cbor Wire Extension Offer.

(** offer.rs 42-42 [TICKET_SCHEME] *)
Definition TICKET_SCHEME : bytes := lit "rtp2:".
(** offer.rs 43-43 [TICKET_VERSION] *)
Definition TICKET_VERSION : Z := 1.
(** offer.rs 49-49 [MAX_TICKET_LEN] *)
Definition MAX_TICKET_LEN : Z := 8192.
(** offer.rs 610-610 [B64_ALPHABET] *)
Definition B64_ALPHABET : bytes := lit "ABCDEFGHIJKLMNOPQRSTUVWXYZabcdefghijklmnopqrstuvwxyz0123456789-_".

(** [slice.chunks(n)]; the length of the slice bounds the number of chunks. *)
Fixpoint chunks_upto (fuel n : nat) (l : bytes) : list bytes :=
  match fuel, l with
  | S f, _ :: _ => take n l :: chunks_upto f n (drop n l)
  | _, _ => []
  end.
Definition chunks (n : nat) (l : bytes) : list bytes := chunks_upto (length l) n l.

(** ** Encoding *)
(** [B64_ALPHABET[n as usize & 63]] *)
Definition symbol (n : Z) : Z := nth (Z.to_nat (Z.land n 63)) B64_ALPHABET 0.
(** One turn of the loop.  offer.rs 612-629 [base64url_encode] *)
Definition encode_chunk (chunk : bytes) : bytes :=
  let b0 := nth 0 chunk 0 in
  let b1 := nth 1 chunk 0 in
  let b2 := nth 2 chunk 0 in
  let n := Z.lor (Z.lor (Z.shiftl b0 16) (Z.shiftl b1 8)) b2 in
  [symbol (Z.shiftr n 18); symbol (Z.shiftr n 12)]
  ++ (if 1 <? len chunk then [symbol (Z.shiftr n 6)] else [])
  ++ (if 2 <? len chunk then [symbol n] else []).
(** offer.rs 612-629 [base64url_encode] *)
Definition base64url_encode (data : bytes) : bytes := concat (map encode_chunk (chunks 3 data)).

(** ** Decoding *)
(** offer.rs 632-641 [value] *)
Definition symbol_value (c : Z) : option Z :=
  if (65 <=? c) && (c <=? 90) then Some (c - 65) else
  if (97 <=? c) && (c <=? 122) then Some (c - 97 + 26) else
  if (48 <=? c) && (c <=? 57) then Some (c - 48 + 52) else
  if c =? 45 then Some 62 else
  if c =? 95 then Some 63 else None.
(** The inner loop: [i] counts the characters and [n] gathers their bits.
    offer.rs 651-654 [base64url_decode] *)
Fixpoint gather (chunk : bytes) (i n : Z) : result OfferError Z :=
  match chunk with
  | [] => Ok n
  | c :: rest =>
    match symbol_value c with
    | Some v => gather rest (i + 1) (Z.lor n (Z.shiftl v (18 - 6 * i)))
    | None => Err Encoding
    end
  end.
(** One turn of the outer loop.  offer.rs 651-671 [base64url_decode] *)
Definition decode_chunk (chunk : bytes) : result OfferError bytes :=
  let* n := gather chunk 0 0 in
  let out := [wrap 8 (Z.shiftr n 16)]
    ++ (if 2 <? len chunk then [wrap 8 (Z.shiftr n 8)] else [])
    ++ (if 3 <? len chunk then [wrap 8 n] else []) in
  let unused_bits := if len chunk =? 2 then 16 else if len chunk =? 3 then 8 else 0 in
  if (0 <? unused_bits) && negb (Z.land n (Z.shiftl 1 unused_bits - 1) =? 0) then Err Encoding else Ok out.
(** The outer loop.  offer.rs 649-672 [base64url_decode] *)
Fixpoint decode_chunks (l : list bytes) : result OfferError bytes :=
  match l with
  | [] => Ok []
  | chunk :: rest => let* out := decode_chunk chunk in let* more := decode_chunks rest in Ok (out ++ more)
  end.
(** offer.rs 631-674 [base64url_decode] *)
Definition base64url_decode (text : bytes) : result OfferError bytes :=
  if len text mod 4 =? 1 then Err Encoding else decode_chunks (chunks 4 text).

(** ** The ticket *)
(** offer.rs 489-497 [Ticket] *)
Record Ticket : Type := mkTicket {
  ticket_version : Z;
  tk_transfer_id : bytes;
  tk_manifest_commitment : bytes;
  provider_addresses : list ProviderAddress;
  capability_token : bytes;
  tk_expires_at : Z;
  tk_route_profile : Z
}.
(** offer.rs 500-521 [Ticket::encode] *)
Definition write_ticket {E} (t : Ticket) : Writer.t -> result E Writer.t :=
  write_map 7 [
    MapWriter.uint 0 (ticket_version t);
    MapWriter.bytes 1 (tk_transfer_id t);
    MapWriter.bytes 2 (tk_manifest_commitment t);
    MapWriter.nested 3 (write_providers (provider_addresses t));
    MapWriter.bytes 4 (capability_token t);
    MapWriter.uint 5 (tk_expires_at t);
    MapWriter.uint 6 (tk_route_profile t)].
(** offer.rs 500-521 [Ticket::encode] *)
Definition encode_ticket {E} (t : Ticket) : result E bytes :=
  let* w := write_ticket t Writer.new in
  Ok (Writer.into_bytes w).
(** offer.rs 525-567 [Ticket::decode] *)
Definition read_ticket : M Reader.t OfferError Ticket :=
  in_map (
    expect 0 ;;; version <- get Reader.uint ;;
    guard (version =? TICKET_VERSION) UnsupportedVersion ;;;
    expect 1 ;;; transfer_id <- get (Reader.bytes_exact 32) ;;
    expect 2 ;;; commitment <- get (Reader.bytes_exact 32) ;;
    expect 3 ;;; count <- get Reader.array ;;
    guard (negb ((count =? 0) || (MAX_PROVIDERS <? count))) TooManyProviders ;;;
    addresses <- get (repeat_m (Z.to_nat count) read_provider) ;;
    get Reader.leave ;;;
    expect 4 ;;; token <- get Reader.bytes ;;
    expect 5 ;;; expires_at <- get Reader.uint ;;
    expect 6 ;;; route <- get Reader.uint ;;
    guard (negb (3 <? route)) Encoding ;;;
    no_more Encoding ;;;
    ret (mkTicket version transfer_id commitment addresses token expires_at route)).
(** offer.rs 523-579 [Ticket::decode] *)
Definition decode_ticket (b : bytes) : result OfferError Ticket := decode_all b read_ticket.
(** offer.rs 582-584 [Ticket::to_uri] *)
Definition to_uri {E} (t : Ticket) : result E bytes :=
  let* b := encode_ticket t in
  Ok (TICKET_SCHEME ++ base64url_encode b).
(** [str::strip_prefix] *)
Definition strip_prefix (prefix l : bytes) : option bytes :=
  if bytes_eqb (take (length prefix) l) prefix then Some (drop (length prefix) l) else None.
(** offer.rs 586-595 [Ticket::from_uri] *)
Definition from_uri (uri : bytes) : result OfferError Ticket :=
  if MAX_TICKET_LEN <? len uri then Err ValueTooLong else
  match strip_prefix TICKET_SCHEME uri with
  | Some body => let* b := base64url_decode body in decode_ticket b
  | None => Err Encoding
  end.
(** offer.rs 598-603 [Ticket::check_fresh] *)
Definition check_fresh (t : Ticket) (now : Z) : result OfferError unit :=
  if tk_expires_at t <=? now then Err Expired else Ok tt.

(** ** The arithmetic of one group *)
Lemma lor_add k x y : 0 <= k -> x mod 2 ^ k = 0 -> 0 <= y < 2 ^ k -> Z.lor x y = x + y.
Proof.
  intros Hk Hx Hy. symmetry. apply Z.add_nocarry_lor.
  rewrite <- (Z.mod_small y (2 ^ k)), <- Z.land_ones, (Z.land_comm y), Z.land_assoc, Z.land_ones, Hx by lia. apply Z.land_0_l.
Qed.
Definition sextet (v : Z) : Prop := 0 <= v < 64.
Lemma symbol_mod n : symbol n = nth (Z.to_nat (n mod 64)) B64_ALPHABET 0.
Proof. unfold symbol. change 63 with (Z.ones 6). by rewrite Z.land_ones. Qed.
Lemma below_table n (f : Z -> bool) x : forallb f (map Z.of_nat (seq 0 n)) = true -> 0 <= x < Z.of_nat n -> f x = true.
Proof.
  intros H Hx. rewrite forallb_forall in H. apply H. rewrite in_map_iff. exists (Z.to_nat x). split; [lia|].
  apply in_seq. lia.
Qed.
Lemma symbol_value_symbol v : sextet v -> symbol_value (symbol v) = Some v.
Proof.
  intros Hv. pose proof (below_table 64 (fun v => bool_decide (symbol_value (symbol v) = Some v)) v) as H.
  apply (bool_decide_eq_true_1 _). apply H; [vm_compute; reflexivity|exact Hv].
Qed.
Lemma symbol_value_inv c v : symbol_value c = Some v -> sextet v /\ symbol v = c.
Proof.
  intros H. assert (Hc : 0 <= c < 128).
  { unfold symbol_value in H. repeat case_match; try done; lia. }
  pose proof (below_table 128 (fun c => match symbol_value c with Some v => (0 <=? v) && (v <? 64) && (symbol v =? c) | None => true end) c)
    as Ht. cbv beta in Ht. rewrite H in Ht. specialize (Ht ltac:(vm_compute; reflexivity) Hc). unfold sextet. lia.
Qed.
Lemma symbol_mod_value n : symbol_value (symbol n) = Some (n mod 64).
Proof.
  rewrite <- (symbol_value_symbol (n mod 64)) by (unfold sextet; dlia). f_equal. by rewrite !symbol_mod, Z.mod_mod.
Qed.

(** The bits of a group, gathered. *)
Definition group (b0 b1 b2 : Z) : Z := b0 * 65536 + b1 * 256 + b2.
Lemma group_eq b0 b1 b2 : is_byte b0 -> is_byte b1 -> is_byte b2 ->
  Z.lor (Z.lor (Z.shiftl b0 16) (Z.shiftl b1 8)) b2 = group b0 b1 b2.
Proof.
  unfold is_byte, group. intros. rewrite !Z.shiftl_mul_pow2 by dlia. rewrite (lor_add 16 (b0 * _)) by dlia. rewrite (lor_add 8) by dlia. lia.
Qed.
Lemma gather_eq c v rest i n : symbol_value c = Some v -> 0 <= i <= 3 -> n mod 2 ^ (24 - 6 * i) = 0 ->
  gather (c :: rest) i n = gather rest (i + 1) (n + v * 2 ^ (18 - 6 * i)).
Proof.
  intros Hc Hi Hn. cbn [gather]. rewrite Hc. f_equal. apply symbol_value_inv in Hc as [Hv _]. unfold sextet in Hv.
  rewrite Z.shiftl_mul_pow2 by dlia. apply (lor_add (24 - 6 * i)); [lia|done|].
  replace (24 - 6 * i) with (6 + (18 - 6 * i)) by dlia. rewrite Z.pow_add_r by dlia.
  pose proof (Z.pow_pos_nonneg 2 (18 - 6 * i)). nia.
Qed.
Lemma gather2 c0 c1 v0 v1 : symbol_value c0 = Some v0 -> symbol_value c1 = Some v1 ->
  gather [c0; c1] 0 0 = Ok (v0 * 262144 + v1 * 4096).
Proof.
  intros H0 H1. rewrite (gather_eq c0 v0), (gather_eq c1 v1) by first [done|dlia]. cbn [gather]. f_equal; dlia.
Qed.
Lemma gather3 c0 c1 c2 v0 v1 v2 : symbol_value c0 = Some v0 -> symbol_value c1 = Some v1 -> symbol_value c2 = Some v2 ->
  gather [c0; c1; c2] 0 0 = Ok (v0 * 262144 + v1 * 4096 + v2 * 64).
Proof.
  intros H0 H1 H2. rewrite (gather_eq c0 v0), (gather_eq c1 v1), (gather_eq c2 v2) by first [done|dlia]. cbn [gather]. f_equal; dlia.
Qed.
Lemma gather4 c0 c1 c2 c3 v0 v1 v2 v3 : symbol_value c0 = Some v0 -> symbol_value c1 = Some v1 -> symbol_value c2 = Some v2 ->
  symbol_value c3 = Some v3 -> gather [c0; c1; c2; c3] 0 0 = Ok (v0 * 262144 + v1 * 4096 + v2 * 64 + v3).
Proof.
  intros H0 H1 H2 H3. rewrite (gather_eq c0 v0), (gather_eq c1 v1), (gather_eq c2 v2), (gather_eq c3 v3) by first [done|dlia].
  cbn [gather]. f_equal; dlia.
Qed.
Lemma gather_ok l i n m : gather l i n = Ok m -> Forall (fun c => exists v, symbol_value c = Some v /\ sextet v /\ symbol v = c) l.
Proof.
  revert i n. induction l as [|c l IH]; intros i n H; [constructor|]. cbn [gather] in H.
  destruct (symbol_value c) as [v|] eqn:Hv; [|done]. constructor; [|by eapply IH]. exists v. split; [done|]. by apply symbol_value_inv.
Qed.

Lemma encode_chunk3 b0 b1 b2 : is_byte b0 -> is_byte b1 -> is_byte b2 -> encode_chunk [b0; b1; b2] =
  [symbol (group b0 b1 b2 / 262144); symbol (group b0 b1 b2 / 4096); symbol (group b0 b1 b2 / 64); symbol (group b0 b1 b2)].
Proof. intros. unfold encode_chunk. cbn [nth]. rewrite group_eq, !Z.shiftr_div_pow2 by first [done|dlia]. reflexivity. Qed.
Lemma encode_chunk2 b0 b1 : is_byte b0 -> is_byte b1 -> encode_chunk [b0; b1] =
  [symbol (group b0 b1 0 / 262144); symbol (group b0 b1 0 / 4096); symbol (group b0 b1 0 / 64)].
Proof. intros. unfold encode_chunk. cbn [nth]. rewrite group_eq, !Z.shiftr_div_pow2 by first [done|dlia]. reflexivity. Qed.
Lemma encode_chunk1 b0 : is_byte b0 -> encode_chunk [b0] =
  [symbol (group b0 0 0 / 262144); symbol (group b0 0 0 / 4096)].
Proof. intros. unfold encode_chunk. cbn [nth]. rewrite group_eq, !Z.shiftr_div_pow2 by first [done|dlia]. reflexivity. Qed.

Ltac unfold_decode :=
  unfold decode_chunk; match goal with H : gather _ _ _ = _ |- _ => rewrite H end; cbn [rbind];
  rewrite !Z.shiftr_div_pow2 by dlia; unfold wrap.
Lemma decode_chunk4 l n : len l = 4 -> gather l 0 0 = Ok n ->
  decode_chunk l = Ok [n / 65536 mod 256; n / 256 mod 256; n mod 256].
Proof. intros Hl H. unfold_decode. rewrite Hl. reflexivity. Qed.
Lemma decode_chunk3 l n : len l = 3 -> gather l 0 0 = Ok n ->
  decode_chunk l = if n mod 256 =? 0 then Ok [n / 65536 mod 256; n / 256 mod 256] else Err Encoding.
Proof.
  intros Hl H. unfold_decode. rewrite Hl. change (Z.shiftl 1 _ - 1) with (Z.ones 8). rewrite Z.land_ones by dlia.
  change (2 ^ 8) with 256. by destruct (n mod 256 =? 0).
Qed.
Lemma decode_chunk2 l n : len l = 2 -> gather l 0 0 = Ok n ->
  decode_chunk l = if n mod 65536 =? 0 then Ok [n / 65536 mod 256] else Err Encoding.
Proof.
  intros Hl H. unfold_decode. rewrite Hl. change (Z.shiftl 1 _ - 1) with (Z.ones 16). rewrite Z.land_ones by dlia.
  change (2 ^ 16) with 65536. by destruct (n mod 65536 =? 0).
Qed.

(** A group of one to three bytes, and the two to four characters for it. *)
Lemma group_roundtrip l : bytes_ok l -> 0 < len l <= 3 -> decode_chunk (encode_chunk l) = Ok l.
Proof.
  intros Hok Hl. destruct l as [|b0 [|b1 [|b2 [|b3 l]]]]; [unfold len in Hl; cbn in Hl; lia|..|rewrite !len_cons in Hl; pose proof (len_nonneg l); lia];
    repeat (apply bytes_ok_cons in Hok as [? Hok]); unfold is_byte in *.
  - rewrite encode_chunk1 by done. erewrite decode_chunk2; [|done|apply gather2; apply symbol_mod_value].
    unfold group. rewrite (proj2 (Z.eqb_eq _ 0)) by dlia. f_equal. f_equal. dlia.
  - rewrite encode_chunk2 by done. erewrite decode_chunk3; [|done|apply gather3; apply symbol_mod_value].
    unfold group. rewrite (proj2 (Z.eqb_eq _ 0)) by dlia. f_equal. f_equal; [dlia|]. f_equal. dlia.
  - rewrite encode_chunk3 by done. erewrite decode_chunk4; [|done|apply gather4; apply symbol_mod_value].
    unfold group. f_equal. f_equal; [dlia|]. f_equal; [dlia|]. f_equal. dlia.
Qed.
Lemma symbol_of v c n : symbol v = c -> n mod 64 = v -> symbol n = c.
Proof. intros <- <-. by rewrite !symbol_mod, Z.mod_mod. Qed.
Lemma group_canonical l out : len l <> 1 -> 0 < len l <= 4 -> decode_chunk l = Ok out ->
  bytes_ok out /\ len out = len l - 1 /\ encode_chunk out = l.
Proof.
  intros H1 Hl H. destruct (gather l 0 0) as [n|e|] eqn:Hg; [|unfold decode_chunk in H; rewrite Hg in H; done..].
  pose proof (gather_ok _ _ _ _ Hg) as Hf.
  destruct l as [|c0 [|c1 [|c2 [|c3 [|c4 l]]]]]; [unfold len in Hl; cbn in Hl; lia|by destruct H1|..|rewrite !len_cons in Hl; pose proof (len_nonneg l); lia];
    repeat (apply Forall_cons in Hf as [(? & ? & ? & ?) Hf]); unfold sextet in *.
  - erewrite gather2 in Hg by done. apply Ok_inj in Hg as <-. erewrite decode_chunk2 in H; [|done|by apply gather2].
    destruct (Z.eqb_spec ((x * 262144 + x0 * 4096) mod 65536) 0) as [He|]; [|done]. apply Ok_inj in H as <-.
    split; [repeat constructor; dlia|]. split; [done|]. rewrite encode_chunk1 by (unfold is_byte; dlia). unfold group.
    f_equal; [|f_equal]; (eapply symbol_of; [done|dlia]).
  - erewrite gather3 in Hg by done. apply Ok_inj in Hg as <-. erewrite decode_chunk3 in H; [|done|by apply gather3].
    destruct (Z.eqb_spec ((x * 262144 + x0 * 4096 + x1 * 64) mod 256) 0) as [He|]; [|done]. apply Ok_inj in H as <-.
    split; [repeat constructor; dlia|]. split; [done|]. rewrite encode_chunk2 by (unfold is_byte; dlia). unfold group.
    f_equal; [|f_equal; [|f_equal]]; (eapply symbol_of; [done|dlia]).
  - erewrite gather4 in Hg by done. apply Ok_inj in Hg as <-. erewrite decode_chunk4 in H; [|done|by apply gather4].
    apply Ok_inj in H as <-.
    split; [repeat constructor; dlia|]. split; [done|]. rewrite encode_chunk3 by (unfold is_byte; dlia). unfold group.
    f_equal; [|f_equal; [|f_equal; [|f_equal]]]; (eapply symbol_of; [done|dlia]).
Qed.

(** ** Whole strings *)
Lemma chunks_cons n a l : (0 < n)%nat -> length a = n -> chunks n (a ++ l) = a :: chunks n l.
Proof.
  intros Hn Ha. assert (Hf : forall k f l, (length l <= k)%nat -> (length l <= f)%nat -> chunks_upto f n l = chunks_upto k n l).
  { clear a Ha l. induction k as [|k IH]; intros f l Hk Hf; destruct l as [|x l]; cbn [length] in *; [by destruct f|lia|by destruct f|].
    destruct f as [|f]; [lia|]. cbn [chunks_upto]. f_equal.
    assert (Hd : (length (drop n (x :: l)) <= length l)%nat) by (rewrite length_drop; cbn [length]; lia).
    apply IH; lia. }
  destruct a as [|x a]; [cbn in Ha; lia|]. unfold chunks at 1. cbn [app length chunks_upto].
  rewrite app_comm_cons, take_app_length', drop_app_length' by done. f_equal. apply Hf; [done|]. rewrite length_app. lia.
Qed.
Lemma chunks_last n a : a <> [] -> (length a <= n)%nat -> chunks n a = [a].
Proof.
  intros Hne Ha. destruct a as [|x a]; [done|]. unfold chunks. cbn [length chunks_upto].
  rewrite take_ge, drop_ge by done. by destruct (length a).
Qed.

(** Induction over the groups of [n] bytes from the front. *)
Lemma groups_ind n (Q : bytes -> Prop) : (0 < n)%nat -> (forall a, (length a < n)%nat -> Q a) ->
  (forall a l, length a = n -> Q l -> Q (a ++ l)) -> forall l, Q l.
Proof.
  intros Hn Hs Hg l. remember (length l) as k eqn:Hk. revert l Hk. induction (lt_wf k) as [k _ IH]. intros l ->.
  destruct (decide (length l < n)%nat) as [|Hl]; [by apply Hs|]. rewrite <- (take_drop n l).
  apply Hg; [rewrite length_take; lia|]. apply (IH (length (drop n l))); [rewrite length_drop; lia|done].
Qed.
Lemma encode_app a l : length a = 3%nat -> base64url_encode (a ++ l) = encode_chunk a ++ base64url_encode l.
Proof. intros Ha. unfold base64url_encode. by rewrite chunks_cons by (done || lia). Qed.
Lemma encode_last a : a <> [] -> (length a <= 3)%nat -> base64url_encode a = encode_chunk a.
Proof. intros Hne Ha. unfold base64url_encode. rewrite chunks_last by done. cbn [map concat]. by rewrite app_nil_r. Qed.
Lemma encode_chunk_len a : 0 < len a <= 3 -> len (encode_chunk a) = len a + 1.
Proof.
  intros Ha. unfold encode_chunk. rewrite !len_app. destruct (Z.ltb_spec 1 (len a)), (Z.ltb_spec 2 (len a)); unfold len in *; cbn [length]; lia.
Qed.
Lemma base64_encoded data : bytes_ok data ->
  decode_chunks (chunks 4 (base64url_encode data)) = Ok data /\ len (base64url_encode data) mod 4 <> 1.
Proof.
  revert data. apply (groups_ind 3 (fun data => bytes_ok data ->
    decode_chunks (chunks 4 (base64url_encode data)) = Ok data /\ len (base64url_encode data) mod 4 <> 1)); [lia|..].
  - intros [|b a] Ha Hok; [split; [reflexivity|vm_compute; discriminate]|]. rewrite encode_last by first [done|lia].
    assert (Hl : 0 < len (b :: a) <= 2) by (unfold len; cbn [length] in *; lia).
    pose proof (encode_chunk_len (b :: a) ltac:(lia)) as He.
    rewrite chunks_last; [|intros H0; rewrite H0 in He; unfold len in He, Hl; cbn [length] in *; lia|unfold len in *; lia].
    cbn [decode_chunks]. rewrite group_roundtrip by first [done|lia]. cbn [rbind]. rewrite app_nil_r. split; [done|dlia].
  - intros a l Ha IH [Hok Hok']%bytes_ok_app. destruct (IH Hok') as [IH1 IH2]. rewrite encode_app by done.
    assert (Hl : len a = 3) by (unfold len; lia). pose proof (encode_chunk_len a ltac:(lia)) as He.
    rewrite chunks_cons by (unfold len in *; lia). cbn [decode_chunks]. rewrite group_roundtrip, IH1 by first [done|lia].
    split; [done|]. rewrite len_app. dlia.
Qed.
Lemma base64_canonical text out : len text mod 4 <> 1 -> decode_chunks (chunks 4 text) = Ok out ->
  bytes_ok out /\ base64url_encode out = text.
Proof.
  revert text out. apply (groups_ind 4 (fun text => forall out, len text mod 4 <> 1 -> decode_chunks (chunks 4 text) = Ok out ->
    bytes_ok out /\ base64url_encode out = text)); [lia|..].
  - intros [|c a] Ha out Hm H; [apply Ok_inj in H as <-; split; [constructor|reflexivity]|].
    assert (Hl : 0 < len (c :: a) <= 3) by (unfold len; cbn [length] in *; lia).
    rewrite chunks_last in H by first [done|lia]. cbn [decode_chunks] in H. minv H. apply Ok_inj in Hk as <-. rewrite app_nil_r.
    apply group_canonical in Hp as (Hok & Hn & He); [|intros H1; rewrite H1 in Hm; done|lia].
    split; [done|]. rewrite encode_last; [done|intros ->; unfold len in *; cbn [length] in *; dlia|unfold len in *; lia].
  - intros a l Ha IH out Hm H. assert (Hl : len a = 4) by (unfold len; lia).
    rewrite chunks_cons in H by first [done|lia]. cbn [decode_chunks] in H. minv H. minv Hk. apply Ok_inj in Hk0 as <-.
    apply group_canonical in Hp as (Hok & Hn & He); [|lia..].
    apply IH in Hp0 as [Hok' He']; [|rewrite len_app in Hm; dlia].
    split; [by apply bytes_ok_app|]. rewrite encode_app by (unfold len in *; lia). by rewrite He, He'.
Qed.
(** Decoding inverts encoding, and accepts nothing else. *)
Lemma base64url_decode_iff text data : base64url_decode text = Ok data <-> bytes_ok data /\ base64url_encode data = text.
Proof.
  unfold base64url_decode. split.
  - destruct (Z.eqb_spec (len text mod 4) 1); [done|]. by apply base64_canonical.
  - intros [Hok <-]. destruct (base64_encoded data Hok) as [Hd Hm]. by destruct (Z.eqb_spec (len (base64url_encode data) mod 4) 1).
Qed.

(** ** The ticket on the wire *)
Definition ticket_value (t : Ticket) : value :=
  VMap [(0, VUint (ticket_version t)); (1, VBytes (tk_transfer_id t)); (2, VBytes (tk_manifest_commitment t));
    (3, VArray (map provider_value (provider_addresses t))); (4, VBytes (capability_token t)); (5, VUint (tk_expires_at t));
    (6, VUint (tk_route_profile t))].
(** What a ticket that can be read has. *)
Definition ticket_wf (t : Ticket) : Prop :=
  ticket_version t = TICKET_VERSION /\ array 32 (tk_transfer_id t) /\ array 32 (tk_manifest_commitment t) /\
  Forall provider_wf (provider_addresses t) /\ 1 <= len (provider_addresses t) <= MAX_PROVIDERS /\
  byte_string (capability_token t) /\ u64 (tk_expires_at t) /\ 0 <= tk_route_profile t <= 3.

#[export] Instance ticket_codec : codec 3 read_ticket ticket_value ticket_wf.
Proof.
  split.
  - intros pre tl d [v tid c ps tok ex rp] (H1 & H2 & H3 & H4 & H5 & H6 & H7 & H8) Hd Hd'. unfold read_ticket, ticket_value;
      cbn [ticket_version tk_transfer_id tk_manifest_commitment provider_addresses capability_token tk_expires_at tk_route_profile] in *.
    subst v. assert (Hg1 : (TICKET_VERSION =? TICKET_VERSION) = true) by done.
    assert (Hg2 : negb ((len (map provider_value ps) =? 0) || (MAX_PROVIDERS <? len (map provider_value ps))) = true)
      by (rewrite len_map; lia).
    assert (u64 (len (map provider_value ps))) by (rewrite len_map; unfold MAX_PROVIDERS, uint_range in *; lia).
    assert (Hg3 : negb (3 <? rp) = true) by lia. assert (u64 TICKET_VERSION) by by split.
    assert (u64 rp) by (unfold uint_range; lia). wforward.
  - intros pre rest d x r Hok Hd H. unfold read_ticket in H. wbackward H. wcounts. unfold ticket_value;
      cbn [ticket_version tk_transfer_id tk_manifest_commitment provider_addresses capability_token tk_expires_at tk_route_profile].
    wfinish. unfold ticket_wf;
      cbn [ticket_version tk_transfer_id tk_manifest_commitment provider_addresses capability_token tk_expires_at tk_route_profile].
    pose proof (len_nonneg x10). unfold uint_range in *. split_and!; try done; lia.
Qed.
Lemma encode_ticket_eq {E} t : encode_ticket (E := E) t = Ok (cbor (ticket_value t)).
Proof.
  unfold encode_ticket. assert (H : emits (E := E) (write_ticket t) (ticket_value t)) by (unfold write_ticket, ticket_value; wemit).
  by rewrite H.
Qed.
Lemma ticket_value_ok t : ticket_wf t -> value_ok (ticket_value t).
Proof.
  intros (H1 & H2 & H3 & H4 & H5 & H6 & H7 & H8). apply providers_value_ok in H4; [|lia].
  assert (u64 (ticket_version t)) by (rewrite H1; by split). assert (u64 (tk_route_profile t)) by (unfold uint_range; lia).
  unfold ticket_value. vok.
Qed.
Lemma encode_len data : len data <= len (base64url_encode data).
Proof.
  revert data. apply (groups_ind 3 (fun data => len data <= len (base64url_encode data))); [lia|..].
  - intros [|b a] Ha; [done|]. rewrite encode_last by first [done|lia].
    rewrite encode_chunk_len; [lia|]. unfold len; cbn [length] in *; lia.
  - intros a l Ha IH. rewrite encode_app by done. rewrite !len_app, encode_chunk_len; unfold len in *; lia.
Qed.
Lemma strip_prefix_iff p l rest : strip_prefix p l = Some rest <-> l = p ++ rest.
Proof.
  unfold strip_prefix. split.
  - destruct (bytes_eqb _ _) eqn:E; [|done]. intros [= <-]. apply bytes_eqb_true in E. rewrite <- E at 1. by rewrite take_drop.
  - intros ->. by rewrite take_app_length, bytes_eqb_refl, drop_app_length.
Qed.

(** C14: A ticket has exactly one link: reading a URI succeeds precisely on what
    [to_uri] writes for a ticket of the current version, with one to 32
    providers of at most 512 bytes each and a known route profile, when that
    is at most 8192 bytes long; no second spelling of a ticket is accepted,
    and a longer one cannot be read back. *)
Theorem ticket_uri_exact uri t : from_uri uri = Ok t <->
  to_uri (E := OfferError) t = Ok uri /\ ticket_wf t /\ len uri <= MAX_TICKET_LEN.
Proof.
  unfold from_uri, to_uri. rewrite encode_ticket_eq. cbn [rbind]. split.
  - destruct (Z.ltb_spec MAX_TICKET_LEN (len uri)); [done|]. destruct (strip_prefix _ _) as [body|] eqn:Hs; [|done].
    apply strip_prefix_iff in Hs as ->. intros H0. minv H0. apply base64url_decode_iff in Hp as [Hok <-].
    unfold decode_ticket in Hk. apply (decode_message_inv a) in Hk as [-> Hw]; [|done]. done.
  - intros (Hu & Hw & Hl). apply Ok_inj in Hu as <-.
    destruct (Z.ltb_spec MAX_TICKET_LEN (len (TICKET_SCHEME ++ base64url_encode (cbor (ticket_value t))))); [lia|].
    rewrite (proj2 (strip_prefix_iff _ _ _) eq_refl).
    rewrite (proj2 (base64url_decode_iff _ (cbor (ticket_value t)))) by (split; [by apply cbor_bytes_ok, ticket_value_ok|done]).
    cbn [rbind]. unfold decode_ticket. apply decode_message; [done|done|].
    rewrite len_app in Hl. pose proof (encode_len (cbor (ticket_value t))). pose proof (len_nonneg TICKET_SCHEME).
    unfold MAX_TICKET_LEN, MAX_CONTROL_SIZE in *. lia.
Qed.

(** ** Concrete tickets *)
Module TicketWitness.
Definition ticket1 : Ticket := mkTicket 1 (replicate 32 1) (replicate 32 2) [mkProvider 1 (lit "relay-address")] (replicate 64 9) 1234 1.
(** The vectors of RFC 4648. *)
Example rfc4648 : map base64url_encode [[]; lit "f"; lit "fo"; lit "foo"; lit "foob"; lit "fooba"; lit "foobar"] =
  [[]; lit "Zg"; lit "Zm8"; lit "Zm9v"; lit "Zm9vYg"; lit "Zm9vYmE"; lit "Zm9vYmFy"].
Proof. reflexivity. Qed.
Example malformed : map base64url_decode [lit "Zg=="; lit "Z"; lit "Zm9v!"; lit "Zm+v"; lit "Zh"] =
  replicate 5 (Err Encoding).
Proof. reflexivity. Qed.
Example ticket1_read : (let* u := to_uri ticket1 in from_uri u) = Ok ticket1.
Proof. vm_compute. reflexivity. Qed.
Example ticket1_expires : map (check_fresh ticket1) [1233; 1234] = [Ok tt; Err Expired].
Proof. reflexivity. Qed.
End TicketWitness.
