(* ===== verification/Scheduler.v ===== *)
(** * The range scheduler (scheduler.rs)

    Bitmap and link quality in, range requests out. *)

From S2P Require Import Bitmap Prelude Cbor Wire.

(** scheduler.rs 16-23 [Priority] *)
Inductive Priority : Type :=
| CriticalMetadata | FirstRender | UserVisibleNext | PrioritySequential | Background | Repair.

(** [priority as u64] *)
Definition priority_u64 (p : Priority) : Z :=
  match p with
  | CriticalMetadata => 0 | FirstRender => 1 | UserVisibleNext => 2
  | PrioritySequential => 3 | Background => 4 | Repair => 5
  end.
(** scheduler.rs 26-36 [Priority::from_u64] *)
Definition from_u64 (v : Z) : option Priority :=
  match v with
  | 0 => Some CriticalMetadata | 1 => Some FirstRender | 2 => Some UserVisibleNext
  | 3 => Some PrioritySequential | 4 => Some Background | 5 => Some Repair
  | _ => None
  end.

(** scheduler.rs 41-46 [ChunkOrder] *)
Inductive ChunkOrder : Type := OrderSequential | Scattered.
Definition order_u64 (o : ChunkOrder) : Z := match o with OrderSequential => 0 | Scattered => 1 end.

(** scheduler.rs 49-55 [SchedulerError] *)
Inductive SchedulerError : Type :=
| Encoding
| TooManyRanges
| UnsortedOrOverlapping
| EmptyRange
| OutOfRange.
(** scheduler.rs 57-61 [From] *)
#[export] Instance sched_from_cbor : From CborError SchedulerError := fun _ => Encoding.

(** scheduler.rs 68-77 [RangeRequest] *)
Record RangeRequest : Type := mkRequest {
  rr_transfer_id : bytes;
  rr_object_id : bytes;
  priority_class : Z;
  ranges : list (Z * Z);
  max_bytes : Z;
  preferred_chunk_order : Z;
  durable_ack_generation : Z
}.

(** The loop of [validate]; [previous] is [None] for the first range. *)
Fixpoint validate_ranges (count : Z) (previous : option Z) (rs : list (Z * Z))
  : result SchedulerError unit :=
  match rs with
  | [] => Ok tt
  | (start, stop) :: rs' =>
    if stop <=? start then Err EmptyRange else
    if count <? stop then Err OutOfRange else
    if (match previous with Some p => start <=? p | None => false end)
    then Err UnsortedOrOverlapping
    else validate_ranges count (Some stop) rs'
  end.
(** scheduler.rs 83-103 [RangeRequest::validate] *)
Definition validate (r : RangeRequest) (count : Z) : result SchedulerError unit :=
  if MAX_RANGES_PER_REQUEST <? len (ranges r) then Err TooManyRanges
  else validate_ranges count None (ranges r).

(** One [\[start, end\]] pair. *)
Definition write_range {E} (r : Z * Z) (w : Writer.t) : result E Writer.t :=
  Ok (Writer.uint r.2 (Writer.uint r.1 (Writer.array 2 w))).
(** scheduler.rs 105-125 [RangeRequest::encode] *)
Definition encode {E} (r : RangeRequest) : result E bytes :=
  let* w := write_map 7 [
    MapWriter.bytes 0 (rr_transfer_id r);
    MapWriter.bytes 1 (rr_object_id r);
    MapWriter.uint 2 (priority_class r);
    MapWriter.nested 3 (fun w => write_each write_range (ranges r) (Writer.array (len (ranges r)) w));
    MapWriter.uint 4 (max_bytes r);
    MapWriter.uint 5 (preferred_chunk_order r);
    MapWriter.uint 6 (durable_ack_generation r)] Writer.new in
  Ok (Writer.into_bytes w).

(** scheduler.rs 142-150 [RangeRequest::decode] *)
Definition read_range : M Reader.t SchedulerError (Z * Z) :=
  n <- q Reader.array ;;
  guard (n =? 2) Encoding ;;;
  start <- q Reader.uint ;;
  stop <- q Reader.uint ;;
  Reader.leave ;;;
  ret (start, stop).

(** scheduler.rs 128-162 [RangeRequest::decode] *)
Definition read_request : M Reader.t SchedulerError RangeRequest :=
  in_map (
    expect 0 ;;; transfer_id <- get (Reader.bytes_exact 32) ;;
    expect 1 ;;; object_id <- get (Reader.bytes_exact 32) ;;
    expect 2 ;;; priority <- get Reader.uint ;;
    expect 3 ;;; count <- get Reader.array ;;
    guard (count <=? MAX_RANGES_PER_REQUEST) TooManyRanges ;;;
    rs <- get (repeat_m (Z.to_nat count) read_range) ;;
    get Reader.leave ;;;
    expect 4 ;;; mb <- get Reader.uint ;;
    expect 5 ;;; order <- get Reader.uint ;;
    expect 6 ;;; gen <- get Reader.uint ;;
    no_more Encoding ;;;
    ret (mkRequest transfer_id object_id priority rs mb order gen)).

(** scheduler.rs 127-174 [RangeRequest::decode] *)
Definition decode (b : bytes) (count : Z) : result SchedulerError RangeRequest :=
  let* r := decode_all b read_request in
  let* _ := validate r count in
  Ok r.

(** [ranges.iter().map(|(s, e)| e - s).sum()] *)
Definition span_sum (rs : list (Z * Z)) : Z := foldr Z.add 0 (map (fun r => r.2 - r.1) rs).
(** scheduler.rs 177-179 [RangeRequest::chunk_total] *)
Definition chunk_total (r : RangeRequest) : Z := wrap 64 (span_sum (ranges r)).

(** scheduler.rs 189-195 [NetworkQuality] *)
Record NetworkQuality : Type := mkQuality {
  rtt_ms : Z;
  rtt_variance_ms : Z;
  loss_permille : Z;
  storage_is_bottleneck : bool;
  thermal_pressure : bool
}.
(** scheduler.rs 198-206 [NetworkQuality::default] *)
Definition default_quality : NetworkQuality := mkQuality 80 10 0 false false.

(** scheduler.rs 210-233 [recommended_streams] *)
Definition recommended_streams (q : NetworkQuality) : Z :=
  let base := if (20 <=? loss_permille q) || (400 <=? rtt_ms q) then 1
              else if 150 <=? rtt_ms q then 2
              else if 40 <=? rtt_ms q then 4
              else 8 in
  let s1 := if Z.max (rtt_ms q) 1 <=? wrap 32 (rtt_variance_ms q * 2) then div_ceil base 2 else base in
  let s2 := if thermal_pressure q then div_ceil s1 2 else s1 in
  let s3 := if storage_is_bottleneck q then div_ceil s2 2 else s2 in
  Z.max s3 1.

(** scheduler.rs 237-247 [recommended_chunk_size] *)
Definition recommended_chunk_size (q : NetworkQuality) : Z :=
  if (20 <=? loss_permille q) || (400 <=? rtt_ms q) then 64 * 1024
  else if 150 <=? rtt_ms q then 256 * 1024
  else if 40 <=? rtt_ms q then 1024 * 1024
  else 4 * 1024 * 1024.

(** scheduler.rs 256-259 [InterestRegion] *)
Record InterestRegion : Type := mkInterest { priority : Priority; range : Z * Z }.

(** scheduler.rs 261-269 [Scheduler] *)
Record Scheduler : Type := mkScheduler {
  s_transfer_id : bytes;
  s_object_id : bytes;
  s_chunk_count : Z;
  s_chunk_ciphertext_size : Z;
  interests : list InterestRegion;
  order : ChunkOrder;
  generation : Z
}.

(** scheduler.rs 272-287 [Scheduler::new] *)
Definition new_scheduler (tid oid : bytes) (count size : Z) : Scheduler :=
  mkScheduler tid oid count size [] OrderSequential 0.

(** The sort key [(priority, range.0)], compared lexicographically. *)
Definition key_leb (a b : InterestRegion) : bool :=
  let pa := priority_u64 (priority a) in
  let pb := priority_u64 (priority b) in
  (pa <? pb) || ((pa =? pb) && ((range a).1 <=? (range b).1)).
(** [slice::sort_by_key]: the stable sort. *)
Fixpoint insert_by_key (x : InterestRegion) (l : list InterestRegion) : list InterestRegion :=
  match l with
  | [] => [x]
  | y :: l' => if key_leb x y then x :: l else y :: insert_by_key x l'
  end.
Definition sort_by_key (l : list InterestRegion) : list InterestRegion := foldr insert_by_key [] l.

(** scheduler.rs 291-296 [Scheduler::add_interest] *)
Definition add_interest (p : Priority) (r : Z * Z) (s : Scheduler) : Scheduler :=
  if r.1 <? r.2 then
    mkScheduler (s_transfer_id s) (s_object_id s) (s_chunk_count s) (s_chunk_ciphertext_size s)
      (sort_by_key (interests s ++ [mkInterest p r])) (order s) (generation s)
  else s.
(** scheduler.rs 298-300 [Scheduler::set_order] *)
Definition set_order (o : ChunkOrder) (s : Scheduler) : Scheduler :=
  mkScheduler (s_transfer_id s) (s_object_id s) (s_chunk_count s) (s_chunk_ciphertext_size s)
    (interests s) o (generation s).
(** scheduler.rs 302-304 [Scheduler::set_generation] *)
Definition set_generation (g : Z) (s : Scheduler) : Scheduler :=
  mkScheduler (s_transfer_id s) (s_object_id s) (s_chunk_count s) (s_chunk_ciphertext_size s)
    (interests s) (order s) g.

(** scheduler.rs 386-395 [intersect] *)
Fixpoint intersect (rs : list (Z * Z)) (window : Z * Z) : list (Z * Z) :=
  match rs with
  | [] => []
  | (start, stop) :: rs' =>
    let s := Z.max start window.1 in
    let e := Z.min stop window.2 in
    if s <? e then (s, e) :: intersect rs' window else intersect rs' window
  end.

(** The argument [budget] is the local variable of the loop.
    scheduler.rs 398-415 [take_chunks] *)
Fixpoint take_chunks (rs : list (Z * Z)) (budget : Z) : list (Z * Z) :=
  match rs with
  | [] => []
  | (start, stop) :: rs' =>
    if budget =? 0 then [] else
    let span := stop - start in
    if span <=? budget then (start, stop) :: take_chunks rs' (budget - span)
    else (start, start + budget) :: take_chunks rs' 0
  end.

(** The loop of [take_scattered]. *)
Fixpoint scatter_loop (per_range : Z) (rs : list (Z * Z)) (budget : Z) : list (Z * Z) :=
  match rs with
  | [] => []
  | (start, stop) :: rs' =>
    if budget =? 0 then [] else
    let span := Z.min (Z.min (stop - start) per_range) budget in
    (start, start + span) :: scatter_loop per_range rs' (budget - span)
  end.
(** scheduler.rs 418-436 [take_scattered] *)
Definition take_scattered (rs : list (Z * Z)) (max_chunks : Z) : list (Z * Z) :=
  match rs with
  | [] => []
  | _ =>
    if max_chunks =? 0 then [] else
    scatter_loop (Z.max (max_chunks / len rs) 1) rs max_chunks
  end.

(** The [find_map] over the interests. *)
Fixpoint first_interest (missing : list (Z * Z)) (l : list InterestRegion)
  : option (Priority * list (Z * Z)) :=
  match l with
  | [] => None
  | i :: l' =>
    match intersect missing (range i) with
    | [] => first_interest missing l'
    | clipped => Some (priority i, clipped)
    end
  end.

(** scheduler.rs 309-356 [Scheduler::next_request] *)
Definition next_request (s : Scheduler) (have : ChunkBitmap) (quality : NetworkQuality)
  : option RangeRequest :=
  match missing_ranges have MAX_RANGES_PER_REQUEST with
  | [] => None
  | missing =>
    let '(prio, candidate) := default (PrioritySequential, missing) (first_interest missing (interests s)) in
    let streams := recommended_streams quality in
    let size := s_chunk_ciphertext_size s in
    let mb := Z.max (wrap 64 (wrap 64 (size * 8) * streams)) size in
    let max_chunks := Z.max (mb / Z.max size 1) 1 in
    match (match order s with
           | OrderSequential => take_chunks candidate max_chunks
           | Scattered => take_scattered candidate max_chunks
           end) with
    | [] => None
    | rs => Some (mkRequest (s_transfer_id s) (s_object_id s) (priority_u64 prio) rs mb
                    (order_u64 (order s)) (generation s))
    end
  end.

(** scheduler.rs 366-378 [Scheduler::full_request] *)
Definition full_request (s : Scheduler) (have : ChunkBitmap) : RangeRequest :=
  let rs := missing_ranges have MAX_RANGES_PER_REQUEST in
  let total := wrap 64 (span_sum rs) in
  mkRequest (s_transfer_id s) (s_object_id s) (priority_u64 PrioritySequential) rs
    (saturating_mul total (s_chunk_ciphertext_size s)) (order_u64 (order s)) (generation s).

(** ** The wire format of a request *)
Definition range_value (r : Z * Z) : value := VArray [VUint r.1; VUint r.2].
Definition request_value (r : RangeRequest) : value :=
  VMap [(0, VBytes (rr_transfer_id r)); (1, VBytes (rr_object_id r)); (2, VUint (priority_class r));
        (3, VArray (map range_value (ranges r))); (4, VUint (max_bytes r));
        (5, VUint (preferred_chunk_order r)); (6, VUint (durable_ack_generation r))].
Definition request_wf (r : RangeRequest) : Prop :=
  array 32 (rr_transfer_id r) /\ array 32 (rr_object_id r) /\ u64 (priority_class r) /\
  (len (ranges r) <= MAX_RANGES_PER_REQUEST /\ Forall (fun x => u64 x.1 /\ u64 x.2) (ranges r)) /\
  u64 (max_bytes r) /\ u64 (preferred_chunk_order r) /\ u64 (durable_ack_generation r).

Lemma write_range_emits {E} r : emits (write_range (E := E) r) (range_value r).
Proof.
  intros w. unfold write_range, range_value. rewrite !writer_uint. unfold Writer.array.
  rewrite header_app, cbor_array. unfold items. cbn [flat_map]. by rewrite app_nil_r, <- !app_assoc.
Qed.

Lemma encode_eq {E} r : encode (E := E) r = Ok (cbor (request_value r)).
Proof.
  unfold encode.
  assert (Hem : emits (E := E) (write_map 7 [
    MapWriter.bytes 0 (rr_transfer_id r); MapWriter.bytes 1 (rr_object_id r);
    MapWriter.uint 2 (priority_class r);
    MapWriter.nested 3 (fun w => write_each write_range (ranges r) (Writer.array (len (ranges r)) w));
    MapWriter.uint 4 (max_bytes r); MapWriter.uint 5 (preferred_chunk_order r);
    MapWriter.uint 6 (durable_ack_generation r)]) (request_value r)).
  { unfold request_value. apply write_map_emits; [|by cbn; repeat split; lia|done].
    repeat (apply List.Forall2_cons; [cbn [fst snd]; eauto with wire|]); [|apply List.Forall2_nil].
    apply writes_nested, array_emits. intros x _. apply write_range_emits. }
  by rewrite Hem.
Qed.

#[export] Instance range_codec :
  codec 1 read_range range_value (fun r => u64 r.1 /\ u64 r.2).
Proof.
  split.
  - intros pre tl d [s e] [Hs He] Hd Hd'. cbn in Hs, He. unfold read_range, range_value. cbn [fst snd].
    rewrite cbor_array. change (len [VUint s; VUint e]) with 2. unfold items. cbn [flat_map].
    rewrite app_nil_r, <- !app_assoc.
    eapply bind_ok; [apply q_fwd, array_fwd; [done|lia]|].
    eapply bind_ok; [by apply guard_ok|].
    eapply bind_ok; [apply q_fwd, (codec_fwd codec_uint); [done|lia|lia]|].
    eapply bind_ok; [apply q_fwd, (codec_fwd codec_uint); [done|lia|lia]|].
    eapply bind_ok; [apply leave_fwd; lia|]. unfold ret.
    rewrite <- !app_assoc. do 3 f_equal. lia.
  - intros pre rest d [s e] r Hok Hd H. unfold read_range in H. minv H.
    apply q_bwd, array_bwd in Hp as (tl & -> & -> & Hn & Hok' & _); [|done].
    minv Hk. minv Hp. apply Z.eqb_eq in Hg as ->. minv Hk0.
    apply q_bwd, (codec_bwd codec_uint) in Hp as (tl1 & -> & -> & Hok1 & Hs); [|done|lia].
    minv Hk. apply q_bwd, (codec_bwd codec_uint) in Hp as (tl2 & -> & -> & Hok2 & He); [|done|lia].
    minv Hk0. apply leave_bwd in Hp as [_ ->]. unfold ret in Hk. injection Hk as <- <- <-.
    exists tl2. unfold range_value. cbn [fst snd]. rewrite cbor_array. unfold items. cbn [flat_map].
    change (len [VUint a; VUint a1]) with 2. rewrite app_nil_r, <- !app_assoc.
    split_and!; try done. f_equal. lia.
Qed.

#[export] Instance request_codec : codec 3 read_request request_value request_wf.
Proof.
  split.
  - intros pre tl d [tid oid p rs mb o g] (H1 & H2 & H3 & [H4 H5] & H6 & H7 & H8) Hd Hd'.
    unfold read_request, request_value;
      cbn [rr_transfer_id rr_object_id priority_class ranges max_bytes preferred_chunk_order
           durable_ack_generation] in *.
    assert (Hu : u64 (len (map range_value rs))).
    { rewrite len_map. unfold MAX_RANGES_PER_REQUEST in H4. pose proof (len_nonneg rs). split; lia. }
    assert (Hg : (len (map range_value rs) <=? MAX_RANGES_PER_REQUEST) = true).
    { rewrite len_map. by apply Z.leb_le. }
    wforward.
  - intros pre rest d x r Hok Hd H. unfold read_request in H. wbackward H. unfold request_value;
      cbn [rr_transfer_id rr_object_id priority_class ranges max_bytes preferred_chunk_order
           durable_ack_generation].
    wfinish. apply Z.leb_le in Hg. split_and!; done.
Qed.

(** ** Validation *)
Lemma validate_ranges_spec count prev rs :
  validate_ranges count prev rs = Ok tt <->
  match rs with
  | [] => True
  | (s, e) :: rs' => match prev with Some p => p + 1 <= s | None => True end /\
      s < e <= count /\ separated (e + 1) count rs'
  end.
Proof.
  revert prev. induction rs as [|[s e] rs IH]; intros prev; [done|]. cbn [validate_ranges].
  destruct (Z.leb_spec e s); [split; [done|lia]|].
  destruct (Z.ltb_spec count e); [split; [done|lia]|].
  assert (Hrest : validate_ranges count (Some e) rs = Ok tt <-> separated (e + 1) count rs).
  { rewrite IH. by destruct rs as [|[s' e'] rs']. }
  destruct prev as [p|].
  - destruct (Z.leb_spec s p); [split; [done|lia]|]. rewrite Hrest. intuition lia.
  - rewrite Hrest. intuition lia.
Qed.

Lemma validate_spec r count : Forall (fun x => 0 <= x.1) (ranges r) ->
  validate r count = Ok tt <->
  len (ranges r) <= MAX_RANGES_PER_REQUEST /\ separated 0 count (ranges r).
Proof.
  intros Hnn. unfold validate. destruct (Z.ltb_spec MAX_RANGES_PER_REQUEST (len (ranges r))).
  { split; [done|lia]. }
  rewrite validate_ranges_spec. destruct (ranges r) as [|[s e] rs]; [done|].
  apply Forall_cons_iff in Hnn as [Hs _]. cbn in *. intuition lia.
Qed.

Lemma separated_nonneg lo hi rs : 0 <= lo -> separated lo hi rs ->
  Forall (fun x => 0 <= x.1 /\ x.2 <= hi) rs.
Proof.
  revert lo. induction rs as [|[s e] rs IH]; intros lo Hlo; [constructor|].
  intros (H1 & H2 & H3). constructor; [cbn; lia|]. eapply IH; [|done]. lia.
Qed.

Lemma request_short r : request_wf r -> len (cbor (request_value r)) <= 2 ^ 17.
Proof.
  intros ((? & _) & (? & _) & _ & [Hl _] & _).
  assert (Hi : len (items (map range_value (ranges r))) <= 27 * len (ranges r)).
  { clear. induction (ranges r) as [|x rs IH]; [done|]. cbn [map]. rewrite items_cons, len_app, len_cons.
    enough (len (cbor (range_value x)) <= 27) by lia. unfold range_value. rewrite cbor_array.
    unfold items. cbn [flat_map]. wsize. }
  unfold MAX_RANGES_PER_REQUEST in Hl. unfold request_value. wsize.
Qed.

Lemma request_size r : request_wf r -> len (cbor (request_value r)) <= MAX_CONTROL_SIZE.
Proof. intros H%request_short. unfold MAX_CONTROL_SIZE. lia. Qed.

Lemma decode_encoded r count : request_wf r ->
  decode (cbor (request_value r)) count = (let* _ := validate r count in Ok r).
Proof. intros Hr. unfold decode. by rewrite decode_message by (done || by apply request_size). Qed.

(** Range requests survive the wire: encoding never fails, and decoding
    gives back every well-formed request exactly when its ranges are valid
    for the object; otherwise it reports the range error. *)
Theorem request_roundtrip r count : request_wf r ->
  exists b, encode (E := SchedulerError) r = Ok b /\
    decode b count = (let* _ := validate r count in Ok r).
Proof.
  intros Hr. exists (cbor (request_value r)). split; [apply encode_eq|by apply decode_encoded].
Qed.

Lemma decode_valid b count r : bytes_ok b -> decode b count = Ok r ->
  len (ranges r) <= MAX_RANGES_PER_REQUEST /\ separated 0 count (ranges r) /\
  b = cbor (request_value r) /\ request_wf r.
Proof.
  intros Hok H. unfold decode in H. minv H. minv Hk. injection Hk0 as ->.
  apply decode_message_inv in Hp as [-> Hw]; [|done]. pose proof Hw as (_ & _ & _ & [_ Hu] & _).
  destruct a0. apply validate_spec in Hp0 as [Hl Hs]; [done|].
  eapply Forall_impl; [done|]. by intros x [[? ?] _].
Qed.

(** [decode] admits only what §18.2 allows: at most 1024 ranges, ascending,
    non-empty, with gaps, inside the object; and only the canonical bytes. *)
Theorem request_decode_valid b count r : bytes_ok b -> decode b count = Ok r ->
  len (ranges r) <= MAX_RANGES_PER_REQUEST /\ separated 0 count (ranges r) /\
  encode (E := SchedulerError) r = Ok b.
Proof.
  intros Hok H. destruct (decode_valid b count r Hok H) as (Hl & Hs & -> & _). by rewrite encode_eq.
Qed.

(** ** What is asked for *)
(** [shrunk out rs]: [out] drops ranges of [rs] and narrows others. *)
Inductive shrunk : list (Z * Z) -> list (Z * Z) -> Prop :=
| shrunk_nil rs : shrunk [] rs
| shrunk_skip r out rs : shrunk out rs -> shrunk out (r :: rs)
| shrunk_keep s e s' e' out rs :
    s <= s' -> s' < e' -> e' <= e -> shrunk out rs -> shrunk ((s', e') :: out) ((s, e) :: rs).
#[export] Hint Constructors shrunk : rtp.

Lemma separated_lower lo lo' hi rs : lo' <= lo -> separated lo hi rs -> separated lo' hi rs.
Proof. destruct rs as [|[s e] rs]; [done|]. cbn. intuition lia. Qed.

Lemma shrunk_separated out rs lo hi : shrunk out rs -> separated lo hi rs -> separated lo hi out.
Proof.
  intros Hs. revert lo. induction Hs as [rs|[s e] out rs Hs IH|s e s' e' out rs H1 H2 H3 Hs IH];
    intros lo; cbn [separated]; [done| |].
  - intros (? & ? & Hr). eapply separated_lower; [|by apply IH]. lia.
  - intros (? & ? & Hr). split_and!; [lia|lia|lia|].
    eapply separated_lower; [|by apply IH]. lia.
Qed.
Lemma shrunk_covers out rs k : shrunk out rs -> covers out k -> covers rs k.
Proof.
  intros Hs (a & b & Hin & Hk).
  induction Hs as [rs|[s e] out rs Hs IH|s e s' e' out rs H1 H2 H3 Hs IH].
  - by apply elem_of_nil in Hin.
  - destruct (IH Hin) as (s1 & e1 & Hin' & Hk'). exists s1, e1. split; [by apply elem_of_cons; right|done].
  - apply elem_of_cons in Hin as [[= -> ->]|Hin].
    + exists s, e. split; [by apply elem_of_cons; left|lia].
    + destruct (IH Hin) as (s1 & e1 & Hin' & Hk'). exists s1, e1.
      split; [by apply elem_of_cons; right|done].
Qed.
Lemma shrunk_len out rs : shrunk out rs -> len out <= len rs.
Proof. induction 1; rewrite ?len_cons; try lia. apply len_nonneg. Qed.

Lemma shrunk_refl rs lo hi : separated lo hi rs -> shrunk rs rs.
Proof.
  revert lo. induction rs as [|[s e] rs IH]; intros lo; [by constructor|].
  intros (? & ? & Hr). apply shrunk_keep; [lia|lia|lia|by eapply IH].
Qed.
Lemma intersect_shrunk rs w lo hi : separated lo hi rs -> shrunk (intersect rs w) rs.
Proof.
  revert lo. induction rs as [|[s e] rs IH]; intros lo; cbn [intersect]; [by constructor|].
  intros (? & ? & Hr). destruct (Z.ltb_spec (Z.max s w.1) (Z.min e w.2)).
  - apply shrunk_keep; [lia|lia|lia|by eapply IH].
  - apply shrunk_skip. by eapply IH.
Qed.
Lemma intersect_window rs w k : covers (intersect rs w) k -> w.1 <= k < w.2.
Proof.
  intros (s & e & Hin & Hk). induction rs as [|[s0 e0] rs IH]; cbn [intersect] in Hin.
  { by apply elem_of_nil in Hin. }
  destruct (_ <? _); [|by apply IH]. apply elem_of_cons in Hin as [[= -> ->]|Hin]; [lia|by apply IH].
Qed.

Lemma take_chunks_spec rs lo hi budget : separated lo hi rs -> 0 <= budget ->
  shrunk (take_chunks rs budget) rs /\ span_sum (take_chunks rs budget) <= budget /\
  (rs <> [] -> 0 < budget -> take_chunks rs budget <> []).
Proof.
  revert lo budget. induction rs as [|[s e] rs IH]; intros lo budget; cbn [take_chunks].
  { intros _ ?. split_and!; [constructor|done|done]. }
  intros (H1 & H2 & Hr) Hb. destruct (Z.eqb_spec budget 0) as [->|Hb0].
  { split_and!; [constructor|done|lia]. }
  destruct (Z.leb_spec (e - s) budget).
  - destruct (IH _ (budget - (e - s)) Hr ltac:(lia)) as (I1 & I2 & _).
    split_and!; [apply shrunk_keep; lia || done| |done]. cbn. unfold span_sum in I2. lia.
  - destruct (IH _ 0 Hr ltac:(lia)) as (I1 & I2 & _).
    split_and!; [apply shrunk_keep; lia || done| |done]. cbn. unfold span_sum in I2. lia.
Qed.

Lemma scatter_loop_spec per rs lo hi budget : separated lo hi rs -> 1 <= per -> 0 <= budget ->
  shrunk (scatter_loop per rs budget) rs /\ span_sum (scatter_loop per rs budget) <= budget /\
  (rs <> [] -> 0 < budget -> scatter_loop per rs budget <> []).
Proof.
  revert lo budget. induction rs as [|[s e] rs IH]; intros lo budget; cbn [scatter_loop].
  { intros _ ??. split_and!; [constructor|done|done]. }
  intros (H1 & H2 & Hr) Hp Hb. destruct (Z.eqb_spec budget 0) as [->|Hb0].
  { split_and!; [constructor|done|lia]. }
  set (span := Z.min (Z.min (e - s) per) budget).
  destruct (IH _ (budget - span) Hr Hp ltac:(lia)) as (I1 & I2 & _).
  split_and!; [apply shrunk_keep; lia || done| |done]. cbn. unfold span_sum in I2. lia.
Qed.
Lemma take_scattered_spec rs lo hi m : separated lo hi rs -> 0 <= m ->
  shrunk (take_scattered rs m) rs /\ span_sum (take_scattered rs m) <= m /\
  (rs <> [] -> 0 < m -> take_scattered rs m <> []).
Proof.
  intros Hs Hm. unfold take_scattered. destruct rs as [|r rs]; [split_and!; [constructor|done|done]|].
  destruct (Z.eqb_spec m 0); [split_and!; [constructor|cbn; lia|lia]|].
  eapply scatter_loop_spec; [done|lia|lia].
Qed.

Lemma first_interest_spec missing l p c lo hi : separated lo hi missing ->
  first_interest missing l = Some (p, c) ->
  exists i, i ∈ l /\ p = priority i /\ c = intersect missing (range i) /\ c <> [].
Proof.
  intros Hs. induction l as [|i l IH]; cbn [first_interest]; [done|].
  destruct (intersect missing (range i)) as [|r c'] eqn:Hi.
  - intros H. destruct (IH H) as (i' & Hin & Hrest). exists i'. split; [by apply elem_of_cons; right|done].
  - intros [= <- <-]. exists i. rewrite Hi. split_and!; [by apply elem_of_cons; left|done..].
Qed.

(** The number of parallel streams is between one and eight. *)
Lemma streams_bounds q : 1 <= recommended_streams q <= 8.
Proof.
  unfold recommended_streams, div_ceil. cbn zeta. repeat case_match; dlia.
Qed.

(** The byte budget of a request is eight chunks per stream. *)
Lemma budget_spec size q : 0 < size < 2 ^ 57 ->
  let mb := Z.max (wrap 64 (wrap 64 (size * 8) * recommended_streams q)) size in
  mb = 8 * recommended_streams q * size /\ Z.max (mb / Z.max size 1) 1 = 8 * recommended_streams q.
Proof.
  intros Hs. pose proof (streams_bounds q). cbn zeta. unfold wrap.
  rewrite (Z.mod_small (size * 8)) by lia. rewrite Z.mod_small by nia.
  rewrite (Z.max_l (size * 8 * _)) by nia. split; [nia|].
  rewrite (Z.max_l size) by lia. replace (size * 8 * recommended_streams q)
    with (8 * recommended_streams q * size) by lia. rewrite Z.div_mul by lia. lia.
Qed.

Lemma span_sum_bounds lo hi rs : separated lo hi rs ->
  0 <= span_sum rs <= Z.max 0 (hi - lo).
Proof.
  unfold span_sum. revert lo. induction rs as [|[s e] rs IH]; intros lo; cbn; [lia|].
  intros (? & ? & Hr). specialize (IH _ Hr). lia.
Qed.

(** The ranges [next_request] picks from: one interest, or everything. *)
Lemma candidate_spec missing l lo hi : separated lo hi missing -> missing <> [] ->
  exists p c, default (PrioritySequential, missing) (first_interest missing l) = (p, c) /\
    shrunk c missing /\ c <> [] /\
    (p = PrioritySequential \/ exists i, i ∈ l /\ p = priority i /\
      forall k, covers c k -> (range i).1 <= k < (range i).2).
Proof.
  intros Hs Hne. destruct (first_interest missing l) as [[p c]|] eqn:Hf; cbn.
  - apply (first_interest_spec _ _ _ _ _ _ Hs) in Hf as (i & Hin & -> & -> & Hc).
    eexists _, _. split_and!; [done|by eapply intersect_shrunk|done|]. right. exists i.
    split_and!; [done..|]. intros k. apply intersect_window.
  - eexists _, _. split_and!; [done|by eapply shrunk_refl|done|by left].
Qed.
Lemma take_order_spec o c lo hi m : separated lo hi c -> c <> [] -> 0 < m ->
  exists out, match o with OrderSequential => take_chunks c m | Scattered => take_scattered c m end = out /\
    shrunk out c /\ span_sum out <= m /\ out <> [].
Proof.
  intros Hs Hne Hm. eexists. split; [done|]. destruct o.
  - destruct (take_chunks_spec c _ _ m Hs ltac:(lia)) as (? & ? & Ho). split_and!; [done..|by apply Ho].
  - destruct (take_scattered_spec c _ _ m Hs ltac:(lia)) as (? & ? & Ho). split_and!; [done..|by apply Ho].
Qed.

(** [next_request] stops exactly when the object is complete; otherwise it
    asks for a non-empty, valid set of ranges holding only missing chunks,
    within a budget of eight chunks per stream, either inside one registered
    interest under that interest's priority or as sequential fill. *)
Theorem next_request_sound s have q : Bitmap.wf have ->
  Bitmap.chunk_count have = s_chunk_count s -> 0 < s_chunk_ciphertext_size s < 2 ^ 57 ->
  match next_request s have q with
  | None => Bitmap.is_complete have = true
  | Some r =>
      validate r (s_chunk_count s) = Ok tt /\ ranges r <> [] /\
      (forall k, covers (ranges r) k -> Bitmap.get have k = Ok false) /\
      chunk_total r <= 8 * recommended_streams q /\
      max_bytes r = 8 * recommended_streams q * s_chunk_ciphertext_size s /\
      (priority_class r = priority_u64 PrioritySequential \/
       exists i, i ∈ interests s /\ priority_class r = priority_u64 (priority i) /\
         forall k, covers (ranges r) k -> (range i).1 <= k < (range i).2)
  end.
Proof.
  intros Hwf Hn Hsz. pose proof (Bitmap.wf_count have Hwf) as Hc.
  destruct (missing_ranges_spec have MAX_RANGES_PER_REQUEST Hwf ltac:(done)) as (H1 & H2 & H3 & _).
  pose proof (missing_nil have MAX_RANGES_PER_REQUEST Hwf ltac:(done)) as Hnil.
  destruct (budget_spec (s_chunk_ciphertext_size s) q Hsz) as [Hmb Hmax].
  pose proof (streams_bounds q) as Hst. unfold next_request. cbn zeta in *.
  destruct (missing_ranges have MAX_RANGES_PER_REQUEST) as [|r0 rs0] eqn:Hm; [tauto|].
  rewrite <- Hm in *. clear Hnil.
  destruct (candidate_spec _ (interests s) _ _ H1 ltac:(by rewrite Hm)) as (p & c & Hpc & Hsh & Hne & Hprio).
  rewrite Hpc, Hmax, Hmb. pose proof (shrunk_separated _ _ _ _ Hsh H1) as Hsep.
  destruct (take_order_spec (order s) c _ _ (8 * recommended_streams q) Hsep Hne ltac:(lia))
    as (out & -> & Hos & Hbud & Hone).
  destruct out as [|r1 rs1] eqn:Heq; [done|]. rewrite <- Heq in *.
  pose proof (shrunk_separated _ _ _ _ Hos Hsep) as Hosep.
  pose proof (shrunk_len _ _ Hos). pose proof (shrunk_len _ _ Hsh).
  cbn [ranges max_bytes priority_class]. split_and!; [|done| | |done|].
  - apply validate_spec; cbn [ranges].
    { eapply Forall_impl; [by eapply (separated_nonneg 0 _ _ ltac:(lia))|]. by intros x [? _]. }
    split; [lia|by rewrite <- Hn].
  - intros k Hk. apply (shrunk_covers _ _ _ Hos), (shrunk_covers _ _ _ Hsh) in Hk as (a & b & Hin & Hk).
    by eapply H3.
  - unfold chunk_total. cbn [ranges]. destruct (span_sum_bounds _ _ _ Hosep).
    unfold wrap. rewrite Z.mod_small by lia. done.
  - destruct Hprio as [->|(i & Hin & -> & Hw)]; [by left|]. right. exists i. split_and!; [done..|].
    intros k Hk. apply Hw. by eapply shrunk_covers.
Qed.

Lemma full_request_spec s have : Bitmap.wf have ->
  Bitmap.chunk_count have = s_chunk_count s -> 0 <= s_chunk_ciphertext_size s ->
  let r := full_request s have in
  validate r (s_chunk_count s) = Ok tt /\
  (forall k, covers (ranges r) k -> Bitmap.get have k = Ok false) /\
  (len (ranges r) < MAX_RANGES_PER_REQUEST ->
     forall k, 0 <= k -> Bitmap.get have k = Ok false -> covers (ranges r) k) /\
  max_bytes r = Z.min (span_sum (ranges r) * s_chunk_ciphertext_size s) U64_MAX.
Proof.
  intros Hwf Hn Hsz. pose proof (Bitmap.wf_count have Hwf) as Hc. unfold Bitmap.MAX_CHUNK_COUNT in Hc.
  destruct (missing_ranges_spec have MAX_RANGES_PER_REQUEST Hwf ltac:(done)) as (H1 & H2 & H3 & H4).
  cbn zeta in *. unfold full_request. cbn [ranges max_bytes]. split_and!.
  - apply validate_spec; cbn [ranges].
    { eapply Forall_impl; [by eapply (separated_nonneg 0 _ _ ltac:(lia))|]. by intros x [? _]. }
    split; [lia|by rewrite <- Hn].
  - intros k (a & b & Hin & Hk). by eapply H3.
  - intros Hl k Hk Hg. destruct (H4 k Hk Hg) as [?|[? _]]; [done|lia].
  - unfold saturating_mul, wrap. destruct (span_sum_bounds _ _ _ H1).
    by rewrite Z.mod_small by lia.
Qed.

(** C36: [full_request] is always valid, names only missing chunks and at most
    1024 ranges; when the object has fewer gaps than that it names every
    missing chunk, and its byte count is that of the chunks it names. *)
Theorem full_request_sound s have : Bitmap.wf have ->
  Bitmap.chunk_count have = s_chunk_count s -> 0 <= s_chunk_ciphertext_size s ->
  let r := full_request s have in
  validate r (s_chunk_count s) = Ok tt /\
  (forall k, covers (ranges r) k -> Bitmap.get have k = Ok false) /\
  (len (ranges r) < MAX_RANGES_PER_REQUEST ->
     forall k, 0 <= k -> Bitmap.get have k = Ok false -> covers (ranges r) k) /\
  max_bytes r = Z.min (span_sum (ranges r) * s_chunk_ciphertext_size s) U64_MAX.
Proof. apply full_request_spec. Qed.

Module SchedulerWitness.
Definition sched : Scheduler :=
  add_interest FirstRender (10, 12) (new_scheduler (replicate 32 1) (replicate 32 2) 20 65552).
Definition request : RangeRequest :=
  mkRequest (replicate 32 1) (replicate 32 2) 1 [(10, 12); (14, 20)] 100 0 7.

Lemma request_wf_ok : request_wf request.
Proof.
  repeat match goal with |- _ /\ _ => split | |- request_wf _ => unfold request_wf end;
    first [done | by repeat constructor].
Qed.

Lemma request_roundtrip_witness :
  exists b, encode (E := SchedulerError) request = Ok b /\
    decode b 19 = (let* _ := validate request 19 in Ok request).
Proof. apply (request_roundtrip request 19). apply request_wf_ok. Defined.

Definition request_bytes : bytes :=
  match encode (E := SchedulerError) request with Ok b => b | _ => [] end.
Lemma request_decode_valid_witness :
  len (ranges request) <= MAX_RANGES_PER_REQUEST /\ separated 0 20 (ranges request) /\
  encode (E := SchedulerError) request = Ok request_bytes.
Proof.
  apply (request_decode_valid request_bytes 20 request); [|by vm_compute].
  vm_compute. by repeat constructor.
Defined.

Lemma next_request_sound_witness :
  match next_request sched demo default_quality with
  | None => Bitmap.is_complete demo = true
  | Some r =>
      validate r (s_chunk_count sched) = Ok tt /\ ranges r <> [] /\
      (forall k, covers (ranges r) k -> Bitmap.get demo k = Ok false) /\
      chunk_total r <= 8 * recommended_streams default_quality /\
      max_bytes r = 8 * recommended_streams default_quality * s_chunk_ciphertext_size sched /\
      (priority_class r = priority_u64 PrioritySequential \/
       exists i, i ∈ interests sched /\ priority_class r = priority_u64 (priority i) /\
         forall k, covers (ranges r) k -> (range i).1 <= k < (range i).2)
  end.
Proof. apply (next_request_sound sched demo default_quality); [apply demo_wf|done|done]. Defined.

Lemma full_request_sound_witness :
  let r := full_request sched demo in
  validate r (s_chunk_count sched) = Ok tt /\
  (forall k, covers (ranges r) k -> Bitmap.get demo k = Ok false) /\
  (len (ranges r) < MAX_RANGES_PER_REQUEST ->
     forall k, 0 <= k -> Bitmap.get demo k = Ok false -> covers (ranges r) k) /\
  max_bytes r = Z.min (span_sum (ranges r) * s_chunk_ciphertext_size sched) U64_MAX.
Proof. apply (full_request_sound sched demo); [apply demo_wf|done|done]. Defined.
End SchedulerWitness.
