(* ===== verification/Control.v ===== *)
(** * The protected control channel (control.rs)

    Operations return their outcome together with the channel state, on
    failure too, so that "a failing frame advances no state" is a statement
    about the model. *)

From S2P Require Import Prelude Crypto.
From Stdlib Require Import Sorted.

(** control.rs 15-15 [CONTROL_NONCE_CONTEXT] *)
Definition CONTROL_NONCE_CONTEXT : bytes := lit "Reyta RTP2 2026-08-01 control nonce v1".
(** control.rs 16-16 [EPOCH_SALT_DOMAIN] *)
Definition EPOCH_SALT_DOMAIN : bytes := lit "RTP2-EPOCH-SALT-v1".
(** control.rs 17-17 [CONTROL_AAD_MAGIC] *)
Definition CONTROL_AAD_MAGIC : bytes := lit "RTP2CTRL".
(** control.rs 20-20 [MAX_FRAMES_PER_EPOCH] *)
Definition MAX_FRAMES_PER_EPOCH : Z := 2 ^ 32.

(** control.rs 23-28 [Direction] *)
Inductive Direction : Type := ClientToServer | ServerToClient.
(** control.rs 31-33 [Direction::byte] *)
Definition dir_byte (d : Direction) : Z := match d with ClientToServer => 0 | ServerToClient => 1 end.
(** control.rs 35-40 [Direction::opposite] *)
Definition opposite (d : Direction) : Direction :=
  match d with ClientToServer => ServerToClient | ServerToClient => ClientToServer end.

(** control.rs 44-56 [ControlError] *)
Inductive ControlError : Type :=
| Decrypt
| Replay
| StaleEpoch
| EpochGap
| CounterExhausted
| Malformed.

(** control.rs 61-66 [EpochKeys] *)
Record EpochKeys : Type := mkKeys { epoch : Z; c2s : bytes; s2c : bytes }.
(** control.rs 69-74 [EpochKeys::key_for] *)
Definition key_for (k : EpochKeys) (d : Direction) : bytes :=
  match d with ClientToServer => c2s k | ServerToClient => s2c k end.

(** control.rs 79-90 [ControlChannel] *)
Record ControlChannel : Type := mkChannel {
  send_direction : Direction;
  epoch_prk : bytes;
  th2 : bytes;
  keys : EpochKeys;
  send_counter : Z;
  receive_watermark : Z
}.

(** control.rs 255-259 [SealedFrame] *)
Record SealedFrame : Type := mkFrame { f_epoch : Z; f_counter : Z; f_ciphertext : bytes }.

(** control.rs 289-308 [control_aad] *)
Definition control_aad (d : Direction) (ep counter frame_type frame_flags request_id : Z) : bytes :=
  CONTROL_AAD_MAGIC ++ be_bytes 2 PROTOCOL_MAJOR ++ be_bytes 2 SUITE_ID ++ [dir_byte d] ++
  be_bytes 8 ep ++ be_bytes 8 counter ++ [frame_type] ++ [frame_flags] ++ be_bytes 8 request_id.

(** control.rs 250-252 [ControlChannel::rekey_due] *)
Definition rekey_due (c : ControlChannel) : bool :=
  MAX_FRAMES_PER_EPOCH <=? wrap 64 (send_counter c + 1024).

Section Control.
Context {P : Primitives}.

(** control.rs 261-266 [advance_prk] *)
Definition advance_prk (current : bytes) (next_epoch : Z) : bytes :=
  hkdf_extract (EPOCH_SALT_DOMAIN ++ be_bytes 8 next_epoch) current.

(** control.rs 268-274 [derive_epoch] *)
Definition derive_epoch (prk th : bytes) (ep : Z) : EpochKeys :=
  mkKeys ep (hkdf_expand 32 prk [lit "RTP2 control c2s v1"; th])
            (hkdf_expand 32 prk [lit "RTP2 control s2c v1"; th]).

(** The 17 bytes the nonce is derived from. *)
Definition nonce_material (d : Direction) (ep counter : Z) : bytes :=
  dir_byte d :: be_bytes 8 ep ++ be_bytes 8 counter.
(** control.rs 277-286 [control_nonce] *)
Definition control_nonce (d : Direction) (ep counter : Z) : bytes :=
  take 24 (blake3_derive_key CONTROL_NONCE_CONTEXT (nonce_material d ep counter)).

(** control.rs 310-333 [seal_with] *)
Definition seal_with (key : bytes) (d : Direction) (ep counter : Z) (aad plaintext : bytes)
  : result ControlError bytes :=
  match aead_encrypt key (control_nonce d ep counter) aad plaintext with
  | Some ct => Ok ct
  | None => Err Decrypt
  end.

(** control.rs 335-358 [open_with] *)
Definition open_with (key : bytes) (d : Direction) (ep counter : Z) (aad ciphertext : bytes)
  : result ControlError bytes :=
  match aead_decrypt key (control_nonce d ep counter) aad ciphertext with
  | Some pt => Ok pt
  | None => Err Decrypt
  end.

(** control.rs 94-104 [ControlChannel::new] *)
Definition new_channel (handshake_prk th : bytes) (d : Direction) : ControlChannel :=
  mkChannel d handshake_prk th (derive_epoch handshake_prk th 0) 0 0.

(** control.rs 116-150 [ControlChannel::seal] *)
Definition seal (c : ControlChannel) (frame_type frame_flags request_id : Z) (plaintext : bytes)
  : result ControlError SealedFrame * ControlChannel :=
  if MAX_FRAMES_PER_EPOCH <=? send_counter c then (Err CounterExhausted, c) else
  let ep := epoch (keys c) in
  let counter := send_counter c in
  let aad := control_aad (send_direction c) ep counter frame_type frame_flags request_id in
  match seal_with (key_for (keys c) (send_direction c)) (send_direction c) ep counter aad plaintext with
  | Ok ciphertext =>
      (Ok (mkFrame ep counter ciphertext),
       mkChannel (send_direction c) (epoch_prk c) (th2 c) (keys c) (wrap 64 (send_counter c + 1))
         (receive_watermark c))
  | Err e => (Err e, c)
  | Panic => (Panic, c)
  end.

(** control.rs 154-216 [ControlChannel::open] *)
Definition open (c : ControlChannel) (ep counter frame_type frame_flags request_id : Z)
    (ciphertext : bytes) : result ControlError bytes * ControlChannel :=
  let d := opposite (send_direction c) in
  if ep <? epoch (keys c) then (Err StaleEpoch, c) else
  if wrap 64 (epoch (keys c) + 1) <? ep then (Err EpochGap, c) else
  let candidate :=
    if ep =? epoch (keys c) then None
    else let next_prk := advance_prk (epoch_prk c) ep in
         Some (derive_epoch next_prk (th2 c) ep, next_prk) in
  if (match candidate with None => counter <? receive_watermark c | Some _ => false end)
  then (Err Replay, c) else
  if MAX_FRAMES_PER_EPOCH <=? counter then (Err Malformed, c) else
  let key := match candidate with
             | Some (ks, _) => key_for ks d
             | None => key_for (keys c) d
             end in
  let aad := control_aad d ep counter frame_type frame_flags request_id in
  match open_with key d ep counter aad ciphertext with
  | Ok plaintext =>
      let c' := match candidate with
                | Some (ks, prk) => mkChannel (send_direction c) prk (th2 c) ks 0 0
                | None => c
                end in
      (Ok plaintext,
       mkChannel (send_direction c') (epoch_prk c') (th2 c') (keys c') (send_counter c')
         (wrap 64 (counter + 1)))
  | Err e => (Err e, c)
  | Panic => (Panic, c)
  end.

(** control.rs 235-242 [ControlChannel::begin_next_epoch] *)
Definition begin_next_epoch (c : ControlChannel) : ControlChannel :=
  let next := wrap 64 (epoch (keys c) + 1) in
  let prk := advance_prk (epoch_prk c) next in
  mkChannel (send_direction c) prk (th2 c) (derive_epoch prk (th2 c) next) 0 0.
End Control.

(** ** Traces of one endpoint *)
Inductive event : Type :=
| Seal (frame_type frame_flags request_id : Z) (plaintext : bytes)
| Open (ep counter frame_type frame_flags request_id : Z) (ciphertext : bytes)
| Rekey.

(** What one event puts on the wire or accepts from it. *)
Inductive effect : Type :=
| Sent (f : SealedFrame)
| Accepted (ep counter : Z) (plaintext : bytes)
| Nothing.

Section Traces.
Context {P : Primitives} {L : PrimitiveLaws}.

Definition step (c : ControlChannel) (ev : event) : effect * ControlChannel :=
  match ev with
  | Seal ft fl rid pt =>
      let '(r, c') := seal c ft fl rid pt in
      (match r with Ok f => Sent f | _ => Nothing end, c')
  | Open ep n ft fl rid ct =>
      let '(r, c') := open c ep n ft fl rid ct in
      (match r with Ok pt => Accepted ep n pt | _ => Nothing end, c')
  | Rekey => (Nothing, begin_next_epoch c)
  end.
Fixpoint run (c : ControlChannel) (evs : list event) : list effect * ControlChannel :=
  match evs with
  | [] => ([], c)
  | ev :: evs' =>
    let '(out, c1) := step c ev in
    let '(outs, c2) := run c1 evs' in
    (out :: outs, c2)
  end.

(** Position of an (epoch, counter) pair: epochs first, counters within. *)
Definition rank (ep counter : Z) : Z := ep * MAX_FRAMES_PER_EPOCH + counter.
Fixpoint sent (outs : list effect) : list Z :=
  match outs with
  | [] => []
  | Sent f :: outs' => rank (f_epoch f) (f_counter f) :: sent outs'
  | _ :: outs' => sent outs'
  end.
Fixpoint accepted (outs : list effect) : list Z :=
  match outs with
  | [] => []
  | Accepted ep n _ :: outs' => rank ep n :: accepted outs'
  | _ :: outs' => accepted outs'
  end.

(** The invariant: keys of the current epoch of the chain rooted in [prk0],
    counters in range. *)
Fixpoint chain (prk0 : bytes) (n : nat) : bytes :=
  match n with
  | O => prk0
  | S m => advance_prk (chain prk0 m) (Z.of_nat (S m))
  end.
Record channel_wf (prk0 th : bytes) (d : Direction) (c : ControlChannel) : Prop := {
  cw_dir : send_direction c = d;
  cw_th2 : th2 c = th;
  cw_epoch : 0 <= epoch (keys c);
  cw_prk : epoch_prk c = chain prk0 (Z.to_nat (epoch (keys c)));
  cw_keys : keys c = derive_epoch (epoch_prk c) th (epoch (keys c));
  cw_send : 0 <= send_counter c <= MAX_FRAMES_PER_EPOCH;
  cw_recv : 0 <= receive_watermark c <= MAX_FRAMES_PER_EPOCH
}.

(** The range part of the invariant, for any chain. *)
Record channel_wf_any (c : ControlChannel) : Prop := {
  ca_epoch : 0 <= epoch (keys c);
  ca_send : 0 <= send_counter c <= MAX_FRAMES_PER_EPOCH
}.
Lemma channel_wf_wf_any prk0 th d c : channel_wf prk0 th d c -> channel_wf_any c.
Proof. intros []. by split. Qed.

Lemma new_channel_wf prk th d : channel_wf prk th d (new_channel prk th d).
Proof. by split. Qed.

Lemma seal_cases c ft fl rid pt r c' : channel_wf_any c -> seal c ft fl rid pt = (r, c') ->
  match r with
  | Ok f => f_epoch f = epoch (keys c) /\ f_counter f = send_counter c /\
      send_counter c < MAX_FRAMES_PER_EPOCH /\
      c' = mkChannel (send_direction c) (epoch_prk c) (th2 c) (keys c) (send_counter c + 1)
             (receive_watermark c)
  | Err _ => c' = c
  | Panic => False
  end.
Proof.
  intros Hs. unfold seal. destruct (Z.leb_spec MAX_FRAMES_PER_EPOCH (send_counter c)) as [|Hlt];
    [by intros [= <- <-]|]. unfold seal_with. destruct (aead_encrypt _ _ _ _); intros [= <- <-]; [|done].
  split_and!; [done..|]. f_equal. unfold wrap. apply Z.mod_small.
  unfold MAX_FRAMES_PER_EPOCH in *. destruct Hs. lia.
Qed.

Lemma open_cases c ep n ft fl rid ct r c' : channel_wf_any c -> epoch (keys c) < U64_MAX ->
  0 <= n -> open c ep n ft fl rid ct = (r, c') ->
  match r with
  | Ok pt => n < MAX_FRAMES_PER_EPOCH /\
      ((ep = epoch (keys c) /\ receive_watermark c <= n /\
        c' = mkChannel (send_direction c) (epoch_prk c) (th2 c) (keys c) (send_counter c) (n + 1)) \/
       (ep = epoch (keys c) + 1 /\
        c' = mkChannel (send_direction c) (advance_prk (epoch_prk c) ep) (th2 c)
               (derive_epoch (advance_prk (epoch_prk c) ep) (th2 c) ep) 0 (n + 1)))
  | Err _ => c' = c
  | Panic => False
  end.
Proof.
  intros Hs Hep Hn. destruct Hs. unfold open, U64_MAX in *.
  assert (Hw : wrap 64 (epoch (keys c) + 1) = epoch (keys c) + 1) by (apply Z.mod_small; lia).
  rewrite Hw. destruct (Z.ltb_spec ep (epoch (keys c))); [by intros [= <- <-]|].
  destruct (Z.ltb_spec (epoch (keys c) + 1) ep); [by intros [= <- <-]|].
  assert (Hwn : n < MAX_FRAMES_PER_EPOCH -> wrap 64 (n + 1) = n + 1).
  { intros. unfold MAX_FRAMES_PER_EPOCH in *. apply Z.mod_small. lia. }
  unfold open_with. destruct (Z.eqb_spec ep (epoch (keys c))) as [->|Hne].
  - destruct (Z.ltb_spec n (receive_watermark c)); [by intros [= <- <-]|].
    destruct (Z.leb_spec MAX_FRAMES_PER_EPOCH n); [by intros [= <- <-]|].
    destruct (aead_decrypt _ _ _ _); intros [= <- <-]; [|done].
    rewrite Hwn by done. split; [done|by left].
  - destruct (Z.leb_spec MAX_FRAMES_PER_EPOCH n); [by intros [= <- <-]|].
    destruct (aead_decrypt _ _ _ _); intros [= <- <-]; [|done].
    rewrite Hwn by done. split; [done|]. right. split; [lia|done].
Qed.

Lemma chain_next prk0 e : 0 <= e ->
  advance_prk (chain prk0 (Z.to_nat e)) (e + 1) = chain prk0 (Z.to_nat (e + 1)).
Proof.
  intros He. replace (Z.to_nat (e + 1)) with (S (Z.to_nat e)) by lia. cbn [chain]. f_equal. lia.
Qed.

(** Events whose frame counters are [u64] values. *)
Definition event_ok (ev : event) : Prop := match ev with Open _ n _ _ _ _ => 0 <= n | _ => True end.

(** Position of the endpoint as a sender and as a receiver. *)
Definition send_pos (c : ControlChannel) : Z := rank (epoch (keys c)) (send_counter c).
Definition recv_pos (c : ControlChannel) : Z := rank (epoch (keys c)) (receive_watermark c).

Lemma step_spec prk0 th d c ev out c' :
  channel_wf prk0 th d c -> epoch (keys c) < U64_MAX -> event_ok ev -> step c ev = (out, c') ->
  channel_wf prk0 th d c' /\ epoch (keys c) <= epoch (keys c') <= epoch (keys c) + 1 /\
  send_pos c <= send_pos c' /\ recv_pos c <= recv_pos c' /\
  match out with
  | Sent f => rank (f_epoch f) (f_counter f) = send_pos c /\ send_pos c < send_pos c'
  | Accepted ep n _ => recv_pos c <= rank ep n < recv_pos c'
  | Nothing => True
  end.
Proof.
  intros Hwf He Hok. pose proof (channel_wf_wf_any _ _ _ _ Hwf) as Hany. destruct Hwf as [Hd Ht H0 Hp Hk Hs Hr].
  unfold send_pos, recv_pos, rank, MAX_FRAMES_PER_EPOCH in *.
  destruct ev as [ft fl rid pt|ep n ft fl rid ct|]; cbn [step].
  - destruct (seal c ft fl rid pt) as [r c1] eqn:Hseal.
    pose proof (seal_cases _ _ _ _ _ _ _ Hany Hseal) as Hc. intros [= <- <-].
    destruct r as [f|e|]; [|subst c1; split_and!; try done; lia|done].
    destruct Hc as (-> & -> & Hlt & ->). unfold MAX_FRAMES_PER_EPOCH in *.
    split; [split; cbn; try done; unfold MAX_FRAMES_PER_EPOCH; lia|]. cbn. lia.
  - destruct (open c ep n ft fl rid ct) as [r c1] eqn:Hopen.
    pose proof (open_cases _ _ _ _ _ _ _ _ _ Hany He Hok Hopen) as Hc. intros [= <- <-].
    destruct r as [pt|e|]; [|subst c1; split_and!; try done; lia|done]. cbn in Hok.
    unfold MAX_FRAMES_PER_EPOCH in *.
    destruct Hc as (Hlt & [(-> & Hw & ->)|(-> & ->)]); cbn.
    + split; [split; cbn; try done; unfold MAX_FRAMES_PER_EPOCH; lia|]. lia.
    + split; [|lia]. split; cbn; try done; unfold MAX_FRAMES_PER_EPOCH; try lia.
      * rewrite Hp. by apply chain_next.
      * by rewrite Ht.
  - intros [= <- <-]. unfold begin_next_epoch.
    assert (Hw : wrap 64 (epoch (keys c) + 1) = epoch (keys c) + 1)
      by (unfold U64_MAX in He; apply Z.mod_small; lia).
    rewrite Hw. split; [|cbn; lia]. split; cbn; try done; unfold MAX_FRAMES_PER_EPOCH; try lia.
    + rewrite Hp. by apply chain_next.
    + by rewrite Ht.
Qed.

Lemma run_spec prk0 th d c evs outs c' :
  channel_wf prk0 th d c -> epoch (keys c) + len evs <= U64_MAX -> Forall event_ok evs ->
  run c evs = (outs, c') ->
  channel_wf prk0 th d c' /\
  StronglySorted Z.lt (sent outs) /\ Forall (fun r => send_pos c <= r) (sent outs) /\
  StronglySorted Z.lt (accepted outs) /\ Forall (fun r => recv_pos c <= r) (accepted outs).
Proof.
  revert c outs. induction evs as [|ev evs IH]; intros c outs Hwf He Hok; cbn [run].
  { intros [= <- <-]. split_and!; try done; constructor. }
  apply Forall_cons_iff in Hok as [Hev Hok]. rewrite len_cons in He. pose proof (len_nonneg evs).
  destruct (step c ev) as [out c1] eqn:Hstep.
  destruct (step_spec _ _ _ _ _ _ _ Hwf ltac:(lia) Hev Hstep) as (Hwf1 & He1 & Hsp & Hrp & Hout).
  destruct (run c1 evs) as [outs1 c2] eqn:Hrun. intros [= <- <-].
  destruct (IH c1 outs1 Hwf1 ltac:(lia) Hok Hrun) as (Hwf2 & S1 & S2 & A1 & A2).
  assert (S2' : Forall (fun r => send_pos c <= r) (sent outs1)) by (eapply Forall_impl; [done|cbv beta; intros; lia]).
  assert (A2' : Forall (fun r => recv_pos c <= r) (accepted outs1)) by (eapply Forall_impl; [done|cbv beta; intros; lia]).
  destruct out as [f|ep n pt|]; cbn [sent accepted].
  - destruct Hout as [Hr Hlt]. split_and!; try done.
    + constructor; [done|]. eapply Forall_impl; [exact S2|cbv beta; intros; lia].
    + constructor; [lia|done].
  - split_and!; try done.
    + constructor; [done|]. eapply Forall_impl; [exact A2|cbv beta; intros; lia].
    + constructor; [lia|done].
  - done.
Qed.

(** No (epoch, counter) pair is ever used for two frames: in any sequence
    of seals, opens (of arbitrary frames) and rekeys of one endpoint, the
    frames it sends have strictly increasing (epoch, counter), so no nonce
    is reused under a key. *)
Theorem sent_frames_increase prk th d evs : len evs <= U64_MAX -> Forall event_ok evs ->
  StronglySorted Z.lt (sent (run (new_channel prk th d) evs).1).
Proof.
  intros Hl Hok. destruct (run _ evs) as [outs c'] eqn:Hrun.
  apply (run_spec prk th d _ evs _ c') in Hrun; [tauto|apply new_channel_wf|done|done].
Qed.

(** C35: Replays are refused: the frames an endpoint accepts have strictly
    increasing (epoch, counter) whatever is delivered to it, so no frame is
    accepted twice and none is accepted out of order. *)
Theorem accepted_frames_increase prk th d evs : len evs <= U64_MAX -> Forall event_ok evs ->
  StronglySorted Z.lt (accepted (run (new_channel prk th d) evs).1).
Proof.
  intros Hl Hok. destruct (run _ evs) as [outs c'] eqn:Hrun.
  apply (run_spec prk th d _ evs _ c') in Hrun; [tauto|apply new_channel_wf|done|done].
Qed.

(** A frame that is refused, for whatever reason, changes nothing: the
    channel is the same value afterwards (keys, epoch, counters). *)
Theorem refused_frame_changes_nothing prk th d c ep n ft fl rid ct e c' :
  channel_wf prk th d c -> epoch (keys c) < U64_MAX -> 0 <= n ->
  open c ep n ft fl rid ct = (Err e, c') -> c' = c.
Proof.
  intros Hwf He Hn Ho. apply channel_wf_wf_any in Hwf.
  apply (open_cases _ _ _ _ _ _ _ _ _ Hwf He Hn Ho).
Qed.

(** ** Delivery *)
Lemma epoch_key_array prk t e dir : array 32 (key_for (derive_epoch prk t e) dir).
Proof. destruct dir; apply hkdf_expand_len; unfold HASH_LEN; lia. Qed.
Lemma control_nonce_array dir e n : array 24 (control_nonce dir e n).
Proof.
  unfold control_nonce. destruct (derive_key_len CONTROL_NONCE_CONTEXT (nonce_material dir e n)) as [Hl Hb].
  split; [|by apply Forall_take]. unfold len in *. rewrite length_take. lia.
Qed.

(** The key a receiver uses for a frame of epoch [e]. *)
Lemma receive_key prk th d b e dir : channel_wf prk th d b ->
  epoch (keys b) <= e <= epoch (keys b) + 1 ->
  key_for (if e =? epoch (keys b) then keys b
           else derive_epoch (advance_prk (epoch_prk b) e) (th2 b) e) dir
  = key_for (derive_epoch (chain prk (Z.to_nat e)) th e) dir.
Proof.
  intros [_ Hb2 Hb3 Hb4 Hb5 _ _] He. f_equal. destruct (Z.eqb_spec e (epoch (keys b))) as [->|Hne].
  - by rewrite Hb5, Hb4 at 1.
  - assert (e = epoch (keys b) + 1) as -> by lia. by rewrite Hb2, Hb4, chain_next.
Qed.

(** [open] on a frame the cipher accepts. *)
Lemma open_accepts prk th d b e n ft fl rid ct pt :
  channel_wf prk th (opposite d) b -> epoch (keys b) < U64_MAX ->
  epoch (keys b) <= e <= epoch (keys b) + 1 -> 0 <= n < MAX_FRAMES_PER_EPOCH ->
  (e = epoch (keys b) -> receive_watermark b <= n) ->
  aead_decrypt (key_for (derive_epoch (chain prk (Z.to_nat e)) th e) d) (control_nonce d e n)
    (control_aad d e n ft fl rid) ct = Some pt ->
  (open b e n ft fl rid ct).1 = Ok pt.
Proof.
  intros Hb Heb He Hn Hw Hdec. rewrite <- (receive_key prk th (opposite d) b e d Hb He) in Hdec.
  destruct Hb as [Hb1 _ Hb3 _ _ _ _]. unfold open, U64_MAX in *.
  assert (Hopp : opposite (opposite d) = d) by (by destruct d).
  assert (Hwe : wrap 64 (epoch (keys b) + 1) = epoch (keys b) + 1) by (apply Z.mod_small; lia).
  rewrite Hwe, Hb1, Hopp. destruct (Z.ltb_spec e (epoch (keys b))); [lia|].
  destruct (Z.ltb_spec (epoch (keys b) + 1) e); [lia|].
  destruct (Z.leb_spec MAX_FRAMES_PER_EPOCH n); [lia|]. unfold open_with.
  destruct (Z.eqb_spec e (epoch (keys b))) as [Heq|Hne].
  - destruct (Z.ltb_spec n (receive_watermark b)); [specialize (Hw Heq); lia|]. by rewrite Hdec.
  - by rewrite Hdec.
Qed.

(** One frame from [a] to [b], at most one epoch apart. *)
Lemma deliver prk th d a b ft fl rid pt :
  channel_wf prk th d a -> channel_wf prk th (opposite d) b ->
  send_counter a < MAX_FRAMES_PER_EPOCH -> epoch (keys b) < U64_MAX ->
  epoch (keys b) <= epoch (keys a) <= epoch (keys b) + 1 -> epoch (keys a) < U64_MAX ->
  (epoch (keys a) = epoch (keys b) -> receive_watermark b <= send_counter a) ->
  bytes_ok pt -> len pt <= AEAD_MAX ->
  exists f a' b', seal a ft fl rid pt = (Ok f, a') /\
    open b (f_epoch f) (f_counter f) ft fl rid (f_ciphertext f) = (Ok pt, b') /\
    channel_wf prk th d a' /\ channel_wf prk th (opposite d) b' /\
    epoch (keys a') = epoch (keys a) /\ send_counter a' = send_counter a + 1 /\
    epoch (keys b') = epoch (keys a) /\ receive_watermark b' = send_counter a' /\
    receive_watermark a' = receive_watermark a /\ (epoch (keys a) = epoch (keys b) -> send_counter b' = send_counter b).
Proof.
  intros Ha Hb Hs Heb Hep Hea Hw Hpt Hl. pose proof Ha as [Ha1 Ha2 Ha3 Ha4 Ha5 Ha6 _].
  assert (Hkey : key_for (keys a) d
    = key_for (derive_epoch (chain prk (Z.to_nat (epoch (keys a)))) th (epoch (keys a))) d)
    by (by rewrite Ha5, Ha4 at 1).
  destruct (aead_correct (key_for (keys a) d) (control_nonce d (epoch (keys a)) (send_counter a))
    (control_aad d (epoch (keys a)) (send_counter a) ft fl rid) pt) as (ct & Henc & _ & _ & Hdec);
    [rewrite Hkey; apply epoch_key_array|apply control_nonce_array|done|done|].
  destruct (seal a ft fl rid pt) as [r a'] eqn:Hseal.
  assert (Hr : r = Ok (mkFrame (epoch (keys a)) (send_counter a) ct)).
  { unfold seal in Hseal. destruct (Z.leb_spec MAX_FRAMES_PER_EPOCH (send_counter a)); [lia|].
    unfold seal_with in Hseal. rewrite Ha1, Henc in Hseal. by injection Hseal as <- _. }
  subst r. pose proof (seal_cases _ _ _ _ _ _ _ (channel_wf_wf_any _ _ _ _ Ha) Hseal) as (_ & _ & _ & Ha').
  rewrite Hkey in Hdec.
  pose proof (open_accepts prk th d b (epoch (keys a)) (send_counter a) ft fl rid ct pt Hb Heb Hep ltac:(lia) Hw Hdec) as Ho.
  destruct (open b (epoch (keys a)) (send_counter a) ft fl rid ct) as [r b'] eqn:Hopen. cbn in Ho. subst r.
  destruct (step_spec _ _ _ _ (Seal ft fl rid pt) _ a' Ha Hea I ltac:(cbn; by rewrite Hseal)) as [Hwa _].
  destruct (step_spec _ _ _ _ (Open (epoch (keys a)) (send_counter a) ft fl rid ct) _ b' Hb Heb
    ltac:(cbn; lia) ltac:(cbn; by rewrite Hopen)) as [Hwb _].
  pose proof (open_cases _ _ _ _ _ _ _ _ _ (channel_wf_wf_any _ _ _ _ Hb) Heb (proj1 Ha6) Hopen) as (_ & Hb').
  eexists _, a', b'. split_and!; [done|done|done|done|by subst a'|by subst a'| | |by subst a'|];
    destruct Hb' as [(? & _ & ->)|(? & ->)]; subst a'; try done; lia.
Qed.

(** Seal a list of payloads at [a] and open each frame at [b], in order. *)
Fixpoint exchange (a b : ControlChannel) (ft fl rid : Z) (pts : list bytes)
  : list (result ControlError bytes) * (ControlChannel * ControlChannel) :=
  match pts with
  | [] => ([], (a, b))
  | pt :: pts' =>
    match seal a ft fl rid pt with
    | (Ok f, a') =>
        let '(r, b') := open b (f_epoch f) (f_counter f) ft fl rid (f_ciphertext f) in
        let '(rs, ab) := exchange a' b' ft fl rid pts' in
        (r :: rs, ab)
    | (Err e, a') => ([Err e], (a', b))
    | (Panic, a') => ([Panic], (a', b))
    end
  end.

Lemma exchange_spec prk th d a b ft fl rid pts :
  channel_wf prk th d a -> channel_wf prk th (opposite d) b ->
  send_counter a + len pts <= MAX_FRAMES_PER_EPOCH -> epoch (keys a) < U64_MAX ->
  epoch (keys b) <= epoch (keys a) <= epoch (keys b) + 1 ->
  (epoch (keys a) = epoch (keys b) -> receive_watermark b <= send_counter a) ->
  Forall (fun pt => bytes_ok pt /\ len pt <= AEAD_MAX) pts ->
  (exchange a b ft fl rid pts).1 = map Ok pts.
Proof.
  revert a b. induction pts as [|pt pts IH]; intros a b Ha Hb Hn Hea He Hw Hpts; [done|].
  apply Forall_cons_iff in Hpts as [[Hok Hl] Hpts]. rewrite len_cons in Hn. pose proof (len_nonneg pts).
  destruct (deliver prk th d a b ft fl rid pt) as (f & a' & b' & Hs & Ho & Ha' & Hb' & E1 & E2 & E3 & E4);
    try done; try lia.
  cbn [exchange]. rewrite Hs, Ho.
  destruct (exchange a' b' ft fl rid pts) as [rs ab] eqn:Hx. cbn.
  specialize (IH a' b' Ha' Hb'). rewrite Hx in IH. cbn in IH. rewrite IH; [done|lia|lia|lia|lia|done].
Qed.

(** C34: In-order delivery: two endpoints of one handshake, the sender having
    rekeyed or not, exchange any sequence of payloads of up to 2^32 frames
    and the receiver gets exactly those payloads. *)
Theorem control_delivery prk th d rekey ft fl rid pts :
  len pts <= MAX_FRAMES_PER_EPOCH -> Forall (fun pt => bytes_ok pt /\ len pt <= AEAD_MAX) pts ->
  let a := new_channel prk th d in
  (exchange (if rekey : bool then begin_next_epoch a else a) (new_channel prk th (opposite d)) ft fl rid pts).1
    = map Ok pts.
Proof.
  intros Hn Hpts. cbn zeta.
  assert (Ha : channel_wf prk th d (if rekey then begin_next_epoch (new_channel prk th d)
                                     else new_channel prk th d)).
  { destruct rekey; [|apply new_channel_wf].
    apply (step_spec prk th d (new_channel prk th d) Rekey Nothing); [apply new_channel_wf|done|done|done]. }
  eapply exchange_spec; [exact Ha|apply new_channel_wf| | | | |done]; destruct rekey; cbn; try lia; done.
Qed.

(** The associated data of a control frame is 39 bytes and determines the
    direction, epoch, counter, frame type, flags and request id it binds. *)
Theorem control_aad_binds d e n ft fl rid d' e' n' ft' fl' rid' :
  u64 e -> u64 n -> u64 rid -> u64 e' -> u64 n' -> u64 rid' ->
  len (control_aad d e n ft fl rid) = 39 /\
  (control_aad d e n ft fl rid = control_aad d' e' n' ft' fl' rid' ->
   d = d' /\ e = e' /\ n = n' /\ ft = ft' /\ fl = fl' /\ rid = rid').
Proof.
  intros He Hn Hr He' Hn' Hr'. unfold control_aad. split; [by rewrite !len_app, !len_be_bytes|].
  intros H. do 3 apply app_inv_head in H. apply app_inj_1 in H as [Hd H]; [|done].
  apply app_inj_1 in H as [E1 H]; [|done]. apply app_inj_1 in H as [E2 H]; [|done].
  apply app_inj_1 in H as [Hf H]; [|done]. apply app_inj_1 in H as [Hg H]; [|done].
  injection Hd as Hd. injection Hf as ->. injection Hg as ->.
  apply (be_bytes_inj 8) in E1, E2, H; try done. by destruct d, d'.
Qed.
End Traces.

Module ControlWitness.
Import Toy.
Definition prk : bytes := replicate 48 17.
Definition th : bytes := replicate 48 34.
Definition trace : list event :=
  [Seal 1 0 7 [1; 2]; Rekey; Seal 1 0 8 [3]; Open 1 0 1 0 9 [0]; Open 0 0 1 0 9 [0]].

Lemma sent_frames_increase_witness :
  StronglySorted Z.lt (sent (run (new_channel prk th ClientToServer) trace).1).
Proof. apply (sent_frames_increase prk th ClientToServer trace); [done|by repeat constructor]. Defined.

(** A server that accepts the client's two frames. *)
Definition client_trace : list event := [Seal 1 0 7 [1; 2]; Seal 1 0 8 [3]].
Definition deliver_all (outs : list effect) (rids : list Z) : list event :=
  zip_with (fun o rid => match o with
    | Sent f => Open (f_epoch f) (f_counter f) 1 0 rid (f_ciphertext f) | _ => Rekey end) outs rids.
Definition server_trace : list event :=
  deliver_all (run (new_channel prk th ClientToServer) client_trace).1 [7; 8].
Example server_accepts :
  accepted (run (new_channel prk th ServerToClient) (server_trace ++ server_trace)).1 = [0; 1].
Proof. by vm_compute. Qed.

Lemma accepted_frames_increase_witness :
  StronglySorted Z.lt (accepted (run (new_channel prk th ServerToClient) (server_trace ++ server_trace)).1).
Proof.
  apply (accepted_frames_increase prk th ServerToClient (server_trace ++ server_trace)).
  - by vm_compute.
  - vm_compute. by repeat constructor.
Defined.

Lemma refused_frame_changes_nothing_witness :
  let c := new_channel prk th ServerToClient in
  exists c', open c 1 0 1 0 9 [0] = (Err Decrypt, c') /\ c' = c.
Proof.
  cbn zeta. eexists. split; [by vm_compute|].
  apply (refused_frame_changes_nothing prk th ServerToClient (new_channel prk th ServerToClient)
    1 0 1 0 9 [0] Decrypt); [apply new_channel_wf|done|done|by vm_compute].
Defined.

Lemma control_delivery_witness :
  let a := new_channel prk th ClientToServer in
  (exchange (begin_next_epoch a) (new_channel prk th ServerToClient) 1 0 7 [[1]; [2; 3]]).1
    = map Ok [[1]; [2; 3]].
Proof.
  apply (control_delivery prk th ClientToServer true 1 0 7 [[1]; [2; 3]]); [done|].
  by repeat constructor.
Defined.

Lemma control_aad_binds_witness :
  len (control_aad ClientToServer 0 1 2 3 4) = 39 /\
  (control_aad ClientToServer 0 1 2 3 4 = control_aad ServerToClient 0 1 2 3 4 ->
   ClientToServer = ServerToClient /\ 0 = 0 /\ 1 = 1 /\ 2 = 2 /\ 3 = 3 /\ 4 = 4).
Proof. by apply (control_aad_binds ClientToServer 0 1 2 3 4 ServerToClient 0 1 2 3 4). Defined.
End ControlWitness.
