(* ===== verification/Resume.v ===== *)
(** * The resume database (resume.rs)

    The record format, and the commit protocol against a model of the disk:
    which chunks of the object file are written, which are flushed, and which
    record contents a crash can leave behind. *)

From stdpp Require Import gmap.
From S2P Require Import Bitmap Prelude Cbor Wire Crypto.
#[local] Open Scope Z_scope.

(** resume.rs 27-27 [RECORD_VERSION] *)
Definition RECORD_VERSION : Z := 1.
(** resume.rs 28-28 [RECORD_DOMAIN] *)
Definition RECORD_DOMAIN : bytes := lit "RTP2-RESUME-RECORD-v1".
(** resume.rs 30-30 [MAX_RECORD_BYTES] *)
Definition MAX_RECORD_BYTES : Z := 8 * 1024 * 1024.
(** resume.rs 33-33 [DEFAULT_CHECKPOINT_CHUNKS] *)
Definition DEFAULT_CHECKPOINT_CHUNKS : Z := 64.

(** The text of an I/O error is not modelled.  resume.rs 36-42 [ResumeError] *)
Inductive ResumeError : Type := Io | Corrupt | VersionMismatch | ObjectMismatch.
(** resume.rs 55-59 [From] *)
#[export] Instance resume_from_cbor : From CborError ResumeError := fun _ => Corrupt.

(** resume.rs 67-75 [ObjectIdentity] *)
Record ObjectIdentity : Type := mkIdentity {
  transfer_id : bytes;
  object_id : bytes;
  manifest_commitment : bytes;
  ciphertext_root : bytes;
  chunk_count : Z;
  chunk_ciphertext_size : Z;
  logical_plaintext_size : Z
}.

(** resume.rs 85-92 [ObjectIdentity::matches] *)
Definition matches (a b : ObjectIdentity) : bool :=
  bytes_eqb (transfer_id a) (transfer_id b) && bytes_eqb (object_id a) (object_id b) &&
  bytes_eqb (ciphertext_root a) (ciphertext_root b) && (chunk_count a =? chunk_count b) &&
  (chunk_ciphertext_size a =? chunk_ciphertext_size b) &&
  (logical_plaintext_size a =? logical_plaintext_size b).

(** resume.rs 97-104 [ResumeRecord] *)
Record ResumeRecord : Type := mkRecord {
  identity : ObjectIdentity;
  verified : ChunkBitmap;
  durable : ChunkBitmap;
  temporary_path : bytes;
  last_provider : bytes;
  last_activity : Z
}.

(** resume.rs 107-118 [ResumeRecord::new] *)
Definition new_record (i : ObjectIdentity) (path : bytes) : result ResumeError ResumeRecord :=
  let* b := map_err (fun _ => Corrupt) (Bitmap.new (chunk_count i)) in
  Ok (mkRecord i b b path [] 0).

(** resume.rs 121-123 [ResumeRecord::missing_ranges] *)
Definition record_missing_ranges (r : ResumeRecord) (max : Z) : list (Z * Z) :=
  Bitmap.missing_ranges (durable r) max.
(** resume.rs 125-127 [ResumeRecord::is_complete] *)
Definition record_is_complete (r : ResumeRecord) : bool := Bitmap.is_complete (durable r).

(** The map of a record; the bitmaps are run-length encoded byte strings. *)
Record RawRecord : Type := mkRaw {
  raw_identity : ObjectIdentity;
  raw_verified : bytes;
  raw_durable : bytes;
  raw_path : bytes;
  raw_activity : Z
}.

(** resume.rs 130-144 [ResumeRecord::encode] *)
Definition write_record {E} (r : ResumeRecord) : Writer.t -> result E Writer.t :=
  write_map 12 [
    MapWriter.uint 0 RECORD_VERSION;
    MapWriter.bytes 1 (transfer_id (identity r));
    MapWriter.bytes 2 (object_id (identity r));
    MapWriter.bytes 3 (manifest_commitment (identity r));
    MapWriter.bytes 4 (ciphertext_root (identity r));
    MapWriter.uint 5 (chunk_count (identity r));
    MapWriter.uint 6 (chunk_ciphertext_size (identity r));
    MapWriter.uint 7 (logical_plaintext_size (identity r));
    MapWriter.bytes 8 (Bitmap.encode_rle (verified r));
    MapWriter.bytes 9 (Bitmap.encode_rle (durable r));
    MapWriter.text 10 (temporary_path r);
    MapWriter.uint 11 (last_activity r)].

(** resume.rs 172-203 [ResumeRecord::decode] *)
Definition read_record : M Reader.t ResumeError RawRecord :=
  in_map (
    expect 0 ;;; version <- get Reader.uint ;;
    guard (version =? RECORD_VERSION) VersionMismatch ;;;
    expect 1 ;;; tid <- get (Reader.bytes_exact 32) ;;
    expect 2 ;;; oid <- get (Reader.bytes_exact 32) ;;
    expect 3 ;;; commitment <- get (Reader.bytes_exact 32) ;;
    expect 4 ;;; root <- get (Reader.bytes_exact 32) ;;
    expect 5 ;;; count <- get Reader.uint ;;
    expect 6 ;;; size <- get Reader.uint ;;
    expect 7 ;;; plain <- get Reader.uint ;;
    expect 8 ;;; verified_rle <- get Reader.bytes ;;
    expect 9 ;;; durable_rle <- get Reader.bytes ;;
    expect 10 ;;; path <- get Reader.text ;;
    expect 11 ;;; activity <- get Reader.uint ;;
    no_more Corrupt ;;;
    ret (mkRaw (mkIdentity tid oid commitment root count size plain) verified_rle durable_rle path activity)).

Section Record.
Context {P : Primitives}.

(** resume.rs 129-158 [ResumeRecord::encode] *)
Definition encode_record {E} (r : ResumeRecord) : result E bytes :=
  let* w := write_record r Writer.new in
  let body := Writer.into_bytes w in
  let checksum := blake3_hash (RECORD_DOMAIN ++ body) in
  Ok (checksum ++ body).

(** resume.rs 160-226 [ResumeRecord::decode] *)
Definition decode_record (b : bytes) : result ResumeError ResumeRecord :=
  if (len b <? 32) || (MAX_RECORD_BYTES <? len b) then Err Corrupt else
  let checksum := take 32 b in
  let body := drop 32 b in
  if negb (ct_eq checksum (blake3_hash (RECORD_DOMAIN ++ body))) then Err Corrupt else
  let* raw := decode_unbounded body read_record in
  let* v := map_err (fun _ => Corrupt) (Bitmap.decode_rle (chunk_count (raw_identity raw)) (raw_verified raw)) in
  let* d := map_err (fun _ => Corrupt) (Bitmap.decode_rle (chunk_count (raw_identity raw)) (raw_durable raw)) in
  Ok (mkRecord (raw_identity raw) v d (raw_path raw) [] (raw_activity raw)).
End Record.

(** ** The database and the disk *)
(** resume.rs 230-236 [ResumeDb] *)
Record ResumeDb : Type := mkDb { record : ResumeRecord; pending : Z; checkpoint_interval : Z }.

(** The disk: chunks written to the object file, chunks flushed to stable
    storage, the record file as a reader sees it, and every record content
    that may be there after a power loss (a rename is not final until the
    directory is synced). *)
Record Disk : Type := mkDisk {
  written : gset Z;
  synced : gset Z;
  record_file : option bytes;
  surviving : list (option bytes)
}.

(** Outcome of each system call of [checkpoint]. *)
Record CheckpointIo : Type := mkIo { create_ok : bool; write_ok : bool; fsync_ok : bool; rename_ok : bool; dirsync_ok : bool }.

Section Db.
Context {P : Primitives}.

(** [file] is what [std::fs::read] returned.  resume.rs 245-270 [ResumeDb::open] *)
Definition open_db (file : option bytes) (i : ObjectIdentity) (path : bytes)
  : result ResumeError (ResumeDb * bool) :=
  let fresh := let* r := new_record i path in Ok (mkDb r 0 DEFAULT_CHECKPOINT_CHUNKS, false) in
  match file with
  | Some b =>
    match decode_record b with
    | Ok stored =>
        if matches (identity stored) i
        then Ok (mkDb stored 0 DEFAULT_CHECKPOINT_CHUNKS, 0 <? Bitmap.set_count (durable stored))
        else fresh
    | _ => fresh
    end
  | None => fresh
  end.

(** resume.rs 272-275 [ResumeDb::with_checkpoint_interval] *)
Definition with_checkpoint_interval (db : ResumeDb) (chunks : Z) : ResumeDb :=
  mkDb (record db) (pending db) (Z.max chunks 1).

Definition set_record (db : ResumeDb) (r : ResumeRecord) : ResumeDb :=
  mkDb r (pending db) (checkpoint_interval db).

(** resume.rs 294-300 [ResumeDb::mark_verified] *)
Definition mark_verified (index : Z) (db : ResumeDb) : result ResumeError unit * ResumeDb :=
  let r := record db in
  match Bitmap.set index (verified r) with
  | Ok (_, v) => (Ok tt, set_record db (mkRecord (identity r) v (durable r) (temporary_path r)
                                           (last_provider r) (last_activity r)))
  | Err _ => (Err Corrupt, db)
  | Panic => (Panic, db)
  end.

(** resume.rs 363-365 [ResumeDb::set_last_activity] *)
Definition set_last_activity (t : Z) (db : ResumeDb) : ResumeDb :=
  let r := record db in
  set_record db (mkRecord (identity r) (verified r) (durable r) (temporary_path r) (last_provider r) t).

(** resume.rs 369-389 [ResumeDb::checkpoint] *)
Definition checkpoint (io : CheckpointIo) (db : ResumeDb) (dk : Disk)
  : result ResumeError unit * (ResumeDb * Disk) :=
  match encode_record (E := ResumeError) (record db) with
  | Ok encoded =>
    if negb (create_ok io) then (Err Io, (db, dk)) else
    if negb (write_ok io) then (Err Io, (db, dk)) else
    if negb (fsync_ok io) then (Err Io, (db, dk)) else
    if negb (rename_ok io) then (Err Io, (db, dk)) else
    let dk' := mkDisk (written dk) (synced dk) (Some encoded)
                 (if dirsync_ok io then [Some encoded] else Some encoded :: surviving dk) in
    (Ok tt, (mkDb (record db) 0 (checkpoint_interval db), dk'))
  | Err e => (Err e, (db, dk))
  | Panic => (Panic, (db, dk))
  end.

(** [sync_data] makes every written chunk durable, or fails.
    resume.rs 311-335 [ResumeDb::chunk_written] *)
Definition chunk_written (index : Z) (sync_ok : bool) (io : CheckpointIo) (db : ResumeDb) (dk : Disk)
  : result ResumeError unit * (ResumeDb * Disk) :=
  let r := record db in
  match Bitmap.set index (durable r) with
  | Ok (fresh, d) =>
    let db1 := mkDb (mkRecord (identity r) (verified r) d (temporary_path r) (last_provider r) (last_activity r))
                 (if fresh then pending db + 1 else pending db) (checkpoint_interval db) in
    if pending db1 <? checkpoint_interval db1 then (Ok tt, (db1, dk)) else
    if negb sync_ok then (Err Io, (db1, dk)) else
    checkpoint io db1 (mkDisk (written dk) (written dk) (record_file dk) (surviving dk))
  | Err _ => (Err Corrupt, (db, dk))
  | Panic => (Panic, (db, dk))
  end.

(** resume.rs 392-398 [ResumeDb::remove] *)
Definition remove (remove_ok : bool) (dk : Disk) : result ResumeError unit * Disk :=
  match record_file dk with
  | None => (Ok tt, dk)
  | Some _ =>
      if remove_ok then (Ok tt, mkDisk (written dk) (synced dk) None (None :: surviving dk))
      else (Err Io, dk)
  end.
End Db.

(** ** The record format *)
Definition raw_value (r : RawRecord) : value :=
  VMap [(0, VUint RECORD_VERSION); (1, VBytes (transfer_id (raw_identity r)));
        (2, VBytes (object_id (raw_identity r))); (3, VBytes (manifest_commitment (raw_identity r)));
        (4, VBytes (ciphertext_root (raw_identity r))); (5, VUint (chunk_count (raw_identity r)));
        (6, VUint (chunk_ciphertext_size (raw_identity r)));
        (7, VUint (logical_plaintext_size (raw_identity r)));
        (8, VBytes (raw_verified r)); (9, VBytes (raw_durable r)); (10, VText (raw_path r));
        (11, VUint (raw_activity r))].
Definition identity_wf (i : ObjectIdentity) : Prop :=
  array 32 (transfer_id i) /\ array 32 (object_id i) /\ array 32 (manifest_commitment i) /\
  array 32 (ciphertext_root i) /\ u64 (chunk_count i) /\ u64 (chunk_ciphertext_size i) /\
  u64 (logical_plaintext_size i).
Definition raw_wf (r : RawRecord) : Prop :=
  identity_wf (raw_identity r) /\ byte_string (raw_verified r) /\ byte_string (raw_durable r) /\
  text_string (raw_path r) /\ u64 (raw_activity r).

#[export] Instance record_codec : codec 1 read_record raw_value raw_wf.
Proof.
  split.
  - intros pre tl d [[a b c e f g h] v w p t] ((H1 & H2 & H3 & H4 & H5 & H6 & H7) & H8 & H9 & H10 & H11) Hd Hd'.
    unfold read_record, raw_value;
      cbn [raw_identity raw_verified raw_durable raw_path raw_activity transfer_id object_id
           manifest_commitment ciphertext_root chunk_count chunk_ciphertext_size
           logical_plaintext_size] in *.
    wforward.
  - intros pre rest d x r Hok Hd H. unfold read_record in H. wbackward H. unfold raw_value;
      cbn [raw_identity raw_verified raw_durable raw_path raw_activity transfer_id object_id
           manifest_commitment ciphertext_root chunk_count chunk_ciphertext_size
           logical_plaintext_size].
    apply Z.eqb_eq in Hg. subst. wfinish. split_and!; done.
Qed.

(** The raw form of a record. *)
Definition to_raw (r : ResumeRecord) : RawRecord :=
  mkRaw (identity r) (Bitmap.encode_rle (verified r)) (Bitmap.encode_rle (durable r))
    (temporary_path r) (last_activity r).

(** Well-formed records: what [new_record] and [decode_record] build and the
    operations keep. *)
Record record_wf (r : ResumeRecord) : Prop := {
  rw_identity : identity_wf (identity r);
  rw_verified : Bitmap.wf (verified r);
  rw_durable : Bitmap.wf (durable r);
  rw_vcount : Bitmap.chunk_count (verified r) = chunk_count (identity r);
  rw_dcount : Bitmap.chunk_count (durable r) = chunk_count (identity r);
  rw_path : text_string (temporary_path r);
  rw_activity : u64 (last_activity r)
}.

Lemma write_record_emits {E} r : emits (write_record (E := E) r) (raw_value (to_raw r)).
Proof. unfold write_record, raw_value. wemit. Qed.

Section Format.
Context {P : Primitives} {L : PrimitiveLaws}.

Definition record_bytes (r : ResumeRecord) : bytes :=
  let body := cbor (raw_value (to_raw r)) in blake3_hash (RECORD_DOMAIN ++ body) ++ body.
Definition without_provider (r : ResumeRecord) : ResumeRecord :=
  mkRecord (identity r) (verified r) (durable r) (temporary_path r) [] (last_activity r).

Lemma encode_record_eq {E} r : encode_record (E := E) r = Ok (record_bytes r).
Proof. unfold encode_record. by rewrite write_record_emits. Qed.

Lemma to_raw_wf r : record_wf r -> raw_wf (to_raw r).
Proof.
  intros [Hi Hv Hd _ _ Hp Ha]. split_and!; try done; by apply Bitmap.encode_rle_ok.
Qed.

Lemma record_bytes_split r :
  take 32 (record_bytes r) = blake3_hash (RECORD_DOMAIN ++ cbor (raw_value (to_raw r))) /\
  drop 32 (record_bytes r) = cbor (raw_value (to_raw r)) /\ 32 <= len (record_bytes r).
Proof.
  unfold record_bytes. set (body := cbor _). destruct (blake3_len (RECORD_DOMAIN ++ body)) as [Hl _].
  assert (Hl' : length (blake3_hash (RECORD_DOMAIN ++ body)) = 32%nat) by (unfold len in Hl; lia).
  rewrite <- Hl' at 1 2. rewrite take_app_length, drop_app_length, len_app, Hl.
  pose proof (len_nonneg body). split_and!; [done|done|lia].
Qed.

(** What [decode_record] makes of an encoded record, at any size. *)
Lemma decode_record_bytes r : record_wf r ->
  decode_record (record_bytes r)
    = if MAX_RECORD_BYTES <? len (record_bytes r) then Err Corrupt else Ok (without_provider r).
Proof.
  intros Hr. destruct (record_bytes_split r) as (Ht & Hd & Hl). unfold decode_record.
  destruct (Z.ltb_spec (len (record_bytes r)) 32); [lia|]. cbn [orb].
  destruct (MAX_RECORD_BYTES <? len (record_bytes r)); [done|]. rewrite Ht, Hd.
  assert (Hc : forall x, ct_eq x x = true) by (intros x; by apply ct_eq_true).
  rewrite Hc. cbn [negb]. rewrite decode_unbounded_message by (done || by apply to_raw_wf).
  cbn [rbind to_raw raw_identity raw_verified raw_durable raw_path raw_activity].
  destruct Hr as [_ Hv Hdu Hvc Hdc _ _].
  rewrite <- Hvc, Bitmap.decode_encode_rle, Hvc by done. cbn [map_err rbind].
  rewrite <- Hdc, Bitmap.decode_encode_rle by done. done.
Qed.

(** Resume records survive the disk: decoding the encoding of a record
    gives back the identity, both bitmaps, the path and the activity time
    (never the provider), unless the record exceeds the 8 MiB cap, in which
    case it is refused as corrupt. *)
Theorem record_roundtrip r : record_wf r ->
  exists b, encode_record (E := ResumeError) r = Ok b /\
    decode_record b = if MAX_RECORD_BYTES <? len b then Err Corrupt else Ok (without_provider r).
Proof.
  intros Hr. exists (record_bytes r). split; [apply encode_record_eq|by apply decode_record_bytes].
Qed.

Lemma decode_record_wf b r : bytes_ok b -> decode_record b = Ok r -> record_wf r.
Proof.
  intros Hok H. unfold decode_record in H. destruct (_ || _); [done|]. destruct (negb _); [done|].
  minv H. minv Hk. minv Hk0. injection Hk as <-.
  apply decode_unbounded_inv in Hp as [_ (Hi & _ & _ & Hpath & Ha)]; [|by apply Forall_drop].
  minv Hp0. minv Hp1. assert (Hn : u64 (chunk_count (raw_identity a))) by apply Hi.
  pose proof (Bitmap.decode_rle_total _ (raw_verified a) Hn) as H1. rewrite Hp0 in H1.
  pose proof (Bitmap.decode_rle_total _ (raw_durable a) Hn) as H2. rewrite Hp1 in H2.
  destruct H1, H2. by split.
Qed.

Lemma new_record_wf i path r : identity_wf i -> text_string path -> new_record i path = Ok r ->
  record_wf r /\ identity r = i /\ forall k, 0 <= k -> Bitmap.get (durable r) k <> Ok true.
Proof.
  intros Hi Hp H. unfold new_record in H. minv H. minv Hp0. injection Hk as <-. cbn.
  assert (Hn : 0 <= chunk_count i <= Bitmap.MAX_CHUNK_COUNT).
  { destruct Hi as (_ & _ & _ & _ & [? _] & _). split; [done|]. unfold Bitmap.new in Hp0.
    destruct (Z.ltb_spec Bitmap.MAX_CHUNK_COUNT (chunk_count i)); [done|lia]. }
  destruct (Bitmap.new_spec _ Hn) as (b & Hb & Hwf & Hc & Hz). rewrite Hb in Hp0. injection Hp0 as <-.
  split_and!; [by split|done|]. intros k Hk0 Hk.
  destruct (decide (k < Bitmap.chunk_count b)) as [Hr|Hr].
  - destruct (Bitmap.get_spec b k Hwf ltac:(lia)) as (v & Hg & Hv). rewrite Hz in Hv.
    apply lookup_replicate in Hv as [-> _]. congruence.
  - unfold Bitmap.get in Hk. destruct (Z.leb_spec (Bitmap.chunk_count b) k); [done|lia].
Qed.
End Format.

(** ** Crash consistency *)
Record World : Type := mkWorld { w_db : ResumeDb; w_disk : Disk }.

(** [flush] followed by a successful [sync_all]. *)
Definition synced_disk (dk : Disk) : Disk :=
  mkDisk (written dk) (written dk) (record_file dk) (surviving dk).

Section Crash.
Context {P : Primitives} {L : PrimitiveLaws}.
Context (i : ObjectIdentity) (path : bytes).

(** What can happen while a transfer runs: the receiver writes the bytes of a
    chunk, marks it, reports it written, checkpoints after a flush, or the
    machine loses power and the next attempt opens what is left.  System
    calls may fail at any point. *)
Inductive world_step : World -> World -> Prop :=
| step_write k w : 0 <= k -> world_step w (mkWorld (w_db w)
    (mkDisk ({[k]} ∪ written (w_disk w)) (synced (w_disk w)) (record_file (w_disk w)) (surviving (w_disk w))))
| step_verified k w r db' : 0 <= k -> mark_verified k (w_db w) = (r, db') ->
    world_step w (mkWorld db' (w_disk w))
| step_chunk k sync_ok io w r db' dk' : 0 <= k -> k ∈ written (w_disk w) ->
    chunk_written k sync_ok io (w_db w) (w_disk w) = (r, (db', dk')) ->
    world_step w (mkWorld db' dk')
| step_final io w r db' dk' :
    checkpoint io (w_db w) (synced_disk (w_disk w)) = (r, (db', dk')) ->
    world_step w (mkWorld db' dk')
| step_crash w file kept db' resumed :
    file ∈ surviving (w_disk w) -> synced (w_disk w) ⊆ kept -> kept ⊆ written (w_disk w) ->
    open_db file i path = Ok (db', resumed) ->
    world_step w (mkWorld db' (mkDisk kept kept file [file])).

Inductive reachable : World -> Prop :=
| reach_start db0 r0 kept : open_db None i path = Ok (db0, r0) ->
    reachable (mkWorld db0 (mkDisk kept kept None [None]))
| reach_step w w' : reachable w -> world_step w w' -> reachable w'.

(** The chunks a record file names are flushed. *)
Definition names_only (file : option bytes) (s : gset Z) : Prop :=
  forall b, file = Some b -> bytes_ok b /\
    forall r, decode_record b = Ok r -> forall k, 0 <= k -> Bitmap.get (durable r) k = Ok true -> k ∈ s.

Record world_inv (w : World) : Prop := {
  wi_record : record_wf (record (w_db w));
  wi_durable k : 0 <= k -> Bitmap.get (durable (record (w_db w))) k = Ok true -> k ∈ written (w_disk w);
  wi_synced : synced (w_disk w) ⊆ written (w_disk w);
  wi_surviving : Forall (fun f => names_only f (synced (w_disk w))) (surviving (w_disk w))
}.

Lemma names_only_mono f s s' : s ⊆ s' -> names_only f s -> names_only f s'.
Proof. intros Hs Hn b Hb. destruct (Hn b Hb) as [Hok Hr]. split; [done|]. intros. apply Hs. by eapply Hr. Qed.

Lemma record_bytes_ok r : record_wf r -> bytes_ok (record_bytes r).
Proof.
  intros Hr. unfold record_bytes. apply bytes_ok_app. split; [apply blake3_len|].
  apply to_raw_wf in Hr as ((? & ? & ? & ? & ? & ? & ?) & ? & ? & [? _] & ?). apply cbor_bytes_ok.
  unfold raw_value. vok.
Qed.

(** A checkpoint taken when everything durable in memory is flushed. *)
Lemma checkpoint_inv io db dk r db' dk' :
  record_wf (record db) ->
  (forall k, 0 <= k -> Bitmap.get (durable (record db)) k = Ok true -> k ∈ synced dk) ->
  synced dk ⊆ written dk -> Forall (fun f => names_only f (synced dk)) (surviving dk) ->
  checkpoint io db dk = (r, (db', dk')) ->
  record db' = record db /\ written dk' = written dk /\ synced dk' = synced dk /\
  Forall (fun f => names_only f (synced dk')) (surviving dk').
Proof.
  intros Hr Hd Hs Hsv. unfold checkpoint. rewrite encode_record_eq.
  assert (Hnew : names_only (Some (record_bytes (record db))) (synced dk)).
  { intros b [= <-]. split; [by apply record_bytes_ok|]. intros r1 Hr1 k Hk Hg.
    rewrite decode_record_bytes in Hr1 by done. destruct (_ <? _); [done|].
    injection Hr1 as <-. by apply Hd. }
  destruct (create_ok io), (write_ok io), (fsync_ok io), (rename_ok io); cbn [negb];
    intros [= <- <- <-]; split_and!; try done. cbn.
  destruct (dirsync_ok io); repeat (constructor; try done).
Qed.

Lemma open_db_inv file db resumed : identity_wf i -> text_string path ->
  (forall b, file = Some b -> bytes_ok b) -> open_db file i path = Ok (db, resumed) ->
  record_wf (record db) /\
  forall k, 0 <= k -> Bitmap.get (durable (record db)) k = Ok true ->
    exists b r, file = Some b /\ decode_record b = Ok r /\ Bitmap.get (durable r) k = Ok true.
Proof.
  intros Hi Hp Hok H. unfold open_db in H. cbn zeta in H.
  assert (Hfresh : (let* r := new_record i path in Ok (mkDb r 0 DEFAULT_CHECKPOINT_CHUNKS, false))
      = Ok (db, resumed) -> record_wf (record db) /\
    forall k, 0 <= k -> Bitmap.get (durable (record db)) k = Ok true -> False).
  { intros Hf. minv Hf. injection Hk as <- <-. cbn. destruct (new_record_wf _ _ _ Hi Hp Hp0) as (? & _ & Hn).
    split; [done|]. intros k Hk Hg. by apply (Hn k). }
  assert (Hfresh' : (let* r := new_record i path in Ok (mkDb r 0 DEFAULT_CHECKPOINT_CHUNKS, false))
      = Ok (db, resumed) -> record_wf (record db) /\
    forall k, 0 <= k -> Bitmap.get (durable (record db)) k = Ok true ->
    exists b r, file = Some b /\ decode_record b = Ok r /\ Bitmap.get (durable r) k = Ok true).
  { intros Hf. destruct (Hfresh Hf) as [? Hn]. split; [done|]. intros k Hk Hg. by destruct (Hn k Hk Hg). }
  destruct file as [b|]; [|by apply Hfresh'].
  destruct (decode_record b) as [stored|e|] eqn:Hdec; [|by apply Hfresh'..].
  destruct (matches _ _); [|by apply Hfresh']. injection H as <- <-. cbn.
  split; [eapply decode_record_wf; [by apply Hok|done]|]. intros k Hk Hg. by exists b, stored.
Qed.

(** Whatever the record file holds, the bitmaps of the database are
    well-formed and of the size of the object. *)
Lemma open_db_bitmap file id p db resumed : (forall b, file = Some b -> bytes_ok b) ->
  0 <= chunk_count id <= Bitmap.MAX_CHUNK_COUNT -> open_db file id p = Ok (db, resumed) ->
  Bitmap.wf (durable (record db)) /\ Bitmap.chunk_count (durable (record db)) = chunk_count id /\
  (file = None -> forall k, 0 <= k -> Bitmap.get (durable (record db)) k <> Ok true).
Proof.
  intros Hok Hn H. unfold open_db in H. cbn zeta in H.
  assert (Hfresh : (let* r := new_record id p in Ok (mkDb r 0 DEFAULT_CHECKPOINT_CHUNKS, false)) = Ok (db, resumed) ->
    Bitmap.wf (durable (record db)) /\ Bitmap.chunk_count (durable (record db)) = chunk_count id /\
    (file = None -> forall k, 0 <= k -> Bitmap.get (durable (record db)) k <> Ok true)).
  { unfold new_record. destruct (Bitmap.new_spec (chunk_count id)) as (b & Hb & Hwf & Hbc & Hcont); [exact Hn|].
    rewrite Hb. cbn [map_err rbind]. intros [= <- _]. cbn [record durable]. split; [exact Hwf|]. split; [exact Hbc|].
    intros _ k Hk Hget. apply Bitmap.get_true in Hget; [|done..]. rewrite Hcont in Hget. by apply lookup_replicate in Hget as [? _]. }
  destruct file as [b|]; [|by apply Hfresh]. destruct (decode_record b) as [stored|e|] eqn:Hdec; [|by apply Hfresh..].
  destruct (matches (identity stored) id) eqn:Hm; [|by apply Hfresh]. injection H as <- _. cbn [record].
  apply decode_record_wf in Hdec as [_ _ Hwf _ Hc _ _]; [|by apply Hok]. split; [exact Hwf|]. split; [|done].
  rewrite Hc. unfold matches in Hm. repeat (apply andb_true_iff in Hm as [Hm ?]).
  repeat match goal with H : (_ =? _) = true |- _ => apply Z.eqb_eq in H end. assumption.
Qed.

Lemma record_wf_durable r d : record_wf r -> Bitmap.wf d ->
  Bitmap.chunk_count d = Bitmap.chunk_count (durable r) ->
  record_wf (mkRecord (identity r) (verified r) d (temporary_path r) (last_provider r) (last_activity r)).
Proof. intros [] Hd Hc. split; cbn; try done. congruence. Qed.
Lemma record_wf_verified r v : record_wf r -> Bitmap.wf v ->
  Bitmap.chunk_count v = Bitmap.chunk_count (verified r) ->
  record_wf (mkRecord (identity r) v (durable r) (temporary_path r) (last_provider r) (last_activity r)).
Proof. intros [] Hd Hc. split; cbn; try done. congruence. Qed.

Lemma chunk_written_inv k sync_ok io db dk r db' dk' :
  0 <= k -> k ∈ written dk -> world_inv (mkWorld db dk) ->
  chunk_written k sync_ok io db dk = (r, (db', dk')) -> world_inv (mkWorld db' dk').
Proof.
  intros Hk Hkw [Hr Hd Hs Hsv] H. cbn in *. unfold chunk_written in H.
  destruct (Bitmap.set k (durable (record db))) as [[fresh d]|e|] eqn:Hset;
    [|by injection H as _ <- <-; split..].
  destruct (Bitmap.set_ok _ _ _ _ (rw_durable _ Hr) Hk Hset) as (Hwf & Hn & _ & Hget).
  pose proof (record_wf_durable _ d Hr Hwf Hn) as Hr1.
  set (db1 := mkDb _ (if fresh then pending db + 1 else pending db) _) in *.
  assert (Hd1 : forall k, 0 <= k -> Bitmap.get (durable (record db1)) k = Ok true -> k ∈ written dk).
  { intros k' Hk' Hg. apply Hget in Hg as [->|Hg]; [done|by apply Hd|done]. }
  destruct (pending db1 <? checkpoint_interval db1); [injection H as _ <- <-; by split|].
  destruct sync_ok; cbn [negb] in H; [|injection H as _ <- <-; by split].
  apply checkpoint_inv in H as (Hrec & Hw & Hsy & Hsv'); cbn in *; [|done|done|done|].
  - split; cbn; rewrite ?Hrec, ?Hw, ?Hsy; [done|done|set_solver|]. by rewrite Hsy in Hsv'.
  - eapply Forall_impl; [exact Hsv|]. intros f. by apply names_only_mono.
Qed.

Lemma world_step_inv w w' : identity_wf i -> text_string path ->
  world_inv w -> world_step w w' -> world_inv w'.
Proof.
  intros Hi Hp Hinv Hst. destruct Hst as [k w Hk|k w r db' Hk Hm|k sync_ok io w r db' dk' Hk Hkw Hc
    |io w r db' dk' Hc|w file kept db' resumed Hf Hsk Hkw Ho]; destruct w as [db dk].
  - destruct Hinv as [Hr Hd Hs Hsv]. split; cbn in *; [done| |set_solver|done].
    intros k' Hk' Hg. apply elem_of_union. right. by apply Hd.
  - destruct Hinv as [Hr Hd Hs Hsv]. cbn in *. unfold mark_verified in Hm.
    destruct (Bitmap.set k (verified (record db))) as [[b v]|e|] eqn:Hset;
      injection Hm as _ <-; [|by split..].
    destruct (Bitmap.set_ok _ _ _ _ (rw_verified _ Hr) Hk Hset) as (Hwf & Hn & _ & _).
    split; cbn; try done. by apply record_wf_verified.
  - by eapply chunk_written_inv.
  - destruct Hinv as [Hr Hd Hs Hsv]. cbn in *.
    apply checkpoint_inv in Hc as (Hrec & Hw & Hsy & Hsv'); cbn in *; [|done|done|done|].
    + split; cbn; rewrite ?Hrec, ?Hw, ?Hsy; [done|done|set_solver|]. by rewrite Hsy in Hsv'.
    + eapply Forall_impl; [exact Hsv|]. intros f. by apply names_only_mono.
  - destruct Hinv as [Hr Hd Hs Hsv]. cbn in *.
    assert (Hnf : names_only file (synced dk)) by (by eapply Forall_forall in Hsv).
    destruct (open_db_inv file db' resumed Hi Hp (fun b Hb => proj1 (Hnf b Hb)) Ho) as [Hr' Hdur].
    split; cbn; [done| |done|constructor; [|constructor]; by eapply names_only_mono].
    intros k Hk Hg. destruct (Hdur k Hk Hg) as (b & r & Hb & Hdec & Hgr).
    apply Hsk. by eapply (proj2 (Hnf b Hb)).
Qed.

(** The invariant holds on every run. *)
Lemma reachable_inv w : identity_wf i -> text_string path -> reachable w -> world_inv w.
Proof.
  intros Hi Hp. induction 1 as [db0 r0 kept Ho|w w' _ IH Hst]; [|by eapply world_step_inv].
  destruct (open_db_inv None db0 r0 Hi Hp ltac:(done) Ho) as [Hr Hd].
  split; cbn; [done| |done|by repeat constructor].
  intros k Hk Hg. by destruct (Hd k Hk Hg) as (b & r & Hb & _).
Qed.

(** C33: Crash consistency of resume: whatever sequence of chunk writes,
    checkpoints, failing system calls and earlier crashes preceded it, after a
    power loss every chunk the reopened record calls durable was flushed to
    the object file, so a resume never skips a chunk whose bytes are gone. *)
Theorem resume_never_skips_lost_chunk w file db resumed :
  identity_wf i -> text_string path -> reachable w ->
  file ∈ surviving (w_disk w) -> open_db file i path = Ok (db, resumed) ->
  forall k, 0 <= k -> Bitmap.get (durable (record db)) k = Ok true -> k ∈ synced (w_disk w).
Proof.
  intros Hi Hp Hw Hf Ho k Hk Hg. apply reachable_inv in Hw as [_ _ _ Hsv]; [|done|done].
  assert (Hnf : names_only file (synced (w_disk w))) by (by eapply Forall_forall in Hsv).
  destruct (open_db_inv file db resumed Hi Hp (fun b Hb => proj1 (Hnf b Hb)) Ho) as [_ Hdur].
  destruct (Hdur k Hk Hg) as (b & r & Hb & Hdec & Hgr). by eapply (proj2 (Hnf b Hb)).
Qed.

(** [open_db] resumes only from a record of the same object: it adopts the
    stored record exactly when it decodes and agrees on transfer, object,
    root, chunk count and sizes, and otherwise starts with nothing marked. *)
Theorem open_db_adopts file db resumed : identity_wf i -> text_string path ->
  open_db file i path = Ok (db, resumed) ->
  (exists b stored, file = Some b /\ decode_record b = Ok stored /\ record db = stored /\
     transfer_id (identity stored) = transfer_id i /\ object_id (identity stored) = object_id i /\
     ciphertext_root (identity stored) = ciphertext_root i /\
     chunk_count (identity stored) = chunk_count i /\
     chunk_ciphertext_size (identity stored) = chunk_ciphertext_size i /\
     logical_plaintext_size (identity stored) = logical_plaintext_size i)
  \/ (resumed = false /\ identity (record db) = i /\
      forall k, 0 <= k -> Bitmap.get (durable (record db)) k <> Ok true).
Proof.
  intros Hi Hp H. unfold open_db in H. cbn zeta in H.
  assert (Hfresh : (let* r := new_record i path in Ok (mkDb r 0 DEFAULT_CHECKPOINT_CHUNKS, false))
      = Ok (db, resumed) -> resumed = false /\ identity (record db) = i /\
      forall k, 0 <= k -> Bitmap.get (durable (record db)) k <> Ok true).
  { intros Hf. minv Hf. injection Hk as <- <-. cbn. by destruct (new_record_wf _ _ _ Hi Hp Hp0). }
  destruct file as [b|]; [|right; by apply Hfresh].
  destruct (decode_record b) as [stored|e|] eqn:Hdec; [|right; by apply Hfresh..].
  destruct (matches (identity stored) i) eqn:Hm; [|right; by apply Hfresh].
  injection H as <- _. left. exists b, stored. unfold matches in Hm.
  rewrite !andb_true_iff, !bytes_eqb_true, !Z.eqb_eq in Hm. destruct_and!. by split_and!.
Qed.
End Crash.

Module ResumeWitness.
Import Toy.
Definition ident : ObjectIdentity :=
  mkIdentity (replicate 32 1) (replicate 32 2) (replicate 32 3) (replicate 32 4) 2 65552 65537.
Definition where_to : bytes := lit "/tmp/object".
Definition all_ok : CheckpointIo := mkIo true true true true true.
Lemma ident_wf : identity_wf ident.
Proof. split_and!; first [done | by repeat constructor]. Qed.
Lemma where_to_ok : text_string where_to.
Proof. split; [split; [by repeat constructor|done]|done]. Qed.

Definition db0 : ResumeDb :=
  mkDb (mkRecord ident (mkBitmap 2 [0] 0) (mkBitmap 2 [0] 0) where_to [] 0) 0 DEFAULT_CHECKPOINT_CHUNKS.
Definition rec1 : ResumeRecord := mkRecord ident (mkBitmap 2 [0] 0) (mkBitmap 2 [128] 1) where_to [] 0.
Definition db1 : ResumeDb := mkDb rec1 1 DEFAULT_CHECKPOINT_CHUNKS.
Definition db2 : ResumeDb := mkDb rec1 0 DEFAULT_CHECKPOINT_CHUNKS.
Definition disk0 : Disk := mkDisk ∅ ∅ None [None].
Definition disk1 : Disk := mkDisk ({[0]} ∪ ∅) ∅ None [None].
Definition disk2 : Disk :=
  mkDisk ({[0]} ∪ ∅) ({[0]} ∪ ∅) (Some (record_bytes rec1)) [Some (record_bytes rec1)].

Lemma world2_reachable : reachable ident where_to (mkWorld db2 disk2).
Proof.
  eapply reach_step; [eapply (reach_step _ _ _ (mkWorld db1 disk1));
    [eapply (reach_step _ _ _ (mkWorld db0 disk1));
      [apply (reach_start ident where_to db0 false ∅); by vm_compute|]|]|].
  - by apply (step_write ident where_to 0 (mkWorld db0 disk0)).
  - apply (step_chunk ident where_to 0 true all_ok (mkWorld db0 disk1) (Ok tt)); [done| |by vm_compute].
    cbn. set_solver.
  - apply (step_final ident where_to all_ok (mkWorld db1 disk1) (Ok tt)). by vm_compute.
Qed.

Lemma record_roundtrip_witness :
  exists b, encode_record (E := ResumeError) rec1 = Ok b /\
    decode_record b = if MAX_RECORD_BYTES <? len b then Err Corrupt else Ok (without_provider rec1).
Proof.
  apply (record_roundtrip rec1).
  assert (Hwf : forall bs c, from_bytes 2 bs = Ok (mkBitmap 2 bs c) -> bytes_ok bs -> Bitmap.wf (mkBitmap 2 bs c)).
  { intros bs c H Hb. rewrite from_bytes_spec in H by done. cbn -[from_bytes] in H.
    destruct (MAX_CHUNK_COUNT <? 2); [done|]. destruct (Z.eqb_spec (len bs) (byte_len 2)); [|done].
    cbn [negb] in H. case_bool_decide; [|done]. injection H as <-. by apply wf_mk. }
  split; [apply ident_wf| | |done|done|apply where_to_ok|done]; apply Hwf; try done; by repeat constructor.
Defined.

Lemma resume_never_skips_lost_chunk_witness :
  Bitmap.get (durable (record db2)) 0 = Ok true /\ 0 ∈ synced disk2.
Proof.
  split; [by vm_compute|]. apply (resume_never_skips_lost_chunk ident where_to (mkWorld db2 disk2)
    (Some (record_bytes rec1)) db2 true);
    [apply ident_wf|apply where_to_ok|apply world2_reachable|by apply list_elem_of_singleton|by vm_compute|lia|by vm_compute].
Defined.

Lemma open_db_adopts_witness :
  (exists b stored, Some (record_bytes rec1) = Some b /\ decode_record b = Ok stored /\ record db2 = stored /\
     transfer_id (identity stored) = transfer_id ident /\ object_id (identity stored) = object_id ident /\
     ciphertext_root (identity stored) = ciphertext_root ident /\
     chunk_count (identity stored) = chunk_count ident /\
     chunk_ciphertext_size (identity stored) = chunk_ciphertext_size ident /\
     logical_plaintext_size (identity stored) = logical_plaintext_size ident)
  \/ (true = false /\ identity (record db2) = ident /\
      forall k, 0 <= k -> Bitmap.get (durable (record db2)) k <> Ok true).
Proof.
  apply (open_db_adopts ident where_to (Some (record_bytes rec1)) db2 true);
    [apply ident_wf|apply where_to_ok|by vm_compute].
Defined.
End ResumeWitness.
