(* ===== verification/Events.v ===== *)
(** * The event queue (events.rs)

    The queue under its mutex is a record; each [push] and each pass of
    [poll]'s loop is one atomic step, and [poll] here is the loop body; the
    loop and the condition variable are in [Waiting]. *)

From S2P Require Import Prelude Cbor Wire.

(** events.rs 25-25 [MAX_EVENTS] *)
Definition MAX_EVENTS : Z := 1024.

(** events.rs 31-37 [ProgressRole] *)
Inductive ProgressRole : Type := Receiving | Sending.
#[export] Instance ProgressRole_eq_dec : EqDecision ProgressRole.
Proof. solve_decision. Defined.
Definition role_u64 (r : ProgressRole) : Z := match r with Receiving => 0 | Sending => 1 end.

(** events.rs 40-80 [Event] *)
Inductive Event : Type :=
| TransferStarted (transfer_id : bytes) (objects total_bytes : Z)
| TransferProgress (transfer_id : bytes) (role : ProgressRole) (done_bytes total_bytes chunks total_chunks : Z)
| ObjectCompleted (transfer_id object_id plaintext_digest : bytes)
| TransferCompleted (transfer_id : bytes) (objects : Z)
| TransferFailed (transfer_id : bytes) (code : Z)
| TransferCancelled (transfer_id : bytes)
| EventsDropped (lost : Z)
| TransferRoute (transfer_id : bytes) (route : Z) (address_class : option Z).

(** events.rs 83-94 [Event::type_code] *)
Definition type_code (e : Event) : Z :=
  match e with
  | TransferStarted _ _ _ => 1
  | TransferProgress _ _ _ _ _ _ => 2
  | ObjectCompleted _ _ _ => 3
  | TransferCompleted _ _ => 4
  | TransferFailed _ _ => 5
  | TransferCancelled _ => 6
  | EventsDropped _ => 7
  | TransferRoute _ _ _ => 8
  end.

(** events.rs 98-106 [Event::is_terminal] *)
Definition is_terminal (e : Event) : bool :=
  match e with
  | ObjectCompleted _ _ _ | TransferCompleted _ _ | TransferFailed _ _ | TransferCancelled _ => true
  | _ => false
  end.

(** events.rs 111-118 [Event::progress_key] *)
Definition progress_key (e : Event) : option (bytes * ProgressRole) :=
  match e with
  | TransferProgress transfer_id role _ _ _ _ => Some (transfer_id, role)
  | _ => None
  end.

(** events.rs 121-213 [Event::encode] *)
Definition encode {E} (e : Event) : result E bytes :=
  let* w := (match e with
  | TransferStarted transfer_id objects total_bytes =>
      write_map 4 [MapWriter.uint 0 1; MapWriter.bytes 1 transfer_id; MapWriter.uint 2 objects;
                   MapWriter.uint 3 total_bytes]
  | TransferProgress transfer_id role done_bytes total_bytes chunks total_chunks =>
      write_map 7 [MapWriter.uint 0 2; MapWriter.bytes 1 transfer_id; MapWriter.uint 2 done_bytes;
                   MapWriter.uint 3 total_bytes; MapWriter.uint 4 chunks;
                   MapWriter.uint 5 total_chunks; MapWriter.uint 6 (role_u64 role)]
  | ObjectCompleted transfer_id object_id plaintext_digest =>
      write_map 4 [MapWriter.uint 0 3; MapWriter.bytes 1 transfer_id; MapWriter.bytes 2 object_id;
                   MapWriter.bytes 3 plaintext_digest]
  | TransferCompleted transfer_id objects =>
      write_map 3 [MapWriter.uint 0 4; MapWriter.bytes 1 transfer_id; MapWriter.uint 2 objects]
  | TransferFailed transfer_id code =>
      write_map 3 [MapWriter.uint 0 5; MapWriter.bytes 1 transfer_id; MapWriter.uint 2 code]
  | TransferCancelled transfer_id =>
      write_map 2 [MapWriter.uint 0 6; MapWriter.bytes 1 transfer_id]
  | EventsDropped lost =>
      write_map 2 [MapWriter.uint 0 7; MapWriter.uint 1 lost]
  | TransferRoute transfer_id route address_class =>
      write_map (match address_class with Some _ => 4 | None => 3 end)
        ([MapWriter.uint 0 8; MapWriter.bytes 1 transfer_id; MapWriter.uint 2 route]
         ++ match address_class with Some class => [MapWriter.uint 3 class] | None => [] end)
  end) Writer.new in
  Ok (Writer.into_bytes w).

(** events.rs 217-222 [Inner] *)
Record Inner : Type := mkInner { queue : list Event; unreported_drops : Z }.
(** events.rs 251-253 [EventQueue::new] *)
Definition new_queue : Inner := mkInner [] 0.

(** Remove the first event that is not terminal. *)
Fixpoint remove_droppable (q : list Event) : option (list Event) :=
  match q with
  | [] => None
  | e :: q' => if negb (is_terminal e) then Some q' else (e ::.) <$> remove_droppable q'
  end.
(** events.rs 226-239 [Inner::evict_one] *)
Definition evict_one (i : Inner) : Inner :=
  let q := match remove_droppable (queue i) with
           | Some q' => q'
           | None => tail (queue i)
           end in
  mkInner q (saturating_add (unreported_drops i) 1).

(** Drop the back of the queue when it is progress of the same transfer and role. *)
Definition collapse (e : Event) (q : list Event) : list Event :=
  match progress_key e with
  | Some key =>
      if bool_decide ((last q ≫= progress_key) = Some key) then removelast q else q
  | None => q
  end.
(** events.rs 255-271 [EventQueue::push] *)
Definition push (e : Event) (i : Inner) : Inner :=
  let i1 := mkInner (collapse e (queue i)) (unreported_drops i) in
  let i2 := if MAX_EVENTS <=? len (queue i1) then evict_one i1 else i1 in
  mkInner (queue i2 ++ [e]) (unreported_drops i2).

(** One pass of the loop; [None] is "nothing now".
    events.rs 276-294 [EventQueue::poll] *)
Definition poll (i : Inner) : option Event * Inner :=
  if 0 <? unreported_drops i then
    (Some (EventsDropped (unreported_drops i)), mkInner (queue i) 0)
  else match queue i with
       | e :: q' => (Some e, mkInner q' (unreported_drops i))
       | [] => (None, i)
       end.

(** ** Encoding *)
Definition event_value (e : Event) : value :=
  match e with
  | TransferStarted t o b => VMap [(0, VUint 1); (1, VBytes t); (2, VUint o); (3, VUint b)]
  | TransferProgress t r b tb c tc =>
      VMap [(0, VUint 2); (1, VBytes t); (2, VUint b); (3, VUint tb); (4, VUint c); (5, VUint tc);
            (6, VUint (role_u64 r))]
  | ObjectCompleted t o d => VMap [(0, VUint 3); (1, VBytes t); (2, VBytes o); (3, VBytes d)]
  | TransferCompleted t o => VMap [(0, VUint 4); (1, VBytes t); (2, VUint o)]
  | TransferFailed t c => VMap [(0, VUint 5); (1, VBytes t); (2, VUint c)]
  | TransferCancelled t => VMap [(0, VUint 6); (1, VBytes t)]
  | EventsDropped n => VMap [(0, VUint 7); (1, VUint n)]
  | TransferRoute t r None => VMap [(0, VUint 8); (1, VBytes t); (2, VUint r)]
  | TransferRoute t r (Some c) => VMap [(0, VUint 8); (1, VBytes t); (2, VUint r); (3, VUint c)]
  end.
(** Fields within their Rust types. *)
Definition event_wf (e : Event) : Prop :=
  match e with
  | TransferStarted t o b => array 32 t /\ u64 o /\ u64 b
  | TransferProgress t r b tb c tc => array 32 t /\ u64 b /\ u64 tb /\ u64 c /\ u64 tc
  | ObjectCompleted t o d => array 32 t /\ array 32 o /\ array 32 d
  | TransferCompleted t o => array 32 t /\ u64 o
  | TransferFailed t c => array 32 t /\ u64 c
  | TransferCancelled t => array 32 t
  | EventsDropped n => u64 n
  | TransferRoute t r c => array 32 t /\ u64 r /\ match c with Some x => u64 x | None => True end
  end.

Lemma encode_event_eq {E} e : encode (E := E) e = Ok (cbor (event_value e)).
Proof.
  unfold encode. destruct e as [| | | | | | |t r [c|]]; cbn [app event_value];
    match goal with |- rbind (?f Writer.new) _ = Ok (cbor ?v) =>
      assert (Hem : emits (E := E) f v) by wemit; by rewrite Hem end.
Qed.

Lemma event_value_ok e : event_wf e -> value_ok (event_value e).
Proof.
  destruct e as [|t [|]| | | | | |t r [c|]]; cbn [event_wf event_value role_u64]; intros; destruct_and?; vok.
Qed.

(** Event records are unambiguous: encoding never panics, and two events
    with the same encoding are the same event. *)
Theorem event_encoding_injective e e' b : event_wf e -> event_wf e' ->
  encode (E := unit) e = Ok b -> encode (E := unit) e' = Ok b -> e = e'.
Proof.
  intros He He'. rewrite !encode_event_eq. intros [= <-] Hc. apply Ok_inj in Hc.
  apply cbor_inj in Hc; [|by apply event_value_ok..].
  destruct e as [|? []| | | | | |? ? []], e' as [|? []| | | | | |? ? []]; cbn in Hc; congruence.
Qed.

(** ** The queue *)
Definition terminals (q : list Event) : list Event := filter (fun e => is_terminal e = true) q.

Lemma terminals_cons e q : terminals (e :: q) = if is_terminal e then e :: terminals q else terminals q.
Proof.
  unfold terminals. rewrite filter_cons. destruct (is_terminal e); case_decide; done || congruence.
Qed.
Lemma terminals_app q1 q2 : terminals (q1 ++ q2) = terminals q1 ++ terminals q2.
Proof. apply filter_app. Qed.
#[local] Opaque terminals.

Lemma remove_droppable_spec q :
  match remove_droppable q with
  | Some q' => len q' = len q - 1 /\ terminals q' = terminals q
  | None => terminals q = q
  end.
Proof.
  induction q as [|e q IH]; [done|]. cbn [remove_droppable]. rewrite terminals_cons.
  destruct (is_terminal e) eqn:Ht; cbn [negb]; [|rewrite len_cons; split; [lia|done]].
  destruct (remove_droppable q) as [q'|]; cbn [fmap option_fmap option_map].
  - destruct IH as [IH1 IH2]. rewrite !len_cons, terminals_cons, Ht. split; [lia|by rewrite IH2].
  - by rewrite IH.
Qed.

Lemma collapse_spec e q :
  len q - 1 <= len (collapse e q) <= len q /\ terminals (collapse e q) = terminals q.
Proof.
  unfold collapse. destruct (progress_key e) as [key|]; [|split; [lia|done]].
  case_bool_decide as Hl; [|split; [lia|done]].
  destruct q as [|x q _] using rev_ind; [by split|].
  rewrite removelast_last, last_snoc in *. cbn in Hl. rewrite len_app. change (len [x]) with 1.
  split; [lia|]. rewrite terminals_app, terminals_cons.
  destruct x; try discriminate Hl. cbn [is_terminal]. by rewrite app_nil_r.
Qed.

Lemma evict_spec i : MAX_EVENTS <= len (queue i) ->
  len (queue (evict_one i)) = len (queue i) - 1 /\
  (len (terminals (queue i)) < len (queue i) -> terminals (queue (evict_one i)) = terminals (queue i)).
Proof.
  intros Hl. unfold MAX_EVENTS in Hl. pose proof (remove_droppable_spec (queue i)) as Hs.
  unfold evict_one; cbn [queue]. destruct (remove_droppable (queue i)) as [q'|]; [tauto|].
  rewrite Hs. split; [|lia]. destruct (queue i) as [|x q]; [cbn in Hl; unfold len in Hl; cbn in Hl; lia|].
  rewrite len_cons. cbn. lia.
Qed.

(** One push: what happens to the size and to the terminal events. *)
Lemma push_spec e i : len (queue i) <= MAX_EVENTS ->
  len (queue (push e i)) <= MAX_EVENTS /\
  (len (terminals (queue i)) < MAX_EVENTS ->
     terminals (queue (push e i)) = terminals (queue i) ++ terminals [e]).
Proof.
  intros Hl. unfold push. destruct (collapse_spec e (queue i)) as [Hc Ht].
  set (i1 := mkInner (collapse e (queue i)) (unreported_drops i)).
  assert (Hq1 : queue i1 = collapse e (queue i)) by done. cbn zeta.
  destruct (Z.leb_spec MAX_EVENTS (len (queue i1))) as [Hfull|Hroom]; cbn [queue].
  - destruct (evict_spec i1 Hfull) as [He1 He2]. rewrite len_app. change (len [e]) with 1.
    split; [rewrite Hq1 in *; lia|]. intros Hlt. rewrite terminals_app.
    rewrite He2; rewrite Hq1, Ht in *; [done|lia].
  - rewrite len_app. change (len [e]) with 1. split; [lia|]. intros _.
    by rewrite terminals_app, Hq1, Ht.
Qed.

(** ** Runs *)
Inductive op : Type := Push (e : Event) | Poll.

(** A run of the queue: the final state and the events polled, in order. *)
Fixpoint run (ops : list op) (i : Inner) : list Event * Inner :=
  match ops with
  | [] => ([], i)
  | Push e :: ops' => run ops' (push e i)
  | Poll :: ops' =>
      let '(r, i1) := poll i in
      let '(out, i2) := run ops' i1 in
      (match r with Some e => e :: out | None => out end, i2)
  end.

Definition pushes (ops : list op) : list Event :=
  omap (fun o => match o with Push e => Some e | Poll => None end) ops.
Definition lost_of (e : Event) : Z := match e with EventsDropped n => n | _ => 0 end.

(** The queue is bounded: under any interleaving of pushes and polls it
    never holds more than [MAX_EVENTS] events, so a consumer that stops
    polling cannot make the transfer grow memory or block. *)
Theorem queue_bounded ops : len (queue (run ops new_queue).2) <= MAX_EVENTS.
Proof.
  assert (H : forall i, len (queue i) <= MAX_EVENTS -> len (queue (run ops i).2) <= MAX_EVENTS).
  { induction ops as [|[e|] ops IH]; intros i Hi; cbn [run]; [done|by apply IH, push_spec|].
    destruct (poll i) as [r i1] eqn:Hp. destruct (run ops i1) as [out i2] eqn:Hr. cbn.
    specialize (IH i1). rewrite Hr in IH. apply IH. unfold poll in Hp.
    destruct (0 <? unreported_drops i); [by injection Hp as _ <-|].
    destruct (queue i) as [|x q] eqn:Hq; injection Hp as _ <-; cbn; rewrite ?Hq; [done|].
    rewrite len_cons in Hi. lia. }
  apply H. done.
Qed.

Lemma poll_spec i r i1 : poll i = (r, i1) ->
  match r with
  | Some e => (e = EventsDropped (unreported_drops i) /\ 0 < unreported_drops i /\
                 queue i1 = queue i /\ unreported_drops i1 = 0) \/
              (queue i = e :: queue i1 /\ unreported_drops i1 = unreported_drops i)
  | None => i1 = i
  end.
Proof.
  unfold poll. destruct (Z.ltb_spec 0 (unreported_drops i)); [intros [= <- <-]; by left|].
  destruct (queue i) as [|e q] eqn:Hq; intros [= <- <-]; [done|by right].
Qed.

Lemma run_terminals ops i : len (queue i) <= MAX_EVENTS ->
  len (terminals (queue i)) + len (terminals (pushes ops)) < MAX_EVENTS ->
  terminals (run ops i).1 ++ terminals (queue (run ops i).2)
    = terminals (queue i) ++ terminals (pushes ops).
Proof.
  revert i. induction ops as [|[e|] ops IH]; intros i Hi Hn; cbn [run fst snd].
  - by rewrite app_nil_r.
  - change (pushes (Push e :: ops)) with ([e] ++ pushes ops) in *.
    rewrite terminals_app in Hn |- *. rewrite len_app in Hn.
    destruct (push_spec e i Hi) as [Hp1 Hp2]. pose proof (len_nonneg (terminals (pushes ops))).
    pose proof (len_nonneg (terminals [e])). specialize (Hp2 ltac:(lia)).
    rewrite IH; [by rewrite Hp2, <- app_assoc|done|]. rewrite Hp2, len_app. lia.
  - change (pushes (Poll :: ops)) with (pushes ops) in *.
    destruct (poll i) as [r i1] eqn:Hp. pose proof (poll_spec _ _ _ Hp) as Hs.
    destruct (run ops i1) as [out i2] eqn:Hr. specialize (IH i1). rewrite Hr in IH. cbn [fst snd] in *.
    destruct r as [e|]; [|subst i1; by apply IH].
    destruct Hs as [(-> & _ & Hq & _)|(Hq & _)].
    + rewrite terminals_cons, <- Hq in *. by apply IH.
    + rewrite Hq in Hi, Hn |- *. rewrite len_cons in Hi. rewrite !terminals_cons in *.
      destruct (is_terminal e); [|apply IH; lia]. rewrite len_cons in Hn.
      cbn [app]. f_equal. apply IH; lia.
Qed.

(** C40: No terminal event is lost to overflow: as long as fewer than
    [MAX_EVENTS] terminal events are ever pushed, the terminal events polled
    so far followed by those still queued are exactly the terminal events
    pushed, in order, however much progress floods the queue. *)
Theorem terminal_events_survive ops : len (terminals (pushes ops)) < MAX_EVENTS ->
  terminals (run ops new_queue).1 ++ terminals (queue (run ops new_queue).2) = terminals (pushes ops).
Proof. intros Hn. rewrite run_terminals; [done|done|]. exact Hn. Qed.

(** The boundary is exact: with nothing but terminal events queued, a progress
    event displaces the oldest of them. *)
Lemma progress_displaces_terminal :
  let full := mkInner (repeat (TransferCancelled []) 1024) 0 in
  len (queue (push (TransferProgress [] Sending 0 0 0 0) full)) = 1024 /\
  unreported_drops (push (TransferProgress [] Sending 0 0 0 0) full) = 1 /\
  remove_droppable (queue full) = None.
Proof. by vm_compute. Qed.

(** ** Accounting *)
(** Pushes that replaced a queued progress event. *)
Fixpoint coalesced (ops : list op) (i : Inner) : Z :=
  match ops with
  | [] => 0
  | Push e :: ops' => (len (queue i) - len (collapse e (queue i))) + coalesced ops' (push e i)
  | Poll :: ops' => coalesced ops' (poll i).2
  end.
(** Losses reported by the polled events, and the other polled events. *)
Definition reported (out : list Event) : Z := foldr Z.add 0 (map lost_of out).
Definition is_drop (e : Event) : bool := match e with EventsDropped _ => true | _ => false end.
Definition delivered (out : list Event) : Z := len (filter (fun e => is_drop e = false) out).

Lemma push_count e i : len (queue i) <= MAX_EVENTS -> unreported_drops i < U64_MAX ->
  len (queue (push e i)) + unreported_drops (push e i)
    = 1 + len (collapse e (queue i)) + unreported_drops i /\
  unreported_drops (push e i) <= unreported_drops i + 1.
Proof.
  intros Hl Hu. unfold push. destruct (collapse_spec e (queue i)) as [Hc _]. cbn zeta. cbn [queue].
  destruct (Z.leb_spec MAX_EVENTS (len (collapse e (queue i)))) as [Hfull|]; cbn [queue unreported_drops];
    rewrite len_app; change (len [e]) with 1; [|lia].
  destruct (evict_spec (mkInner (collapse e (queue i)) (unreported_drops i)) Hfull) as [He _].
  rewrite He. cbn [queue]. unfold evict_one; cbn [unreported_drops]. unfold saturating_add. lia.
Qed.

Lemma remove_droppable_forall (Q : Event -> Prop) q q' :
  Forall Q q -> remove_droppable q = Some q' -> Forall Q q'.
Proof.
  revert q'. induction q as [|e q IH]; intros q' Hq; [done|]. cbn [remove_droppable].
  apply Forall_cons_iff in Hq as [He Hq]. destruct (negb _); [by intros [= <-]|].
  destruct (remove_droppable q) as [q1|]; [|done]. intros [= <-]. constructor; [done|by apply IH].
Qed.
Lemma push_forall (Q : Event -> Prop) e i : Q e -> Forall Q (queue i) -> Forall Q (queue (push e i)).
Proof.
  intros He Hq. assert (Hc : Forall Q (collapse e (queue i))).
  { unfold collapse. destruct (progress_key e); [|done]. case_bool_decide; [|done].
    destruct (queue i) as [|x q _] using rev_ind; [done|]. rewrite removelast_last.
    by apply Forall_app in Hq as [? _]. }
  unfold push. cbn [queue]. apply Forall_app. split; [|by constructor].
  destruct (_ <=? _); [|done]. unfold evict_one. cbn [queue].
  destruct (remove_droppable _) as [q'|] eqn:Hr; [by eapply remove_droppable_forall|].
  destruct (collapse e (queue i)); [done|]. by apply Forall_cons_iff in Hc as [_ ?].
Qed.
Lemma push_drops e i : 0 <= unreported_drops i -> 0 <= unreported_drops (push e i).
Proof.
  intros H. unfold push. cbn [unreported_drops]. destruct (_ <=? _); [|done].
  unfold evict_one, saturating_add, U64_MAX; cbn. lia.
Qed.

Lemma run_accounting ops i : len (queue i) <= MAX_EVENTS -> 0 <= unreported_drops i ->
  unreported_drops i + len (pushes ops) <= U64_MAX ->
  Forall (fun e => is_drop e = false) (queue i) -> Forall (fun e => is_drop e = false) (pushes ops) ->
  let '(out, i') := run ops i in
  len (queue i) + unreported_drops i + len (pushes ops)
    = delivered out + reported out + coalesced ops i + len (queue i') + unreported_drops i'.
Proof.
  revert i. induction ops as [|[e|] ops IH]; intros i Hl H0 Hu Hq Hp; cbn [run coalesced].
  - unfold delivered, reported, len. cbn. lia.
  - change (pushes (Push e :: ops)) with (e :: pushes ops) in *. rewrite len_cons in *.
    apply Forall_cons_iff in Hp as [He Hp]. pose proof (len_nonneg (pushes ops)).
    destruct (push_count e i Hl ltac:(lia)) as [Hc1 Hc2]. destruct (push_spec e i Hl) as [Hl' _].
    assert (Hq' : Forall (fun e => is_drop e = false) (queue (push e i))) by (by apply push_forall).
    specialize (IH (push e i) Hl' ltac:(by apply push_drops) ltac:(lia) Hq' Hp).
    destruct (run ops (push e i)) as [out i']. lia.
  - change (pushes (Poll :: ops)) with (pushes ops) in *.
    destruct (poll i) as [r i1] eqn:Hpoll. pose proof (poll_spec _ _ _ Hpoll) as Hs. cbn [snd].
    assert (Hi1 : len (queue i1) <= len (queue i) /\ 0 <= unreported_drops i1 <= unreported_drops i /\
      Forall (fun e => is_drop e = false) (queue i1)).
    { destruct r as [e|]; [|by subst i1]. destruct Hs as [(_ & _ & -> & ->)|(Hqe & ->)]; [split; [lia|done]|].
      rewrite Hqe in Hq |- *. apply Forall_cons_iff in Hq as [_ Hq]. rewrite len_cons. split; [lia|done]. }
    destruct Hi1 as (Hl1 & Hu1 & Hq1).
    specialize (IH i1 ltac:(lia) ltac:(lia) ltac:(lia) Hq1 Hp).
    destruct (run ops i1) as [out i']. destruct r as [e|]; [|by subst i1].
    unfold delivered, reported in *. rewrite filter_cons. cbn [map foldr].
    destruct Hs as [(-> & _ & Hqq & Hz)|(Hqe & Hd)]; cbn [is_drop lost_of].
    + destruct (decide (true = false)); [done|]. rewrite Hqq, Hz in *. lia.
    + rewrite Hqe in Hq |- *. apply Forall_cons_iff in Hq as [He _]. rewrite He.
      destruct (decide (false = false)); [|done]. rewrite !len_cons.
      destruct e; cbn in He |- *; try done; lia.
Qed.

(** Every event is accounted for: the events pushed are those polled, plus
    the losses reported to the application, plus progress superseded by newer
    progress, plus what is still queued or still to be reported. *)
Theorem events_accounted ops : len (pushes ops) <= U64_MAX ->
  Forall (fun e => is_drop e = false) (pushes ops) ->
  let '(out, i) := run ops new_queue in
  len (pushes ops)
    = delivered out + reported out + coalesced ops new_queue + len (queue i) + unreported_drops i.
Proof.
  intros Hl Hp. pose proof (run_accounting ops new_queue) as H. destruct (run ops new_queue) as [out i].
  apply H; [done|done|exact Hl|constructor|done].
Qed.

Module EventsWitness.
Definition t1 : bytes := replicate 32 1.
Definition prog (n : Z) : Event := TransferProgress t1 Receiving n 100 n 10.
Definition ops1 : list op := [Push (prog 1); Push (prog 2); Push (TransferCancelled t1); Poll; Push (prog 3); Poll].

Example run_ops1 : run ops1 new_queue = ([prog 2; TransferCancelled t1], mkInner [prog 3] 0).
Proof. reflexivity. Qed.

Lemma event_encoding_injective_witness : prog 1 = prog 1.
Proof.
  apply (event_encoding_injective (prog 1) (prog 1) (cbor (event_value (prog 1))));
    [|..|apply encode_event_eq|apply encode_event_eq]; repeat split; try done; by repeat constructor.
Defined.
Lemma terminal_events_survive_witness :
  terminals (run ops1 new_queue).1 ++ terminals (queue (run ops1 new_queue).2) = terminals (pushes ops1).
Proof. apply (terminal_events_survive ops1). by vm_compute. Defined.
Lemma events_accounted_witness :
  let '(out, i) := run ops1 new_queue in
  len (pushes ops1)
    = delivered out + reported out + coalesced ops1 new_queue + len (queue i) + unreported_drops i.
Proof. apply (events_accounted ops1); [by vm_compute|by repeat constructor]. Defined.
End EventsWitness.
