(* ===== verification/Waiting.v ===== *)
(** * Waiting for events (events.rs)

    The queue of [Events] with its mutex and its condition variable, shared by
    threads: [push] and each pass of [poll]'s loop hold the lock, and between
    them a poller sleeps, is notified, times out or wakes for no reason.  The
    threads are a step relation, which refines the sequential queue. *)

From stdpp Require Import relations.
From S2P Require Import Prelude Events.

(** ** Pollers *)
(** A thread inside [poll], with its deadline. *)
Inductive Poller : Type :=
| Ready (deadline : option Z)
| Asleep (deadline : option Z)
| Done (event : option Event).
(** The queue, the pollers in the order they called, the time, and the events
    pushed and those returned so far, oldest first.
    events.rs 245-248 [EventQueue] *)
Record Shared : Type := mkShared { inner : Inner; pollers : list Poller; clock : Z; pushed : list Event; returned : list Event }.

(** [Instant::now().checked_add(timeout)], where [latest] is the last instant
    there is.  events.rs 277-277 [EventQueue::poll] *)
Definition deadline_of (latest now timeout : Z) : option Z := if latest <? now + timeout then None else Some (now + timeout).
(** One pass of the loop under the lock; an [Asleep] poller waits for the
    signal.  events.rs 276-294 [EventQueue::poll] *)
Definition pass (now : Z) (deadline : option Z) (i : Inner) : Poller * Inner :=
  match poll i with
  | (Some e, i') => (Done (Some e), i')
  | (None, i') =>
    match deadline with
    | None => (Done None, i')
    | Some d => if d <=? now then (Done None, i') else (Asleep (Some d), i')
    end
  end.
Definition event_of (p : Poller) : list Event := match p with Done (Some e) => [e] | _ => [] end.

Section Threads.
Context (latest : Z).

(** [notify_one] wakes a sleeper if there is one. *)
Inductive notified : list Poller -> list Poller -> Prop :=
| no_sleeper ps : (forall i d, ps !! i <> Some (Asleep d)) -> notified ps ps
| one_sleeper ps i d : ps !! i = Some (Asleep d) -> notified ps (<[i := Ready d]> ps).
Inductive step : Shared -> Shared -> Prop :=
(** A thread calls [poll]. *)
| calls s timeout : 0 <= timeout ->
    step s (mkShared (inner s) (pollers s ++ [Ready (deadline_of latest (clock s) timeout)]) (clock s) (pushed s) (returned s))
(** A thread pushes an event.  events.rs 255-271 [EventQueue::push] *)
| pushes_event s e ps : notified (pollers s) ps ->
    step s (mkShared (push e (inner s)) ps (clock s) (pushed s ++ [e]) (returned s))
(** A poller takes the lock and runs its loop body. *)
| passes s k d p i : pollers s !! k = Some (Ready d) -> pass (clock s) d (inner s) = (p, i) ->
    step s (mkShared i (<[k := p]> (pollers s)) (clock s) (pushed s) (returned s ++ event_of p))
(** A sleeper times out, or wakes for no reason. *)
| wakes s k d : pollers s !! k = Some (Asleep d) ->
    step s (mkShared (inner s) (<[k := Ready d]> (pollers s)) (clock s) (pushed s) (returned s))
| time_passes s t : clock s <= t -> step s (mkShared (inner s) (pollers s) t (pushed s) (returned s)).
(** No poller and nothing queued. *)
Definition initial (now : Z) : Shared := mkShared new_queue [] now [] [].

(** ** Passes *)
Definition items (i : Inner) : Z := len (queue i) + Z.b2z (0 <? unreported_drops i).
Definition is_ready (p : Poller) : bool := match p with Ready _ => true | _ => false end.
Definition is_asleep (p : Poller) : bool := match p with Asleep _ => true | _ => false end.
Definition ready_count (ps : list Poller) : Z := len (List.filter is_ready ps).

Lemma items_nonneg i : 0 <= items i.
Proof. unfold items. pose proof (len_nonneg (queue i)). destruct (0 <? unreported_drops i); cbn; lia. Qed.
Lemma pass_spec now d i p i' : pass now d i = (p, i') ->
  (exists e, p = Done (Some e) /\ poll i = (Some e, i') /\ 0 < items i /\ items i' = items i - 1) \/
  (event_of p = [] /\ i' = i /\ items i = 0 /\ poll i = (None, i) /\ is_ready p = false /\
   (is_asleep p = true <-> exists t, d = Some t /\ now < t)).
Proof.
  unfold pass, items. destruct (poll i) as [[e|] i1] eqn:Hp.
  - intros [= <- <-]. left. exists e. split; [done|]. split; [done|]. apply poll_spec in Hp as [(_ & Hd & Hq & H0)|(Hq & Hd)].
    + rewrite Hq, H0. destruct (Z.ltb_spec 0 (unreported_drops i)); cbn; [|lia]. pose proof (len_nonneg (queue i)). lia.
    + rewrite Hq, Hd, len_cons. pose proof (len_nonneg (queue i1)). destruct (0 <? unreported_drops i); cbn; lia.
  - intros H. right. pose proof (poll_spec _ _ _ Hp) as ->. assert (Hi : items i = 0).
    { unfold poll in Hp. unfold items. destruct (0 <? unreported_drops i); [done|]. by destruct (queue i). }
    unfold items in Hi. destruct d as [t|]; [destruct (Z.leb_spec t now)|]; injection H as <- <-; split_and!; try done.
    + split; [done|]. intros (? & [= <-] & ?). lia.
    + split; [intros _; by exists t|done].
    + split; [done|by intros (? & ? & ?)].
Qed.
Lemma push_items e i : items (push e i) <= items i + 1.
Proof.
  assert (Hc : len (collapse e (queue i)) <= len (queue i)).
  { unfold collapse. destruct (progress_key e); [|lia]. destruct (bool_decide _); [|lia].
    destruct (queue i) as [|x q] eqn:Hq using rev_ind; [done|]. rewrite removelast_last, len_app. pose proof (len_nonneg [x]). lia. }
  unfold push, items. destruct (Z.leb_spec MAX_EVENTS (len (queue (mkInner (collapse e (queue i)) (unreported_drops i))))) as [Hf|Hf];
    cbn [queue unreported_drops] in *; rewrite len_app; change (len [e]) with 1; [|lia].
  destruct (evict_spec (mkInner (collapse e (queue i)) (unreported_drops i)) Hf) as [He _]. cbn [queue] in He.
  rewrite He. destruct (0 <? unreported_drops i), (0 <? unreported_drops _); cbn; lia.
Qed.
Lemma ready_insert ps k p q : ps !! k = Some p ->
  ready_count (<[k := q]> ps) = ready_count ps - Z.b2z (is_ready p) + Z.b2z (is_ready q).
Proof.
  unfold ready_count. revert k. induction ps as [|x ps IH]; intros k Hk; [done|]. destruct k as [|k]; cbn in Hk.
  - injection Hk as ->. cbn [insert list_insert List.filter]. destruct (is_ready p), (is_ready q); rewrite ?len_cons; cbn; lia.
  - specialize (IH k Hk). change (<[S k := q]> (x :: ps)) with (x :: <[k := q]> ps). cbn [List.filter]. destruct (is_ready x); rewrite ?len_cons, IH; lia.
Qed.
Lemma ready_app ps p : ready_count (ps ++ [p]) = ready_count ps + Z.b2z (is_ready p).
Proof. unfold ready_count. rewrite List.filter_app, len_app. cbn [List.filter]. by destruct (is_ready p). Qed.
Lemma ready_some ps : 0 < ready_count ps -> exists k d, ps !! k = Some (Ready d).
Proof.
  unfold ready_count. induction ps as [|p ps IH]; cbn [List.filter]; [done|]. destruct (is_ready p) eqn:Hp.
  - intros _. destruct p as [d|d|r]; try done. by exists 0%nat, d.
  - intros H. destruct (IH H) as (k & d & Hk). by exists (S k), d.
Qed.
Definition sleeps (ps : list Poller) : Prop := exists k d, ps !! k = Some (Asleep d).
Lemma sleeps_insert ps k p q : ps !! k = Some p -> is_asleep q = false -> sleeps (<[k := q]> ps) -> sleeps ps.
Proof.
  intros Hk Hq (j & d & Hj). rewrite list_lookup_insert in Hj. case_decide as Hd.
  - destruct Hd as [-> _]. by injection Hj as ->.
  - by exists j, d.
Qed.

(** While somebody sleeps, as many are ready as there are things to return. *)
Definition wakeups (s : Shared) : Prop := sleeps (pollers s) -> items (inner s) <= ready_count (pollers s).
Lemma step_wakeups s s' : wakeups s -> step s s' -> wakeups s'.
Proof.
  intros Hw Hs. destruct Hs as [s timeout _|s e ps Hn|s k d p i Hk Hp|s k d Hk|s t _]; unfold wakeups in *; cbn [inner pollers] in *.
  - rewrite ready_app. intros (k & d & Hk). apply lookup_app_Some in Hk as [Hk|[_ Hk]].
    + cbn. specialize (Hw (ex_intro _ k (ex_intro _ d Hk))). lia.
    + by apply list_lookup_singleton_Some in Hk as [_ Hk].
  - intros Hsl. pose proof (push_items e (inner s)). destruct Hn as [ps Hno|ps k d Hk].
    + destruct Hsl as (k & d & Hk). by destruct (Hno k d).
    + rewrite (ready_insert _ _ _ _ Hk). cbn. assert (Hs : sleeps ps) by by exists k, d. specialize (Hw Hs). lia.
  - rewrite (ready_insert _ _ _ _ Hk). cbn. destruct (pass_spec _ _ _ _ _ Hp) as [(e & -> & _ & _ & Hi)|(_ & -> & Hi & _ & Hr & _)].
    + intros Hsl. apply (sleeps_insert _ _ _ _ Hk) in Hsl; [|done]. specialize (Hw Hsl). cbn. lia.
    + intros _. rewrite Hr, Hi. assert (H := ready_insert _ _ _ p Hk). rewrite Hr in H. cbn in *.
      pose proof (len_nonneg (List.filter is_ready (<[k := p]> (pollers s)))). unfold ready_count in *. lia.
  - intros Hsl. rewrite (ready_insert _ _ _ _ Hk). cbn. assert (Hs : sleeps (pollers s)) by by exists k, d. specialize (Hw Hs). lia.
  - exact Hw.
Qed.

(** ** Refinement *)
(** The sequential run behind a state of the threads. *)
Definition linearized (s : Shared) : Prop :=
  (exists ops, run ops new_queue = (returned s, inner s) /\ pushes ops = pushed s) /\ returned s ≡ₚ flat_map event_of (pollers s).
Lemma run_app ops1 ops2 i : run (ops1 ++ ops2) i =
  let '(out1, i1) := run ops1 i in let '(out2, i2) := run ops2 i1 in (out1 ++ out2, i2).
Proof.
  revert i. induction ops1 as [|[e|] ops1 IH]; intros i; cbn [app run].
  - by destruct (run ops2 i).
  - apply IH.
  - destruct (poll i) as [r i1]. rewrite IH. destruct (run ops1 i1) as [out1 i2], (run ops2 i2) as [out2 i3]. by destruct r.
Qed.
Lemma pushes_app ops1 ops2 : pushes (ops1 ++ ops2) = pushes ops1 ++ pushes ops2.
Proof. apply omap_app. Qed.
Lemma events_insert ps k p q : ps !! k = Some p -> event_of p = [] ->
  flat_map event_of (<[k := q]> ps) ≡ₚ flat_map event_of ps ++ event_of q.
Proof.
  revert k. induction ps as [|x ps IH]; intros k Hk Hp; [done|]. destruct k as [|k]; cbn in Hk.
  - injection Hk as ->. cbn [insert list_insert flat_map]. rewrite Hp. cbn [app]. apply Permutation_app_comm.
  - change (<[S k := q]> (x :: ps)) with (x :: <[k := q]> ps). cbn [flat_map]. by rewrite (IH k Hk Hp), app_assoc.
Qed.
Lemma notified_events ps ps' : notified ps ps' -> flat_map event_of ps' ≡ₚ flat_map event_of ps.
Proof. intros [ps0 _|ps0 k d Hk]; [done|]. rewrite (events_insert _ _ _ _ Hk) by done. by rewrite app_nil_r. Qed.
Lemma step_linearized s s' : linearized s -> step s s' -> linearized s'.
Proof.
  intros [(ops & Hr & Hpu) Hp] Hs. destruct Hs as [s timeout _|s e ps Hn|s k d p i Hk Hpass|s k d Hk|s t _]; split; cbn [inner pollers returned pushed].
  - by exists ops.
  - rewrite flat_map_app. cbn. by rewrite app_nil_r.
  - exists (ops ++ [Push e]). rewrite run_app, Hr, pushes_app, Hpu. cbn. by rewrite app_nil_r.
  - by rewrite (notified_events _ _ Hn).
  - exists (ops ++ [Poll]). rewrite run_app, Hr, pushes_app, Hpu. cbn [run]. rewrite app_nil_r.
    destruct (pass_spec _ _ _ _ _ Hpass) as [(e & -> & -> & _)|(-> & -> & _ & -> & _)]; done.
  - by rewrite (events_insert _ _ _ _ Hk), Hp by done.
  - by exists ops.
  - by rewrite (events_insert _ _ _ _ Hk), app_nil_r by done.
  - by exists ops.
  - done.
Qed.
Lemma shared_inv now s : rtc step (initial now) s -> wakeups s /\ linearized s.
Proof.
  assert (H0 : wakeups (initial now) /\ linearized (initial now)).
  { split; [intros (k & d & Hk); done|]. split; [by exists []|done]. }
  intros H. remember (initial now) as s0 eqn:He. clear He.
  induction H as [s|s s1 s2 Hs _ IH]; [exact H0|]. apply IH. destruct H0. split; [by eapply step_wakeups|by eapply step_linearized].
Qed.

(** C38: The shared queue is the sequential one: whatever the interleaving of
    pushes, calls of [poll], notifications, timeouts and wakeups without
    cause, the events returned so far and the queue are those of a sequential
    run of the pushes so far and of polls, and each event returned went to one
    poller; so, as long as fewer than [MAX_EVENTS] terminal events were
    pushed, the terminal ones returned and those queued are exactly the
    terminal ones pushed, in order. *)
Theorem polls_linearize now s : rtc step (initial now) s ->
  (exists ops, run ops new_queue = (returned s, inner s) /\ pushes ops = pushed s) /\
  returned s ≡ₚ flat_map event_of (pollers s) /\
  (len (terminals (pushed s)) < MAX_EVENTS ->
     terminals (returned s) ++ terminals (queue (inner s)) = terminals (pushed s)).
Proof.
  intros H. apply shared_inv in H as [_ [(ops & Hr & Hp) Hperm]]. split; [by exists ops|]. split; [exact Hperm|].
  rewrite <- Hp. intros Hn. pose proof (run_terminals ops new_queue ltac:(done) Hn) as Ht. by rewrite Hr in Ht.
Qed.

(** C39: No wakeup is lost, and nobody overstays: in every reachable state in
    which a thread sleeps, at least as many threads have been woken as there
    are things to return, so when something is there some thread is about to
    take the lock, and whichever takes it next returns an event; and a thread
    that takes the lock at its deadline or later, or without a deadline, never
    goes to sleep, so a poll with timeout 0 never sleeps. *)
Theorem no_lost_wakeup now s : rtc step (initial now) s ->
  (sleeps (pollers s) -> items (inner s) <= ready_count (pollers s) /\
    (0 < items (inner s) -> exists k d, pollers s !! k = Some (Ready d))) /\
  (0 < items (inner s) -> forall t d, exists e i, pass t d (inner s) = (Done (Some e), i)) /\
  (forall t d, is_asleep (pass t d (inner s)).1 = true -> exists at_time, d = Some at_time /\ t < at_time) /\
  (forall t0 t, t0 <= t -> is_asleep (pass t (deadline_of latest t0 0) (inner s)).1 = false).
Proof.
  intros H. apply shared_inv in H as [Hw _].
  assert (Hsleep : forall t d, is_asleep (pass t d (inner s)).1 = true -> exists at_time, d = Some at_time /\ t < at_time).
  { intros t d Ha. destruct (pass t d (inner s)) as [p i] eqn:Hp. cbn [fst] in Ha.
    destruct (pass_spec _ _ _ _ _ Hp) as [(e & -> & _)|(_ & _ & _ & _ & _ & Hd)]; [done|by apply Hd]. }
  split; [|split; [|split; [exact Hsleep|]]].
  - intros Hs. specialize (Hw Hs). split; [exact Hw|]. intros Hi. apply ready_some. lia.
  - intros Hi t d. destruct (pass t d (inner s)) as [p i] eqn:Hp.
    destruct (pass_spec _ _ _ _ _ Hp) as [(e & -> & _)|(_ & _ & H0 & _)]; [by exists e, i|lia].
  - intros t0 t Ht. destruct (is_asleep _) eqn:Ha; [|done]. destruct (Hsleep _ _ Ha) as (x & Hx & Hlt).
    unfold deadline_of in Hx. destruct (latest <? t0 + 0); [done|]. injection Hx as <-. lia.
Qed.
End Threads.

(** ** Two pollers and two pushes *)
Module WaitingWitness.
Definition latest1 : Z := 2 ^ 63.
Definition e1 : Event := TransferCancelled (replicate 32 1).
Definition e2 : Event := TransferCancelled (replicate 32 2).
(** Both sleep, one event is pushed and one of them is notified. *)
Definition pushed1 : Shared := mkShared (push e1 new_queue) [Asleep (Some 10); Ready (Some 20)] 0 [e1] [].
(** The notified one returns it, the other times out. *)
Definition finished : Shared := mkShared new_queue [Done None; Done (Some e1)] 10 [e1] [e1].
Lemma run1 : rtc (step latest1) (initial 0) pushed1.
Proof.
  eapply rtc_l; [by apply (calls latest1 (initial 0) 10)|]. eapply rtc_l; [by apply (calls latest1 _ 20)|].
  eapply rtc_l; [by eapply (passes latest1 _ 0%nat (Some 10))|]. eapply rtc_l; [by eapply (passes latest1 _ 1%nat (Some 20))|].
  eapply rtc_l; [by apply (pushes_event latest1 _ e1), (one_sleeper _ 1%nat (Some 20))|]. apply rtc_refl.
Qed.
Lemma run2 : rtc (step latest1) (initial 0) finished.
Proof.
  etrans; [exact run1|]. eapply rtc_l; [by eapply (passes latest1 _ 1%nat (Some 20))|].
  eapply rtc_l; [by apply (time_passes latest1 _ 10)|]. eapply rtc_l; [by apply (wakes latest1 _ 0%nat (Some 10))|].
  eapply rtc_l; [by eapply (passes latest1 _ 0%nat (Some 10))|]. apply rtc_refl.
Qed.
Lemma polls_linearize_witness : [e1] ≡ₚ flat_map event_of (pollers finished) /\ terminals (returned finished) = [e1].
Proof.
  destruct (polls_linearize latest1 0 finished run2) as (_ & H & Ht). split; [exact H|].
  specialize (Ht ltac:(reflexivity)). cbn in Ht |- *. exact Ht.
Defined.
Lemma no_lost_wakeup_witness : sleeps (pollers pushed1) /\ exists k d, pollers pushed1 !! k = Some (Ready d).
Proof.
  assert (Hs : sleeps (pollers pushed1)) by (exists 0%nat, (Some 10); reflexivity). split; [exact Hs|].
  apply (proj1 (no_lost_wakeup latest1 0 pushed1 run1) Hs). vm_compute. reflexivity.
Defined.
(** A timeout past the last instant does not wait at all. *)
Example overflowing_timeout : (pass 5 (deadline_of latest1 5 latest1) new_queue).1 = Done None.
Proof. reflexivity. Qed.
End WaitingWitness.
