(* ===== verification/Route.v ===== *)
(** * Network routes and route policy (route.rs, the route watch of transfer.rs)

    Clock readings and path observations are inputs; times are in
    milliseconds. *)

From S2P Require Import Prelude Events.

(** route.rs 25-25 [DEFAULT_ROUTE_GRACE] *)
Definition DEFAULT_ROUTE_GRACE : Z := 10000.

(** Addresses of the standard library: four octets, or eight 16-bit groups. *)
Inductive IpAddr : Type :=
| V4 (a b c d : Z)
| V6 (s0 s1 s2 s3 s4 s5 s6 s7 : Z).

(** [iroh::TransportAddr]: an IP address, a relay, or a kind this crate does
    not know. *)
Inductive TransportAddr : Type := Ip (ip : IpAddr) (port : Z) | RelayUrl (url : bytes) | Custom (raw : bytes).

(** route.rs 29-48 [AddressClass] *)
Inductive AddressClass : Type := Loopback | Private | Public | Shared.
#[export] Instance AddressClass_eq_dec : EqDecision AddressClass.
Proof. solve_decision. Defined.

(** [Ipv4Addr::is_loopback], [is_private], [is_link_local] *)
Definition v4_is_loopback (a : Z) : bool := a =? 127.
Definition v4_is_private (a b : Z) : bool :=
  (a =? 10) || ((a =? 172) && (16 <=? b) && (b <=? 31)) || ((a =? 192) && (b =? 168)).
Definition v4_is_link_local (a b : Z) : bool := (a =? 169) && (b =? 254).
(** [Ipv6Addr::is_loopback], [is_unique_local], [is_unicast_link_local] *)
Definition v6_is_loopback (l : list Z) : bool := bool_decide (l = [0; 0; 0; 0; 0; 0; 0; 1]).
Definition v6_is_unique_local (s0 : Z) : bool := Z.land s0 0xfe00 =? 0xfc00.
Definition v6_is_unicast_link_local (s0 : Z) : bool := Z.land s0 0xffc0 =? 0xfe80.
(** [Ipv6Addr::to_ipv4_mapped] *)
Definition to_ipv4_mapped (ip : IpAddr) : option IpAddr :=
  match ip with
  | V6 s0 s1 s2 s3 s4 s5 ab cd =>
      if bool_decide ([s0; s1; s2; s3; s4; s5] = [0; 0; 0; 0; 0; 0xffff])
      then Some (V4 (ab / 256) (ab mod 256) (cd / 256) (cd mod 256)) else None
  | V4 _ _ _ _ => None
  end.

(** route.rs 95-98 [is_shared_address_space] *)
Definition is_shared_address_space (a b : Z) : bool := (a =? 100) && (64 <=? b) && (b <=? 127).

(** route.rs 51-84 [AddressClass::of] *)
Definition class_of (ip : IpAddr) : AddressClass :=
  let ip := match to_ipv4_mapped ip with Some v4 => v4 | None => ip end in
  match ip with
  | V4 a b c d =>
      if v4_is_loopback a then Loopback
      else if v4_is_private a b || v4_is_link_local a b then Private
      else if is_shared_address_space a b then Shared
      else Public
  | V6 s0 s1 s2 s3 s4 s5 s6 s7 =>
      if v6_is_loopback [s0; s1; s2; s3; s4; s5; s6; s7] then Loopback
      else if v6_is_unique_local s0 || v6_is_unicast_link_local s0 then Private
      else Public
  end.
(** route.rs 86-88 [AddressClass::as_u64] *)
Definition class_u64 (c : AddressClass) : Z :=
  match c with Loopback => 0 | Private => 1 | Public => 2 | Shared => 3 end.

(** route.rs 102-111 [Route] *)
Inductive Route : Type := Direct (c : AddressClass) | Relay | Unknown.
#[export] Instance Route_eq_dec : EqDecision Route.
Proof. solve_decision. Defined.

(** route.rs 115-121 [Route::as_u64] *)
Definition route_u64 (r : Route) : Z := match r with Direct _ => 0 | Relay => 1 | Unknown => 2 end.
(** route.rs 124-129 [Route::address_class] *)
Definition route_address_class (r : Route) : option AddressClass :=
  match r with Direct c => Some c | _ => None end.
(** route.rs 141-143 [Route::from_socket_addr] *)
Definition from_socket_addr (ip : IpAddr) : Route := Direct (class_of ip).
(** route.rs 133-139 [Route::of_transport] *)
Definition of_transport (a : TransportAddr) : Route :=
  match a with
  | Ip ip _ => from_socket_addr ip
  | RelayUrl _ => Relay
  | Custom _ => Unknown
  end.
(** route.rs 146-155 [Route::describe] *)
Definition describe (r : Route) : bytes :=
  match r with
  | Direct Loopback => lit "direct/loopback"
  | Direct Private => lit "direct/private"
  | Direct Public => lit "direct/public"
  | Direct Shared => lit "direct/shared"
  | Relay => lit "relay"
  | Unknown => lit "unknown"
  end.

(** route.rs 160-170 [RoutePolicy] *)
Inductive RoutePolicy : Type := Any | DirectOnly | LoopbackOnly.
(** route.rs 173-180 [RoutePolicy::from_u64] *)
Definition policy_from_u64 (v : Z) : option RoutePolicy :=
  match v with 0 => Some Any | 1 => Some DirectOnly | 2 => Some LoopbackOnly | _ => None end.

(** route.rs 185-195 [RoutePolicy::admits] *)
Definition admits (p : RoutePolicy) (r : Route) : bool :=
  match p, r with
  | Any, _ => true
  | DirectOnly, Direct _ => true
  | LoopbackOnly, Direct Loopback => true
  | _, _ => false
  end.
(** route.rs 201-203 [RoutePolicy::advertises] *)
Definition advertises (p : RoutePolicy) (a : TransportAddr) : bool :=
  (match a with RelayUrl _ => true | _ => false end) || admits p (of_transport a).

(** route.rs 213-216 [RouteAdmission] *)
Record RouteAdmission : Type := mkAdmission { policy : RoutePolicy; grace : Z }.
(** route.rs 229-234 [RouteAdmission::new] *)
Definition new_admission (p : RoutePolicy) : RouteAdmission := mkAdmission p DEFAULT_ROUTE_GRACE.
(** route.rs 236-238 [RouteAdmission::with_grace] *)
Definition with_grace (a : RouteAdmission) (g : Z) : RouteAdmission := mkAdmission (policy a) g.

(** The event a route is reported with. *)
Definition route_event (transfer_id : bytes) (r : Route) : Event :=
  TransferRoute transfer_id (route_u64 r) (class_u64 <$> route_address_class r).

(** transfer.rs 616-616 [ROUTE_WATCH_INTERVAL] *)
Definition ROUTE_WATCH_INTERVAL : Z := 500.
(** transfer.rs 619-619 [ROUTE_WATCH_STRIKES] *)
Definition ROUTE_WATCH_STRIKES : Z := 2.

(** transfer.rs 602-611 [RouteWatch] *)
Record RouteWatch : Type := mkWatch {
  last_route : Route;
  admission : RouteAdmission;
  next_check : Z;
  strikes : Z
}.

(** transfer.rs 622-629 [RouteWatch::new] *)
Definition new_watch (initial : Route) (a : RouteAdmission) (now : Z) : RouteWatch :=
  mkWatch initial a (now + ROUTE_WATCH_INTERVAL) 0.

(** The outcome, the events pushed and the new state: [Err route] is
    [RouteRefused(route)].  transfer.rs 644-677 [RouteWatch::poll_with] *)
Definition poll_with (transfer_id : bytes) (now : Z) (observed : Route) (w : RouteWatch)
  : result Route unit * list Event * RouteWatch :=
  if now <? next_check w then (Ok tt, [], w) else
  let w1 := mkWatch (last_route w) (admission w) (now + ROUTE_WATCH_INTERVAL) (strikes w) in
  let changed := negb (bool_decide (observed = last_route w1)) in
  let pushed := if changed then [route_event transfer_id observed] else [] in
  let w2 := mkWatch (if changed then observed else last_route w1) (admission w1) (next_check w1) (strikes w1) in
  if admits (policy (admission w2)) observed then
    (Ok tt, pushed, mkWatch (last_route w2) (admission w2) (next_check w2) 0)
  else
    let s := Z.min (strikes w2 + 1) U8_MAX in
    let w3 := mkWatch (last_route w2) (admission w2) (next_check w2) s in
    if ROUTE_WATCH_STRIKES <=? s then (Err observed, pushed, w3) else (Ok tt, pushed, w3).

(** The waiting loop: [clock] gives the time at the [k]-th test of the
    deadline, [observe] the path seen after the [k]-th sleep. *)
Fixpoint wait_loop (fuel : nat) (p : RoutePolicy) (deadline : Z) (clock : nat -> Z)
    (observe : nat -> Route) (k : nat) (seen : Route) : option Route :=
  if clock k <? deadline then
    match fuel with
    | O => None
    | S f =>
      let route := observe k in
      if admits p route then Some route
      else wait_loop f p deadline clock observe (S k) route
    end
  else Some seen.
(** [now] is the reading that fixes the deadline.
    transfer.rs 706-730 [poll_until_admissible] *)
Definition poll_until_admissible (fuel : nat) (p : RoutePolicy) (initial : Route) (grace now : Z)
    (clock : nat -> Z) (observe : nat -> Route) : option Route :=
  if admits p initial then Some initial
  else wait_loop fuel p (now + grace) clock observe O initial.

(** The route events and the decision of [admit_route], given the path the
    wait returned.  transfer.rs 571-590 [admit_route] *)
Definition admit_route (transfer_id : bytes) (a : RouteAdmission) (route : Route)
  : result Route Route * list Event :=
  (if admits (policy a) route then Ok route else Err route, [route_event transfer_id route]).

(** ** Policies *)
(** The addresses that never leave the machine. *)
Definition loopback_address (ip : IpAddr) : Prop :=
  (exists b c d, ip = V4 127 b c d) \/ ip = V6 0 0 0 0 0 0 0 1 \/
  (exists lo cd, ip = V6 0 0 0 0 0 0xffff (127 * 256 + lo) cd /\ 0 <= lo < 256).

Lemma class_v4 a b c d : class_of (V4 a b c d) = Loopback <-> a = 127.
Proof.
  unfold class_of. cbn [to_ipv4_mapped]. unfold v4_is_loopback.
  destruct (Z.eqb_spec a 127) as [->|]; [done|]. split; [|done]. by repeat case_match.
Qed.
Lemma class_loopback ip : class_of ip = Loopback <-> loopback_address ip.
Proof.
  unfold loopback_address. destruct ip as [a b c d|s0 s1 s2 s3 s4 s5 s6 s7].
  - rewrite class_v4. split; [intros ->; left; by exists b, c, d|].
    intros [(? & ? & ? & [= ->])|[?|(? & ? & ? & _)]]; done.
  - assert (Hm : class_of (V6 s0 s1 s2 s3 s4 s5 s6 s7) =
      if bool_decide ([s0; s1; s2; s3; s4; s5] = [0; 0; 0; 0; 0; 0xffff])
      then class_of (V4 (s6 / 256) (s6 mod 256) (s7 / 256) (s7 mod 256))
      else if v6_is_loopback [s0; s1; s2; s3; s4; s5; s6; s7] then Loopback
      else if v6_is_unique_local s0 || v6_is_unicast_link_local s0 then Private else Public).
    { unfold class_of. cbn [to_ipv4_mapped]. by case_bool_decide. }
    rewrite Hm. clear Hm. unfold v6_is_loopback. case_bool_decide as He.
    + injection He as -> -> -> -> -> ->. rewrite class_v4. split.
      * intros H. right. right. exists (s6 mod 256), s7. split; [|apply Z.mod_pos_bound; lia].
        f_equal. pose proof (Z.div_mod s6 256). lia.
      * intros [(? & ? & ? & ?)|[?|(lo & cd & [= -> _] & Hlo)]]; [done|done|dlia].
    + case_bool_decide as Hl.
      * injection Hl as -> -> -> -> -> -> -> ->. split; [intros _; right; by left|done].
      * split; [by case_match|]. intros [(? & ? & ? & ?)|[[= -> -> -> -> -> -> -> ->]|(lo & cd & [= -> -> -> -> -> -> _ _] & _)]]; done.
Qed.

(** What each policy lets bytes travel over: [Any] admits every path,
    [DirectOnly] exactly the direct IP paths, [LoopbackOnly] exactly the
    loopback addresses, IPv4-mapped ones included; a relay or an unclassified
    path satisfies neither, and every non-relay address that is advertised is
    one admission would accept. *)
Theorem policy_admits_exactly t :
  admits Any (of_transport t) = true /\
  (admits DirectOnly (of_transport t) = true <-> exists ip port, t = Ip ip port) /\
  (admits LoopbackOnly (of_transport t) = true <->
     exists ip port, t = Ip ip port /\ loopback_address ip) /\
  (forall p, advertises p t = true -> (exists url, t = RelayUrl url) \/ admits p (of_transport t) = true).
Proof.
  destruct t as [ip port|url|raw]; cbn [of_transport from_socket_addr admits].
  - split_and!; [done|split; [by eauto|done]| |].
    + pose proof (class_loopback ip) as Hl. split.
      * intros H. exists ip, port. split; [done|]. apply Hl. by destruct (class_of ip).
      * intros (ip' & port' & [= <- <-] & Hip). apply Hl in Hip. by rewrite Hip.
    + intros p H. by right.
  - split_and!; [done|split; [done|by intros (? & ? & ?)]|split; [done|by intros (? & ? & ? & ?)]|].
    intros p _. left. by exists url.
  - split_and!; [done|split; [done|by intros (? & ? & ?)]|split; [done|by intros (? & ? & ? & ?)]|].
    intros p H. by right.
Qed.

(** ** The route watch over a transfer *)
(** Poll at the given times until the first refusal. *)
Fixpoint run_watch (tid : bytes) (obs : list (Z * Route)) (w : RouteWatch)
  : result Route unit * list Event * RouteWatch :=
  match obs with
  | [] => (Ok tt, [], w)
  | (now, r) :: obs' =>
    match poll_with tid now r w with
    | (Ok _, ev, w1) =>
        let '(res, evs, w2) := run_watch tid obs' w1 in (res, ev ++ evs, w2)
    | (e, ev, w1) => (e, ev, w1)
    end
  end.

(** The observations actually made: those at least an interval apart. *)
Fixpoint effective (next : Z) (obs : list (Z * Route)) : list Route :=
  match obs with
  | [] => []
  | (now, r) :: obs' =>
      if now <? next then effective next obs' else r :: effective (now + ROUTE_WATCH_INTERVAL) obs'
  end.
(** The specification of the decision: the first two consecutive refusals,
    [refused] saying whether the previous observation was one. *)
Fixpoint verdict (p : RoutePolicy) (refused : bool) (rs : list Route) : result Route unit :=
  match rs with
  | [] => Ok tt
  | r :: rs' =>
      if admits p r then verdict p false rs'
      else if refused then Err r else verdict p true rs'
  end.
(** The routes a transfer reports: every change, until the verdict. *)
Fixpoint changes (p : RoutePolicy) (refused : bool) (current : Route) (rs : list Route) : list Route :=
  match rs with
  | [] => []
  | r :: rs' =>
      (if bool_decide (r = current) then [] else [r]) ++
      (if admits p r then changes p false r rs'
       else if refused then [] else changes p true r rs')
  end.

Lemma run_watch_spec tid obs w : strikes w = 0 \/ strikes w = 1 ->
  let p := policy (admission w) in
  let '(res, evs, _) := run_watch tid obs w in
  res = verdict p (strikes w =? 1) (effective (next_check w) obs) /\
  evs = map (route_event tid) (changes p (strikes w =? 1) (last_route w) (effective (next_check w) obs)).
Proof.
  revert w. induction obs as [|[now r] obs IH]; intros w Hs; cbn zeta; cbn [run_watch effective]; [done|].
  unfold poll_with. destruct (Z.ltb_spec now (next_check w)).
  { specialize (IH w Hs). cbn zeta in IH. by destruct (run_watch tid obs w) as [[res evs] w2]. }
  cbn [verdict changes policy admission last_route next_check strikes].
  assert (Hlast : (if negb (bool_decide (r = last_route w)) then r else last_route w) = r).
  { case_bool_decide; cbn; congruence. }
  rewrite Hlast. set (pushed := if negb _ then _ else _).
  assert (Hp : pushed = map (route_event tid) (if bool_decide (r = last_route w) then [] else [r])).
  { unfold pushed. by case_bool_decide. }
  rewrite Hp. destruct (admits (policy (admission w)) r).
  - specialize (IH (mkWatch r (admission w) (now + ROUTE_WATCH_INTERVAL) 0) ltac:(by left)).
    cbn [policy admission last_route next_check strikes] in IH. cbn zeta in IH.
    destruct (run_watch tid obs _) as [[res evs] w2]. destruct IH as [-> ->]. cbv beta iota zeta.
    split; [done|by rewrite map_app].
  - unfold ROUTE_WATCH_STRIKES, U8_MAX. destruct Hs as [->| ->]; cbn [Z.add Z.eqb Pos.eqb].
    + specialize (IH (mkWatch r (admission w) (now + ROUTE_WATCH_INTERVAL) 1) ltac:(by right)).
      cbn [policy admission last_route next_check strikes] in IH. cbn zeta in IH.
      change (2 <=? Z.min (0 + 1) (2 ^ 8 - 1)) with false.
      change (Z.min (0 + 1) (2 ^ 8 - 1)) with 1. cbv beta iota zeta.
      destruct (run_watch tid obs (mkWatch r (admission w) (now + ROUTE_WATCH_INTERVAL) 1)) as [[res evs] w2]. destruct IH as [-> ->]. cbv beta iota zeta.
      split; [done|by rewrite map_app].
    + change (2 <=? Z.min (1 + 1) (2 ^ 8 - 1)) with true. cbn. by rewrite app_nil_r.
Qed.

(** Two consecutive refused observations. *)
Definition two_refusals (p : RoutePolicy) (rs : list Route) : Prop :=
  exists rs1 r r' rs2, rs = rs1 ++ r :: r' :: rs2 /\ admits p r = false /\ admits p r' = false.

Lemma verdict_ok p rs b : verdict p b rs = Ok tt <->
  ~ two_refusals p rs /\ (b = true -> match rs with r :: _ => admits p r = true | [] => True end).
Proof.
  revert b. induction rs as [|r rs IH]; intros b; cbn [verdict].
  { split; [|done]. intros _. split; [|done]. by intros ([|? ?] & ? & ? & ? & ? & _). }
  assert (Htwo : two_refusals p (r :: rs) <-> two_refusals p rs \/
    (admits p r = false /\ match rs with r' :: _ => admits p r' = false | [] => False end)).
  { split.
    - intros ([|x rs1] & a & b' & rs2 & Heq & Ha & Hb); injection Heq as -> ->; [by right|].
      left. by exists rs1, a, b', rs2.
    - intros [(rs1 & a & b' & rs2 & -> & Ha & Hb)|[Hr Hrs]].
      + by exists (r :: rs1), a, b', rs2.
      + destruct rs as [|r' rs]; [done|]. by exists [], r, r', rs. }
  rewrite Htwo. destruct (admits p r) eqn:Hr.
  - rewrite IH. split; [intros [? _]; split; [|done]; intros [?|[? _]]; done|].
    intros [H _]. split; [intros ?; apply H; by left|done].
  - destruct b.
    + split; [done|]. intros [_ H]. by specialize (H eq_refl).
    + rewrite IH. split.
      * intros [H1 H2]. split; [|done]. intros [?|[_ Hd]]; [done|].
        destruct rs as [|r' rs]; [done|]. rewrite (H2 eq_refl) in Hd. done.
      * intros [H _]. split; [intros ?; apply H; by left|]. intros _.
        destruct rs as [|r' rs]; [done|]. destruct (admits p r') eqn:Hr'; [done|].
        exfalso. apply H. right. done.
Qed.

Lemma verdict_refused p b rs r : verdict p b rs = Err r -> admits p r = false /\ r ∈ rs.
Proof.
  revert b. induction rs as [|x rs IH]; intros b; cbn [verdict]; [done|].
  destruct (admits p x) eqn:Hx; [|destruct b; [intros [= <-]|]].
  - intros Hv. destruct (IH _ Hv). split; [done|]. apply elem_of_cons. by right.
  - split; [done|]. apply elem_of_cons. by left.
  - intros Hv. destruct (IH _ Hv). split; [done|]. apply elem_of_cons. by right.
Qed.
Lemma verdict_total p b rs : verdict p b rs <> Panic.
Proof.
  revert b. induction rs as [|x rs IH]; intros b; cbn [verdict]; [done|].
  destruct (admits _ _); [apply IH|]. by destruct b; [|apply IH].
Qed.

(** A transfer in flight is torn down exactly when two consecutive
    observations of the path, at least half a second apart, are refused by
    the policy; one refused observation between admitted ones is tolerated. *)
Theorem watch_tears_down_exactly tid initial a start obs :
  let '(res, _, _) := run_watch tid obs (new_watch initial a start) in
  let seen := effective (start + ROUTE_WATCH_INTERVAL) obs in
  (res = Ok tt <-> ~ two_refusals (policy a) seen) /\
  (forall r, res = Err r -> admits (policy a) r = false /\ r ∈ seen) /\ res <> Panic.
Proof.
  pose proof (run_watch_spec tid obs (new_watch initial a start) ltac:(by left)) as H.
  cbn zeta in H. destruct (run_watch tid obs (new_watch initial a start)) as [[res evs] w].
  destruct H as [-> _]. cbn [new_watch policy admission next_check strikes].
  set (seen := effective _ obs). change (0 =? 1) with false. split_and!.
  - rewrite verdict_ok. split; [tauto|]. intros ?. by split.
  - intros r. apply verdict_refused.
  - apply verdict_total.
Qed.

(** The reported route stays honest: while no teardown happens, the route
    events of a transfer are exactly the changes of the observed path. *)
Theorem watch_reports_changes tid initial a start obs :
  let '(_, evs, _) := run_watch tid obs (new_watch initial a start) in
  evs = map (route_event tid)
          (changes (policy a) false initial (effective (start + ROUTE_WATCH_INTERVAL) obs)).
Proof.
  pose proof (run_watch_spec tid obs (new_watch initial a start) ltac:(by left)) as H.
  cbn zeta in H. destruct (run_watch tid obs (new_watch initial a start)) as [[res evs] w].
  by destruct H as [_ ->].
Qed.

(** ** The wait for an admissible path *)
Lemma wait_loop_spec p deadline clock observe fuel k seen :
  (forall j, clock j + 100 <= clock (S j)) ->
  deadline - clock k <= 100 * Z.of_nat fuel ->
  exists r n, wait_loop fuel p deadline clock observe k seen = Some r /\
    (forall j, (k <= j < n)%nat -> clock j < deadline /\ admits p (observe j) = false) /\ (k <= n)%nat /\
    ((clock n < deadline /\ admits p (observe n) = true /\ r = observe n) \/
     (deadline <= clock n /\ r = match n - k with O => seen | _ => observe (pred n) end%nat)).
Proof.
  intros Hc. revert k seen. induction fuel as [|f IH]; intros k seen Hf; cbn [wait_loop];
    destruct (Z.ltb_spec (clock k) deadline) as [Hlt|Hge].
  - lia.
  - exists seen, k. split_and!; [done|lia|lia|]. right. by rewrite Nat.sub_diag.
  - destruct (admits p (observe k)) eqn:Ha.
    + exists (observe k), k. split_and!; [done|lia|lia|by left].
    + destruct (IH (S k) (observe k)) as (r & n & Hw & Hj & Hkn & Hr); [specialize (Hc k); lia|].
      exists r, n. split_and!; [done| |lia|].
      * intros j Hj'. destruct (decide (j = k)) as [->|]; [done|]. apply Hj. lia.
      * destruct Hr as [?|[Hd ->]]; [by left|right]. split; [done|].
        destruct (decide (n = S k)) as [->|].
        -- rewrite Nat.sub_diag. replace (S k - k)%nat with 1%nat by lia. done.
        -- destruct (n - S k)%nat eqn:E1; [lia|]. destruct (n - k)%nat eqn:E2; [lia|]. done.
  - exists seen, k. split_and!; [done|lia|lia|]. right. by rewrite Nat.sub_diag.
Qed.

(** C37: Waiting for an admissible path always ends, within one 100 ms sleep
    per tenth of a second of grace; it returns at once when the initial path
    is admitted, otherwise with the first admitted path seen before the
    deadline, and if there is none with the last path seen. *)
Theorem wait_for_admissible p initial grace now clock observe :
  now <= clock O -> (forall j, clock j + 100 <= clock (S j)) -> 0 <= grace ->
  exists r, poll_until_admissible (Z.to_nat (div_ceil grace 100)) p initial grace now clock observe = Some r /\
    (admits p initial = true -> r = initial) /\
    (admits p initial = false ->
       exists n, (forall j, (j < n)%nat -> clock j < now + grace /\ admits p (observe j) = false) /\
         ((clock n < now + grace /\ admits p (observe n) = true /\ r = observe n) \/
          (now + grace <= clock n /\ r = match n with O => initial | S m => observe m end))).
Proof.
  intros Hn Hc Hg. unfold poll_until_admissible. destruct (admits p initial) eqn:Ha; [by exists initial|].
  destruct (wait_loop_spec p (now + grace) clock observe (Z.to_nat (div_ceil grace 100)) O initial Hc)
    as (r & n & Hw & Hj & _ & Hr).
  { unfold div_ceil. rewrite Z2Nat.id by (apply Z.div_pos; lia).
    pose proof (Z.mul_succ_div_gt (grace + 100 - 1) 100 ltac:(lia)). lia. }
  exists r. split_and!; [done|done|]. intros _. exists n. split; [intros j Hj'; apply Hj; lia|].
  destruct Hr as [?|[Hd ->]]; [by left|right]. split; [done|]. rewrite Nat.sub_0_r. by destruct n.
Qed.

Module RouteWitness.
Lemma wait_for_admissible_witness :
  let clock j := 5 + 100 * Z.of_nat j in
  let observe j := if Nat.ltb j 2 then Relay else Direct Private in
  exists r, poll_until_admissible (Z.to_nat (div_ceil 1000 100)) DirectOnly Relay 1000 0 clock observe = Some r /\
    (admits DirectOnly Relay = true -> r = Relay) /\
    (admits DirectOnly Relay = false ->
       exists n, (forall j, (j < n)%nat -> clock j < 0 + 1000 /\ admits DirectOnly (observe j) = false) /\
         ((clock n < 0 + 1000 /\ admits DirectOnly (observe n) = true /\ r = observe n) \/
          (0 + 1000 <= clock n /\ r = match n with O => Relay | S m => observe m end))).
Proof.
  cbn zeta. apply (wait_for_admissible DirectOnly Relay 1000 0 (fun j => 5 + 100 * Z.of_nat j)
    (fun j => if Nat.ltb j 2 then Relay else Direct Private)); lia.
Defined.

Example wait_upgrades :
  poll_until_admissible 10 DirectOnly Relay 1000 0 (fun j => 100 * Z.of_nat j)
    (fun j => if Nat.ltb j 2 then Relay else Direct Private) = Some (Direct Private).
Proof. reflexivity. Qed.
Example watch_tolerates_one : (run_watch [] [(500, Unknown); (1000, Direct Public); (1500, Relay)]
  (new_watch (Direct Public) (new_admission DirectOnly) 0)).1.1 = Ok tt.
Proof. reflexivity. Qed.
Example watch_refuses_two : (run_watch [] [(500, Unknown); (600, Direct Public); (1000, Relay)]
  (new_watch (Direct Public) (new_admission DirectOnly) 0)).1.1 = Err Relay.
Proof. reflexivity. Qed.
End RouteWitness.
