(* ===== verification/Framing.v ===== *)
(** * Frames, chunk records and acknowledgements (transfer.rs)

    A QUIC stream is the list of its bytes; [read_exact] on a stream that ends
    early is an I/O error.  Timeouts are not modelled. *)

From S2P Require Import Prelude Cbor Wire Crypto Merkle Control Route.

(** Error texts are kept, they tell the branches apart.
    transfer.rs 67-77 [TransferError] *)
Inductive TransferError : Type :=
| Io
| Handshake
| Protocol (message : String.string)
| Crypto (message : String.string)
| Timeout
| RouteRefused (r : Route).
Arguments Protocol message%_string_scope.
Arguments Crypto message%_string_scope.

(** transfer.rs 44-44 [DEFAULT_CHUNK_SIZE] *)
Definition DEFAULT_CHUNK_SIZE : Z := 256 * 1024.
(** transfer.rs 46-46 [MAX_FRAME] *)
Definition MAX_FRAME : Z := 8 * 1024 * 1024.
(** transfer.rs 50-50 [ENVELOPE_TTL_SECS] *)
Definition ENVELOPE_TTL_SECS : Z := 3600.
(** transfer.rs 53-53 [FRAME_OFFER] *)
Definition FRAME_OFFER : Z := 0x02.
(** transfer.rs 54-54 [FRAME_RANGE_REQUEST] *)
Definition FRAME_RANGE_REQUEST : Z := 0x05.
(** transfer.rs 55-55 [FRAME_COMPLETE] *)
Definition FRAME_COMPLETE : Z := 0x0A.
(** transfer.rs 56-56 [FRAME_CHUNK] *)
Definition FRAME_CHUNK : Z := 0x21.
(** transfer.rs 57-57 [FRAME_STREAM_END] *)
Definition FRAME_STREAM_END : Z := 0x23.
(** transfer.rs 61-61 [FRAME_CLIENT_HELLO] *)
Definition FRAME_CLIENT_HELLO : Z := 0x81.
(** transfer.rs 62-62 [FRAME_SERVER_HELLO] *)
Definition FRAME_SERVER_HELLO : Z := 0x82.
(** transfer.rs 63-63 [FRAME_CLIENT_FINISH] *)
Definition FRAME_CLIENT_FINISH : Z := 0x83.
(** transfer.rs 64-64 [FRAME_SERVER_FINISH] *)
Definition FRAME_SERVER_FINISH : Z := 0x84.
(** transfer.rs 141-141 [FRAME_HEADER_LEN] *)
Definition FRAME_HEADER_LEN : Z := 4 + 1 + 1 + 2 + 8.
(** transfer.rs 144-144 [MAX_CONTROL_BODY] *)
Definition MAX_CONTROL_BODY : Z := 1024 * 1024.
(** transfer.rs 145-145 [MAX_DATA_BODY] *)
Definition MAX_DATA_BODY : Z := 4 * 1024 * 1024 + 4 * 1024.
(** transfer.rs 148-148 [FLAG_NONCRITICAL] *)
Definition FLAG_NONCRITICAL : Z := 1.

(** transfer.rs 150-155 [body_limit] *)
Definition body_limit (frame_type : Z) : Z :=
  if frame_type =? FRAME_CHUNK then MAX_DATA_BODY else MAX_CONTROL_BODY.

(** transfer.rs 157-177 [header_bytes] *)
Definition header_bytes (frame_type frame_flags request_id body_len extra : Z)
  : result TransferError bytes :=
  let after_length := 1 + 1 + 2 + 8 + extra + body_len in
  if U32_MAX <? after_length then Err (Protocol "frame too large") else
  if MAX_FRAME <? after_length then Err (Protocol "frame too large") else
  Ok (be_bytes 4 after_length ++ [frame_type; frame_flags; 0; 0] ++ be_bytes 8 request_id).

(** transfer.rs 180-185 [RawFrame] *)
Record RawFrame : Type := mkRawFrame { frame_type : Z; frame_flags : Z; request_id : Z; body : bytes }.

(** [recv.read_exact(&mut buf\[..n\])] *)
Definition read_exact (n : Z) : M bytes TransferError bytes := fun s =>
  if len s <? n then Err Io else Ok (take (Z.to_nat n) s, drop (Z.to_nat n) s).

(** The bytes written.  transfer.rs 189-198 [send_plain_frame] *)
Definition send_plain_frame (ft : Z) (payload : bytes) : result TransferError bytes :=
  let* head := header_bytes ft 0 0 (len payload) 0 in
  Ok (head ++ payload).

(** Byte [i] of a fixed-size buffer. *)
Definition byte_at (b : bytes) (i : nat) : Z := nth i b 0.

(** transfer.rs 200-254 [recv_raw_frame] *)
Definition recv_raw_frame (protected : bool) : M bytes TransferError (RawFrame * Z * Z) :=
  head <- read_exact FRAME_HEADER_LEN ;;
  let declared := from_be (take 4 head) in
  let ft := byte_at head 4 in
  let ff := byte_at head 5 in
  guard (negb (negb (byte_at head 6 =? 0) || negb (byte_at head 7 =? 0)
               || negb (Z.land ff (Z.lxor FLAG_NONCRITICAL 255) =? 0)))
    (Protocol "reserved bits set") ;;;
  let rid := from_be (take 8 (drop 8 head)) in
  let fixed := (FRAME_HEADER_LEN - 4) + (if protected then 16 else 0) in
  guard (fixed <=? declared) (Protocol "bad frame length") ;;;
  let body_len := declared - fixed in
  guard (body_len <=? body_limit ft) (Protocol "frame body exceeds its limit") ;;;
  ec <- (if protected then
           meta <- read_exact 16 ;;
           ret (from_be (take 8 meta), from_be (drop 8 meta))
         else ret (0, 0)) ;;
  b <- read_exact body_len ;;
  ret (mkRawFrame ft ff rid b, ec.1, ec.2).

(** transfer.rs 256-265 [expect_plain_frame] *)
Definition expect_plain_frame (expected : Z) : M bytes TransferError bytes :=
  r <- recv_raw_frame false ;;
  guard (frame_type r.1.1 =? expected) (Protocol "unexpected frame type") ;;;
  ret (body r.1.1).

Section Protected.
Context {P : Primitives}.

(** The bytes written and the channel afterwards.
    transfer.rs 268-293 [send_frame] *)
Definition send_frame (c : ControlChannel) (ft : Z) (payload : bytes)
  : result TransferError bytes * ControlChannel :=
  match Control.seal c ft 0 0 payload with
  | (Ok sealed, c') =>
      match header_bytes ft 0 0 (len (f_ciphertext sealed)) 16 with
      | Ok head => (Ok (head ++ be_bytes 8 (f_epoch sealed) ++ be_bytes 8 (f_counter sealed)
                          ++ f_ciphertext sealed), c')
      | Err e => (Err e, c')
      | Panic => (Panic, c')
      end
  | (_, c') => (Err (Crypto "control frame"), c')
  end.

(** The frame, what is left of the stream, and the channel.
    transfer.rs 295-311 [recv_frame] *)
Definition recv_frame (c : ControlChannel) (s : bytes)
  : result TransferError (Z * bytes * bytes) * ControlChannel :=
  match recv_raw_frame true s with
  | Ok ((frame, ep, counter), s') =>
      match Control.open c ep counter (frame_type frame) (frame_flags frame) (request_id frame) (body frame) with
      | (Ok b, c') => (Ok (frame_type frame, b, s'), c')
      | (_, c') => (Err (Crypto "control frame"), c')
      end
  | Err e => (Err e, c)
  | Panic => (Panic, c)
  end.

(** transfer.rs 313-323 [expect_frame] *)
Definition expect_frame (c : ControlChannel) (s : bytes) (expected : Z)
  : result TransferError (bytes * bytes) * ControlChannel :=
  match recv_frame c s with
  | (Ok (t, payload, s'), c') =>
      if negb (t =? expected) then (Err (Protocol "unexpected frame type"), c') else (Ok (payload, s'), c')
  | (Err e, c') => (Err e, c')
  | (Panic, c') => (Panic, c')
  end.
End Protected.

(** ** Chunk records *)
Definition step_code (d : Merkle.Direction) : Z := match d with Merkle.Left => 0 | Merkle.Right => 1 end.
Definition write_step {E} (s : ProofStep) (w : Writer.t) : result E Writer.t :=
  Ok (Writer.bytes (hash s) (Writer.uint (step_code (direction s)) (Writer.array 2 w))).
(** transfer.rs 333-355 [encode_chunk_record] *)
Definition encode_chunk_record {E} (index : Z) (proof : list ProofStep) (ciphertext : bytes)
  : result E bytes :=
  let* w := write_map 3 [
    MapWriter.uint 0 index;
    MapWriter.nested 1 (fun w => write_each write_step proof (Writer.array (len proof) w));
    MapWriter.bytes 2 ciphertext] Writer.new in
  Ok (Writer.into_bytes w).

Module ChunkRecord.
(** [|_| TransferError::Protocol("bad chunk record")] *)
#[export] Instance bad : From CborError TransferError := fun _ => Protocol "bad chunk record".

(** The body of the proof loop, which enters an array and does not leave it.
    transfer.rs 369-382 [decode_chunk_record] *)
Definition read_step : M Reader.t TransferError ProofStep :=
  n <- q Reader.array ;;
  guard (n =? 2) (Protocol "bad proof step") ;;;
  d <- q Reader.uint ;;
  dir <- (if d =? 0 then ret Merkle.Left
          else if d =? 1 then ret Merkle.Right
          else fail (Protocol "bad proof direction")) ;;
  h <- q (Reader.bytes_exact 32) ;;
  ret (mkStep dir h).

(** transfer.rs 357-391 [decode_chunk_record] *)
Definition read_chunk_record : M Reader.t TransferError (Z * list ProofStep * bytes) :=
  in_map (
    expect 0 ;;; index <- get Reader.uint ;;
    expect 1 ;;; n <- get Reader.array ;;
    guard (n <=? 64) (Protocol "proof too deep") ;;;
    proof <- get (repeat_m (Z.to_nat n) read_step) ;;
    get Reader.leave ;;;
    expect 2 ;;; ciphertext <- get Reader.bytes ;;
    no_more (Protocol "bad chunk record") ;;;
    ret (index, proof, ciphertext)).
(** transfer.rs 357-391 [decode_chunk_record] *)
Definition decode_chunk_record (b : bytes) : result TransferError (Z * list ProofStep * bytes) :=
  decode_unbounded b read_chunk_record.
End ChunkRecord.

(** ** Acknowledgements *)
(** transfer.rs 393-400 [encode_ack] *)
Definition encode_ack {E} (status : Z) (digest : bytes) : result E bytes :=
  let* w := write_map 2 [MapWriter.uint 0 status; MapWriter.bytes 1 digest] Writer.new in
  Ok (Writer.into_bytes w).

Module Ack.
(** [|_| TransferError::Protocol("bad ack")] *)
#[export] Instance bad : From CborError TransferError := fun _ => Protocol "bad ack".
Definition read_ack : M Reader.t TransferError (Z * bytes) :=
  in_map (
    expect 0 ;;; status <- get Reader.uint ;;
    expect 1 ;;; digest <- get (Reader.bytes_exact 32) ;;
    no_more (Protocol "bad ack") ;;;
    ret (status, digest)).
(** transfer.rs 402-415 [decode_ack] *)
Definition decode_ack (b : bytes) : result TransferError (Z * bytes) := decode_all b read_ack.
End Ack.

(** ** Reading frames *)
Lemma read_exact_app n s tl : len s = n -> read_exact n (s ++ tl) = Ok (s, tl).
Proof.
  intros <-. unfold read_exact. rewrite len_app. pose proof (len_nonneg tl).
  destruct (Z.ltb_spec (len s + len tl) (len s)); [lia|].
  unfold len. by rewrite Nat2Z.id, take_app_length, drop_app_length.
Qed.
Lemma read_exact_inv n s b s' : 0 <= n -> read_exact n s = Ok (b, s') -> s = b ++ s' /\ len b = n.
Proof.
  intros Hn. unfold read_exact. destruct (Z.ltb_spec (len s) n); [done|]. intros [= <- <-].
  split; [by rewrite take_drop|]. unfold len in *. rewrite length_take. lia.
Qed.

(** The 16 header bytes in their fields. *)
Definition header (declared ft ff r1 r2 rid : Z) : bytes :=
  be_bytes 4 declared ++ [ft; ff; r1; r2] ++ be_bytes 8 rid.
Lemma header_len d ft ff r1 r2 rid : len (header d ft ff r1 r2 rid) = FRAME_HEADER_LEN.
Proof. unfold header. rewrite !len_app, !len_be_bytes. done. Qed.
Lemma header_fields d ft ff r1 r2 rid : u32 d -> u64 rid ->
  let h := header d ft ff r1 r2 rid in
  from_be (take 4 h) = d /\ byte_at h 4 = ft /\ byte_at h 5 = ff /\ byte_at h 6 = r1 /\ byte_at h 7 = r2 /\
  from_be (take 8 (drop 8 h)) = rid.
Proof.
  intros Hd Hr. cbn zeta. unfold header.
  assert (Hl4 : length (be_bytes 4 d) = 4%nat) by done.
  assert (Hl8 : length (be_bytes 8 rid) = 8%nat) by done.
  split_and!; try done.
  - rewrite take_app_le, take_ge by lia. rewrite from_be_be_bytes. by apply Z.mod_small.
  - rewrite drop_app_ge by lia. rewrite Hl4.
    change (drop (8 - 4) ([ft; ff; r1; r2] ++ be_bytes 8 rid)) with (be_bytes 8 rid).
    rewrite take_ge by lia. rewrite from_be_be_bytes. by apply Z.mod_small.
Qed.

(** Every 16-byte string is a header. *)
Lemma header_split h : bytes_ok h -> len h = FRAME_HEADER_LEN -> exists d ft ff r1 r2 rid,
  h = header d ft ff r1 r2 rid /\ u32 d /\ u8 ft /\ u8 ff /\ u8 r1 /\ u8 r2 /\ u64 rid.
Proof.
  intros Hok Hl. unfold len, FRAME_HEADER_LEN in Hl.
  do 16 (destruct h as [|? h]; [cbn in Hl; lia|]). destruct h; [|cbn in Hl; lia]. clear Hl.
  match goal with |- context [[?a;?b;?c;?d;?e;?f;?g;?h;?i;?j;?k;?l;?m;?n;?o;?p]] =>
    exists (from_be [a;b;c;d]), e, f, g, h, (from_be [i;j;k;l;m;n;o;p]);
    assert (H4 : bytes_ok [a;b;c;d] /\ bytes_ok [i;j;k;l;m;n;o;p])
  end.
  { unfold bytes_ok in *. rewrite !Forall_cons_iff in Hok. rewrite !Forall_cons_iff. tauto. }
  destruct H4 as [H4 H8]. unfold bytes_ok in Hok. rewrite !Forall_cons_iff in Hok.
  pose proof (from_be_range _ H4). pose proof (from_be_range _ H8).
  apply be_bytes_from_be in H4, H8. cbn [length] in H4, H8. unfold header. rewrite H4, H8.
  split_and!; try done; tauto.
Qed.

(** The fixed part counted by the length field. *)
Definition fixed_len (protected : bool) : Z := (FRAME_HEADER_LEN - 4) + (if protected then 16 else 0).
(** What the receiver reads after an acceptable header. *)
Definition recv_rest (protected : bool) (ft ff rid body_len : Z) : M bytes TransferError (RawFrame * Z * Z) :=
  ec <- (if protected then meta <- read_exact 16 ;; ret (from_be (take 8 meta), from_be (drop 8 meta))
         else ret (0, 0)) ;;
  b <- read_exact body_len ;;
  ret (mkRawFrame ft ff rid b, ec.1, ec.2).

(** The header decides before anything else is read. *)
Lemma recv_header protected d ft ff r1 r2 rid s : u32 d -> u64 rid ->
  recv_raw_frame protected (header d ft ff r1 r2 rid ++ s) =
  if negb (r1 =? 0) || negb (r2 =? 0) || negb (Z.land ff 254 =? 0) then Err (Protocol "reserved bits set")
  else if d <? fixed_len protected then Err (Protocol "bad frame length")
  else if body_limit ft <? d - fixed_len protected then Err (Protocol "frame body exceeds its limit")
  else recv_rest protected ft ff rid (d - fixed_len protected) s.
Proof.
  intros Hd Hr. destruct (header_fields d ft ff r1 r2 rid Hd Hr) as (E1 & E2 & E3 & E4 & E5 & E6).
  unfold recv_raw_frame, bind at 1. rewrite read_exact_app by apply header_len. cbn [rbind].
  rewrite E1, E2, E3, E4, E5, E6. change (Z.lxor FLAG_NONCRITICAL 255) with 254.
  destruct (negb (r1 =? 0) || negb (r2 =? 0) || negb (Z.land ff 254 =? 0)); [done|].
  unfold guard, bind at 1. cbn [negb rbind ret]. fold (fixed_len protected).
  rewrite (Z.ltb_antisym _ d). destruct (fixed_len protected <=? d); [|done].
  unfold bind at 1. cbn [negb rbind ret].
  rewrite Z.ltb_antisym. by destruct (d - fixed_len protected <=? body_limit ft).
Qed.

Definition meta_bytes (protected : bool) (e c : Z) : bytes :=
  if protected then be_bytes 8 e ++ be_bytes 8 c else [].
(** The bytes of a frame, and which frames are sendable. *)
Definition frame_bytes (protected : bool) (f : RawFrame) (e c : Z) : bytes :=
  header (fixed_len protected + len (body f)) (frame_type f) (frame_flags f) 0 0 (request_id f) ++
  meta_bytes protected e c ++ body f.
Definition frame_ok (protected : bool) (f : RawFrame) (e c : Z) : Prop :=
  u8 (frame_type f) /\ (frame_flags f = 0 \/ frame_flags f = FLAG_NONCRITICAL) /\ u64 (request_id f) /\
  bytes_ok (body f) /\ len (body f) <= body_limit (frame_type f) /\
  (if protected then u64 e /\ u64 c else e = 0 /\ c = 0).

Lemma body_limit_range ft : 0 <= body_limit ft <= MAX_DATA_BODY.
Proof. unfold body_limit, MAX_CONTROL_BODY, MAX_DATA_BODY. case_match; lia. Qed.
Lemma fixed_len_range p : 12 <= fixed_len p <= 28.
Proof. destruct p; by cbv. Qed.
Lemma flags_known ff : u8 ff -> Z.land ff 254 = 0 <-> ff = 0 \/ ff = FLAG_NONCRITICAL.
Proof.
  intros Hu. split; [|by intros [-> | ->]]. intros H.
  assert (Hz : forall i, 1 <= i -> Z.testbit ff i = false).
  { intros i Hi. destruct (Z.le_gt_cases 8 i) as [Hle|Hlt].
    - apply Z.bits_above_log2; [by destruct Hu|].
      destruct (Z.eq_dec ff 0) as [->|]; [cbn; lia|].
      apply Z.log2_lt_pow2; [destruct Hu; lia|].
      eapply Z.lt_le_trans; [apply Hu|]. by apply Z.pow_le_mono_r.
    - apply (f_equal (fun x => Z.testbit x i)) in H. rewrite Z.land_spec, Z.bits_0 in H.
      assert (i = 1 \/ i = 2 \/ i = 3 \/ i = 4 \/ i = 5 \/ i = 6 \/ i = 7) as Hc by lia.
      assert (Z.testbit 254 i = true) as Ht by (by destruct Hc as [->|[->|[->|[->|[->|[->| ->]]]]]]).
      rewrite Ht in H. by destruct (Z.testbit ff i). }
  destruct (Z.testbit ff 0) eqn:H0; [right|left]; apply Z.bits_inj'; intros i Hi;
    (destruct (Z.eq_dec i 0) as [->|]; [rewrite H0; done|rewrite Hz by lia]).
  - unfold FLAG_NONCRITICAL. symmetry. apply Z.bits_above_log2; cbn; lia.
  - by rewrite Z.bits_0.
Qed.

Lemma recv_rest_inv protected ft ff rid n s f e c s' : 0 <= n -> bytes_ok s ->
  recv_rest protected ft ff rid n s = Ok (f, e, c, s') ->
  s = meta_bytes protected e c ++ body f ++ s' /\ len (body f) = n /\ frame_type f = ft /\
  frame_flags f = ff /\ request_id f = rid /\ bytes_ok (body f) /\
  (if protected then u64 e /\ u64 c else e = 0 /\ c = 0).
Proof.
  intros Hn Hok H. unfold recv_rest in H. minv H. minv Hk. unfold ret in Hk0. injection Hk0 as <- <- <- <-.
  apply read_exact_inv in Hp0 as [-> Hl]; [|done]. destruct protected.
  - minv Hp. apply read_exact_inv in Hp0 as [-> Hm]; [|done]. unfold ret in Hk. injection Hk as <- ->. cbn [fst snd body frame_type frame_flags request_id].
    apply bytes_ok_app in Hok as [Hm1 Hok]. apply bytes_ok_app in Hok as [Hb _].
    assert (Hl8 : length (take 8 a1) = 8%nat /\ length (drop 8 a1) = 8%nat).
    { unfold len in Hm. rewrite length_take, length_drop. lia. }
    assert (B1 : bytes_ok (take 8 a1)) by by apply Forall_take.
    assert (B2 : bytes_ok (drop 8 a1)) by by apply Forall_drop.
    pose proof (from_be_range _ B1) as R1. pose proof (from_be_range _ B2) as R2.
    apply be_bytes_from_be in B1, B2. destruct Hl8 as [L1 L2]. rewrite L1 in B1, R1. rewrite L2 in B2, R2.
    unfold meta_bytes. rewrite B1, B2, take_drop. by split_and!.
  - unfold ret in Hp. injection Hp as <- ->. apply bytes_ok_app in Hok as [Hb _]. by split_and!.
Qed.

Lemma recv_rest_fwd protected f e c s :
  frame_ok protected f e c ->
  recv_rest protected (frame_type f) (frame_flags f) (request_id f) (len (body f))
    (meta_bytes protected e c ++ body f ++ s) = Ok (f, e, c, s).
Proof.
  intros (_ & _ & _ & _ & _ & Hec). unfold recv_rest. destruct f as [ft ff rid b]. cbn [body frame_type frame_flags request_id].
  destruct protected.
  - destruct Hec as [He Hc]. unfold meta_bytes. eapply bind_ok.
    + eapply bind_ok; [apply read_exact_app; by rewrite len_app, !len_be_bytes|].
      rewrite take_app_length', drop_app_length' by done. rewrite !from_be_be_bytes.
      unfold ret. rewrite !Z.mod_small by done. reflexivity.
    + eapply bind_ok; [by apply read_exact_app|done].
  - destruct Hec as [-> ->]. eapply bind_ok; [reflexivity|]. cbn [meta_bytes app].
    eapply bind_ok; [by apply read_exact_app|done].
Qed.

Lemma recv_raw_frame_iff protected s f e c s' : bytes_ok s ->
  recv_raw_frame protected s = Ok (f, e, c, s') <->
  s = frame_bytes protected f e c ++ s' /\ frame_ok protected f e c.
Proof.
  intros Hok. pose proof (fixed_len_range protected) as Hf. split.
  - intros H. destruct (Z.ltb_spec (len s) FRAME_HEADER_LEN) as [Hs|Hs].
    { exfalso. unfold recv_raw_frame, bind at 1, read_exact at 1 in H.
      by destruct (Z.ltb_spec (len s) FRAME_HEADER_LEN); [|lia]. }
    assert (exists h t, s = h ++ t /\ len h = FRAME_HEADER_LEN) as (h & t & -> & Hlh).
    { exists (take (Z.to_nat FRAME_HEADER_LEN) s), (drop (Z.to_nat FRAME_HEADER_LEN) s).
      rewrite take_drop. split; [done|]. unfold len, FRAME_HEADER_LEN in *. rewrite length_take. lia. }
    apply bytes_ok_app in Hok as [Hh Hok].
    destruct (header_split h Hh Hlh) as (d & ft & ff & r1 & r2 & rid & -> & Hd & Hft & Hff & _ & _ & Hr).
    rewrite recv_header in H by done.
    destruct (Z.eqb_spec r1 0) as [->|]; [|done]. destruct (Z.eqb_spec r2 0) as [->|]; [|done].
    destruct (Z.eqb_spec (Z.land ff 254) 0) as [Hl|]; [|done]. cbn [negb orb] in H.
    destruct (Z.ltb_spec d (fixed_len protected)); [done|].
    destruct (Z.ltb_spec (body_limit ft) (d - fixed_len protected)); [done|].
    apply recv_rest_inv in H as (-> & Hn & <- & <- & <- & Hb & Hec); [|lia|done].
    unfold frame_bytes, frame_ok. rewrite Hn. rewrite <- !app_assoc.
    replace (fixed_len protected + (d - fixed_len protected)) with d by lia.
    split; [done|]. apply flags_known in Hl; [|done]. by split_and!.
  - intros [-> Hfr]. pose proof Hfr as (Hft & Hff & Hr & Hb & Hl & Hec). unfold frame_bytes. rewrite <- !app_assoc.
    pose proof (body_limit_range (frame_type f)) as Hlim. pose proof (len_nonneg (body f)) as Hnn.
    rewrite recv_header; [|unfold MAX_DATA_BODY in *; split; lia|done].
    assert (Z.land (frame_flags f) 254 = 0) as -> by (apply flags_known; [by destruct Hff as [-> | ->]|done]).
    cbn [negb orb Z.eqb].
    destruct (Z.ltb_spec (fixed_len protected + len (body f)) (fixed_len protected)); [lia|].
    replace (fixed_len protected + len (body f) - fixed_len protected) with (len (body f)) by lia.
    destruct (Z.ltb_spec (body_limit (frame_type f)) (len (body f))); [lia|].
    by apply recv_rest_fwd.
Qed.

Lemma header_bytes_ok ft ff rid n extra : 0 <= n -> 0 <= extra -> 12 + extra + n <= MAX_FRAME ->
  header_bytes ft ff rid n extra = Ok (header (12 + extra + n) ft ff 0 0 rid).
Proof.
  intros Hn He Hm. unfold header_bytes. replace (1 + 1 + 2 + 8 + extra + n) with (12 + extra + n) by lia.
  unfold MAX_FRAME, U32_MAX in *. destruct (Z.ltb_spec (2 ^ 32 - 1) (12 + extra + n)); [lia|].
  by destruct (Z.ltb_spec (8 * 1024 * 1024) (12 + extra + n)); [lia|].
Qed.

(** A plain frame arrives as it was sent. *)
Lemma plain_delivered ft b : u8 ft -> bytes_ok b -> len b <= body_limit ft ->
  exists w, send_plain_frame ft b = Ok w /\ bytes_ok w /\
    forall tl, bytes_ok tl -> expect_plain_frame ft (w ++ tl) = Ok (b, tl).
Proof.
  intros Hft Hb Hl. pose proof (body_limit_range ft) as Hbl. unfold MAX_DATA_BODY in Hbl. pose proof (len_nonneg b).
  set (fr := mkRawFrame ft 0 0 b).
  assert (Hok : frame_ok false fr 0 0) by (unfold frame_ok, fr; cbn; split_and!; try done; by left).
  assert (Hw : bytes_ok (frame_bytes false fr 0 0)).
  { unfold frame_bytes, header, meta_bytes. rewrite !bytes_ok_app. split_and!; try apply bytes_ok_be; try done;
    repeat first [apply Forall_nil_2 | apply Forall_cons_2; [done|]]. }
  exists (frame_bytes false fr 0 0). split; [|split; [done|]].
  - unfold send_plain_frame. rewrite header_bytes_ok by (unfold MAX_FRAME; lia). reflexivity.
  - intros tl Htl. unfold expect_plain_frame. eapply bind_ok.
    + apply recv_raw_frame_iff; [by apply bytes_ok_app|split; [reflexivity|done]].
    + cbn [fst frame_type body fr]. unfold guard. rewrite Z.eqb_refl. reflexivity.
Qed.

(** The frame parser accepts exactly the frames of §17.1: a byte stream is
    read as a frame if and only if it starts with the 16-byte header of a
    body within the limit of its type, only the NONCRITICAL flag and zero
    reserved bits, the epoch and counter if protected, and the body, and
    what follows is left for the next frame. *)
Theorem frames_parsed_exactly protected s f e c s' : bytes_ok s ->
  recv_raw_frame protected s = Ok (f, e, c, s') <->
  s = frame_bytes protected f e c ++ s' /\ frame_ok protected f e c.
Proof. apply recv_raw_frame_iff. Qed.

(** The length limit is enforced on the header alone: a header announcing
    a body larger than the limit of its type is refused whatever follows,
    before the body is read. *)
Theorem oversized_frame_refused protected ft rid declared s : u32 declared -> u64 rid ->
  fixed_len protected <= declared -> body_limit ft < declared - fixed_len protected ->
  recv_raw_frame protected (header declared ft 0 0 0 rid ++ s) = Err (Protocol "frame body exceeds its limit").
Proof.
  intros Hd Hr Hf Hl. rewrite recv_header by done. change (Z.land 0 254) with 0. cbn [negb orb Z.eqb].
  destruct (Z.ltb_spec declared (fixed_len protected)); [lia|].
  by destruct (Z.ltb_spec (body_limit ft) (declared - fixed_len protected)); [|lia].
Qed.

Section Delivery.
Context {P : Primitives} {L : PrimitiveLaws}.

(** The sender [a] and the receiver [b] of one direction of a session. *)
Record in_step (prk th : bytes) (d : Control.Direction) (a b : ControlChannel) : Prop := {
  is_send : channel_wf prk th d a;
  is_recv : channel_wf prk th (opposite d) b;
  is_epoch : epoch (keys b) <= epoch (keys a) <= epoch (keys b) + 1;
  is_limit : epoch (keys a) < U64_MAX;
  is_counter : epoch (keys a) = epoch (keys b) -> receive_watermark b <= send_counter a
}.
Lemma new_in_step prk th d : in_step prk th d (new_channel prk th d) (new_channel prk th (opposite d)).
Proof. split; try apply new_channel_wf; cbn; try lia; done. Qed.

(** What a frame from [a] to [b] leaves alone: the other direction. *)
Record kept (a b a' b' : ControlChannel) : Prop := {
  kp_epoch : epoch (keys a') = epoch (keys a);
  kp_watermark : receive_watermark a' = receive_watermark a;
  kp_counter : epoch (keys a) = epoch (keys b) -> epoch (keys b') = epoch (keys b) /\ send_counter b' = send_counter b
}.
Lemma kept_refl a b : kept a b a b.
Proof. by split. Qed.
Lemma kept_trans a b a1 b1 a2 b2 : kept a b a1 b1 -> kept a1 b1 a2 b2 -> kept a b a2 b2.
Proof.
  intros [E1 W1 C1] [E2 W2 C2]. split; [congruence|congruence|]. intros He. destruct (C1 He) as [E3 S3].
  destruct (C2 ltac:(congruence)) as [E4 S4]. split; congruence.
Qed.
(** Both directions of a session in the same epoch. *)
Record paired (prk th : bytes) (d : Control.Direction) (a b : ControlChannel) : Prop := {
  pa_send : in_step prk th d a b;
  pa_recv : in_step prk th (opposite d) b a;
  pa_epoch : epoch (keys a) = epoch (keys b)
}.
Lemma paired_sym prk th d a b : paired prk th d a b -> paired prk th (opposite d) b a.
Proof. intros [H1 H2 H3]. split; [done| |done]. by destruct d. Qed.
Lemma new_paired prk th d : paired prk th d (new_channel prk th d) (new_channel prk th (opposite d)).
Proof. split; [apply new_in_step| |done]. destruct d; apply new_in_step. Qed.
Lemma paired_step prk th d a b a' b' : paired prk th d a b -> in_step prk th d a' b' -> kept a b a' b' -> paired prk th d a' b'.
Proof.
  intros [H1 [S1 R1 E1 L1 W1] H3] H [E W C]. destruct (C H3) as [E' C']. split; [done| |congruence].
  pose proof H as [S2 R2 E2 L2 W2]. split; [done| |rewrite E, E'; lia|rewrite E'; lia|].
  - by destruct d.
  - rewrite C', W. intros _. apply W1. congruence.
Qed.

(** A sealed frame is 16 bytes longer than its payload. *)
Lemma sealed_body prk th d a ft fl rid pt f a' : channel_wf prk th d a ->
  Control.seal a ft fl rid pt = (Ok f, a') -> bytes_ok pt -> len pt <= AEAD_MAX ->
  len (f_ciphertext f) = len pt + 16 /\ bytes_ok (f_ciphertext f) /\
  f_epoch f = epoch (keys a) /\ f_counter f = send_counter a.
Proof.
  intros [Ha1 Ha2 Ha3 Ha4 Ha5 Ha6 _] Hs Hok Hl. unfold Control.seal in Hs.
  destruct (MAX_FRAMES_PER_EPOCH <=? send_counter a); [done|]. unfold seal_with in Hs.
  destruct (aead_encrypt _ _ _ _) as [ct|] eqn:Henc; [|done]. injection Hs as <- _. cbn.
  assert (Hk : array 32 (key_for (keys a) (send_direction a))) by (rewrite Ha5; apply epoch_key_array).
  match type of Henc with aead_encrypt ?k ?n ?ad ?p = _ =>
    destruct (aead_correct k n ad p Hk (control_nonce_array _ _ _) Hok Hl) as (ct' & E & Hlen & Hb & _) end.
  rewrite Henc in E. injection E as <-. done.
Qed.

(** The receiving half of a channel: what sending leaves alone, and all that
    receiving depends on. *)
Definition receiving_half (c : ControlChannel) : ControlChannel :=
  mkChannel (send_direction c) (epoch_prk c) (th2 c) (keys c) 0 (receive_watermark c).
Lemma send_keeps_half c ft p r c' : send_frame c ft p = (r, c') -> receiving_half c' = receiving_half c.
Proof.
  unfold send_frame, Control.seal. destruct (MAX_FRAMES_PER_EPOCH <=? send_counter c); [by intros [= _ <-]|].
  destruct (seal_with _ _ _ _ _ _) as [ct|e|]; [|by intros [= _ <-]..]. destruct (header_bytes _ _ _ _ _); by intros [= _ <-].
Qed.
Lemma recv_of_half c s r c' : recv_frame c s = (r, c') ->
  exists h, recv_frame (receiving_half c) s = (r, h) /\ receiving_half h = receiving_half c'.
Proof.
  unfold recv_frame. destruct (recv_raw_frame true s) as [[[[f ep] n] s']|e|]; [|intros [= <- <-]; by eexists..].
  unfold Control.open. cbn [receiving_half send_direction epoch_prk th2 keys receive_watermark].
  destruct (ep <? _); [intros [= <- <-]; by eexists|]. destruct (_ <? ep); [intros [= <- <-]; by eexists|].
  destruct (if ep =? _ then None else _) as [[ks prk]|].
  - destruct (_ <=? n); [intros [= <- <-]; by eexists|]. destruct (open_with _ _ _ _ _ _); intros [= <- <-]; by eexists.
  - destruct (n <? _); [intros [= <- <-]; by eexists|]. destruct (_ <=? n); [intros [= <- <-]; by eexists|].
    destruct (open_with _ _ _ _ _ _); intros [= <- <-]; by eexists.
Qed.
Lemma recv_same_half c0 c s r c' : receiving_half c0 = receiving_half c -> recv_frame c s = (r, c') ->
  exists c0', recv_frame c0 s = (r, c0') /\ receiving_half c0' = receiving_half c'.
Proof.
  intros He H. destruct (recv_of_half _ _ _ _ H) as (h & Hh & Hc). rewrite <- He in Hh.
  destruct (recv_frame c0 s) as [r0 c0'] eqn:H0. destruct (recv_of_half _ _ _ _ H0) as (h0 & Hh0 & Hc0).
  rewrite Hh in Hh0. injection Hh0 as <- <-. exists c0'. split; [done|]. congruence.
Qed.

Lemma frame_delivered prk th d a b ft p : in_step prk th d a b ->
  send_counter a < MAX_FRAMES_PER_EPOCH -> u8 ft -> bytes_ok p -> len p + 16 <= body_limit ft ->
  exists w a' b', send_frame a ft p = (Ok w, a') /\ bytes_ok w /\
    (forall tl, bytes_ok tl -> recv_frame b (w ++ tl) = (Ok (ft, p, tl), b')) /\
    in_step prk th d a' b' /\ send_counter a' = send_counter a + 1 /\ kept a b a' b'.
Proof.
  intros [Ha Hb He Hlim Hw] Hn Hft Hp Hl. pose proof (body_limit_range ft) as Hbl. unfold MAX_DATA_BODY in Hbl.
  pose proof (len_nonneg p) as Hpn.
  assert (Hlp : len p <= AEAD_MAX) by (unfold AEAD_MAX; lia).
  destruct (deliver prk th d a b ft 0 0 p) as (f & a' & b' & Hseal & Hopen & Ha' & Hb' & E1 & E2 & E3 & E4 & E5 & E6);
    try done; try lia.
  destruct (sealed_body prk th d a ft 0 0 p f a' Ha Hseal Hp Hlp) as (Lc & Bc & Fe & Fc).
  pose proof Ha as [_ _ Ha3 _ _ Ha6 _]. unfold MAX_FRAMES_PER_EPOCH in Hn.
  set (fr := mkRawFrame ft 0 0 (f_ciphertext f)).
  assert (Hok : frame_ok true fr (f_epoch f) (f_counter f)).
  { unfold frame_ok, fr; cbn [frame_type frame_flags request_id body]. rewrite Fe, Fc, Lc.
    split_and!; try done; try lia; unfold U64_MAX in *; split; lia. }
  assert (Hwb : bytes_ok (frame_bytes true fr (f_epoch f) (f_counter f))).
  { unfold frame_bytes, header, meta_bytes. rewrite !bytes_ok_app.
    split_and!; try apply bytes_ok_be; try done. repeat first [apply Forall_nil_2 | apply Forall_cons_2; [done|]]. }
  exists (frame_bytes true fr (f_epoch f) (f_counter f)), a', b'.
  split; [|split; [done|split; [|split; [|split; [done|]]]]].
  - unfold send_frame. rewrite Hseal, header_bytes_ok.
    + unfold frame_bytes, meta_bytes, fr; cbn [frame_type frame_flags request_id body].
      rewrite <- !app_assoc. done.
    + apply len_nonneg.
    + lia.
    + unfold MAX_FRAME. lia.
  - intros tl Htl. unfold recv_frame.
    assert (Hr : recv_raw_frame true (frame_bytes true fr (f_epoch f) (f_counter f) ++ tl)
      = Ok (fr, f_epoch f, f_counter f, tl)) by (apply recv_raw_frame_iff; [by apply bytes_ok_app|done]).
    rewrite Hr. unfold fr; cbn [frame_type frame_flags request_id body]. by rewrite Hopen.
  - split; try done; lia.
  - split; [done|done|]. intros Heq. split; [congruence|by apply E6].
Qed.

(** Send a list of frames, and receive as many. *)
Fixpoint send_all (a : ControlChannel) (frames : list (Z * bytes)) : result TransferError bytes * ControlChannel :=
  match frames with
  | [] => (Ok [], a)
  | (ft, p) :: rest =>
    match send_frame a ft p with
    | (Ok w, a') => let '(r, a'') := send_all a' rest in (let* w' := r in Ok (w ++ w'), a'')
    | (Err e, a') => (Err e, a')
    | (Panic, a') => (Panic, a')
    end
  end.
Fixpoint recv_all (b : ControlChannel) (n : nat) (s : bytes)
  : result TransferError (list (Z * bytes) * bytes) * ControlChannel :=
  match n with
  | O => (Ok ([], s), b)
  | S n' =>
    match recv_frame b s with
    | (Ok (ft, p, s'), b') =>
        let '(r, b'') := recv_all b' n' s' in (let* '(l, tl) := r in Ok ((ft, p) :: l, tl), b'')
    | (Err e, b') => (Err e, b')
    | (Panic, b') => (Panic, b')
    end
  end.

Lemma stream_delivered prk th d a b frames : in_step prk th d a b ->
  send_counter a + len frames <= MAX_FRAMES_PER_EPOCH ->
  Forall (fun f => u8 f.1 /\ bytes_ok f.2 /\ len f.2 + 16 <= body_limit f.1) frames ->
  exists w a' b', send_all a frames = (Ok w, a') /\ bytes_ok w /\
    (forall tl, bytes_ok tl -> recv_all b (length frames) (w ++ tl) = (Ok (frames, tl), b')) /\
    in_step prk th d a' b' /\ send_counter a' = send_counter a + len frames /\ kept a b a' b'.
Proof.
  intros Hi Hn Hf. revert a b Hi Hn. induction Hf as [|[ft p] frames (Hft & Hp & Hl) Hf IH]; intros a b Hi Hn.
  - exists [], a, b. split_and!; [done|constructor|done|done|change (len []) with 0; lia|apply kept_refl].
  - rewrite len_cons in Hn. pose proof (len_nonneg frames). cbn [fst snd] in *.
    destruct (frame_delivered prk th d a b ft p Hi ltac:(lia) Hft Hp Hl) as (w & a' & b' & Hs & Hwb & Hr & Hi' & Hc & Hk).
    destruct (IH a' b' Hi' ltac:(lia)) as (w' & a2 & b2 & Hs' & Hwb' & Hr' & Hi2 & Hc2 & Hk2).
    exists (w ++ w'), a2, b2. cbn [send_all recv_all length]. rewrite Hs, Hs'. cbn [rbind]. split; [done|].
    split; [by apply bytes_ok_app|]. split; [|split; [done|split; [rewrite len_cons; lia|by eapply kept_trans]]].
    intros tl Htl. rewrite <- app_assoc, Hr by (by apply bytes_ok_app). by rewrite (Hr' tl Htl).
Qed.
End Delivery.

(** Two endpoints of one handshake exchange frames over the byte stream:
    whatever sequence of frames within the body limits is sent, the receiver
    reads the same types and payloads in the same order from the
    concatenated bytes and leaves the bytes that follow. *)
Theorem frame_stream_delivered {P : Primitives} {L : PrimitiveLaws} prk th d frames :
  len frames <= MAX_FRAMES_PER_EPOCH ->
  Forall (fun f => u8 f.1 /\ bytes_ok f.2 /\ len f.2 + 16 <= body_limit f.1) frames ->
  exists w, (send_all (new_channel prk th d) frames).1 = Ok w /\
    forall tl, bytes_ok tl -> (recv_all (new_channel prk th (opposite d)) (length frames) (w ++ tl)).1 = Ok (frames, tl).
Proof.
  intros Hn Hf. destruct (stream_delivered prk th d _ _ frames (new_in_step prk th d) Hn Hf) as (w & a & b & H1 & _ & H2 & _).
  exists w. rewrite H1. split; [done|]. intros tl Htl. by rewrite H2.
Qed.

(** ** Chunk records on the wire *)
Definition step_value (s : ProofStep) : value := VArray [VUint (step_code (direction s)); VBytes (hash s)].
Definition record_value (r : Z * list ProofStep * bytes) : value :=
  VMap [(0, VUint r.1.1); (1, VArray (map step_value r.1.2)); (2, VBytes r.2)].
Definition step_wf (s : ProofStep) : Prop := array 32 (hash s).
Definition record_wf (r : Z * list ProofStep * bytes) : Prop :=
  u64 r.1.1 /\ u64 (len r.1.2) /\ Forall step_wf r.1.2 /\ byte_string r.2.

Lemma write_step_emits {E} s : emits (write_step (E := E) s) (step_value s).
Proof.
  intros w. unfold write_step, step_value. rewrite writer_bytes, writer_uint. unfold Writer.array.
  rewrite header_app, cbor_array. unfold items. cbn [flat_map]. by rewrite app_nil_r, <- !app_assoc.
Qed.
Lemma encode_chunk_record_eq {E} i p ct :
  encode_chunk_record (E := E) i p ct = Ok (cbor (record_value (i, p, ct))).
Proof.
  unfold encode_chunk_record.
  assert (Hem : emits (E := E) (write_map 3 [MapWriter.uint 0 i;
    MapWriter.nested 1 (fun w => write_each write_step p (Writer.array (len p) w));
    MapWriter.bytes 2 ct]) (record_value (i, p, ct))).
  { unfold record_value. apply write_map_emits; [|by cbn; repeat split; lia|done].
    repeat (apply List.Forall2_cons; [cbn [fst snd]; eauto with wire|]); [|apply List.Forall2_nil].
    apply writes_nested, array_emits. intros x _. apply write_step_emits. }
  by rewrite Hem.
Qed.

(** One backward step of a map decoder, by hand. *)
Ltac record_back H H1 :=
  let H2 := fresh "Hr" in
  apply bind_inv in H as (? & ? & H1 & H2); cbn beta iota zeta in H2; rename H2 into H.

Module ChunkRecordWire.
Import ChunkRecord.

Lemma read_step_fwd pre s tl d : step_wf s -> 0 <= d -> d + 1 <= MAX_DEPTH ->
  read_step (mkr pre (cbor (step_value s) ++ tl) d) = Ok (s, mkr (pre ++ cbor (step_value s)) tl (d + 1)).
Proof.
  intros Hs Hd Hd'. destruct s as [dir h]. unfold read_step, step_value, step_wf in *. cbn [direction hash] in *.
  rewrite cbor_array. change (len [_; _]) with 2. unfold items. cbn [flat_map]. rewrite app_nil_r, <- !app_assoc.
  eapply bind_ok; [apply q_fwd, array_fwd; [done|lia]|].
  eapply bind_ok; [by apply guard_ok|].
  eapply bind_ok; [apply q_fwd, (codec_fwd codec_uint); [by destruct dir|lia|unfold MAX_DEPTH in *; lia]|].
  eapply bind_ok; [destruct dir; reflexivity|].
  eapply bind_ok; [apply q_fwd, (codec_fwd (codec_bytes_exact 32 ltac:(by split))); [done|lia|lia]|].
  unfold ret. by rewrite <- !app_assoc.
Qed.
Lemma read_step_deep pre s tl d : MAX_DEPTH < d + 1 ->
  read_step (mkr pre (cbor (step_value s) ++ tl) d) = Err (Protocol "bad chunk record").
Proof.
  intros Hd. unfold read_step, step_value. rewrite cbor_array. change (len [_; _]) with 2. rewrite <- !app_assoc.
  apply bind_err. unfold q. by rewrite array_deep.
Qed.
Lemma read_step_bwd pre rest d s r : bytes_ok rest -> 0 <= d -> read_step (mkr pre rest d) = Ok (s, r) ->
  exists tl, rest = cbor (step_value s) ++ tl /\ r = mkr (pre ++ cbor (step_value s)) tl (d + 1) /\
    bytes_ok tl /\ step_wf s /\ d + 1 <= MAX_DEPTH.
Proof.
  intros Hok Hd H. unfold read_step in H. minv H.
  apply q_bwd, array_bwd in Hp as (tl & -> & -> & Hn & Hok' & Hdep); [|done].
  minv Hk. minv Hp. apply Z.eqb_eq in Hg as ->. minv Hk0.
  apply q_bwd, (codec_bwd codec_uint) in Hp as (tl1 & -> & -> & Hok1 & Hs); [|done|lia].
  minv Hk. assert (a = step_code a1 /\ s0 = mkr (pre ++ hdr MAJOR_ARRAY 2 ++ cbor (VUint a)) tl1 (d + 1)) as [-> ->].
  { rewrite app_assoc. destruct (Z.eqb_spec a 0) as [->|]; [by minv Hp|].
    destruct (Z.eqb_spec a 1) as [->|]; [by minv Hp|done]. }
  clear Hp. minv Hk0.
  apply q_bwd, (codec_bwd (codec_bytes_exact 32 ltac:(by split))) in Hp as (tl2 & -> & -> & Hok2 & He); [|done|lia].
  unfold ret in Hk. injection Hk as <- <-. exists tl2. unfold step_value. cbn [direction hash]. rewrite cbor_array.
  change (len [_; _]) with 2. unfold items. cbn [flat_map]. rewrite app_nil_r, <- !app_assoc. done.
Qed.

Lemma repeat_step_fwd xs pre tl d : Forall step_wf xs -> 0 <= d -> d + len xs <= MAX_DEPTH ->
  repeat_m (length xs) read_step (mkr pre (items (map step_value xs) ++ tl) d)
    = Ok (xs, mkr (pre ++ items (map step_value xs)) tl (d + len xs)).
Proof.
  intros Hxs. revert pre d. induction Hxs as [|x xs Hx Hxs IH]; intros pre d Hd Hm.
  - cbn. unfold ret. by rewrite app_nil_r, Z.add_0_r.
  - cbn [length map repeat_m]. rewrite len_cons in *. pose proof (len_nonneg xs).
    rewrite items_cons, <- app_assoc.
    eapply bind_ok; [apply read_step_fwd; [done|lia|lia]|].
    eapply bind_ok; [apply IH; lia|]. unfold ret. rewrite <- app_assoc. do 3 f_equal. lia.
Qed.
Lemma repeat_step_deep xs pre tl d : Forall step_wf xs -> 0 <= d <= MAX_DEPTH -> MAX_DEPTH < d + len xs ->
  repeat_m (length xs) read_step (mkr pre (items (map step_value xs) ++ tl) d) = Err (Protocol "bad chunk record").
Proof.
  intros Hxs. revert pre d. induction Hxs as [|x xs Hx Hxs IH]; intros pre d Hd Hm.
  - rewrite len_nil in Hm. lia.
  - cbn [length map repeat_m]. rewrite len_cons in *. rewrite items_cons, <- app_assoc.
    destruct (Z.lt_ge_cases MAX_DEPTH (d + 1)) as [Hdeep|Hok].
    + apply bind_err. by apply read_step_deep.
    + eapply bind_ok; [apply read_step_fwd; [done|lia|lia]|].
      apply bind_err. apply IH; lia.
Qed.
Lemma repeat_step_bwd n xs pre rest d r : bytes_ok rest -> 0 <= d <= MAX_DEPTH ->
  repeat_m n read_step (mkr pre rest d) = Ok (xs, r) ->
  exists tl, rest = items (map step_value xs) ++ tl /\
    r = mkr (pre ++ items (map step_value xs)) tl (d + len xs) /\
    bytes_ok tl /\ Forall step_wf xs /\ length xs = n /\ d + len xs <= MAX_DEPTH.
Proof.
  revert xs pre rest d r. induction n as [|n IH]; intros xs pre rest d r Hok Hd Hp; cbn [repeat_m] in Hp.
  - apply ret_inv in Hp as [-> ->]. exists rest. cbn. rewrite app_nil_r, len_nil, Z.add_0_r.
    split_and!; try done; lia.
  - minv Hp. apply read_step_bwd in Hp0 as (tl & -> & -> & Hok' & HP & Hd'); [|done|lia].
    minv Hk. apply IH in Hp as (tl' & -> & -> & Hok'' & HPs & <- & Hd''); [|done|lia]. minv Hk0.
    exists tl'. cbn [map length]. rewrite items_cons, len_cons, <- !app_assoc.
    split_and!; try done; [f_equal; lia|by constructor|lia].
Qed.

(** Entering the message and reading its first two entries. *)
Lemma decode_err ps i ct e : u64 i -> u64 (len ps) ->
  (guard (len ps <=? 64) (Protocol "proof too deep") ;;;
   get (repeat_m (Z.to_nat (len ps)) read_step))
    (mkm ((((hdr MAJOR_MAP 3 ++ hdr MAJOR_UINT 0) ++ cbor (VUint i)) ++ hdr MAJOR_UINT 1) ++ hdr MAJOR_ARRAY (len ps))
      (items (map step_value ps) ++ entries [(2, VBytes ct)] ++ []) 2 1 (Some 1)) = Err e ->
  decode_chunk_record (cbor (record_value (i, ps, ct))) = Err e.
Proof.
  intros Hi Hn H. unfold decode_chunk_record. apply decode_unbounded_err. unfold read_chunk_record, record_value.
  cbn [fst snd]. apply in_map_err; [done|done|].
  change (len [_; _; _]) with 3. change ([] ++ hdr MAJOR_MAP 3) with (hdr MAJOR_MAP 3).
  wstep.
  wstep.
  wstep.
  wstep. rewrite len_map.
  change (1 + 1) with 2. unfold bind in H at 1. unfold bind at 1.
  destruct (guard _ _ _) as [[u m]|e'|]; cbn [rbind] in H |- *; [|by injection H as ->|done].
  by apply bind_err.
Qed.
Lemma decode_ok ps i ct : u64 i -> len ps <= 14 -> Forall step_wf ps -> byte_string ct ->
  decode_chunk_record (cbor (record_value (i, ps, ct))) = Ok (i, ps, ct).
Proof.
  intros Hi Hn Hps Hct. pose proof (len_nonneg ps).
  assert (Hu : u64 (len ps)) by (split; lia).
  eapply (decode_unbounded_ok _ _ _ _ (len ps)). unfold read_chunk_record, record_value. cbn [fst snd].
  refine (in_map_fwd _ _ [] [] 0 (i, ps, ct) (mkm _ [] (len ps) 0 (Some 2)) _ _ _); [done|done|].
  wstep.
  wstep.
  wstep.
  wstep. rewrite len_map.
  eapply bind_ok; [apply guard_ok, Z.leb_le; lia|].
  replace (Z.to_nat (len ps)) with (length ps) by (unfold len; lia).
  eapply bind_ok; [apply get_fwd, repeat_step_fwd; [done|lia|unfold MAX_DEPTH; lia]|].
  eapply bind_ok; [eapply get_leave_fwd; lia|].
  wstep.
  eapply bind_ok; [eapply get_codec_fwd; [done|lia|unfold MAX_DEPTH; lia]|].
  eapply bind_ok; [apply no_more_fwd; lia|].
  unfold ret, mkm. cbn [MapReader.reader]. do 2 f_equal.
  rewrite <- !app_assoc. unfold mkm. do 2 f_equal; try lia.
Qed.
Lemma get_steps_bwd c pre rest d n last xs m : bytes_ok rest -> 0 <= d <= MAX_DEPTH ->
  get (repeat_m c read_step) (mkm pre rest d n last) = Ok (xs, m) ->
  exists tl, rest = items (map step_value xs) ++ tl /\
    m = mkm (pre ++ items (map step_value xs)) tl (d + len xs) n last /\
    bytes_ok tl /\ Forall step_wf xs /\ length xs = c /\ d + len xs <= MAX_DEPTH.
Proof.
  intros Hok Hd Hp. apply get_bwd in Hp as (r & Hp & ->).
  apply repeat_step_bwd in Hp as (tl & -> & -> & ? & ? & ? & ?); [|done|done]. by exists tl.
Qed.

Lemma decode_bwd b i ps ct : bytes_ok b -> decode_chunk_record b = Ok (i, ps, ct) ->
  b = cbor (record_value (i, ps, ct)) /\ u64 i /\ len ps <= 14 /\ Forall step_wf ps /\ byte_string ct.
Proof.
  intros Hok H. unfold decode_chunk_record, decode_unbounded in H. minv H. destruct a as [a r].
  minv Hk. injection Hk0 as ->. minv Hp0.
  change (Reader.new_unbounded b) with (mkr [] b 0) in Hp. unfold read_chunk_record in Hp.
  apply in_map_bwd in Hp as (n & tl & m & -> & Hn & Hok' & Hp & ->); [|done].
  do 5 (record_back Hp Hs; wback Hs).
  record_back Hp Hs. apply get_steps_bwd in Hs as (tl' & -> & -> & Hok4 & HPs & Hlen & Hdep);
    [|done|by unfold MAX_DEPTH].
  pose proof (len_nonneg x4). do 3 (record_back Hp Hs; wback Hs). 
  record_back Hp Hs; wback Hs. apply ret_inv in Hp as [Heq ->]. injection Heq as -> -> ->.
  wcounts. assert (n = 3) as -> by lia.
  unfold Reader.finish, mkm in Hp0. cbn [MapReader.reader] in Hp0. unfold mkr in Hp0.
  cbn [Reader.pos Reader.buf] in Hp0. rewrite !len_app in Hp0.
  match type of Hp0 with context [?x =? ?y] => destruct (Z.eqb_spec x y) as [He|]; [|done] end.
  assert (len tl0 = 0) as ->%len_0_nil by lia.
  unfold record_value. cbn [fst snd]. rewrite cbor_map, !entries_cons, cbor_array, len_map. unfold entries.
  cbn [flat_map]. rewrite ?app_nil_r, <- ?app_assoc.
  split_and!; try done. unfold MAX_DEPTH in *. lia.
Qed.

(** A record with a longer proof never decodes. *)
Lemma decode_deep i ps ct : u64 i -> u64 (len ps) -> 14 < len ps -> Forall step_wf ps ->
  decode_chunk_record (cbor (record_value (i, ps, ct)))
    = Err (if len ps <=? 64 then Protocol "bad chunk record" else Protocol "proof too deep").
Proof.
  intros Hi Hu Hl Hps. apply decode_err; [done|done|].
  destruct (Z.leb_spec (len ps) 64); [|by apply bind_err].
  eapply bind_ok; [by apply guard_ok|].
  replace (Z.to_nat (len ps)) with (length ps) by (unfold len; lia).
  unfold get, MapReader.on, mkm. cbn [MapReader.reader]. unfold q at 1.
  rewrite repeat_step_deep; [done|done|by unfold MAX_DEPTH|unfold MAX_DEPTH; lia].
Qed.
End ChunkRecordWire.

(** The path of the first leaf grows with the logarithm of the tree. *)
Lemma first_path_long f n : 2 ^ Z.of_nat f < n -> n <= 2 ^ 63 ->
  Z.of_nat f + 1 <= len (expected_directions n 0).
Proof.
  revert n. induction f as [|f IH]; intros n Hf Hn.
  - cbn in Hf. rewrite expected_directions_step by lia. cbn zeta.
    destruct (lp2_split n ltac:(lia)) as [_ Hk]. destruct (Z.ltb_spec 0 (largest_power_of_two_below n)); [|lia].
    rewrite len_app. pose proof (len_nonneg (expected_directions (largest_power_of_two_below n) 0)).
    change (len [Right]) with 1. lia.
  - rewrite Nat2Z.inj_succ, Z.pow_succ_r in Hf by lia. assert (0 < 2 ^ Z.of_nat f) by lia.
    rewrite expected_directions_step by lia. cbn zeta.
    destruct (lp2_split n ltac:(lia)) as [_ Hk]. destruct (Z.ltb_spec 0 (largest_power_of_two_below n)); [|lia].
    specialize (IH (largest_power_of_two_below n) ltac:(lia) ltac:(lia)). rewrite len_app.
    change (len [Right]) with 1. lia.
Qed.

(** Chunk records survive the wire as long as their proof has at most 14
    steps, and the decoder accepts nothing but canonical records of at most
    14 steps. *)
Theorem chunk_record_roundtrip i ps ct b : bytes_ok b ->
  ChunkRecord.decode_chunk_record b = Ok (i, ps, ct) <->
  encode_chunk_record (E := TransferError) i ps ct = Ok b /\
  u64 i /\ len ps <= 14 /\ Forall step_wf ps /\ byte_string ct.
Proof.
  intros Hok. rewrite encode_chunk_record_eq. split.
  - intros (-> & H)%ChunkRecordWire.decode_bwd; done.
  - intros (He & Hi & Hl & Hps & Hct). apply Ok_inj in He as <-. by apply ChunkRecordWire.decode_ok.
Qed.

(** The decoder does not leave the array of a proof step, so its depth
    limit cuts proofs at 14 steps: the first chunk of any object with more
    than 2^14 chunks is refused by the receiver, with the sender's own proof. *)
Theorem large_object_refused {P : Primitives} {L : PrimitiveLaws} leaves ct ps :
  2 ^ 14 < len leaves <= 2 ^ 63 -> Forall (array 32) leaves -> build_proof leaves 0 = Ok ps ->
  exists b, encode_chunk_record (E := TransferError) 0 ps ct = Ok b /\
    ChunkRecord.decode_chunk_record b = Err (Protocol "bad chunk record").
Proof.
  intros Hn Hl Hps. unfold build_proof in Hps. destruct (len leaves <=? 0); [done|]. apply Ok_inj in Hps as <-.
  destruct leaves as [|leaf rest] eqn:He; [rewrite len_nil in Hn; lia|]. rewrite <- He in *.
  assert (Hf : len leaves <= 2 ^ Z.of_nat 64) by (change (len leaves <= 2 ^ 64); lia).
  set (ps := build_proof_inner 64 leaves 0 []).
  destruct (build_proof_climbs 64 leaves 0 leaf Hf ltac:(lia) ltac:(lia) ltac:(by rewrite He)) as [Hd _].
  assert (Hlen : len ps = len (expected_directions (len leaves) 0)) by (rewrite <- Hd; by rewrite len_map).
  pose proof (first_path_long 14 (len leaves) ltac:(change (2 ^ 14 < len leaves); lia) ltac:(lia)) as H1.
  pose proof (expected_directions_depth 63 (len leaves) 0 ltac:(change (len leaves <= 2 ^ 63); lia) ltac:(lia)) as H2.
  assert (Hw : Forall step_wf ps).
  { apply (build_proof_all (array 32)); [apply blake3_len|done|lia|done]. }
  exists (cbor (record_value (0, ps, ct))). split; [apply encode_chunk_record_eq|].
  rewrite ChunkRecordWire.decode_deep; [|by split|split; lia|lia|done].
  by destruct (Z.leb_spec (len ps) 64); [|lia].
Qed.

(** ** Acknowledgements on the wire *)
Definition ack_value (a : Z * bytes) : value := VMap [(0, VUint a.1); (1, VBytes a.2)].
Definition ack_wf (a : Z * bytes) : Prop := u64 a.1 /\ array 32 a.2.
Section AckWire.
Import Ack.
#[export] Instance ack_codec : codec 1 read_ack ack_value ack_wf.
Proof.
  split.
  - intros pre tl d [st dg] (H1 & H2) Hd Hd'. cbn [fst snd] in *.
    unfold read_ack, ack_value; cbn [fst snd]. wforward.
  - intros pre rest d [st dg] r Hok Hd H. unfold read_ack in H.
    apply in_map_bwd in H as (n & tl & m & -> & Hn & Hok' & Hp & ->); [|done].
    do 5 (record_back Hp Hs; wback Hs). apply ret_inv in Hp as [Heq ->]. injection Heq as -> ->.
    unfold ack_value; cbn [fst snd]. wfinish. done.
Qed.
Lemma encode_ack_eq {E} st dg : encode_ack (E := E) st dg = Ok (cbor (ack_value (st, dg))).
Proof.
  unfold encode_ack. assert (Hem : emits (E := E) (write_map 2 [MapWriter.uint 0 st; MapWriter.bytes 1 dg])
    (ack_value (st, dg))) by (unfold ack_value; wemit). by rewrite Hem.
Qed.
Lemma ack_roundtrip st dg : u64 st -> array 32 dg -> decode_ack (cbor (ack_value (st, dg))) = Ok (st, dg).
Proof.
  intros Hs Hd. unfold decode_ack. eapply decode_message; [done|by split|].
  destruct Hd as [Hl _]. unfold ack_value. cbn [fst snd]. wsize.
Qed.
Lemma ack_decode_canonical b a : bytes_ok b -> decode_ack b = Ok a -> b = cbor (ack_value a) /\ ack_wf a.
Proof. intros Hok H. by eapply decode_message_inv. Qed.
End AckWire.

(** ** Instances *)
Module FramingWitness.
Import Toy.
Definition hello : RawFrame := mkRawFrame 2 1 7 [1; 2; 3].
Lemma frames_parsed_exactly_witness :
  recv_raw_frame true (frame_bytes true hello 4 5 ++ [9; 9]) = Ok (hello, 4, 5, [9; 9]).
Proof.
  apply (frames_parsed_exactly true _ hello 4 5 [9; 9]).
  - apply bytes_ok_check. vm_compute. reflexivity.
  - split; [reflexivity|]. split_and!; try done; [by right|by repeat constructor].
Defined.

Lemma oversized_frame_refused_witness :
  recv_raw_frame true (header (28 + 1024 * 1024 + 1) 2 0 0 0 7 ++ [1; 2])
    = Err (Protocol "frame body exceeds its limit").
Proof. apply (oversized_frame_refused true 2 7); done. Defined.

Lemma frame_stream_delivered_witness : exists w,
  (send_all (new_channel [1] [2] ClientToServer) [(2, [1; 2]); (33, [])]).1 = Ok w /\
  forall tl, bytes_ok tl ->
    (recv_all (new_channel [1] [2] ServerToClient) 2 (w ++ tl)).1 = Ok ([(2, [1; 2]); (33, [])], tl).
Proof.
  apply (frame_stream_delivered [1] [2] ClientToServer [(2, [1; 2]); (33, [])]); [done|].
  repeat (apply Forall_cons_2; [cbn; split_and!; try done; by repeat constructor|]). by apply Forall_nil_2.
Defined.

Lemma chunk_record_roundtrip_witness :
  ChunkRecord.decode_chunk_record (cbor (record_value (5, [mkStep Right (replicate 32 7)], [1; 2])))
    = Ok (5, [mkStep Right (replicate 32 7)], [1; 2]).
Proof.
  apply chunk_record_roundtrip.
  - apply bytes_ok_check. vm_compute. reflexivity.
  - split; [by rewrite encode_chunk_record_eq|].
    split_and!; try done; [|split; [by repeat constructor|done]].
    apply Forall_singleton. split; [done|by repeat constructor].
Defined.

Definition big_tree : list bytes := repeat (replicate 32 7) (Z.to_nat (2 ^ 14 + 1)).
Lemma large_object_refused_witness : exists ps b,
  build_proof big_tree 0 = Ok ps /\ encode_chunk_record (E := TransferError) 0 ps [1; 2] = Ok b /\
  ChunkRecord.decode_chunk_record b = Err (Protocol "bad chunk record").
Proof.
  assert (Hl : len big_tree = 2 ^ 14 + 1) by (unfold len, big_tree; rewrite repeat_length; lia).
  assert (Hb : build_proof big_tree 0 = Ok (build_proof_inner 64 big_tree 0 [])).
  { unfold build_proof. by rewrite Hl. }
  destruct (large_object_refused big_tree [1; 2] _ ltac:(rewrite Hl; lia)
    ltac:(apply Forall_forall; intros x Hx%list_elem_of_In%repeat_spec; subst x; split; [done|by repeat constructor])
    Hb) as (b & H1 & H2).
  exists (build_proof_inner 64 big_tree 0 []), b. exact (conj Hb (conj H1 H2)).
Defined.
End FramingWitness.
