(* ===== verification/Sender.v ===== *)
(** * The sender: preparing, caching and serving an object (transfer.rs)

    The source file is the list of its bytes at the time of the call that
    reads it; it may have changed between [prepare] and [send_pending].  The
    fresh secrets of [prepare], clock readings and observed routes are
    arguments. *)

From S2P Require Import Bitmap Prelude Cbor Wire Crypto Merkle Keys Object Scheduler Control Events Route Framing.

(** ** The ciphertext cache *)
(** transfer.rs 448-452 [CiphertextCache] *)
Record CiphertextCache : Type := mkCache { entries : list (option bytes); budget_remaining : Z }.
(** transfer.rs 457-457 [CiphertextCache::DEFAULT_BUDGET] *)
Definition DEFAULT_BUDGET : Z := 64 * 1024 * 1024.
(** transfer.rs 459-464 [CiphertextCache::new] *)
Definition cache_new (count budget : Z) : CiphertextCache := mkCache (replicate (Z.to_nat count) None) budget.
(** transfer.rs 468-477 [CiphertextCache::insert] *)
Definition cache_insert (index : Z) (ciphertext : bytes) (c : CiphertextCache) : CiphertextCache :=
  if budget_remaining c <? len ciphertext then c else
  match entries c !! Z.to_nat index with
  | None => c
  | Some _ => mkCache (<[Z.to_nat index := Some ciphertext]> (entries c)) (budget_remaining c - len ciphertext)
  end.
(** transfer.rs 479-481 [CiphertextCache::get] *)
Definition cache_get (c : CiphertextCache) (index : Z) : option bytes := mjoin (entries c !! Z.to_nat index).

Section Sender.
Context {P : Primitives}.

(** ** Preparing *)
(** transfer.rs 428-439 [PendingTransfer] *)
Record PendingTransfer : Type := mkPending {
  p_secrets : FileSecrets;
  p_ctx : ObjectContext;
  p_ctx_hash : bytes;
  p_schedule : FileKeySchedule;
  p_leaves : list bytes;
  p_ciphertext_root : bytes;
  p_plaintext_digest : bytes;
  p_cache : CiphertextCache
}.

(** The loop over [index .. index + n]: [file] is what is left to read,
    [hashed] what the plaintext hasher was given. *)
Fixpoint prepare_loop (schedule : FileKeySchedule) (ctx : ObjectContext) (ctx_hash : bytes)
    (n : nat) (index : Z) (file : bytes) (leaves : list bytes) (hashed : bytes) (cache : CiphertextCache)
  : result TransferError (list bytes * bytes * CiphertextCache) :=
  match n with
  | O => Ok (leaves, hashed, cache)
  | S n' =>
    match chunk_len ctx index with
    | Ok l =>
      let* '(plain, file') := read_exact l file in
      let* ciphertext := map_err (fun _ => Crypto "chunk encryption") (encrypt_chunk schedule ctx ctx_hash index plain) in
      prepare_loop schedule ctx ctx_hash n' (index + 1) file' (leaves ++ [leaf_hash index ciphertext])
        (hashed ++ plain) (cache_insert index ciphertext cache)
    | _ => Panic
    end
  end.

(** [file_len] is the length in the file's metadata.
    transfer.rs 492-527 [PendingTransfer::prepare] *)
Definition prepare (file_len : Z) (file : bytes) (secrets : FileSecrets) (chunk_size : Z)
  : result TransferError PendingTransfer :=
  let* ctx := map_err (fun _ => Crypto "object context")
                (for_file (transfer_id secrets) (object_id secrets) file_len chunk_size) in
  let* ctx_hash := map_err (fun _ => Crypto "object context") (context_hash ctx) in
  let schedule := key_schedule secrets in
  let* '(leaves, hashed, cache) :=
    prepare_loop schedule ctx ctx_hash (Z.to_nat (chunk_count ctx)) 0 file [] []
      (cache_new (chunk_count ctx) DEFAULT_BUDGET) in
  Ok (mkPending secrets ctx ctx_hash schedule leaves (merkle_root leaves) (blake3_hash hashed) cache).

(** ** Serving a request *)
(** transfer.rs 739-772 [produce_chunk_record] *)
Definition produce_chunk_record (file : bytes) (cache : CiphertextCache) (ctx : ObjectContext)
    (ctx_hash : bytes) (schedule : FileKeySchedule) (leaves : list bytes) (index : Z)
  : result TransferError bytes :=
  match chunk_len ctx index with
  | Ok l =>
    let* ciphertext := (match cache_get cache index with
      | Some b => Ok b
      | None =>
        let* '(plain, _) := read_exact l (drop (Z.to_nat (wrap 64 (index * chunk_plaintext_size ctx))) file) in
        map_err (fun _ => Crypto "chunk encryption") (encrypt_chunk schedule ctx ctx_hash index plain)
      end) in
    let* proof := map_err (fun _ => Crypto "proof") (build_proof leaves index) in
    encode_chunk_record index proof ciphertext
  | _ => Panic
  end.

(** The part of [send_pending] that changes while chunks are sent: the
    control channel, the bytes written to the stream, the route watch, the
    two counters and the event queue. *)
Record SendState : Type := mkSend {
  s_control : ControlChannel;
  s_out : bytes;
  s_watch : RouteWatch;
  s_sent_bytes : Z;
  s_sent_chunks : Z;
  s_events : option Inner
}.
Definition push_all (evs : list Event) (q : option Inner) : option Inner :=
  (fun i => fold_left (fun i e => push e i) evs i) <$> q.

(** The send loop.  [obs k] is the time and the route seen at the [k]-th poll
    of the route watch; [ahead] is the record produced in the previous turn.
    transfer.rs 1003-1033 [send_pending] *)
Fixpoint send_loop (produce : Z -> result TransferError bytes) (ctx : ObjectContext) (requested : Z)
    (obs : nat -> Z * Route) (indices : list Z) (ahead : option bytes) (st : SendState)
  : result TransferError unit * SendState :=
  match indices with
  | [] => (Ok tt, st)
  | index :: rest =>
    match ahead, chunk_len ctx index with
    | Some record, Ok l =>
      match send_frame (s_control st) FRAME_CHUNK record with
      | (Ok w, control) =>
        let st1 := mkSend control (s_out st ++ w) (s_watch st) (s_sent_bytes st) (s_sent_chunks st) (s_events st) in
        match (match rest with
               | next :: _ => let* r := produce next in Ok (Some r)
               | [] => Ok None
               end) with
        | Ok ahead' =>
          let '(now, route) := obs O in
          let '(polled, evs, watch) := poll_with (ctx_transfer_id ctx) now route (s_watch st1) in
          match polled with
          | Ok _ =>
            let sent_bytes := wrap 64 (s_sent_bytes st1 + l) in
            let sent_chunks := wrap 64 (s_sent_chunks st1 + 1) in
            let progress := TransferProgress (ctx_transfer_id ctx) Sending sent_bytes
                              (encoded_plaintext_size ctx) sent_chunks requested in
            send_loop produce ctx requested (fun k => obs (S k)) rest ahead'
              (mkSend control (s_out st1) watch sent_bytes sent_chunks
                 (push_all (evs ++ [progress]) (s_events st1)))
          | Err r =>
            (Err (RouteRefused r), mkSend control (s_out st1) watch (s_sent_bytes st1) (s_sent_chunks st1)
                                     (push_all evs (s_events st1)))
          | Panic => (Panic, st1)
          end
        | Err e => (Err e, st1)
        | Panic => (Panic, st1)
        end
      | (Err e, control) =>
        (Err e, mkSend control (s_out st) (s_watch st) (s_sent_bytes st) (s_sent_chunks st) (s_events st))
      | (Panic, _) => (Panic, st)
      end
    | _, _ => (Panic, st)
    end
  end.

(** [request.ranges.iter().flat_map(|&(start, end)| start..end)] *)
Definition requested_indices (r : RangeRequest) : list Z :=
  concat (map (fun x => seqZ x.1 (x.2 - x.1)) (ranges r)).

(** transfer.rs 957-963 [send_pending] *)
Definition accept_request (p : PendingTransfer) (request_bytes : bytes) : result TransferError RangeRequest :=
  let* request := map_err (fun _ => Protocol "bad range request")
                    (Scheduler.decode request_bytes (chunk_count (p_ctx p))) in
  if negb (bytes_eqb (rr_transfer_id request) (transfer_id (p_secrets p)))
     || negb (bytes_eqb (rr_object_id request) (object_id (p_secrets p)))
  then Err (Protocol "range request names another object") else
  Ok request.
(** From the accepted request to STREAM_END.
    transfer.rs 964-1036 [send_pending] *)
Definition serve_ranges (p : PendingTransfer) (file : bytes) (obs : nat -> Z * Route)
    (request : RangeRequest) (st : SendState) : result TransferError unit * SendState :=
  let requested := chunk_total request in
  let started := TransferStarted (transfer_id (p_secrets p)) 1 (encoded_plaintext_size (p_ctx p)) in
  let st0 := mkSend (s_control st) (s_out st) (s_watch st) 0 0 (push_all [started] (s_events st)) in
  let produce := produce_chunk_record file (p_cache p) (p_ctx p) (p_ctx_hash p) (p_schedule p) (p_leaves p) in
  let indices := requested_indices request in
  match (match indices with first :: _ => let* r := produce first in Ok (Some r) | [] => Ok None end) with
  | Ok ahead =>
    match send_loop produce (p_ctx p) requested obs indices ahead st0 with
    | (Ok _, st1) =>
      match send_frame (s_control st1) FRAME_STREAM_END [] with
      | (Ok w, control) =>
        (Ok tt, mkSend control (s_out st1 ++ w) (s_watch st1) (s_sent_bytes st1) (s_sent_chunks st1) (s_events st1))
      | (Err e, control) =>
        (Err e, mkSend control (s_out st1) (s_watch st1) (s_sent_bytes st1) (s_sent_chunks st1) (s_events st1))
      | (Panic, _) => (Panic, st1)
      end
    | r => r
    end
  | Err e => (Err e, st0)
  | Panic => (Panic, st0)
  end.
(** Serve one range request: everything of [send_pending] between the request
    and STREAM_END.  transfer.rs 957-1036 [send_pending] *)
Definition serve_request (p : PendingTransfer) (file : bytes) (obs : nat -> Z * Route)
    (request_bytes : bytes) (st : SendState) : result TransferError unit * SendState :=
  match accept_request p request_bytes with
  | Ok request => serve_ranges p file obs request st
  | Err e => (Err e, st)
  | Panic => (Panic, st)
  end.

(** Delivery is claimed only on the receiver's digest; the events are pushed
    only then.  transfer.rs 1040-1062 [send_pending] *)
Definition on_ack (p : PendingTransfer) (ack : bytes) (q : option Inner) : result TransferError unit * option Inner :=
  match Ack.decode_ack ack with
  | Ok (status, remote_digest) =>
    if negb (status =? 0) then (Err (Protocol "receiver reported failure"), q) else
    if negb (ct_eq remote_digest (p_plaintext_digest p)) then (Err (Crypto "plaintext digest mismatch"), q) else
    (Ok tt, push_all [ObjectCompleted (transfer_id (p_secrets p)) (object_id (p_secrets p)) (p_plaintext_digest p);
                      TransferCompleted (transfer_id (p_secrets p)) 1] q)
  | Err e => (Err e, q)
  | Panic => (Panic, q)
  end.
End Sender.

(** ** What [prepare] commits to *)
Section Prepared.
Context {P : Primitives} {L : PrimitiveLaws}.

(** The ciphertext of chunk [i] of a source file. *)
Definition committed (sched : FileKeySchedule) (c : ObjectContext) (h src : bytes) (i : Z) : bytes :=
  match encrypt_chunk sched c h i (file_chunk c src i) with Ok ct => ct | _ => [] end.
Definition committed_leaf sched c h src i : bytes := leaf_hash i (committed sched c h src i).
Definition committed_leaves sched c h src : list bytes :=
  map (committed_leaf sched c h src) (seqZ 0 (chunk_count c)).

(** Every entry is the ciphertext of its chunk; the budget is accounted for. *)
Fixpoint cached_bytes (l : list (option bytes)) : Z :=
  match l with [] => 0 | Some b :: l' => len b + cached_bytes l' | None :: l' => cached_bytes l' end.
Record cache_ok (ct : Z -> bytes) (count m : Z) (c : CiphertextCache) : Prop := {
  co_len : len (entries c) = count;
  co_entry i b : 0 <= i -> cache_get c i = Some b -> i < m /\ b = ct i;
  co_budget : cached_bytes (entries c) + budget_remaining c = DEFAULT_BUDGET;
  co_room : 0 <= budget_remaining c
}.

Lemma cached_bytes_insert l k b : l !! k = Some None -> cached_bytes (<[k := Some b]> l) = cached_bytes l + len b.
Proof.
  revert k. induction l as [|[x|] l IH]; intros [|k] H; cbn in *; try done; try (injection H as ->); try lia.
  - rewrite IH by done. lia.
  - by apply IH.
Qed.
Lemma cache_new_ok ct count : 0 <= count -> cache_ok ct count 0 (cache_new count DEFAULT_BUDGET).
Proof.
  intros Hc. split; cbn; [unfold len; rewrite length_replicate; lia| | |done].
  - intros i b _. unfold cache_get. cbn. destruct (replicate _ _ !! _) eqn:He; [|done].
    apply lookup_replicate in He as [-> _]. done.
  - enough (forall k, cached_bytes (replicate k None) = 0) as -> by done.
    induction k; [done|cbn; done].
Qed.
Lemma cache_insert_ok ct count m c : cache_ok ct count m c -> 0 <= m < count ->
  cache_ok ct count (m + 1) (cache_insert m (ct m) c).
Proof.
  intros [Hl He Hb Hr] Hm. unfold cache_insert.
  assert (Hc : cache_ok ct count (m + 1) c).
  { split; try done. intros i b Hi Hg. destruct (He i b Hi Hg) as [? ->]. split; [lia|done]. }
  destruct (Z.ltb_spec (budget_remaining c) (len (ct m))); [done|].
  destruct (entries c !! Z.to_nat m) as [o|] eqn:Ho; [|done].
  assert (o = None) as ->.
  { destruct o as [x|]; [|done]. destruct (He m x ltac:(lia)); [|lia]. unfold cache_get. by rewrite Ho. }
  split; cbn [entries budget_remaining].
  - unfold len in *. by rewrite length_insert.
  - intros i b Hi. unfold cache_get. cbn [entries]. destruct (decide (i = m)) as [->|Hne].
    + rewrite list_lookup_insert_eq by (by eapply lookup_lt_Some). intros [= <-]. split; [lia|done].
    + rewrite list_lookup_insert_ne by lia. intros Hg. destruct (He i b Hi Hg). split; [lia|done].
  - rewrite cached_bytes_insert by done. lia.
  - lia.
Qed.

(** Where chunk [m] starts in the file. *)
Definition chunk_off (c : ObjectContext) (m : Z) : Z := Z.min (m * chunk_plaintext_size c) (encoded_plaintext_size c).

Lemma chunk_split c src m : geometry c -> encoded_plaintext_size c <= len src -> 0 <= m < chunk_count c ->
  exists l, chunk_len c m = Ok l /\ 0 <= chunk_off c m /\ chunk_off c (m + 1) = chunk_off c m + l /\
    chunk_off c m = m * chunk_plaintext_size c /\
    file_chunk c src m = take (Z.to_nat l) (drop (Z.to_nat (chunk_off c m)) src) /\
    len (file_chunk c src m) = l /\
    drop (Z.to_nat (chunk_off c m)) src = file_chunk c src m ++ drop (Z.to_nat (chunk_off c (m + 1))) src /\
    take (Z.to_nat (chunk_off c (m + 1))) src = take (Z.to_nat (chunk_off c m)) src ++ file_chunk c src m.
Proof.
  intros Hg Hs Hm. pose proof (chunk_len_spec c m Hg ltac:(lia)) as Hlen.
  destruct (Z.leb_spec (chunk_count c) m); [lia|].
  destruct (chunk_len_range c m _ Hg ltac:(lia) Hlen) as (_ & Hr & Hend).
  eexists. split; [exact Hlen|]. set (l := Z.min _ _) in *. destruct Hg as [Hsz Hc _ _ _]. unfold chunk_off.
  assert (E1 : Z.min (m * chunk_plaintext_size c) (encoded_plaintext_size c) = m * chunk_plaintext_size c) by nia.
  assert (E2 : Z.min ((m + 1) * chunk_plaintext_size c) (encoded_plaintext_size c)
    = m * chunk_plaintext_size c + l) by nia.
  rewrite E1, E2. assert (Hf : file_chunk c src m
    = take (Z.to_nat l) (drop (Z.to_nat (m * chunk_plaintext_size c)) src)) by (unfold file_chunk; by rewrite Hlen).
  rewrite Hf. split_and!; try done; try nia.
  - unfold len in *. rewrite length_take, length_drop. nia.
  - rewrite Z2Nat.inj_add, <- drop_drop by nia. by rewrite take_drop.
  - rewrite Z2Nat.inj_add by nia. by rewrite take_take_drop.
Qed.

Lemma committed_ok sched c h src i : geometry c -> encoded_plaintext_size c <= len src -> bytes_ok src ->
  0 <= i < chunk_count c ->
  encrypt_chunk sched c h i (file_chunk c src i) = Ok (committed sched c h src i) /\
  decrypt_chunk sched c h i (committed sched c h src i) = Ok (file_chunk c src i) /\
  byte_string (committed sched c h src i) /\ chunk_ciphertext_len c i = Ok (len (committed sched c h src i)).
Proof.
  intros Hg Hs Hb Hi. destruct (chunk_split c src i Hg Hs Hi) as (l & Hl & _ & _ & _ & Hf & Hlen & _).
  destruct (encrypt_chunk_ok sched c h i l (file_chunk c src i) Hg ltac:(lia) Hl Hlen) as (ct & He & Hct & Hbc & Hd).
  { rewrite Hf. by apply Forall_take, Forall_drop. }
  unfold committed. rewrite He. unfold chunk_ciphertext_len. rewrite Hl, Hct. split_and!; try done.
  split; [done|]. rewrite Hct. destruct (chunk_len_range c i l Hg ltac:(lia) Hl) as (_ & Hr & _).
  pose proof (geo_chunk c Hg). split; lia.
Qed.

Lemma prepare_loop_ok sched c h src n m leaves cache :
  geometry c -> encoded_plaintext_size c <= len src -> bytes_ok src ->
  0 <= m -> m + Z.of_nat n = chunk_count c ->
  cache_ok (committed sched c h src) (chunk_count c) m cache ->
  exists cache', prepare_loop sched c h n m (drop (Z.to_nat (chunk_off c m)) src) leaves
      (take (Z.to_nat (chunk_off c m)) src) cache
    = Ok (leaves ++ map (committed_leaf sched c h src) (seqZ m (Z.of_nat n)),
          take (Z.to_nat (chunk_off c (chunk_count c))) src, cache') /\
    cache_ok (committed sched c h src) (chunk_count c) (chunk_count c) cache'.
Proof.
  intros Hg Hs Hb. revert m leaves cache. induction n as [|n IH]; intros m leaves cache Hm Hn Hc.
  - assert (m = chunk_count c) as -> by lia. exists cache. cbn. by rewrite app_nil_r.
  - cbn [prepare_loop]. destruct (chunk_split c src m Hg Hs ltac:(lia)) as (l & Hl & _ & Hoff & _ & _ & Hlen & Hd & Ht).
    rewrite Hl, Hd, read_exact_app by done. cbn [rbind].
    destruct (committed_ok sched c h src m Hg Hs Hb ltac:(lia)) as (He & _). rewrite He. cbn [map_err rbind].
    rewrite <- Ht.
    destruct (IH (m + 1) (leaves ++ [leaf_hash m (committed sched c h src m)])
      (cache_insert m (committed sched c h src m) cache) ltac:(lia) ltac:(lia)
      ltac:(apply cache_insert_ok; [done|lia])) as (cache' & Heq & Hc').
    exists cache'. split; [|done]. rewrite Heq. do 3 f_equal.
    rewrite <- app_assoc. f_equal. rewrite Nat2Z.inj_succ, (seqZ_cons m) by lia. cbn [map app].
    unfold committed_leaf at 3. do 3 f_equal; lia.
Qed.

(** What a prepared transfer is. *)
Record prepared (p : PendingTransfer) (src : bytes) : Prop := {
  pr_geometry : geometry (p_ctx p);
  pr_size : encoded_plaintext_size (p_ctx p) = len src;
  pr_logical : logical_plaintext_size (p_ctx p) = len src;
  pr_bytes : bytes_ok src;
  pr_hash : context_hash (p_ctx p) = Ok (p_ctx_hash p);
  pr_ids : ctx_transfer_id (p_ctx p) = transfer_id (p_secrets p) /\ ctx_object_id (p_ctx p) = object_id (p_secrets p);
  pr_schedule : p_schedule p = key_schedule (p_secrets p);
  pr_leaves : p_leaves p = committed_leaves (p_schedule p) (p_ctx p) (p_ctx_hash p) src;
  pr_root : p_ciphertext_root p = merkle_root (p_leaves p);
  pr_digest : p_plaintext_digest p = blake3_hash src;
  pr_cache : cache_ok (committed (p_schedule p) (p_ctx p) (p_ctx_hash p) src) (chunk_count (p_ctx p))
               (chunk_count (p_ctx p)) (p_cache p)
}.

Lemma prepare_spec src secrets chunk_size : u64 (len src) -> bytes_ok src ->
  chunk_size ∈ ALLOWED_CHUNK_SIZES -> div_ceil (len src) chunk_size <= MAX_CHUNK_COUNT ->
  exists p, prepare (len src) src secrets chunk_size = Ok p /\ prepared p src /\ p_secrets p = secrets /\
    for_file (transfer_id secrets) (object_id secrets) (len src) chunk_size = Ok (p_ctx p).
Proof.
  intros Hu Hb Hc Hcount. unfold prepare.
  destruct (for_file (transfer_id secrets) (object_id secrets) (len src) chunk_size) as [c|e|] eqn:Hf.
  - destruct (for_file_geometry _ _ _ _ _ Hu Hf) as (Hg & He & _ & Ht & Ho & Hlog). cbn [map_err rbind].
    rewrite context_hash_eq. cbn [map_err rbind]. set (h := blake3_hash (context_input c)).
    destruct (geo_count c Hg) as [Hn _].
    destruct (prepare_loop_ok (key_schedule secrets) c h src (Z.to_nat (chunk_count c)) 0 []
      (cache_new (chunk_count c) DEFAULT_BUDGET) Hg ltac:(lia) Hb ltac:(lia) ltac:(lia)
      ltac:(by apply cache_new_ok)) as (cache & Hloop & Hcache).
    assert (H0 : chunk_off c 0 = 0) by (unfold chunk_off; destruct (geo_size c Hg); lia).
    rewrite H0 in Hloop. change (drop (Z.to_nat 0) src) with src in Hloop.
    change (take (Z.to_nat 0) src) with (@nil Z) in Hloop. rewrite Hloop. cbn [rbind app].
    eexists. split; [reflexivity|]. split; [|by split].
    assert (Hfull : take (Z.to_nat (chunk_off c (chunk_count c))) src = src).
    { apply take_ge. unfold chunk_off. pose proof (geo_end c Hg). unfold len in *. lia. }
    rewrite Hfull. split; cbn [p_ctx p_ctx_hash p_schedule p_secrets p_leaves p_ciphertext_root
      p_plaintext_digest p_cache]; try done; try lia.
    + apply context_hash_eq.
    + unfold committed_leaves. by rewrite Z2Nat.id by lia.
  - exfalso. unfold for_file in Hf. rewrite bool_decide_true in Hf by done. cbn [negb] in Hf.
    destruct (Z.ltb_spec MAX_CHUNK_COUNT (if len src =? 0 then 0 else div_ceil (len src) chunk_size)) as [Hlt|];
      [|done]. destruct (len src =? 0); [unfold MAX_CHUNK_COUNT in Hlt; lia|lia].
  - exfalso. unfold for_file in Hf. repeat case_match; done.
Qed.
End Prepared.

(** ** Chunk records *)
Section Records.
Context {P : Primitives} {L : PrimitiveLaws}.

(** The record of chunk [i], as a function of the source file alone. *)
Definition chunk_record (p : PendingTransfer) (src : bytes) (i : Z) : bytes :=
  cbor (record_value (i, build_proof_inner 64 (p_leaves p) i [], committed (p_schedule p) (p_ctx p) (p_ctx_hash p) src i)).

Lemma committed_leaves_len sched c h src : geometry c -> len (committed_leaves sched c h src) = chunk_count c.
Proof. intros Hg. unfold committed_leaves. rewrite len_map. unfold len. rewrite length_seqZ. destruct (geo_count c Hg). lia. Qed.
Lemma committed_leaves_lookup sched c h src i : 0 <= i < chunk_count c ->
  committed_leaves sched c h src !! Z.to_nat i = Some (committed_leaf sched c h src i).
Proof.
  intros Hi. unfold committed_leaves. rewrite list_lookup_fmap, lookup_seqZ_lt by lia. cbn. do 2 f_equal. lia.
Qed.
Lemma committed_leaves_array sched c h src : Forall (array 32) (committed_leaves sched c h src).
Proof.
  apply Forall_forall. intros x Hx. apply list_elem_of_fmap in Hx as (i & -> & _). apply blake3_len.
Qed.

Lemma produce_spec p src i cache : prepared p src -> 0 <= i < chunk_count (p_ctx p) ->
  cache_ok (committed (p_schedule p) (p_ctx p) (p_ctx_hash p) src) (chunk_count (p_ctx p)) (chunk_count (p_ctx p)) cache ->
  produce_chunk_record src cache (p_ctx p) (p_ctx_hash p) (p_schedule p) (p_leaves p) i = Ok (chunk_record p src i).
Proof.
  intros [Hg Hs _ Hb _ _ _ Hl _ _ _] Hi Hc. unfold produce_chunk_record.
  destruct (chunk_split (p_ctx p) src i Hg ltac:(lia) Hi) as (l & Hlen & _ & _ & Hoff & Hf & Hfl & Hd & _).
  rewrite Hlen. destruct (committed_ok (p_schedule p) (p_ctx p) (p_ctx_hash p) src i Hg ltac:(lia) Hb Hi) as (He & _).
  assert (Hct : (match cache_get cache i with
      | Some b => Ok b
      | None => let* '(plain, _) := read_exact l (drop (Z.to_nat (wrap 64 (i * chunk_plaintext_size (p_ctx p)))) src) in
          map_err (fun _ => Crypto "chunk encryption") (encrypt_chunk (p_schedule p) (p_ctx p) (p_ctx_hash p) i plain)
      end) = Ok (committed (p_schedule p) (p_ctx p) (p_ctx_hash p) src i)).
  { destruct (cache_get cache i) as [b|] eqn:Hget.
    - by destruct (co_entry _ _ _ _ Hc i b ltac:(lia) Hget) as [_ ->].
    - assert (Hw : wrap 64 (i * chunk_plaintext_size (p_ctx p)) = chunk_off (p_ctx p) i).
      { rewrite Hoff. pose proof (geo_chunk _ Hg). pose proof (geo_count _ Hg). unfold MAX_CHUNK_COUNT in *.
        apply Z.mod_small. nia. }
      rewrite Hw, Hd, read_exact_app by done. cbn [rbind]. by rewrite He. }
  rewrite Hct. cbn [rbind]. unfold build_proof.
  assert (Hll : len (p_leaves p) = chunk_count (p_ctx p)) by (rewrite Hl; by apply committed_leaves_len).
  destruct (Z.leb_spec (len (p_leaves p)) i); [lia|]. cbn [map_err rbind]. apply encode_chunk_record_eq.
Qed.

(** Its parts, and its size on the wire. *)
Lemma chunk_record_parts p src i : prepared p src -> 0 <= i < chunk_count (p_ctx p) ->
  record_wf (i, build_proof_inner 64 (p_leaves p) i [], committed (p_schedule p) (p_ctx p) (p_ctx_hash p) src i) /\
  len (build_proof_inner 64 (p_leaves p) i []) <= 32 /\
  map direction (build_proof_inner 64 (p_leaves p) i []) = expected_directions (chunk_count (p_ctx p)) i /\
  fold_left climb (build_proof_inner 64 (p_leaves p) i []) (committed_leaf (p_schedule p) (p_ctx p) (p_ctx_hash p) src i)
    = p_ciphertext_root p.
Proof.
  intros [Hg Hs _ Hb _ _ _ Hl Hr _ _] Hi.
  assert (Hll : len (p_leaves p) = chunk_count (p_ctx p)) by (rewrite Hl; by apply committed_leaves_len).
  pose proof (geo_count _ Hg) as Hn. unfold MAX_CHUNK_COUNT in Hn.
  assert (H63 : len (p_leaves p) <= 2 ^ 63) by lia.
  assert (Hf : len (p_leaves p) <= 2 ^ Z.of_nat 64) by (change (len (p_leaves p) <= 2 ^ 64); lia).
  assert (H32 : len (p_leaves p) <= 2 ^ Z.of_nat 32) by (change (len (p_leaves p) <= 2 ^ 32); lia).
  assert (Hlk : p_leaves p !! Z.to_nat i
    = Some (committed_leaf (p_schedule p) (p_ctx p) (p_ctx_hash p) src i)) by (rewrite Hl; by apply committed_leaves_lookup).
  destruct (build_proof_climbs 64 (p_leaves p) i _ Hf H63 ltac:(lia) Hlk) as [Hd Hc].
  assert (Hpl : len (build_proof_inner 64 (p_leaves p) i []) <= 32).
  { rewrite <- (len_map direction), Hd. by apply (expected_directions_depth 32). }
  rewrite Hll in Hd. rewrite Hr. split_and!; try done.
  pose proof (len_nonneg (build_proof_inner 64 (p_leaves p) i [])).
  unfold record_wf. cbn [fst snd]. split_and!; [split; lia|split; lia| |].
  - apply (build_proof_all (array 32)); [apply blake3_len|done|done|]. rewrite Hl. apply committed_leaves_array.
  - apply (committed_ok (p_schedule p) (p_ctx p) (p_ctx_hash p) src i Hg ltac:(lia) Hb Hi).
Qed.

Lemma steps_size ps : Forall step_wf ps -> len (items (map step_value ps)) <= 63 * len ps.
Proof.
  induction 1 as [|s ps [Hs _] _ IH]; [done|]. cbn [map]. rewrite items_cons, len_app, len_cons.
  enough (len (cbor (step_value s)) <= 63) by lia. unfold step_value. rewrite cbor_array. unfold items.
  cbn [flat_map]. wsize.
Qed.
Lemma record_fits i ps ct : record_wf (i, ps, ct) -> len ps <= 32 -> len ct <= 2 ^ 22 + 16 ->
  bytes_ok (cbor (record_value (i, ps, ct))) /\ len (cbor (record_value (i, ps, ct))) + 16 <= MAX_DATA_BODY.
Proof.
  intros (Hu & Hn & Hps & Hct) H32 Hl. cbn [fst snd] in *. unfold record_value. cbn [fst snd]. split.
  - apply cbor_bytes_ok. apply ok_map; [done|].
    repeat apply Forall_cons_2; [..|apply Forall_nil_2]; (split; [done|cbn [snd]]).
    + by apply ok_uint.
    + apply ok_array; [by rewrite len_map|]. apply Forall_fmap. eapply Forall_impl; [exact Hps|].
      intros s Hs'. unfold compose, step_value. apply ok_array; [done|].
      repeat apply Forall_cons_2; [apply ok_uint; by destruct (direction s)| |apply Forall_nil_2].
      apply ok_bytes. by eapply array_byte_string.
    + by apply ok_bytes.
  - pose proof (steps_size _ Hps). 
    rewrite cbor_map, !entries_cons, cbor_array, !len_app. unfold Wire.entries.
    pose proof (cbor_bytes_len ct). pose proof (cbor_uint_len i).
    repeat match goal with |- context [len (hdr ?m ?v)] =>
      let H := fresh in pose proof (hdr_len m v) as H; revert H; generalize (len (hdr m v)); intros ? ? end.
    change (len (@nil Z)) with 0. unfold MAX_DATA_BODY. lia.
Qed.

Lemma chunk_record_ok p src i : prepared p src -> 0 <= i < chunk_count (p_ctx p) ->
  bytes_ok (chunk_record p src i) /\ len (chunk_record p src i) + 16 <= MAX_DATA_BODY.
Proof.
  intros Hp Hi. destruct (chunk_record_parts p src i Hp Hi) as (Hw & H32 & _).
  pose proof Hp as [Hg Hs _ Hb _ _ _ _ _ _ _].
  destruct (committed_ok (p_schedule p) (p_ctx p) (p_ctx_hash p) src i Hg ltac:(lia) Hb Hi) as (_ & _ & _ & Hcl).
  unfold chunk_ciphertext_len in Hcl. apply rbind_inv in Hcl as (l & Hl & Hlen). apply Ok_inj in Hlen.
  destruct (chunk_len_range _ i l Hg ltac:(lia) Hl) as (_ & Hr & _). pose proof (geo_chunk _ Hg).
  unfold chunk_record. apply record_fits; [exact Hw|exact H32|]. unfold AEAD_TAG_LEN in Hlen. lia.
Qed.
End Records.

(** ** Serving a request *)
Lemma poll_admits tid now r w : admits (policy (admission w)) r = true ->
  exists evs w', poll_with tid now r w = (Ok tt, evs, w') /\ admission w' = admission w.
Proof.
  intros Ha. unfold poll_with. destruct (now <? next_check w); [by eauto|].
  cbn [admission]. rewrite Ha. by eauto.
Qed.

Section Serving.
Context {P : Primitives} {L : PrimitiveLaws}.

Definition sum_len (c : ObjectContext) (indices : list Z) : Z :=
  foldr Z.add 0 (map (fun i => match chunk_len c i with Ok l => l | _ => 0 end) indices).
Definition chunk_frames (record : Z -> bytes) (indices : list Z) : list (Z * bytes) :=
  map (fun i => (FRAME_CHUNK, record i)) indices.

Lemma send_loop_spec produce record c requested obs indices st w control' :
  (forall i, i ∈ indices -> produce i = Ok (record i) /\ exists l, chunk_len c i = Ok l) ->
  (forall k, admits (policy (admission (s_watch st))) (obs k).2 = true) ->
  u64 (s_sent_bytes st) -> u64 (s_sent_chunks st) ->
  send_all (s_control st) (chunk_frames record indices) = (Ok w, control') ->
  exists st', send_loop produce c requested obs indices (record <$> head indices) st = (Ok tt, st') /\
    s_control st' = control' /\ s_out st' = s_out st ++ w /\
    s_sent_bytes st' = wrap 64 (s_sent_bytes st + sum_len c indices) /\
    s_sent_chunks st' = wrap 64 (s_sent_chunks st + len indices).
Proof.
  revert obs st w. induction indices as [|i rest IH]; intros obs st w Hp Ha Hu1 Hu2 Hs.
  - cbn in Hs. injection Hs as <- <-. exists st. cbn. rewrite app_nil_r, !Z.add_0_r.
    unfold wrap. by rewrite !Z.mod_small.
  - destruct (Hp i ltac:(apply elem_of_cons; by left)) as (Hpi & l & Hl).
    cbn [head fmap option_fmap option_map send_loop]. rewrite Hl. cbn [chunk_frames map send_all] in Hs.
    destruct (send_frame (s_control st) FRAME_CHUNK (record i)) as [[w1|e|] control] eqn:Hsf; [|done..].
    destruct (send_all control _) as [r control2] eqn:Hrest. destruct r as [w2|e|]; cbn [rbind] in Hs; [|done..].
    injection Hs as <- <-.
    assert (Hahead : (match rest with next :: _ => let* r := produce next in Ok (Some r) | [] => Ok None end)
      = Ok (E := TransferError) (record <$> head rest)).
    { destruct rest as [|n rest]; [done|].
      destruct (Hp n ltac:(apply elem_of_cons; right; apply elem_of_cons; by left)) as [-> _]. done. }
    rewrite Hahead. cbn [s_watch s_out s_sent_bytes s_sent_chunks s_events]. specialize (Ha O) as Ha0.
    destruct (obs O) as [now route] eqn:Ho. cbn [snd] in Ha0.
    destruct (poll_admits (ctx_transfer_id c) now route (s_watch st) Ha0) as (evs & watch & -> & Hadm).
    set (st1 := mkSend control (s_out st ++ w1) watch (wrap 64 (s_sent_bytes st + l))
      (wrap 64 (s_sent_chunks st + 1)) _).
    destruct (IH (fun k => obs (S k)) st1 w2) as (st' & Hst & H1 & H2 & H3 & H4).
    + intros j Hj. apply Hp. apply elem_of_cons. by right.
    + intros k. cbn [st1 s_watch]. rewrite Hadm. apply Ha.
    + apply Z.mod_pos_bound. lia.
    + apply Z.mod_pos_bound. lia.
    + done.
    + exists st'. split; [exact Hst|]. split; [done|]. cbn [st1 s_out s_sent_bytes s_sent_chunks] in H2, H3, H4.
      split; [by rewrite H2, app_assoc|]. rewrite H3, H4. unfold wrap.
      rewrite !Zplus_mod_idemp_l. unfold sum_len. cbn [map foldr]. rewrite Hl, len_cons.
      split; f_equal; lia.
Qed.

(** Sending leaves the receiving half of the channel alone. *)
Lemma send_loop_half produce c requested obs indices ahead st r st' :
  send_loop produce c requested obs indices ahead st = (r, st') -> receiving_half (s_control st') = receiving_half (s_control st).
Proof.
  revert obs ahead st. induction indices as [|i rest IH]; intros obs ahead st; cbn [send_loop]; [by intros [= _ <-]|].
  destruct ahead as [record|], (chunk_len c i) as [l|e|]; try (by intros [= _ <-]).
  destruct (send_frame (s_control st) FRAME_CHUNK record) as [[w|e|] control] eqn:Hs; apply send_keeps_half in Hs; [|by intros [= _ <-]..].
  destruct (match rest with [] => _ | _ => _ end) as [ahead'|e|]; [|by intros [= _ <-]..].
  destruct (obs O) as [now route]. destruct (poll_with _ _ _ _) as [[polled evs] watch].
  destruct polled; [|by intros [= _ <-]..]. intros H. rewrite (IH _ _ _ H). exact Hs.
Qed.
Lemma serve_half p file obs request st r st' :
  serve_ranges p file obs request st = (r, st') -> receiving_half (s_control st') = receiving_half (s_control st).
Proof.
  unfold serve_ranges. destruct (match requested_indices request with [] => _ | _ => _ end) as [ahead|e|]; [|by intros [= _ <-]..].
  destruct (send_loop _ _ _ _ _ _ _) as [r1 st1] eqn:Hl. apply send_loop_half in Hl. cbn [s_control] in Hl.
  destruct r1; [|by intros [= _ <-]..].
  destruct (send_frame (s_control st1) FRAME_STREAM_END []) as [[w|e|] control] eqn:Hs; apply send_keeps_half in Hs; intros [= _ <-];
    cbn [s_control]; congruence.
Qed.

Lemma send_all_app a l1 l2 w1 a1 : send_all a l1 = (Ok w1, a1) ->
  send_all a (l1 ++ l2) = (let* w2 := (send_all a1 l2).1 in Ok (w1 ++ w2), (send_all a1 l2).2).
Proof.
  revert a w1. induction l1 as [|[ft p] l1 IH]; intros a w1 H; cbn in H |- *.
  - injection H as <- <-. destruct (send_all a l2) as [[w|e|] c]; done.
  - destruct (send_frame a ft p) as [[w|e|] a']; [|done..].
    destruct (send_all a' l1) as [r a2] eqn:Hr. destruct r as [w'|e|]; [|done..]. cbn in H. injection H as <- <-.
    rewrite (IH a' w' Hr). destruct (send_all a2 l2) as [[w2|e|] c]; cbn; [by rewrite app_assoc|done..].
Qed.

(** A prefix of what is sent without an error is sent without an error. *)
Lemma send_all_prefix l m : forall a r1 c1 w c2,
  send_all a (l ++ m) = (Ok w, c2) -> send_all a l = (r1, c1) -> exists w1, r1 = Ok w1.
Proof.
  induction l as [|[ft q] l IH]; intros a r1 c1 w c2 Hw Hs1; cbn in *.
  - injection Hs1 as <- <-. by eexists.
  - destruct (send_frame a ft q) as [[x|e|] a']; cbn in *; [|done..].
    destruct (send_all a' (l ++ m)) as [r2 c2'] eqn:H2. injection Hw as Hw <-. apply rbind_inv in Hw as (w2 & -> & _).
    destruct (send_all a' l) as [r3 c3] eqn:H3. destruct (IH a' r3 c3 w2 c2' H2 H3) as [w3 ->].
    cbn in Hs1. injection Hs1 as <- <-. by eexists.
Qed.

Lemma requested_in_range r count i : separated 0 count (ranges r) -> i ∈ requested_indices r -> 0 <= i < count.
Proof.
  unfold requested_indices. intros Hs Hi. apply list_elem_of_In, in_concat in Hi as (l & Hl & Hi).
  apply in_map_iff in Hl as ([s e] & <- & Hx). apply list_elem_of_In in Hx, Hi.
  apply elem_of_seqZ in Hi. cbn in Hi.
  pose proof (separated_bounds _ _ _ s e Hs Hx). lia.
Qed.
Lemma requested_total r count : separated 0 count (ranges r) -> 0 <= count < 2 ^ 64 ->
  chunk_total r = len (requested_indices r) /\ len (requested_indices r) <= count.
Proof.
  intros Hs Hc. unfold chunk_total, requested_indices.
  assert (H : forall lo, 0 <= lo -> separated lo count (ranges r) ->
    span_sum (ranges r) = len (concat (map (fun x => seqZ x.1 (x.2 - x.1)) (ranges r))) /\
    0 <= span_sum (ranges r) <= Z.max 0 (count - lo)).
  { clear Hs. induction (ranges r) as [|[s e] rs IH]; intros lo Hlo Hs.
    - cbn. split; [done|lia].
    - destruct Hs as (H1 & H2 & H3). destruct (IH (e + 1) ltac:(lia) H3) as [E1 E2].
      unfold span_sum in *. cbn [map concat foldr fst snd] in *. rewrite len_app, <- E1.
      unfold len. rewrite length_seqZ. lia. }
  destruct (H 0 ltac:(lia) Hs) as [E1 E2]. rewrite <- E1. unfold wrap. rewrite Z.mod_small by lia. lia.
Qed.

Lemma serve_accepted p src obs rb r st : accept_request p rb = Ok r ->
  serve_request p src obs rb st = serve_ranges p src obs r st.
Proof. unfold serve_request. by intros ->. Qed.

Lemma serve_spec p src obs rb r st prk th b : prepared p src -> bytes_ok rb ->
  Scheduler.decode rb (chunk_count (p_ctx p)) = Ok r -> len (ranges r) <= MAX_RANGES_PER_REQUEST ->
  separated 0 (chunk_count (p_ctx p)) (ranges r) ->
  rr_transfer_id r = transfer_id (p_secrets p) -> rr_object_id r = object_id (p_secrets p) ->
  (forall k, admits (policy (admission (s_watch st))) (obs k).2 = true) ->
  in_step prk th ClientToServer (s_control st) b ->
  send_counter (s_control st) + chunk_count (p_ctx p) + 1 <= MAX_FRAMES_PER_EPOCH ->
  exists st' w b', serve_request p src obs rb st = (Ok tt, st') /\ s_out st' = s_out st ++ w /\
    s_sent_chunks st' = len (requested_indices r) /\
    bytes_ok w /\
    (forall tl, bytes_ok tl -> recv_all b (S (length (requested_indices r))) (w ++ tl)
      = (Ok (chunk_frames (chunk_record p src) (requested_indices r) ++ [(FRAME_STREAM_END, [])], tl), b')) /\
    in_step prk th ClientToServer (s_control st') b' /\ kept (s_control st) b (s_control st') b'.
Proof.
  intros Hp Hrb Hdec Hlen Hsep Htid Hoid Hadm Hstep Hctr. pose proof (pr_geometry _ _ Hp) as Hg.
  pose proof (geo_count _ Hg) as Hc. unfold Object.MAX_CHUNK_COUNT in Hc.
  destruct (requested_total r _ Hsep ltac:(lia)) as [Htot Hle].
  set (idx := requested_indices r) in *.
  assert (Hin : forall i, i ∈ idx -> 0 <= i < chunk_count (p_ctx p)) by (intros i; by apply requested_in_range).
  assert (Hprod : forall i, i ∈ idx -> produce_chunk_record src (p_cache p) (p_ctx p) (p_ctx_hash p) (p_schedule p) (p_leaves p) i
      = Ok (chunk_record p src i) /\ exists l, chunk_len (p_ctx p) i = Ok l).
  { intros i Hi. pose proof (Hin i Hi). split; [by apply produce_spec; [..|apply pr_cache]|].
    rewrite chunk_len_spec by (done || lia). destruct (Z.leb_spec (chunk_count (p_ctx p)) i); [lia|by eexists]. }
  destruct (stream_delivered prk th ClientToServer (s_control st) b
    (chunk_frames (chunk_record p src) idx ++ [(FRAME_STREAM_END, [])]) Hstep) as (w & ca & b' & Hw & Hwok & Hrecv & Hstep' & _ & Hkept).
  { rewrite len_app. unfold chunk_frames. rewrite len_map. change (len [_]) with 1. lia. }
  { apply Forall_app. split; [|apply Forall_singleton; cbn; split_and!; [done|constructor|done]].
    unfold chunk_frames. apply Forall_fmap, Forall_forall. intros i Hi. unfold compose. cbn.
    destruct (chunk_record_ok p src i Hp (Hin i Hi)). split_and!; done. }
  destruct (send_all (s_control st) (chunk_frames (chunk_record p src) idx)) as [r1 c1] eqn:Hs1.
  assert (exists w1, r1 = Ok w1) as [w1 ->].
  { by eapply send_all_prefix. }
  rewrite (send_all_app _ _ _ _ _ Hs1) in Hw. cbn in Hw.
  rewrite (serve_accepted _ _ _ _ r) by (unfold accept_request; by rewrite Hdec; cbn [map_err rbind]; rewrite Htid, Hoid, !bytes_eqb_refl).
  unfold serve_ranges. fold idx.
  set (st0 := mkSend (s_control st) (s_out st) (s_watch st) 0 0 _).
  destruct (send_loop_spec _ (chunk_record p src) (p_ctx p) (chunk_total r) obs idx st0 w1 c1 Hprod Hadm
    ltac:(by split) ltac:(by split) Hs1)
    as (st1 & Hst1 & Hc1 & Ho1 & _ & Hn1).
  assert (Hahead : (match idx with first :: _ => let* r := produce_chunk_record src (p_cache p) (p_ctx p) (p_ctx_hash p) (p_schedule p) (p_leaves p) first in Ok (Some r) | [] => Ok None end)
    = Ok (chunk_record p src <$> head idx)).
  { destruct idx as [|n rest]; [done|]. by destruct (Hprod n ltac:(apply elem_of_cons; by left)) as [-> _]. }
  rewrite Hahead, Hst1, Hc1.
  destruct (send_frame c1 FRAME_STREAM_END []) as [[w2|e|] c2]; cbn in Hw; [|done..].
  rewrite app_nil_r in Hw. injection Hw as <- <-.
  eexists _, (w1 ++ w2), b'. split; [reflexivity|]. cbn [s_out s_sent_chunks s_control]. split; [by rewrite Ho1, <- app_assoc|].
  split.
  - rewrite Hn1. cbn. unfold wrap. pose proof (len_nonneg idx). apply Z.mod_small. lia.
  - split; [done|]. split; [|by split]. intros tl Htl. specialize (Hrecv tl Htl). revert Hrecv. rewrite length_app. unfold chunk_frames at 1.
    rewrite length_map. cbn [length]. by rewrite Nat.add_1_r.
Qed.
End Serving.

Section Claims.
Context {P : Primitives} {L : PrimitiveLaws}.

Lemma prepare_prepared src secrets chunk_size p : u64 (len src) -> bytes_ok src ->
  prepare (len src) src secrets chunk_size = Ok p ->
  prepared p src /\ p_secrets p = secrets /\
  for_file (transfer_id secrets) (object_id secrets) (len src) chunk_size = Ok (p_ctx p).
Proof.
  intros Hu Hb Hp.
  assert (exists c, for_file (transfer_id secrets) (object_id secrets) (len src) chunk_size = Ok c) as [c Hf].
  { unfold prepare in Hp. destruct (for_file _ _ _ _) as [c|e|]; [by exists c|done..]. }
  assert (chunk_size ∈ ALLOWED_CHUNK_SIZES /\ div_ceil (len src) chunk_size <= Object.MAX_CHUNK_COUNT) as [Hc Hn].
  { unfold for_file in Hf. case_bool_decide as Hc; [|done]. split; [done|].
    cbn [negb] in Hf. apply allowed_range in Hc.
    destruct (Z.ltb_spec Object.MAX_CHUNK_COUNT (if len src =? 0 then 0 else div_ceil (len src) chunk_size)); [done|].
    destruct (Z.eqb_spec (len src) 0) as [H0|]; [|done]. rewrite H0. unfold div_ceil.
    rewrite Z.div_small by lia. done. }
  destruct (prepare_spec src secrets chunk_size Hu Hb Hc Hn) as (p' & Hp' & Hrest).
  rewrite Hp in Hp'. by apply Ok_inj in Hp' as ->.
Qed.

(** [prepare] commits to exactly the source file: for every file and
    allowed chunk size it succeeds when there are at most 2^32 chunks, the
    root it publishes is the Merkle root over the encryption of every chunk
    of the file, the digest is the hash of the whole file, and the cache
    holds only those ciphertexts, within its 64 MiB budget. *)
Theorem prepare_commits src secrets chunk_size : u64 (len src) -> bytes_ok src ->
  chunk_size ∈ ALLOWED_CHUNK_SIZES -> div_ceil (len src) chunk_size <= Object.MAX_CHUNK_COUNT ->
  exists p, prepare (len src) src secrets chunk_size = Ok p /\
    p_ciphertext_root p = merkle_root (map (fun i => leaf_hash i (committed (p_schedule p) (p_ctx p) (p_ctx_hash p) src i))
                                         (seqZ 0 (chunk_count (p_ctx p)))) /\
    p_plaintext_digest p = blake3_hash src /\
    (forall i b, 0 <= i -> cache_get (p_cache p) i = Some b ->
       encrypt_chunk (p_schedule p) (p_ctx p) (p_ctx_hash p) i (file_chunk (p_ctx p) src i) = Ok b) /\
    cached_bytes (Sender.entries (p_cache p)) <= DEFAULT_BUDGET.
Proof.
  intros Hu Hb Hc Hn. destruct (prepare_spec src secrets chunk_size Hu Hb Hc Hn) as (p & Hp & [Hg Hs _ _ _ _ _ Hl Hr Hd Hca] & _ & _).
  exists p. split; [done|]. split; [by rewrite Hr, Hl|]. split; [done|]. destruct Hca as [_ He Hbud Hroom].
  split; [|lia]. intros i b Hi Hget. destruct (He i b Hi Hget) as [Hlt ->].
  by apply (committed_ok (p_schedule p) (p_ctx p) (p_ctx_hash p) src i Hg ltac:(lia) Hb).
Qed.

(** The cache changes the cost, never the bytes: while the source file is
    unchanged, the record produced for any chunk is the same with the
    prepared cache and with an empty one. *)
Theorem cache_is_transparent src secrets chunk_size p i : u64 (len src) -> bytes_ok src ->
  prepare (len src) src secrets chunk_size = Ok p -> 0 <= i < chunk_count (p_ctx p) ->
  let produce cache := produce_chunk_record src cache (p_ctx p) (p_ctx_hash p) (p_schedule p) (p_leaves p) i in
  (exists b, produce (p_cache p) = Ok b) /\
  produce (cache_new (chunk_count (p_ctx p)) 0) = produce (p_cache p).
Proof.
  intros Hu Hb Hp Hi. cbn zeta. destruct (prepare_prepared _ _ _ _ Hu Hb Hp) as [Hprep _].
  rewrite (produce_spec p src i (p_cache p) Hprep Hi) by apply Hprep.
  split; [by eexists|].
  unfold produce_chunk_record at 1. rewrite <- (produce_spec p src i (cache_new (chunk_count (p_ctx p)) DEFAULT_BUDGET) Hprep Hi).
  - done.
  - destruct (cache_new_ok (committed (p_schedule p) (p_ctx p) (p_ctx_hash p) src) (chunk_count (p_ctx p))) as [H1 H2 H3 H4];
      [lia|]. split; try done. intros j b Hj Hget. destruct (H2 j b Hj Hget). lia.
Qed.

(** C31: The sender serves exactly what was asked for: for a valid request that
    names its object, and while the route stays admissible, it sends the
    record of every requested chunk once, in request order, then STREAM_END;
    the receiver's channel opens exactly those frames, and the number of
    chunks the sender counts is the number requested. *)
Theorem request_served src secrets chunk_size p obs rb r st prk th b : u64 (len src) -> bytes_ok src ->
  prepare (len src) src secrets chunk_size = Ok p -> bytes_ok rb ->
  Scheduler.decode rb (chunk_count (p_ctx p)) = Ok r ->
  rr_transfer_id r = transfer_id secrets -> rr_object_id r = object_id secrets ->
  (forall k, admits (policy (admission (s_watch st))) (obs k).2 = true) ->
  in_step prk th ClientToServer (s_control st) b ->
  send_counter (s_control st) + chunk_count (p_ctx p) + 1 <= MAX_FRAMES_PER_EPOCH ->
  exists st' w, serve_request p src obs rb st = (Ok tt, st') /\ s_out st' = s_out st ++ w /\
    s_sent_chunks st' = len (requested_indices r) /\
    forall tl, bytes_ok tl -> (recv_all b (S (length (requested_indices r))) (w ++ tl)).1
      = Ok (chunk_frames (chunk_record p src) (requested_indices r) ++ [(FRAME_STREAM_END, [])], tl).
Proof.
  intros Hu Hb Hp Hrb Hdec Ht Ho Hadm Hstep Hctr.
  destruct (prepare_prepared _ _ _ _ Hu Hb Hp) as (Hprep & Hsec & _).
  destruct (decode_valid rb _ r Hrb Hdec) as (H1 & H2 & _).
  destruct (serve_spec p src obs rb r st prk th b) as (st' & w & b' & Hr1 & Hr2 & Hr3 & _ & Hr4 & _); try done; [by rewrite Hsec..|].
  exists st', w. split_and!; try done. intros tl Htl. by rewrite (Hr4 tl Htl).
Qed.
End Claims.

(** ** Instances *)
Module SenderWitness.
Import Toy.
Definition source : bytes := [7; 8; 9].
Definition secrets3 : FileSecrets := mkSecrets (replicate 32 1) (replicate 32 2) (replicate 32 3) (replicate 32 4).
Definition pending3 : PendingTransfer :=
  match prepare 3 source secrets3 65536 with
  | Ok p => p
  | _ => mkPending secrets3 (mkContext [] [] 0 0 0 0 0 0) [] (key_schedule secrets3) [] [] [] (cache_new 0 0)
  end.
Lemma prepared3 : prepare (len source) source secrets3 65536 = Ok pending3.
Proof. vm_compute. reflexivity. Qed.
Lemma source_ok : u64 (len source) /\ bytes_ok source.
Proof. split; [done|by apply bytes_ok_check]. Qed.

Lemma prepare_commits_witness : exists p, prepare 3 source secrets3 65536 = Ok p /\
    p_ciphertext_root p = merkle_root (map (fun i => leaf_hash i (committed (p_schedule p) (p_ctx p) (p_ctx_hash p) source i))
                                         (seqZ 0 (chunk_count (p_ctx p)))) /\
    p_plaintext_digest p = blake3_hash source /\
    (forall i b, 0 <= i -> cache_get (p_cache p) i = Some b ->
       encrypt_chunk (p_schedule p) (p_ctx p) (p_ctx_hash p) i (file_chunk (p_ctx p) source i) = Ok b) /\
    cached_bytes (Sender.entries (p_cache p)) <= DEFAULT_BUDGET.
Proof.
  apply (prepare_commits source secrets3 65536); [apply source_ok..| |done].
  apply elem_of_cons. by left.
Defined.

Lemma cache_is_transparent_witness :
  let produce cache := produce_chunk_record source cache (p_ctx pending3) (p_ctx_hash pending3)
                         (p_schedule pending3) (p_leaves pending3) 0 in
  (exists b, produce (p_cache pending3) = Ok b) /\
  produce (cache_new (chunk_count (p_ctx pending3)) 0) = produce (p_cache pending3).
Proof.
  apply (cache_is_transparent source secrets3 65536 pending3 0); [apply source_ok..|exact prepared3|].
  split; [done|vm_compute; reflexivity].
Defined.

Definition request3 : RangeRequest :=
  mkRequest (replicate 32 1) (replicate 32 2) 0 [(0, 1)] 65552 0 0.
Definition request3_bytes : bytes := match Scheduler.encode (E := SchedulerError) request3 with Ok b => b | _ => [] end.
Definition start3 : SendState :=
  mkSend (new_channel [1] [2] ClientToServer) [] (new_watch Relay (new_admission Any) 0) 0 0 (Some new_queue).
Lemma request_served_witness : exists st' w,
  serve_request pending3 source (fun _ => (0, Relay)) request3_bytes start3 = (Ok tt, st') /\
  s_out st' = w /\ s_sent_chunks st' = 1 /\
  forall tl, bytes_ok tl -> (recv_all (new_channel [1] [2] ServerToClient) 2 (w ++ tl)).1
      = Ok ([(FRAME_CHUNK, chunk_record pending3 source 0); (FRAME_STREAM_END, [])], tl).
Proof.
  destruct (request_served source secrets3 65536 pending3 (fun _ => (0, Relay)) request3_bytes request3 start3
    [1] [2] (new_channel [1] [2] ServerToClient)) as (st' & w & H1 & H2 & H3 & H4).
  - exact (proj1 source_ok).
  - exact (proj2 source_ok).
  - exact prepared3.
  - apply bytes_ok_check. vm_compute. reflexivity.
  - vm_compute. reflexivity.
  - reflexivity.
  - reflexivity.
  - reflexivity.
  - apply new_in_step.
  - vm_compute. discriminate.
  - exists st', w. split; [exact H1|]. split; [exact H2|]. split; [exact H3|exact H4].
Defined.
End SenderWitness.
