(* ===== verification/Receiver.v ===== *)
(** * The receiver: verifying, writing and finishing an object (transfer.rs)

    The state of [receive_file] once the offer is accepted, its frame loop
    and its final stage.  The destination file is the list of its bytes; the
    outcomes of system calls, the clock and the observed route are inputs of
    each step. *)

From stdpp Require Import gmap.
From S2P Require Import Resume Bitmap Prelude Cbor Wire Crypto Merkle Keys Object Scheduler Control Events Route Framing Sender.
#[local] Open Scope Z_scope.

(** What the accepted offer fixes: the object, its keys, the committed root
    and the digest the sender claims for the plaintext. *)
Record RecvEnv : Type := mkEnv {
  e_ctx : ObjectContext;
  e_ctx_hash : bytes;
  e_schedule : FileKeySchedule;
  e_root : bytes;
  e_expected_digest : bytes
}.

(** The variables of the receive loop. *)
Record RecvState : Type := mkRecv {
  r_file : bytes;
  r_db : option Resume.ResumeDb;
  r_disk : Resume.Disk;
  r_have : ChunkBitmap;
  r_received : Z;
  r_watch : RouteWatch;
  r_streaming : option (bytes * Z);
  r_verified_bytes : Z;
  r_events : option Inner
}.

(** The world during one frame: a failed write may leave a prefix of the
    data behind ([io_write = Some k]).  It fails here, where tokio may report
    it at the next write or at [sync_data], which both come before the record
    is committed. *)
Record StepIo : Type := mkStepIo {
  io_write : option Z;
  io_now : Z;
  io_route : Route;
  io_sync_ok : bool;
  io_checkpoint : Resume.CheckpointIo
}.

(** [file.seek(off); file.write_all(data)] inside a file of fixed length. *)
Definition write_at (off : Z) (data file : bytes) : bytes :=
  take (Z.to_nat off) file ++ data ++ drop (Z.to_nat (off + len data)) file.
(** [file.set_len(n)] *)
Definition set_len (n : Z) (file : bytes) : bytes :=
  take (Z.to_nat n) file ++ replicate (Z.to_nat n - length file) 0.

Section Receiver.
Context {P : Primitives}.

(** The sum that starts the progress counter.
    transfer.rs 1314-1317 [receive_file] *)
Definition held_bytes (ctx : ObjectContext) (have : ChunkBitmap) : Z :=
  foldr Z.add 0 (map (fun i => if Bitmap.get_or_false have i
                               then match chunk_len ctx i with Ok l => l | _ => 0 end else 0)
                     (seqZ 0 (Object.chunk_count ctx))).

(** From the resume database to the range request: the state the loop starts
    in, and the request bytes.  transfer.rs 1269-1324 [receive_file] *)
Definition start_receive (env : RecvEnv) (existing : bytes) (db : option Resume.ResumeDb) (disk : Resume.Disk)
    (watch : RouteWatch) (events : option Inner) : result TransferError (RecvState * bytes) :=
  let ctx := e_ctx env in
  let file := set_len (logical_plaintext_size ctx) existing in
  let* have := (match db with
                | Some d => Ok (Resume.durable (Resume.record d))
                | None => map_err (fun _ => Protocol "bad chunk count") (Bitmap.new (Object.chunk_count ctx))
                end) in
  let scheduler := new_scheduler (ctx_transfer_id ctx) (ctx_object_id ctx) (Object.chunk_count ctx)
                     (Object.chunk_ciphertext_size ctx) in
  let* request := Scheduler.encode (full_request scheduler have) in
  let events := push_all [TransferStarted (ctx_transfer_id ctx) 1 (encoded_plaintext_size ctx)] events in
  Ok (mkRecv file db disk have 0 watch (Some ([], 0)) (wrap 64 (held_bytes ctx have)) events, request).

(** The checks of one chunk record, in the order of §11.4; [None] is a
    duplicate of a chunk already held.  transfer.rs 1331-1350 [receive_file] *)
Definition authenticate (env : RecvEnv) (have : ChunkBitmap) (payload : bytes)
  : result TransferError (option (Z * bytes)) :=
  let ctx := e_ctx env in
  let* '(index, proof, ciphertext) := ChunkRecord.decode_chunk_record payload in
  if Object.chunk_count ctx <=? index then Err (Protocol "chunk index out of range") else
  if Bitmap.get_or_false have index then Ok None else
  let* expected_len := map_err (fun _ => Protocol "chunk index out of range") (chunk_ciphertext_len ctx index) in
  if negb (len ciphertext =? expected_len) then Err (Protocol "chunk length mismatch") else
  let leaf := leaf_hash index ciphertext in
  let* _ := map_err (fun _ => Crypto "merkle proof")
              (verify_proof leaf index (Object.chunk_count ctx) proof (e_root env)) in
  let* plaintext := map_err (fun _ => Crypto "chunk aead")
                      (decrypt_chunk (e_schedule env) ctx (e_ctx_hash env) index ciphertext) in
  Ok (Some (index, plaintext)).

(** Persisting one authenticated chunk and everything that follows it.
    transfer.rs 1351-1409 [receive_file] *)
Definition accept (env : RecvEnv) (io : StepIo) (index : Z) (plaintext : bytes) (st : RecvState)
  : result TransferError unit * RecvState :=
  let ctx := e_ctx env in
  let tid := ctx_transfer_id ctx in
  let off := wrap 64 (index * chunk_plaintext_size ctx) in
  match io_write io with
  | Some k =>
    (Err Framing.Io, mkRecv (write_at off (take (Z.to_nat k) plaintext) (r_file st)) (r_db st) (r_disk st) (r_have st)
               (r_received st) (r_watch st) (r_streaming st) (r_verified_bytes st) (r_events st))
  | None =>
    let file := write_at off plaintext (r_file st) in
    let disk := Resume.mkDisk ({[index]} ∪ Resume.written (r_disk st)) (Resume.synced (r_disk st))
                  (Resume.record_file (r_disk st)) (Resume.surviving (r_disk st)) in
    let st1 := mkRecv file (r_db st) disk (r_have st) (r_received st) (r_watch st) (r_streaming st)
                 (r_verified_bytes st) (r_events st) in
    match (match r_db st with
           | Some db => let '(r, db') := Resume.mark_verified index db in (map_err (fun _ => Framing.Io) r, Some db')
           | None => (Ok tt, None)
           end) with
    | (Ok _, db1) =>
      match Bitmap.set index (r_have st) with
      | Ok (_, have) =>
        let received := wrap 64 (r_received st + 1) in
        let '(polled, evs, watch) := poll_with tid (io_now io) (io_route io) (r_watch st) in
        let events1 := push_all evs (r_events st) in
        match polled with
        | Ok _ =>
          let streaming := (match r_streaming st with
            | Some (hashed, next) => if index =? next then Some (hashed ++ plaintext, next + 1) else None
            | None => None
            end) in
          let verified_bytes := wrap 64 (r_verified_bytes st + len plaintext) in
          let events2 := push_all [TransferProgress tid Receiving verified_bytes (encoded_plaintext_size ctx)
                                     (Bitmap.set_count have) (Object.chunk_count ctx)] events1 in
          match (match db1 with
                 | Some db =>
                   let '(r, (db', disk')) := Resume.chunk_written index (io_sync_ok io) (io_checkpoint io) db disk in
                   (map_err (fun _ => Framing.Io) r, Some db', disk')
                 | None => (Ok tt, None, disk)
                 end) with
          | (r, db2, disk2) =>
            (r, mkRecv file db2 disk2 have received watch streaming verified_bytes events2)
          end
        | Err route =>
          (Err (RouteRefused route), mkRecv file db1 disk have received watch (r_streaming st) (r_verified_bytes st) events1)
        | Panic => (Panic, st1)
        end
      | Err _ =>
        (Err (Protocol "bitmap"), mkRecv file db1 disk (r_have st) (r_received st) (r_watch st) (r_streaming st)
                                    (r_verified_bytes st) (r_events st))
      | Panic => (Panic, st1)
      end
    | (Err e, db1) =>
      (Err e, mkRecv file db1 disk (r_have st) (r_received st) (r_watch st) (r_streaming st)
                (r_verified_bytes st) (r_events st))
    | (Panic, _) => (Panic, st1)
    end
  end.

(** One frame; [Ok false] ends the loop.  transfer.rs 1328-1413 [receive_file] *)
Definition handle_frame (env : RecvEnv) (io : StepIo) (frame : Z * bytes) (st : RecvState)
  : result TransferError bool * RecvState :=
  let '(frame_type, payload) := frame in
  if frame_type =? FRAME_CHUNK then
    match authenticate env (r_have st) payload with
    | Ok None => (Ok true, st)
    | Ok (Some (index, plaintext)) =>
      let '(r, st') := accept env io index plaintext st in
      ((let* _ := r in Ok true), st')
    | Err e => (Err e, st)
    | Panic => (Panic, st)
    end
  else if frame_type =? FRAME_STREAM_END then (Ok false, st)
  else (Err (Protocol "unexpected frame type"), st).

(** The loop over the stream; [None] is lack of fuel, and the length of the
    stream is enough ([receive_loop_frames]).
    transfer.rs 1327-1414 [receive_file] *)
Fixpoint receive_loop (fuel : nat) (env : RecvEnv) (io : nat -> StepIo) (control : ControlChannel)
    (stream : bytes) (st : RecvState) : option (result TransferError unit * RecvState * ControlChannel) :=
  match fuel with
  | O => None
  | S f =>
    match recv_frame control stream with
    | (Ok (frame_type, payload, stream'), control') =>
      match handle_frame env (io O) (frame_type, payload) st with
      | (Ok true, st') => receive_loop f env (fun k => io (S k)) control' stream' st'
      | (Ok false, st') => Some (Ok tt, st', control')
      | (Err e, st') => Some (Err e, st', control')
      | (Panic, st') => Some (Panic, st', control')
      end
    | (Err e, control') => Some (Err e, st, control')
    | (Panic, control') => Some (Panic, st, control')
    end
  end.

(** Outcomes of the system calls of the final stage. *)
Record FinishIo : Type := mkFinishIo {
  fi_sync_ok : bool;
  fi_checkpoint : Resume.CheckpointIo;
  fi_read_ok : bool;
  fi_unlink_ok : bool;
  fi_remove_ok : bool
}.

(** The digest released, the state, and what is at the destination path.
    transfer.rs 1417-1487 [receive_file] *)
Definition finish_receive (env : RecvEnv) (io : FinishIo) (st : RecvState)
  : result TransferError bytes * RecvState * option bytes :=
  let ctx := e_ctx env in
  let with_db db disk events := mkRecv (r_file st) db disk (r_have st) (r_received st) (r_watch st)
                                  (r_streaming st) (r_verified_bytes st) events in
  let synced := Resume.mkDisk (Resume.written (r_disk st)) (Resume.written (r_disk st))
                  (Resume.record_file (r_disk st)) (Resume.surviving (r_disk st)) in
  if negb (Bitmap.is_complete (r_have st)) then
    match r_db st with
    | Some db =>
      if negb (fi_sync_ok io) then (Err Framing.Io, st, Some (r_file st)) else
      match Resume.checkpoint (fi_checkpoint io) db synced with
      | (Ok _, (db', disk')) => (Err (Protocol "transfer incomplete"), with_db (Some db') disk' (r_events st), Some (r_file st))
      | (Err _, (db', disk')) => (Err Framing.Io, with_db (Some db') disk' (r_events st), Some (r_file st))
      | (Panic, _) => (Panic, st, Some (r_file st))
      end
    | None => (Err (Protocol "transfer incomplete"), st, Some (r_file st))
    end
  else
  if negb (fi_sync_ok io) then (Err Framing.Io, st, Some (r_file st)) else
  match (match r_streaming st with
         | Some (hashed, next) =>
             if next =? Object.chunk_count ctx then Ok (blake3_hash hashed)
             else if fi_read_ok io then Ok (blake3_hash (r_file st)) else Err Framing.Io
         | None => if fi_read_ok io then Ok (blake3_hash (r_file st)) else Err Framing.Io
         end) with
  | Ok digest =>
    if negb (ct_eq digest (e_expected_digest env)) then
      let dest := if fi_unlink_ok io then None else Some (r_file st) in
      match r_db st with
      | Some _ =>
        let '(_, disk') := Resume.remove (fi_remove_ok io) synced in
        (Err (Crypto "plaintext digest mismatch"), with_db None disk' (r_events st), dest)
      | None => (Err (Crypto "plaintext digest mismatch"), with_db None synced (r_events st), dest)
      end
    else
      match (match r_db st with
             | Some _ => Resume.remove (fi_remove_ok io) synced
             | None => (Ok tt, synced)
             end) with
      | (Ok _, disk') =>
        let events := push_all [ObjectCompleted (ctx_transfer_id ctx) (ctx_object_id ctx) digest;
                                TransferCompleted (ctx_transfer_id ctx) 1] (r_events st) in
        (Ok digest, with_db None disk' events, Some (r_file st))
      | (Err _, disk') => (Err Framing.Io, with_db None disk' (r_events st), Some (r_file st))
      | (Panic, _) => (Panic, st, Some (r_file st))
      end
  | Err e => (Err e, st, Some (r_file st))
  | Panic => (Panic, st, Some (r_file st))
  end.
End Receiver.

(** ** Writing chunks *)
Lemma write_at_len off d f : 0 <= off -> off + len d <= len f -> len (write_at off d f) = len f.
Proof.
  intros Ho Hl. pose proof (len_nonneg d). unfold write_at, len in *. rewrite !length_app, length_take, length_drop. lia.
Qed.
Lemma write_at_lookup off d f k : 0 <= off -> off + len d <= len f ->
  write_at off d f !! k =
    if bool_decide (off <= Z.of_nat k < off + len d) then d !! (k - Z.to_nat off)%nat else f !! k.
Proof.
  intros Ho Hl. pose proof (len_nonneg d). unfold write_at, len in *. case_bool_decide.
  - rewrite lookup_app_r by (rewrite length_take; lia). rewrite length_take, Nat.min_l by lia.
    rewrite lookup_app_l by lia. done.
  - destruct (decide (Z.of_nat k < off)).
    + rewrite lookup_app_l by (rewrite length_take; lia). by rewrite lookup_take_lt by lia.
    + rewrite lookup_app_r by (rewrite length_take; lia). rewrite length_take, Nat.min_l by lia.
      rewrite lookup_app_r by lia. rewrite lookup_drop. f_equal. lia.
Qed.
Lemma slice_write_other off d f o n : 0 <= off -> off + len d <= len f -> 0 <= o -> 0 <= n ->
  o + n <= off \/ off + len d <= o ->
  take (Z.to_nat n) (drop (Z.to_nat o) (write_at off d f)) = take (Z.to_nat n) (drop (Z.to_nat o) f).
Proof.
  intros Ho Hl Ho' Hn Hd. pose proof (len_nonneg d). apply list_eq. intros k.
  destruct (decide (k < Z.to_nat n)%nat) as [Hk|Hk]; [|by rewrite !lookup_take_ge by lia].
  rewrite !lookup_take_lt, !lookup_drop by lia. rewrite write_at_lookup by done.
  by rewrite bool_decide_false by lia.
Qed.
Lemma slice_write_same off d f : 0 <= off -> off + len d <= len f ->
  take (Z.to_nat (len d)) (drop (Z.to_nat off) (write_at off d f)) = d.
Proof.
  intros Ho Hl. pose proof (len_nonneg d). unfold write_at.
  rewrite drop_app_ge by (rewrite length_take; lia). rewrite length_take, Nat.min_l by (unfold len in *; lia).
  rewrite Nat.sub_diag, drop_0, take_app_le by (unfold len; lia). apply take_ge. unfold len. lia.
Qed.
Lemma prefix_write off d f n : 0 <= off -> off + len d <= len f -> 0 <= n <= off ->
  take (Z.to_nat n) (write_at off d f) = take (Z.to_nat n) f.
Proof. intros. apply (slice_write_other off d f 0 n); lia. Qed.
Lemma set_len_len n f : 0 <= n -> len (set_len n f) = n.
Proof.
  intros Hn. unfold set_len, len. rewrite length_app, length_take, length_replicate. lia.
Qed.

Section Chunks.
Context (c : ObjectContext) (Hg : geometry c).

Lemma off_chunk i : 0 <= i < Object.chunk_count c ->
  wrap 64 (i * chunk_plaintext_size c) = i * chunk_plaintext_size c.
Proof.
  intros Hi. destruct Hg as [_ Hc Hn _ _]. unfold Object.MAX_CHUNK_COUNT in *. apply Z.mod_small. nia.
Qed.
Lemma chunk_range i l : 0 <= i -> chunk_len c i = Ok l ->
  i < Object.chunk_count c /\ 0 < l <= chunk_plaintext_size c /\
  l = Z.min (encoded_plaintext_size c - i * chunk_plaintext_size c) (chunk_plaintext_size c) /\
  i * chunk_plaintext_size c + l <= encoded_plaintext_size c.
Proof.
  intros Hi Hl. destruct (chunk_len_range c i l Hg Hi Hl) as (? & ? & ?). split_and!; try done; try lia.
  rewrite chunk_len_spec in Hl by done. destruct (Object.chunk_count c <=? i); [done|]. by apply Ok_inj in Hl.
Qed.
Lemma chunk_len_ok i : 0 <= i < Object.chunk_count c -> exists l, chunk_len c i = Ok l.
Proof.
  intros Hi. rewrite chunk_len_spec by (done || lia).
  destruct (Z.leb_spec (Object.chunk_count c) i); [lia|by eexists].
Qed.
Lemma file_chunk_eq f i l : chunk_len c i = Ok l ->
  file_chunk c f i = take (Z.to_nat l) (drop (Z.to_nat (i * chunk_plaintext_size c)) f).
Proof. intros Hl. unfold file_chunk. by rewrite Hl. Qed.

(** Writing (a prefix of) chunk [i] leaves the other chunks alone. *)
Lemma write_other f i j d l : len f = encoded_plaintext_size c -> 0 <= i -> 0 <= j -> i <> j ->
  chunk_len c i = Ok l -> len d <= l ->
  file_chunk c (write_at (i * chunk_plaintext_size c) d f) j = file_chunk c f j.
Proof.
  intros Hf Hi Hj Hne Hl Hd. destruct (chunk_range i l Hi Hl) as (Hic & Hr & _ & Hend).
  pose proof (len_nonneg d).
  destruct (decide (j < Object.chunk_count c)) as [Hjc|Hjc].
  - destruct (chunk_len_ok j ltac:(lia)) as [lj Hlj]. rewrite !(file_chunk_eq _ j lj Hlj).
    destruct (chunk_range j lj Hj Hlj) as (_ & Hrj & Hmin & _).
    apply slice_write_other; try nia.
  - unfold file_chunk. rewrite chunk_len_spec by done.
    by destruct (Z.leb_spec (Object.chunk_count c) j); [|lia].
Qed.
Lemma write_same f i d : len f = encoded_plaintext_size c -> 0 <= i -> chunk_len c i = Ok (len d) ->
  file_chunk c (write_at (i * chunk_plaintext_size c) d f) i = d.
Proof.
  intros Hf Hi Hl. rewrite (file_chunk_eq _ i _ Hl).
  destruct (chunk_range i _ Hi Hl) as (Hic & Hr & _ & Hend). apply slice_write_same; [|lia].
  pose proof (geo_chunk c Hg). nia.
Qed.
Lemma off_le n i : 0 <= n <= i -> i < Object.chunk_count c -> chunk_off c n <= i * chunk_plaintext_size c.
Proof. intros Hn Hi. unfold chunk_off. pose proof (geo_chunk c Hg). nia. Qed.

(** A file is its chunks. *)
Lemma files_by_chunks f g : len f = encoded_plaintext_size c -> len g = encoded_plaintext_size c ->
  (forall i, 0 <= i < Object.chunk_count c -> file_chunk c f i = file_chunk c g i) -> f = g.
Proof.
  intros Hf Hgl Heq. pose proof (geo_count c Hg).
  enough (H' : forall n, 0 <= Z.of_nat n <= Object.chunk_count c ->
    take (Z.to_nat (chunk_off c (Z.of_nat n))) f = take (Z.to_nat (chunk_off c (Z.of_nat n))) g).
  { specialize (H' (Z.to_nat (Object.chunk_count c)) ltac:(lia)). rewrite Z2Nat.id in H' by lia.
    unfold chunk_off in H'. pose proof (geo_end c Hg). unfold len in *.
    rewrite !take_ge in H' by lia. done. }
  induction n as [|n IH]; intros Hn.
  - unfold chunk_off. pose proof (geo_size c Hg) as [Hs _]. change (Z.of_nat 0 * _) with 0.
    by rewrite Z.min_l by lia.
  - destruct (chunk_split c f (Z.of_nat n) Hg ltac:(lia) ltac:(lia)) as (l & _ & _ & _ & _ & _ & _ & _ & Ht).
    destruct (chunk_split c g (Z.of_nat n) Hg ltac:(lia) ltac:(lia)) as (l' & _ & _ & _ & _ & _ & _ & _ & Ht').
    replace (Z.of_nat (S n)) with (Z.of_nat n + 1) by lia. rewrite Ht, Ht', IH by lia.
    by rewrite Heq by lia.
Qed.
End Chunks.

(** ** The progress counter *)
Definition chunk_size_of (c : ObjectContext) (i : Z) : Z := match chunk_len c i with Ok l => l | _ => 0 end.

Lemma sum_acc l a : foldr Z.add a l = foldr Z.add 0 l + a.
Proof. induction l as [|x l IH]; cbn; lia. Qed.
Lemma sum_update (f g : Z -> Z) i d l : NoDup l -> i ∈ l -> g i = f i + d -> (forall j, j <> i -> g j = f j) ->
  foldr Z.add 0 (map g l) = foldr Z.add 0 (map f l) + d.
Proof.
  intros Hnd. induction Hnd as [|x l Hx Hnd IH]; intros Hi Hd Ho; [by apply elem_of_nil in Hi|]. cbn.
  apply elem_of_cons in Hi as [->|Hi].
  - rewrite Hd. enough (map g l = map f l) as -> by lia. apply map_ext_in. intros y Hy.
    apply Ho. intros ->. by apply Hx, list_elem_of_In.
  - rewrite IH, Ho by (done || by intros ->). lia.
Qed.

Section Held.
Context (c : ObjectContext) (Hg : geometry c).

Lemma held_set have have' i : Bitmap.wf have -> Bitmap.wf have' ->
  Bitmap.chunk_count have = Object.chunk_count c -> Bitmap.chunk_count have' = Object.chunk_count c ->
  0 <= i < Object.chunk_count c -> Bitmap.get_or_false have i = false ->
  (forall k, 0 <= k -> Bitmap.get have' k = Ok true <-> k = i \/ Bitmap.get have k = Ok true) ->
  held_bytes c have' = held_bytes c have + chunk_size_of c i.
Proof.
  intros Hw Hw' Hc Hc' Hi Hf Hs. unfold held_bytes.
  assert (Hgf : forall b k, Bitmap.get_or_false b k = true <-> Bitmap.get b k = Ok true).
  { intros b k. unfold Bitmap.get_or_false. destruct (Bitmap.get b k) as [[|]| |]; split; congruence. }
  assert (Hk : forall k, 0 <= k -> Bitmap.get_or_false have' k = ((k =? i) || Bitmap.get_or_false have k)%bool).
  { intros k Hk0. apply eq_true_iff_eq. rewrite Hgf, Hs, orb_true_iff, Z.eqb_eq, Hgf by done. done. }
  set (f := fun j => if Bitmap.get_or_false have j then chunk_size_of c j else 0).
  set (g := fun j => if (j =? i) || Bitmap.get_or_false have j then chunk_size_of c j else 0).
  transitivity (foldr Z.add 0 (map g (seqZ 0 (Object.chunk_count c)))).
  { f_equal. apply map_ext_in. intros j Hj%list_elem_of_In%elem_of_seqZ. by rewrite Hk by lia. }
  apply (sum_update f g i).
  - apply NoDup_seqZ.
  - apply elem_of_seqZ. lia.
  - unfold f, g. rewrite Z.eqb_refl, Hf. cbn. lia.
  - intros j Hne. unfold f, g. by destruct (Z.eqb_spec j i).
Qed.

Lemma held_bounds have m : Z.of_nat m <= Object.chunk_count c ->
  let f i := if Bitmap.get_or_false have i then chunk_size_of c i else 0 in
  let s := foldr Z.add 0 (map f (seqZ 0 (Z.of_nat m))) in
  0 <= s <= chunk_off c (Z.of_nat m) /\
  (s = chunk_off c (Z.of_nat m) -> forall i, 0 <= i < Z.of_nat m -> Bitmap.get_or_false have i = true) /\
  ((forall i, 0 <= i < Z.of_nat m -> Bitmap.get_or_false have i = true) -> s = chunk_off c (Z.of_nat m)).
Proof.
  intros Hm f. cbn zeta. induction m as [|m IH].
  - change (Z.of_nat 0) with 0. unfold chunk_off. destruct (geo_size c Hg). rewrite Z.mul_0_l, Z.min_l by lia.
    change (seqZ 0 0) with (@nil Z). cbn [map foldr]. split; [lia|]. split; [intros _ i Hi; exfalso; lia|done].
  - destruct IH as (IH1 & IH2 & IH3); [lia|].
    set (z := Z.of_nat m) in *. replace (Z.of_nat (S m)) with (z + 1) by lia.
    destruct (chunk_len_ok c Hg z ltac:(lia)) as [l Hl].
    destruct (chunk_range c Hg z l ltac:(lia) Hl) as (_ & Hr & Hmin & Hend).
    assert (Hoff : chunk_off c (z + 1) = chunk_off c z + l /\ 0 <= chunk_off c z).
    { unfold chunk_off. destruct (geo_size c Hg), (geo_chunk c Hg). nia. }
    assert (Hsum : foldr Z.add 0 (map f (seqZ 0 (z + 1))) = foldr Z.add 0 (map f (seqZ 0 z)) + f z).
    { unfold z. replace (Z.of_nat m + 1) with (Z.of_nat (S m)) by lia.
      rewrite seqZ_S, map_app, foldr_app, sum_acc. cbn [map foldr]. rewrite Z.add_0_l. lia. }
    assert (Hfz : f z = if Bitmap.get_or_false have z then l else 0) by (unfold f, chunk_size_of; by rewrite Hl).
    rewrite Hsum, Hfz. destruct Hoff as [-> Ho0].
    set (s := foldr Z.add 0 (map f (seqZ 0 z))) in *.
    destruct (Bitmap.get_or_false have z) eqn:Hz.
    + split; [lia|]. split.
      * intros He i Hi. destruct (decide (i = z)) as [->|]; [done|]. apply IH2; lia.
      * intros H. assert (s = chunk_off c z) by (apply IH3; intros i Hi; apply H; lia). lia.
    + split; [lia|]. split; [intros; exfalso; lia|]. intros H. rewrite H in Hz by lia. done.
Qed.

(** The counter never exceeds the file, and reaches its size exactly at
    completion. *)
Lemma held_bytes_spec have : Bitmap.wf have -> Bitmap.chunk_count have = Object.chunk_count c ->
  0 <= held_bytes c have <= encoded_plaintext_size c /\
  (held_bytes c have = encoded_plaintext_size c <-> Bitmap.is_complete have = true).
Proof.
  intros Hw Hc. pose proof (geo_count c Hg) as Hn.
  destruct (held_bounds have (Z.to_nat (Object.chunk_count c)) ltac:(lia)) as (H1 & H2 & H3).
  rewrite Z2Nat.id in * by lia.
  assert (Hoff : chunk_off c (Object.chunk_count c) = encoded_plaintext_size c).
  { unfold chunk_off. pose proof (geo_end c Hg). lia. }
  rewrite Hoff in *. fold (held_bytes c have) in *. split; [exact H1|].
  rewrite Bitmap.is_complete_spec, Hc by done.
  assert (Hgf : forall k, Bitmap.get_or_false have k = true <-> Bitmap.get have k = Ok true).
  { intros k. unfold Bitmap.get_or_false. destruct (Bitmap.get have k) as [[|]| |]; split; congruence. }
  split.
  - intros He k Hk. by apply Hgf, H2.
  - intros H. apply H3. intros i Hi. by apply Hgf, H.
Qed.
End Held.

(** ** The invariant of the receive loop *)
Section Loop.
Context {P : Primitives} {L : PrimitiveLaws}.

(** Plaintext [pt] passed every check as chunk [i] of the committed object. *)
Definition authentic (env : RecvEnv) (i : Z) (pt : bytes) : Prop :=
  exists ps ct, verify_proof (leaf_hash i ct) i (Object.chunk_count (e_ctx env)) ps (e_root env) = Ok tt /\
    decrypt_chunk (e_schedule env) (e_ctx env) (e_ctx_hash env) i ct = Ok pt.

(** [Q]: what is known of the held chunks. *)
Record recv_inv (Q : Z -> bytes -> Prop) (env : RecvEnv) (st : RecvState) : Prop := {
  ri_wf : Bitmap.wf (r_have st);
  ri_count : Bitmap.chunk_count (r_have st) = Object.chunk_count (e_ctx env);
  ri_file : len (r_file st) = encoded_plaintext_size (e_ctx env);
  ri_held i : 0 <= i -> Bitmap.get (r_have st) i = Ok true -> Q i (file_chunk (e_ctx env) (r_file st) i);
  ri_stream : match r_streaming st with
    | None => True
    | Some (hashed, next) =>
        0 <= next <= Object.chunk_count (e_ctx env) /\
        hashed = take (Z.to_nat (chunk_off (e_ctx env) next)) (r_file st) /\
        (forall i, 0 <= i < next -> Bitmap.get (r_have st) i = Ok true)
    end
}.
Definition counted (env : RecvEnv) (st : RecvState) : Prop :=
  r_verified_bytes st = held_bytes (e_ctx env) (r_have st).

Lemma get_or_false_true b k : Bitmap.get_or_false b k = true <-> Bitmap.get b k = Ok true.
Proof. unfold Bitmap.get_or_false. destruct (Bitmap.get b k) as [[|]| |]; split; congruence. Qed.

(** Writing chunk data into a slot that is not held keeps the invariant. *)
Lemma write_keeps Q env st i d l : geometry (e_ctx env) -> recv_inv Q env st ->
  0 <= i -> chunk_len (e_ctx env) i = Ok l -> len d <= l -> Bitmap.get (r_have st) i <> Ok true ->
  let file := write_at (i * chunk_plaintext_size (e_ctx env)) d (r_file st) in
  len file = encoded_plaintext_size (e_ctx env) /\
  (forall j, 0 <= j -> Bitmap.get (r_have st) j = Ok true -> Q j (file_chunk (e_ctx env) file j)) /\
  match r_streaming st with
  | None => True
  | Some (hashed, next) => 0 <= next <= i /\ hashed = take (Z.to_nat (chunk_off (e_ctx env) next)) file
  end.
Proof.
  intros Hg [Hw Hc Hf Hh Hs] Hi Hl Hd Hn. cbn zeta. destruct (chunk_range _ Hg i l Hi Hl) as (Hic & Hr & _ & Hend).
  pose proof (geo_chunk _ Hg). pose proof (len_nonneg d). split_and!.
  - rewrite write_at_len; nia.
  - intros j Hj Hget. assert (i <> j) by (intros ->; done).
    rewrite (write_other _ Hg _ i j d l) by done. by apply Hh.
  - destruct (r_streaming st) as [[hashed next]|]; [|done]. destruct Hs as (Hnx & -> & Hall).
    assert (next <= i) by (destruct (decide (i < next)); [exfalso; apply Hn, Hall; lia|lia]).
    split; [lia|]. symmetry. apply prefix_write; [nia|lia|].
    split; [unfold chunk_off; destruct (geo_size _ Hg); nia|]. apply off_le; [done|lia|lia].
Qed.

Lemma accept_inv Q env io i pt st r st' : geometry (e_ctx env) -> recv_inv Q env st -> Q i pt ->
  0 <= i -> chunk_len (e_ctx env) i = Ok (len pt) -> Bitmap.get_or_false (r_have st) i = false ->
  accept env io i pt st = (r, st') ->
  recv_inv Q env st' /\
  (forall j, 0 <= j -> Bitmap.get (r_have st) j = Ok true -> Bitmap.get (r_have st') j = Ok true) /\
  (r = Ok tt -> counted env st -> counted env st' /\ Bitmap.get (r_have st') i = Ok true) /\
  (r_db st = None -> r_db st' = None).
Proof.
  intros Hg Hinv HQ Hi Hl Hgf.
  assert (Hn : Bitmap.get (r_have st) i <> Ok true) by (rewrite <- get_or_false_true; congruence).
  destruct (chunk_range _ Hg i _ Hi Hl) as (Hic & Hr & _ & Hend).
  assert (Hw64 : wrap 64 (i * chunk_plaintext_size (e_ctx env)) = i * chunk_plaintext_size (e_ctx env))
    by (apply off_chunk; [done|lia]).
  pose proof Hinv as [Hwf Hc Hf _ _]. unfold accept. rewrite Hw64. destruct (io_write io) as [k|].
  { intros [= <- <-]. split; [|by split_and!]. cbn [r_file r_have r_streaming].
    destruct (write_keeps Q env st i (take (Z.to_nat k) pt) (len pt) Hg Hinv Hi Hl) as (H1 & H2 & H3);
      [unfold len; rewrite length_take; lia|done|].
    split; cbn [r_file r_have r_streaming]; try done. destruct Hinv as [_ _ _ _ Hs]. destruct (r_streaming st) as [[h n]|]; [|done].
    destruct Hs as (? & _ & ?), H3 as [_ ?]. split; [done|by split]. }
  destruct (write_keeps Q env st i pt (len pt) Hg Hinv Hi Hl ltac:(lia) Hn) as (H1 & H2 & H3).
  set (file := write_at _ pt (r_file st)) in *.
  (* every early return keeps the bitmap and the digest *)
  assert (Hkeep : forall db disk received watch verified events,
    recv_inv Q env (mkRecv file db disk (r_have st) received watch (r_streaming st) verified events)).
  { intros. split; cbn [r_file r_have r_streaming]; try done. destruct Hinv as [_ _ _ _ Hs]. destruct (r_streaming st) as [[h n]|]; [|done].
    destruct Hs as (? & _ & ?), H3 as [_ ?]. split; [done|by split]. }
  destruct (match r_db st with Some db => _ | None => _ end) as [rdb db1] eqn:Hdb.
  assert (Hdbn : r_db st = None -> db1 = None).
  { intros Hnone. rewrite Hnone in Hdb. by injection Hdb as _ <-. }
  destruct rdb as [u|e|]; [|intros [= <- <-]; (split; [apply Hkeep|by split_and!])..].
  destruct (Bitmap.set i (r_have st)) as [[fresh have]|e|] eqn:Hset;
    [|intros [= <- <-]; (split; [apply Hkeep|by split_and!])..].
  destruct (Bitmap.set_ok _ _ _ _ Hwf Hi Hset) as (Hwf' & Hc' & _ & Hget).
  assert (Hheld : forall j, 0 <= j -> Bitmap.get have j = Ok true -> Q j (file_chunk (e_ctx env) file j)).
  { intros j Hj Hgj. apply Hget in Hgj as [->|Hgj]; [|by apply H2|done].
    unfold file. by rewrite write_same. }
  destruct (poll_with _ _ _ _) as [[polled evs] watch] eqn:Hpoll.
  assert (Hmono : forall j, 0 <= j -> Bitmap.get (r_have st) j = Ok true -> Bitmap.get have j = Ok true).
  { intros j Hj Hgj. apply Hget; [done|by right]. }
  destruct polled as [[]|route|].
  2: { intros [= <- <-]. split; [|by split_and!]. split; cbn [r_file r_have r_streaming]; try done; [by rewrite Hc'|].
       destruct Hinv as [_ _ _ _ Hs]. destruct (r_streaming st) as [[h n]|]; [|done].
       destruct Hs as (? & _ & Hall), H3 as [_ ?]. split; [done|split; [done|]]. intros j Hj. apply Hmono; [lia|by apply Hall]. }
  2: { intros [= <- <-]. split; [apply Hkeep|by split_and!]. }
  match goal with |- context [match db1 with Some db => _ | None => _ end] =>
    destruct (match db1 with Some db => _ | None => _ end) as [[rr db2] disk2] eqn:Hdb2 end.
  intros [= <- <-]. cbn [r_have r_db]. split_and!.
  - split; cbn [r_file r_have r_streaming]; try done; [by rewrite Hc'|].
    destruct Hinv as [_ _ _ _ Hs]. destruct (r_streaming st) as [[h n]|]; [|done].
    destruct Hs as (Hnr & _ & Hall), H3 as [Hle Heq]. destruct (Z.eqb_spec i n) as [<-|]; [|done].
    destruct (chunk_split (e_ctx env) file i Hg ltac:(lia) ltac:(lia)) as (l & _ & _ & _ & _ & _ & _ & _ & Ht).
    split; [lia|]. split.
    + rewrite Ht, <- Heq. f_equal. unfold file. by rewrite write_same.
    + intros j Hj. destruct (decide (j = i)) as [->|]; [apply Hget; [done|by left]|].
      apply Hmono; [lia|apply Hall; lia].
  - done.
  - intros _ Hct. split; [|apply Hget; [done|by left]]. unfold counted in *. cbn [r_verified_bytes r_have].
    rewrite Hct.
    assert (Hhs : held_bytes (e_ctx env) have = held_bytes (e_ctx env) (r_have st) + chunk_size_of (e_ctx env) i).
    { apply held_set; try done; try (by rewrite Hc'); lia. }
    unfold chunk_size_of in Hhs. rewrite Hl in Hhs. rewrite <- Hhs.
    destruct (held_bytes_spec _ Hg have Hwf' ltac:(by rewrite Hc')) as [Hb _].
    apply Z.mod_small. destruct (geo_size _ Hg). lia.
  - intros Hnone. rewrite (Hdbn Hnone) in Hdb2. by injection Hdb2 as _ <- _.
Qed.

Lemma authenticate_spec env have payload i pt : geometry (e_ctx env) -> bytes_ok payload ->
  authenticate env have payload = Ok (Some (i, pt)) ->
  0 <= i /\ chunk_len (e_ctx env) i = Ok (len pt) /\ Bitmap.get_or_false have i = false /\
  exists ps ct, ChunkRecord.decode_chunk_record payload = Ok (i, ps, ct) /\
    verify_proof (leaf_hash i ct) i (Object.chunk_count (e_ctx env)) ps (e_root env) = Ok tt /\
    decrypt_chunk (e_schedule env) (e_ctx env) (e_ctx_hash env) i ct = Ok pt.
Proof.
  intros Hg Hok H. unfold authenticate in H. minv H. destruct a as [[i' ps] ct].
  destruct (ChunkRecordWire.decode_bwd payload i' ps ct Hok Hp) as (_ & [Hi _] & _).
  destruct (Z.leb_spec (Object.chunk_count (e_ctx env)) i'); [done|].
  destruct (Bitmap.get_or_false have i') eqn:Hf; [done|]. minv Hk.
  destruct (negb _); [done|]. minv Hk0. apply map_err_inv in Hp1. minv Hk. apply map_err_inv in Hp2.
  injection Hk0 as -> ->. destruct a0. destruct (decrypt_chunk_len _ _ _ _ _ _ Hp2) as [Hl _].
  split_and!; try done. by exists ps, ct.
Qed.

(** One frame keeps the invariant, whatever it carries and however it ends. *)
Lemma handle_frame_inv Q env io ft payload st r st' : geometry (e_ctx env) -> recv_inv Q env st ->
  bytes_ok payload ->
  (forall i pt, authenticate env (r_have st) payload = Ok (Some (i, pt)) -> Q i pt) ->
  handle_frame env io (ft, payload) st = (r, st') ->
  recv_inv Q env st' /\
  (forall j, 0 <= j -> Bitmap.get (r_have st) j = Ok true -> Bitmap.get (r_have st') j = Ok true) /\
  (forall b, r = Ok b -> counted env st -> counted env st') /\
  (r_db st = None -> r_db st' = None).
Proof.
  intros Hg Hinv Hok HQ. unfold handle_frame. destruct (ft =? FRAME_CHUNK).
  - destruct (authenticate env (r_have st) payload) as [[[i pt]|]|e|] eqn:Ha;
      [|by intros [= <- <-]; split_and!..].
    destruct (authenticate_spec env (r_have st) payload i pt Hg Hok Ha) as (Hi & Hl & Hf & _).
    destruct (accept env io i pt st) as [ra sa] eqn:Hacc. intros [= <- <-].
    destruct (accept_inv Q env io i pt st ra sa Hg Hinv (HQ i pt eq_refl) Hi Hl Hf Hacc) as (H1 & H2 & H3 & H4).
    split_and!; try done. intros b Hb Hc. apply rbind_inv in Hb as ([] & -> & _). by apply H3.
  - destruct (ft =? FRAME_STREAM_END); intros [= <- <-]; by split_and!.
Qed.

(** The frame loop over a list of frames. *)
Fixpoint receive_frames (env : RecvEnv) (io : nat -> StepIo) (frames : list (Z * bytes)) (st : RecvState)
  : result TransferError bool * RecvState :=
  match frames with
  | [] => (Ok true, st)
  | f :: rest =>
    match handle_frame env (io O) f st with
    | (Ok true, st') => receive_frames env (fun k => io (S k)) rest st'
    | r => r
    end
  end.

(** The frames are well-formed and carry only what [Q] allows. *)
Definition frames_ok (Q : Z -> bytes -> Prop) (env : RecvEnv) (frames : list (Z * bytes)) : Prop :=
  Forall (fun f => bytes_ok f.2 /\
    forall have i pt, authenticate env have f.2 = Ok (Some (i, pt)) -> Q i pt) frames.

Lemma receive_frames_inv Q env io frames st r st' : geometry (e_ctx env) -> recv_inv Q env st ->
  frames_ok Q env frames -> receive_frames env io frames st = (r, st') ->
  recv_inv Q env st' /\
  (forall j, 0 <= j -> Bitmap.get (r_have st) j = Ok true -> Bitmap.get (r_have st') j = Ok true) /\
  (forall b, r = Ok b -> counted env st -> counted env st') /\
  (r_db st = None -> r_db st' = None).
Proof.
  intros Hg Hinv Hfr. revert io st Hinv. induction Hfr as [|[ft payload] frames [Hok HQ] Hfr IH]; intros io st Hinv.
  { intros [= <- <-]. by split_and!. }
  cbn [receive_frames]. destruct (handle_frame env (io O) (ft, payload) st) as [r1 st1] eqn:Hh.
  destruct (handle_frame_inv Q env (io O) ft payload st r1 st1 Hg Hinv Hok (HQ (r_have st)) Hh) as (H1 & H2 & H3 & H4).
  destruct r1 as [[|]|e|]; [|intros [= <- <-]; by split_and!..].
  intros Hrest. destruct (IH _ st1 H1 Hrest) as (I1 & I2 & I3 & I4). split_and!; try done.
  - intros j Hj Hget. by apply I2, H2.
  - intros b Hb Hc. by eapply I3, H3.
  - intros Hn. by apply I4, H4.
Qed.

Lemma open_bytes_ok c e n ft fl rid ct pt c' : Control.open c e n ft fl rid ct = (Ok pt, c') -> bytes_ok pt.
Proof.
  unfold Control.open. repeat (case_match; try done).
  all: match goal with H : open_with _ _ _ _ _ _ = Ok _ |- _ => unfold open_with in H;
    destruct (aead_decrypt _ _ _ _) as [x|] eqn:Hd; [|done]; injection H as <- end.
  all: intros [= <- _]; by apply aead_open_len in Hd as [_ ?].
Qed.
Lemma recv_frame_spec c s ft p s' c' : bytes_ok s -> recv_frame c s = (Ok (ft, p, s'), c') ->
  bytes_ok p /\ bytes_ok s' /\ (length s' < length s)%nat.
Proof.
  intros Hok. unfold recv_frame.
  destruct (recv_raw_frame true s) as [[[[f e] n] s1]|e|] eqn:Hr; [|done..].
  apply recv_raw_frame_iff in Hr as [-> Hf]; [|done].
  destruct (Control.open _ _ _ _ _ _ _) as [[b|e'|] c1] eqn:Ho; [|done..]. intros [= <- <- <- <-].
  apply bytes_ok_app in Hok as [_ Hok]. split; [by eapply open_bytes_ok|]. split; [done|].
  unfold frame_bytes. rewrite !length_app. pose proof (header_len (fixed_len true + len (body f))
    (frame_type f) (frame_flags f) 0 0 (request_id f)) as Hl. unfold len at 1, FRAME_HEADER_LEN in Hl. lia.
Qed.

(** The loop handles a list of well-formed frames, and its fuel suffices. *)
Lemma receive_loop_frames fuel env io c s st : bytes_ok s -> (length s < fuel)%nat ->
  exists r st' c' frames, receive_loop fuel env io c s st = Some (r, st', c') /\
    Forall (fun f => bytes_ok f.2) frames /\
    (receive_frames env io frames st).2 = st' /\
    (r = Ok tt -> (receive_frames env io frames st).1 = Ok false).
Proof.
  revert io c s st. induction fuel as [|fuel IH]; intros io c s st Hok Hlt; [lia|]. cbn [receive_loop].
  destruct (recv_frame c s) as [[[[ft p] s1]|e|] c1] eqn:Hr.
  - destruct (recv_frame_spec c s ft p s1 c1 Hok Hr) as (Hp & Hs1 & Hlen).
    destruct (handle_frame env (io O) (ft, p) st) as [[[|]|e|] st1] eqn:Hh.
    + destruct (IH (fun k => io (S k)) c1 s1 st1 Hs1 ltac:(lia)) as (r & st' & c' & frames & H1 & H2 & H3 & H4).
      exists r, st', c', ((ft, p) :: frames). split; [done|]. split; [by constructor|].
      cbn [receive_frames]. rewrite Hh. done.
    + exists (Ok tt), st1, c1, [(ft, p)]. split; [done|]. split; [by constructor|].
      cbn [receive_frames]. by rewrite Hh.
    + exists (Err e), st1, c1, [(ft, p)]. split; [done|]. split; [by constructor|].
      cbn [receive_frames]. by rewrite Hh.
    + exists Panic, st1, c1, [(ft, p)]. split; [done|]. split; [by constructor|].
      cbn [receive_frames]. by rewrite Hh.
  - exists (Err e), st, c1, []. by split_and!.
  - exists Panic, st, c1, []. by split_and!.
Qed.

(** ** Start and finish *)
(** The database describes this object, and what it calls durable is so. *)
Definition db_ok (Q : Z -> bytes -> Prop) (env : RecvEnv) (existing : bytes) (db : option Resume.ResumeDb) : Prop :=
  match db with
  | None => True
  | Some d =>
    let have := Resume.durable (Resume.record d) in
    Bitmap.wf have /\ Bitmap.chunk_count have = Object.chunk_count (e_ctx env) /\
    forall i, 0 <= i -> Bitmap.get have i = Ok true ->
      Q i (file_chunk (e_ctx env) (set_len (logical_plaintext_size (e_ctx env)) existing) i)
  end.

Lemma start_inv Q env existing db disk watch events st rq : geometry (e_ctx env) ->
  logical_plaintext_size (e_ctx env) = encoded_plaintext_size (e_ctx env) -> db_ok Q env existing db ->
  start_receive env existing db disk watch events = Ok (st, rq) ->
  recv_inv Q env st /\ counted env st /\ r_db st = db.
Proof.
  intros Hg Hlog Hdb H. unfold start_receive in H. apply rbind_inv in H as (have & Hh & H).
  apply rbind_inv in H as (rqb & _ & H). apply Ok_inj in H. injection H as <- <-.
  pose proof (geo_size _ Hg) as [Hs0 Hs1]. pose proof (geo_count _ Hg) as Hn.
  assert (Hf : len (set_len (logical_plaintext_size (e_ctx env)) existing) = encoded_plaintext_size (e_ctx env))
    by (rewrite set_len_len; lia).
  assert (Hhave : Bitmap.wf have /\ Bitmap.chunk_count have = Object.chunk_count (e_ctx env) /\
    forall i, 0 <= i -> Bitmap.get have i = Ok true ->
      Q i (file_chunk (e_ctx env) (set_len (logical_plaintext_size (e_ctx env)) existing) i)).
  { destruct db as [d|]; [by apply Ok_inj in Hh as <-|]. apply map_err_inv in Hh.
    destruct (Bitmap.new_spec (Object.chunk_count (e_ctx env))) as (b & Hb & Hwf & Hbc & Hcont); [done|].
    rewrite Hb in Hh. apply Ok_inj in Hh as <-. split_and!; try done. intros i Hi Hget.
    apply Bitmap.get_true in Hget; [|done..]. rewrite Hcont in Hget. by apply lookup_replicate in Hget as [? _]. }
  destruct Hhave as (Hwf & Hc & Hheld). split; [|split; [|done]].
  - split; cbn [r_file r_have r_streaming]; try done. split; [lia|]. split; [|intros; lia].
    unfold chunk_off. rewrite Z.mul_0_l, Z.min_l by lia. done.
  - unfold counted; cbn [r_verified_bytes r_have]. destruct (held_bytes_spec _ Hg have Hwf Hc) as [Hb _].
    apply Z.mod_small. lia.
Qed.

Lemma finish_spec Q env io st digest st' dest : geometry (e_ctx env) -> recv_inv Q env st ->
  finish_receive env io st = (Ok digest, st', dest) ->
  Bitmap.is_complete (r_have st) = true /\ digest = blake3_hash (r_file st) /\
  digest = e_expected_digest env /\ dest = Some (r_file st).
Proof.
  intros Hg [Hwf Hc Hf _ Hs] H. unfold finish_receive in H.
  destruct (Bitmap.is_complete (r_have st)) eqn:Hcomp; cbn [negb] in H.
  2: { destruct (r_db st); [|done]. destruct (negb (fi_sync_ok io)); [done|].
       by destruct (Resume.checkpoint _ _ _) as [[[]|?|] [? ?]]. }
  destruct (negb (fi_sync_ok io)); [done|].
  match type of H with context [match ?d with Ok _ => _ | Err _ => _ | Panic => _ end] => destruct d as [dg|e|] eqn:Hd end;
    [|done..].
  assert (dg = blake3_hash (r_file st)) as ->.
  { destruct (r_streaming st) as [[h n]|]; [|by destruct (fi_read_ok io); [injection Hd as <-|]].
    destruct (Z.eqb_spec n (Object.chunk_count (e_ctx env))) as [->|];
      [|by destruct (fi_read_ok io); [injection Hd as <-|]].
    injection Hd as <-. destruct Hs as (_ & -> & _). f_equal. apply take_ge.
    unfold chunk_off. pose proof (geo_end _ Hg). unfold len in Hf. lia. }
  destruct (ct_eq _ _) eqn:Hct; cbn [negb] in H; [|by destruct (r_db st); [destruct (Resume.remove _ _)|]].
  apply ct_eq_true in Hct.
  destruct (match r_db st with Some _ => _ | None => _ end) as [[u|e|] disk']; [|done..].
  injection H as <- _ <-. done.
Qed.
End Loop.

(** ** Binding to the sender's file *)
#[local] Opaque build_proof_inner.
Section Binding.
Context {P : Primitives} {L : PrimitiveLaws}.

(** The environment of the receiver of [p]. *)
Definition receives (p : PendingTransfer) (env : RecvEnv) : Prop :=
  e_ctx env = p_ctx p /\ e_ctx_hash env = p_ctx_hash p /\ e_schedule env = p_schedule p /\
  e_root env = p_ciphertext_root p.

(** The bytes a leaf hash covers, and all hash inputs of a record's check. *)
Definition leaf_input (i : Z) (ct : bytes) : bytes :=
  LEAF_DOMAIN ++ be_bytes 8 i ++ be_bytes 4 (wrap 32 (len ct)) ++ ct.
Definition check_inputs (i : Z) (ct : bytes) (ps : list ProofStep) : list bytes :=
  leaf_input i ct :: path_inputs (leaf_hash i ct) ps.
(** The inputs of a record do not collide with those of the honest record of
    the same chunk. *)
Definition record_safe (p : PendingTransfer) (src payload : bytes) : Prop :=
  forall i ps ct, ChunkRecord.decode_chunk_record payload = Ok (i, ps, ct) -> i < Object.chunk_count (p_ctx p) ->
    collision_free (check_inputs i ct ps)
      (check_inputs i (committed (p_schedule p) (p_ctx p) (p_ctx_hash p) src i) (build_proof_inner 64 (p_leaves p) i [])).

Lemma authentic_committed p src env have payload i pt : prepared p src -> receives p env ->
  bytes_ok payload -> record_safe p src payload ->
  authenticate env have payload = Ok (Some (i, pt)) -> pt = file_chunk (p_ctx p) src i.
Proof.
  intros Hp (E1 & E2 & E3 & E4) Hok Hsafe Ha. pose proof Hp as [Hg Hs _ Hb _ _ _ Hl Hr _ _].
  destruct (authenticate_spec env have payload i pt ltac:(by rewrite E1) Hok Ha)
    as (Hi & Hlen & _ & ps & ct & Hdec & Hv & Hd).
  rewrite E1, E2, E3, ?E4 in *.
  destruct (ChunkRecordWire.decode_bwd payload i ps ct Hok Hdec) as (_ & Hu & Hps14 & Hps & _).
  destruct (chunk_range _ Hg i _ Hi Hlen) as (Hic & _ & _ & _).
  pose proof (geo_count _ Hg) as Hn. unfold Object.MAX_CHUNK_COUNT in Hn.
  destruct (chunk_record_parts p src i Hp ltac:(lia)) as ((_ & _ & Hqs & _) & _ & Hqd & Hqc). cbn [fst snd] in Hqs.
  apply verify_proof_spec in Hv as (_ & Hpd & Hpc); [|done|lia].
  specialize (Hsafe i ps ct Hdec Hic). set (q := build_proof_inner 64 (p_leaves p) i []) in *.
  set (ci := committed (p_schedule p) (p_ctx p) (p_ctx_hash p) src i) in *.
  assert (H32 : forall l, Forall step_wf l -> Forall (fun s => len (hash s) = 32) l).
  { intros l Hl'. eapply Forall_impl; [exact Hl'|]. by intros s [? _]. }
  destruct (path_binding (leaf_hash i ct) (leaf_hash i ci) q ps) as [Hleaf _].
  - apply blake3_len.
  - apply blake3_len.
  - by apply H32.
  - by apply H32.
  - by rewrite Hpd, Hqd.
  - rewrite Hpc. symmetry. exact Hqc.
  - intros x y Hx Hy. apply Hsafe; apply elem_of_cons; by right.
  - apply leaf_hash_inj in Hleaf as [_ ->]; [|done|done|].
    + destruct (committed_ok (p_schedule p) (p_ctx p) (p_ctx_hash p) src i Hg ltac:(lia) Hb ltac:(lia)) as (_ & Hdc & _).
      fold ci in Hdc. rewrite Hd in Hdc. by apply Ok_inj in Hdc.
    + intros x y ->%list_elem_of_singleton ->%list_elem_of_singleton. apply Hsafe; apply elem_of_cons; by left.
Qed.

Definition is_chunk_of (p : PendingTransfer) (src : bytes) (i : Z) (pt : bytes) : Prop :=
  pt = file_chunk (p_ctx p) src i.

Lemma held_is_source p src env existing db disk watch events io frames st0 rq r st :
  prepared p src -> receives p env ->
  db_ok (is_chunk_of p src) env existing db ->
  start_receive env existing db disk watch events = Ok (st0, rq) ->
  Forall (fun f => bytes_ok f.2 /\ record_safe p src f.2) frames ->
  receive_frames env io frames st0 = (r, st) ->
  recv_inv (is_chunk_of p src) env st.
Proof.
  intros Hp Hrecv Hdb Hstart Hfr Hrun. pose proof Hp as [Hg Hs Hlog _ _ _ _ _ _ _ _].
  pose proof Hrecv as (E1 & _).
  assert (Hge : geometry (e_ctx env)) by (by rewrite E1).
  destruct (start_inv (is_chunk_of p src) env existing db disk watch events st0 rq Hge ltac:(rewrite E1; lia) Hdb Hstart)
    as (Hinv & _).
  apply (receive_frames_inv (is_chunk_of p src) env io frames st0 r st Hge Hinv); [|done].
  eapply Forall_impl; [exact Hfr|]. intros f [Hok Hsafe]. split; [done|].
  intros have i pt Ha. by eapply authentic_committed.
Qed.

Lemma complete_is_source p src env st : prepared p src -> e_ctx env = p_ctx p ->
  recv_inv (is_chunk_of p src) env st -> Bitmap.is_complete (r_have st) = true -> r_file st = src.
Proof.
  intros [Hg Hs _ _ _ _ _ _ _ _ _] E1 [Hwf Hc Hf Hh _] Hcomp. rewrite E1 in *.
  apply (files_by_chunks _ Hg); [done|done|]. intros i Hi. apply Hh; [lia|].
  apply (Bitmap.is_complete_spec _ Hwf); [done|lia].
Qed.
End Binding.

(** ** Claims *)
Section Claims.
Context {P : Primitives} {L : PrimitiveLaws}.

(** The loop keeps any property of chunks that authentic ones have. *)
Lemma loop_holds (Q : Z -> bytes -> Prop) env existing db disk watch events io control stream st0 rq r st control' :
  (forall i pt, authentic env i pt -> Q i pt) ->
  geometry (e_ctx env) -> logical_plaintext_size (e_ctx env) = encoded_plaintext_size (e_ctx env) ->
  db_ok Q env existing db ->
  start_receive env existing db disk watch events = Ok (st0, rq) -> bytes_ok stream ->
  receive_loop (S (length stream)) env io control stream st0 = Some (r, st, control') ->
  recv_inv Q env st /\
  (forall i, 0 <= i -> Bitmap.get (r_have st0) i = Ok true -> Bitmap.get (r_have st) i = Ok true).
Proof.
  intros HQ Hg Hlog Hdb Hstart Hok Hloop.
  destruct (start_inv Q env existing db disk watch events st0 rq Hg Hlog Hdb Hstart) as (Hinv & _).
  destruct (receive_loop_frames (S (length stream)) env io control stream st0 Hok ltac:(lia))
    as (r2 & st2 & c2 & frames & Hloop2 & Hfr & Hst & _).
  rewrite Hloop in Hloop2. injection Hloop2 as <- <- <-.
  destruct (receive_frames env io frames st0) as [r1 st1] eqn:Hrun. cbn in Hst. subst st1.
  destruct (receive_frames_inv Q env io frames st0 r1 st Hg Hinv) as (Hinv' & Hmono & _); [|done|done].
  eapply Forall_impl; [exact Hfr|]. intros [ft pl] Hpl. split; [done|]. intros have i pt Ha. apply HQ.
  destruct (authenticate_spec env have pl i pt Hg Hpl Ha) as (_ & _ & _ & ps & ct & _ & Hv & Hd). by exists ps, ct.
Qed.
Lemma loop_authentic env existing db disk watch events io control stream st0 rq r st control' :
  geometry (e_ctx env) -> logical_plaintext_size (e_ctx env) = encoded_plaintext_size (e_ctx env) ->
  db_ok (authentic env) env existing db ->
  start_receive env existing db disk watch events = Ok (st0, rq) -> bytes_ok stream ->
  receive_loop (S (length stream)) env io control stream st0 = Some (r, st, control') ->
  recv_inv (authentic env) env st /\
  (forall i, 0 <= i -> Bitmap.get (r_have st0) i = Ok true -> Bitmap.get (r_have st) i = Ok true).
Proof. by apply loop_holds. Qed.

(** C4: Only authenticated content is ever held: from a fresh start, or a
    resumed one whose durable chunks are authentic, the loop ends for every
    byte stream the network delivers and all outcomes of system calls, and
    every chunk marked present in the bitmap is, byte for byte in the file,
    the plaintext of a ciphertext that passed the Merkle proof and the AEAD. *)
Theorem only_authentic_chunks_held env existing db disk watch events io control stream st0 rq :
  geometry (e_ctx env) -> logical_plaintext_size (e_ctx env) = encoded_plaintext_size (e_ctx env) ->
  db_ok (authentic env) env existing db ->
  start_receive env existing db disk watch events = Ok (st0, rq) -> bytes_ok stream ->
  exists r st control', receive_loop (S (length stream)) env io control stream st0 = Some (r, st, control') /\
    Bitmap.wf (r_have st) /\ Bitmap.chunk_count (r_have st) = Object.chunk_count (e_ctx env) /\
    (forall i, 0 <= i -> Bitmap.get (r_have st0) i = Ok true -> Bitmap.get (r_have st) i = Ok true) /\
    (forall i, 0 <= i -> Bitmap.get (r_have st) i = Ok true ->
       authentic env i (file_chunk (e_ctx env) (r_file st) i)).
Proof.
  intros Hg Hlog Hdb Hstart Hok.
  destruct (receive_loop_frames (S (length stream)) env io control stream st0 Hok ltac:(lia))
    as (r & st & c' & frames & Hloop & _).
  destruct (loop_authentic env existing db disk watch events io control stream st0 rq r st c') as ([H1 H2 H3 H4 _] & Hmono); try done.
  by exists r, st, c'.
Qed.

(** What is released is what was hashed: when the final stage succeeds
    after any run of the loop, every chunk is present, the digest it returns
    is the hash of the whole file as it is on disk, whether it came from the
    streaming hasher or from reading the file back, it equals the digest the
    sender committed to, and the file is at its destination. *)
Theorem released_digest_is_file_digest env existing db disk watch events io control stream st0 rq r st control' fio digest st' dest :
  geometry (e_ctx env) -> logical_plaintext_size (e_ctx env) = encoded_plaintext_size (e_ctx env) ->
  db_ok (authentic env) env existing db ->
  start_receive env existing db disk watch events = Ok (st0, rq) -> bytes_ok stream ->
  receive_loop (S (length stream)) env io control stream st0 = Some (r, st, control') ->
  finish_receive env fio st = (Ok digest, st', dest) ->
  Bitmap.is_complete (r_have st) = true /\ digest = blake3_hash (r_file st) /\
  digest = e_expected_digest env /\ dest = Some (r_file st).
Proof.
  intros Hg Hlog Hdb Hstart Hok Hloop Hfin.
  destruct (loop_authentic env existing db disk watch events io control stream st0 rq r st control') as (Hinv & _); try done.
  by eapply finish_spec.
Qed.

(** The progress counter counts verified bytes only: when the loop ends
    normally, it is exactly the total length of the chunks held, it never
    exceeds the size of the file, and it reaches that size if and only if
    the object is complete. *)
Theorem progress_counts_held_bytes env existing db disk watch events io control stream st0 rq st control' :
  geometry (e_ctx env) -> logical_plaintext_size (e_ctx env) = encoded_plaintext_size (e_ctx env) ->
  db_ok (authentic env) env existing db ->
  start_receive env existing db disk watch events = Ok (st0, rq) -> bytes_ok stream ->
  receive_loop (S (length stream)) env io control stream st0 = Some (Ok tt, st, control') ->
  r_verified_bytes st = held_bytes (e_ctx env) (r_have st) /\
  0 <= r_verified_bytes st <= encoded_plaintext_size (e_ctx env) /\
  (r_verified_bytes st = encoded_plaintext_size (e_ctx env) <-> Bitmap.is_complete (r_have st) = true).
Proof.
  intros Hg Hlog Hdb Hstart Hok Hloop.
  destruct (start_inv (authentic env) env existing db disk watch events st0 rq Hg Hlog Hdb Hstart) as (Hinv & Hct & _).
  destruct (receive_loop_frames (S (length stream)) env io control stream st0 Hok ltac:(lia))
    as (r2 & st2 & c2 & frames & Hloop2 & Hfr & Hst & Hr).
  rewrite Hloop in Hloop2. injection Hloop2 as <- <- <-. specialize (Hr eq_refl).
  destruct (receive_frames env io frames st0) as [r1 st1] eqn:Hrun. cbn in Hst, Hr. subst st1 r1.
  destruct (receive_frames_inv (authentic env) env io frames st0 (Ok false) st Hg Hinv) as ([H1 H2 _ _ _] & _ & Hc & _); [|done|].
  - eapply Forall_impl; [exact Hfr|]. intros [ft pl] Hpl. split; [done|]. intros have i pt Ha.
    destruct (authenticate_spec env have pl i pt Hg Hpl Ha) as (_ & _ & _ & ps & ct & _ & Hv & Hd). by exists ps, ct.
  - specialize (Hc false eq_refl Hct). unfold counted in Hc. rewrite Hc. split; [done|]. by apply held_bytes_spec.
Qed.

(** C3: The file received is the file sent: under the object and root of a
    prepared transfer, whatever frames arrive, forged, replayed, reordered
    or repeated, as long as BLAKE3 does not collide on the inputs of the
    records that were checked, every chunk held equals the sender's chunk
    after every outcome, and a completed receive leaves exactly the sender's
    file at the destination. *)
Theorem received_file_is_sent_file src secrets chunk_size p env existing db disk watch events io frames st0 rq r st :
  u64 (len src) -> bytes_ok src -> prepare (len src) src secrets chunk_size = Ok p -> receives p env ->
  db_ok (is_chunk_of p src) env existing db ->
  start_receive env existing db disk watch events = Ok (st0, rq) ->
  Forall (fun f => bytes_ok f.2 /\ record_safe p src f.2) frames ->
  receive_frames env io frames st0 = (r, st) ->
  (forall i, 0 <= i -> Bitmap.get (r_have st) i = Ok true ->
     file_chunk (e_ctx env) (r_file st) i = file_chunk (e_ctx env) src i) /\
  (forall fio digest st' dest, finish_receive env fio st = (Ok digest, st', dest) -> dest = Some src).
Proof.
  intros Hu Hb Hprep Hrecv Hdb Hstart Hfr Hrun.
  destruct (prepare_prepared _ _ _ _ Hu Hb Hprep) as (Hp & _).
  pose proof (held_is_source p src env existing db disk watch events io frames st0 rq r st Hp Hrecv Hdb Hstart Hfr Hrun) as Hinv.
  pose proof Hrecv as (E1 & _). split.
  - intros i Hi Hget. rewrite (ri_held _ _ _ Hinv i Hi Hget). by rewrite E1.
  - intros fio digest st' dest Hfin.
    destruct (finish_spec _ env fio st digest st' dest ltac:(rewrite E1; apply Hp) Hinv Hfin) as (Hc & _ & _ & ->).
    f_equal. by eapply complete_is_source.
Qed.
End Claims.

(** ** Instances *)
Module ReceiverWitness.
Import Toy SenderWitness.
Definition env3 : RecvEnv :=
  mkEnv (p_ctx pending3) (p_ctx_hash pending3) (p_schedule pending3) (p_ciphertext_root pending3)
    (p_plaintext_digest pending3).
Definition disk3 : Resume.Disk := Resume.mkDisk ∅ ∅ None [].
Definition io3 : StepIo := mkStepIo None 0 Relay true (Resume.mkIo true true true true true).
Definition fio3 : FinishIo := mkFinishIo true (Resume.mkIo true true true true true) true true true.
Definition watch3 : RouteWatch := new_watch Relay (new_admission Any) 0.
Definition started : result TransferError (RecvState * bytes) :=
  start_receive env3 [1; 2; 3; 4; 5] None disk3 watch3 (Some new_queue).
Definition nothing : RecvState := mkRecv [] None disk3 demo 0 watch3 None 0 None.
Definition st3 : RecvState := match started with Ok (st, _) => st | _ => nothing end.
Definition rq3 : bytes := match started with Ok (_, rq) => rq | _ => [] end.
Definition wire3 : bytes := s_out (serve_request pending3 source (fun _ => (0, Relay)) rq3 start3).2.
Definition server3 : ControlChannel := new_channel [1] [2] ServerToClient.
Definition after3 : RecvState * ControlChannel :=
  match receive_loop (S (length wire3)) env3 (fun _ => io3) server3 wire3 st3 with
  | Some (_, st, c) => (st, c)
  | None => (nothing, server3)
  end.
Definition released (r : result TransferError bytes * RecvState * option bytes) : RecvState * bytes :=
  (r.1.2, match r.1.1 with Ok d => d | _ => [] end).
Definition finished3 : RecvState * bytes := released (finish_receive env3 fio3 after3.1).

Lemma started3 : start_receive env3 [1; 2; 3; 4; 5] None disk3 watch3 (Some new_queue) = Ok (st3, rq3).
Proof. vm_compute. reflexivity. Qed.
Lemma geometry3 : geometry (e_ctx env3) /\ logical_plaintext_size (e_ctx env3) = encoded_plaintext_size (e_ctx env3).
Proof.
  destruct (for_file_geometry (replicate 32 1) (replicate 32 2) 3 65536 (e_ctx env3)) as (H & _);
    [done|vm_compute; reflexivity|]. split; [exact H|vm_compute; reflexivity].
Qed.
Lemma wire3_ok : bytes_ok wire3.
Proof. apply bytes_ok_check. vm_compute. reflexivity. Qed.
Lemma looped3 : receive_loop (S (length wire3)) env3 (fun _ => io3) server3 wire3 st3 = Some (Ok tt, after3.1, after3.2).
Proof. vm_compute. reflexivity. Qed.

Lemma only_authentic_chunks_held_witness : exists r st control',
  receive_loop (S (length wire3)) env3 (fun _ => io3) server3 wire3 st3 = Some (r, st, control') /\
  Bitmap.wf (r_have st) /\ Bitmap.chunk_count (r_have st) = Object.chunk_count (e_ctx env3) /\
  (forall i, 0 <= i -> Bitmap.get (r_have st3) i = Ok true -> Bitmap.get (r_have st) i = Ok true) /\
  (forall i, 0 <= i -> Bitmap.get (r_have st) i = Ok true ->
     authentic env3 i (file_chunk (e_ctx env3) (r_file st) i)).
Proof.
  apply (only_authentic_chunks_held env3 [1; 2; 3; 4; 5] None disk3 watch3 (Some new_queue) (fun _ => io3) server3 wire3 st3 rq3).
  - exact (proj1 geometry3).
  - exact (proj2 geometry3).
  - exact I.
  - exact started3.
  - exact wire3_ok.
Defined.

Lemma released_digest_is_file_digest_witness :
  Bitmap.is_complete (r_have after3.1) = true /\ finished3.2 = blake3_hash (r_file after3.1) /\
  finished3.2 = e_expected_digest env3 /\ Some source = Some (r_file after3.1).
Proof.
  apply (released_digest_is_file_digest env3 [1; 2; 3; 4; 5] None disk3 watch3 (Some new_queue) (fun _ => io3) server3
    wire3 st3 rq3 (Ok tt) after3.1 after3.2 fio3 finished3.2 finished3.1 (Some source)).
  - exact (proj1 geometry3).
  - exact (proj2 geometry3).
  - exact I.
  - exact started3.
  - exact wire3_ok.
  - exact looped3.
  - vm_compute. reflexivity.
Defined.

Lemma progress_counts_held_bytes_witness :
  r_verified_bytes after3.1 = held_bytes (e_ctx env3) (r_have after3.1) /\
  0 <= r_verified_bytes after3.1 <= encoded_plaintext_size (e_ctx env3) /\
  (r_verified_bytes after3.1 = encoded_plaintext_size (e_ctx env3) <-> Bitmap.is_complete (r_have after3.1) = true).
Proof.
  apply (progress_counts_held_bytes env3 [1; 2; 3; 4; 5] None disk3 watch3 (Some new_queue) (fun _ => io3) server3
    wire3 st3 rq3 after3.1 after3.2).
  - exact (proj1 geometry3).
  - exact (proj2 geometry3).
  - exact I.
  - exact started3.
  - exact wire3_ok.
  - exact looped3.
Defined.

Lemma triple_inj {A B C} (a a' : A) (b b' : B) (c c' : C) : (a, b, c) = (a', b', c') -> a = a' /\ b = b' /\ c = c'.
Proof. by intros [= -> -> ->]. Qed.
Lemma same_input (x : bytes) : collision_free [x] [x].
Proof. intros y z ->%list_elem_of_singleton ->%list_elem_of_singleton. done. Qed.

Definition frames3 : list (Z * bytes) :=
  [(FRAME_CHUNK, chunk_record pending3 source 0); (FRAME_CHUNK, [1; 2; 3])].
Definition run3 : result TransferError bool * RecvState := receive_frames env3 (fun _ => io3) frames3 st3.
Lemma received_file_is_sent_file_witness :
  (forall i, 0 <= i -> Bitmap.get (r_have run3.2) i = Ok true ->
     file_chunk (e_ctx env3) (r_file run3.2) i = file_chunk (e_ctx env3) source i) /\
  (forall fio digest st' dest, finish_receive env3 fio run3.2 = (Ok digest, st', dest) -> dest = Some source).
Proof.
  apply (received_file_is_sent_file source secrets3 65536 pending3 env3 [1; 2; 3; 4; 5] None disk3 watch3
    (Some new_queue) (fun _ => io3) frames3 st3 rq3 run3.1 run3.2).
  - exact (proj1 source_ok).
  - exact (proj2 source_ok).
  - exact prepared3.
  - split; [reflexivity|]. split; [reflexivity|]. split; reflexivity.
  - exact I.
  - exact started3.
  - unfold frames3. apply Forall_cons_2; [|apply Forall_cons_2; [|apply Forall_nil_2]]; cbn [snd].
    + split; [apply bytes_ok_check; vm_compute; reflexivity|].
      intros i ps ct Hdec _.
      assert (Hn : build_proof_inner 64 (p_leaves pending3) 0 [] = []) by (vm_compute; reflexivity).
      assert (Hv : ChunkRecord.decode_chunk_record (chunk_record pending3 source 0)
        = Ok (0, [], committed (p_schedule pending3) (p_ctx pending3) (p_ctx_hash pending3) source 0))
        by (vm_compute; reflexivity).
      rewrite Hv in Hdec. apply Ok_inj, triple_inj in Hdec as (<- & <- & <-). revert Hn.
      generalize (build_proof_inner 64 (p_leaves pending3) 0 []). intros q ->.
      unfold check_inputs. cbn [path_inputs]. apply same_input.
    + split; [apply bytes_ok_check; vm_compute; reflexivity|].
      intros i ps ct Hdec _. vm_compute in Hdec. discriminate Hdec.
  - vm_compute. reflexivity.
Defined.
End ReceiverWitness.
