(* ===== verification/Delivery.v ===== *)
(** * Sender and receiver together

    The composition of [prepare], the range request, [serve_request], the
    receive loop, the final stage and the acknowledgement over one session:
    an undisturbed transfer delivers the file. *)

From stdpp Require Import gmap.
From S2P Require Import Resume Bitmap Prelude Cbor Wire Crypto Merkle Keys Object Scheduler Control Events Route Framing Sender Receiver.
#[local] Open Scope Z_scope.
#[local] Opaque build_proof_inner.

Section Delivery.
Context {P : Primitives} {L : PrimitiveLaws}.

(** ** An honest chunk is taken *)
Lemma honest_authenticate p src env have i : prepared p src -> receives p env ->
  0 <= i < Object.chunk_count (p_ctx p) -> Object.chunk_count (p_ctx p) <= 2 ^ 14 ->
  authenticate env have (chunk_record p src i)
    = Ok (if Bitmap.get_or_false have i then None else Some (i, file_chunk (p_ctx p) src i)).
Proof.
  intros Hp (E1 & E2 & E3 & E4) Hi Hn. pose proof Hp as [Hg Hs _ Hb _ _ _ Hl Hr _ _].
  destruct (chunk_record_parts p src i Hp Hi) as ((Hu & _ & Hps & Hct) & _ & Hd & Hc). cbn [fst snd] in *.
  unfold authenticate. rewrite E1, E2, E3, E4.
  unfold chunk_record. rewrite ChunkRecordWire.decode_ok; [|done| |done|done].
  2: { rewrite <- (len_map direction), Hd. apply (expected_directions_depth 14); [exact Hn|lia]. }
  cbn [rbind]. destruct (Z.leb_spec (Object.chunk_count (p_ctx p)) i); [lia|].
  destruct (Bitmap.get_or_false have i); [done|].
  destruct (committed_ok (p_schedule p) (p_ctx p) (p_ctx_hash p) src i Hg ltac:(lia) Hb Hi) as (_ & Hdec & _ & Hlen).
  rewrite Hlen. cbn [map_err rbind]. rewrite Z.eqb_refl. cbn [negb].
  assert (Hv : verify_proof (leaf_hash i (committed (p_schedule p) (p_ctx p) (p_ctx_hash p) src i)) i
    (Object.chunk_count (p_ctx p)) (build_proof_inner 64 (p_leaves p) i []) (p_ciphertext_root p) = Ok tt).
  { apply verify_proof_spec; [lia|lia|]. split; [lia|]. split; [exact Hd|exact Hc]. }
  rewrite Hv. cbn [map_err rbind]. by rewrite Hdec.
Qed.

(** What holds between honest frames. *)
Record running (p : PendingTransfer) (src : bytes) (env : RecvEnv) (st : RecvState) : Prop := {
  ru_inv : recv_inv (is_chunk_of p src) env st;
  ru_db : r_db st = None;
  ru_received : r_received st = Bitmap.set_count (r_have st)
}.

Lemma honest_frame p src env io i st : prepared p src -> receives p env ->
  0 <= i < Object.chunk_count (p_ctx p) -> Object.chunk_count (p_ctx p) <= 2 ^ 14 ->
  running p src env st -> io_write io = None -> admits (policy (admission (r_watch st))) (io_route io) = true ->
  exists st', handle_frame env io (FRAME_CHUNK, chunk_record p src i) st = (Ok true, st') /\
    running p src env st' /\ admission (r_watch st') = admission (r_watch st) /\
    Bitmap.get (r_have st') i = Ok true /\
    (forall j, 0 <= j -> Bitmap.get (r_have st) j = Ok true -> Bitmap.get (r_have st') j = Ok true).
Proof.
  intros Hp Hrecv Hi Hn [Hinv Hdb Hcnt] Hio Hadm. pose proof Hrecv as (E1 & _).
  pose proof Hp as [Hg Hs _ Hb _ _ _ _ _ _ _].
  assert (Hge : geometry (e_ctx env)) by (by rewrite E1).
  pose proof (honest_authenticate p src env (r_have st) i Hp Hrecv Hi Hn) as Ha.
  unfold handle_frame. rewrite Z.eqb_refl, Ha.
  destruct (Bitmap.get_or_false (r_have st) i) eqn:Hf.
  { exists st. apply get_or_false_true in Hf. by split_and!. }
  destruct (chunk_split (p_ctx p) src i Hg ltac:(lia) Hi) as (l & Hl & _ & _ & _ & _ & Hlen & _).
  assert (Hl' : chunk_len (e_ctx env) i = Ok (len (file_chunk (p_ctx p) src i))) by (rewrite E1, Hlen; exact Hl).
  destruct (accept env io i (file_chunk (p_ctx p) src i) st) as [r st'] eqn:Hacc.
  destruct (accept_inv (is_chunk_of p src) env io i _ st r st' Hge Hinv eq_refl ltac:(lia) Hl' Hf Hacc)
    as (Hinv' & Hmono & Hok & Hdb').
  (* no step of [accept] fails *)
  assert (r = Ok tt /\ admission (r_watch st') = admission (r_watch st) /\ Bitmap.get (r_have st') i = Ok true /\
    r_received st' = Bitmap.set_count (r_have st')) as (-> & Hw & Hget & Hcnt').
  { unfold accept in Hacc. rewrite Hio, Hdb in Hacc.
    destruct Hinv as [Hwf Hc _ _ _]. rewrite E1 in Hc.
    destruct (Bitmap.set_get (r_have st) i Hwf ltac:(lia)) as (v & have & Hset & Hwf' & Hc' & Hg').
    rewrite Hset in Hacc.
    destruct (poll_admits (ctx_transfer_id (e_ctx env)) (io_now io) (io_route io) (r_watch st) Hadm) as (evs & w & Hpoll & Hadmw).
    rewrite Hpoll in Hacc. injection Hacc as <- <-. split; [done|]. split; [exact Hadmw|].
    cbn [r_have r_received]. split; [apply get_or_false_true; rewrite Hg' by lia; by rewrite Z.eqb_refl|].
    rewrite (Bitmap.set_fresh_count (r_have st) i _ _ Hwf ltac:(lia) Hf Hset), Hcnt. unfold wrap. apply Z.mod_small.
    pose proof (Bitmap.set_count_range _ Hwf). lia. }
  cbn [rbind]. exists st'. split; [done|]. split; [split; [done|by apply Hdb'|done]|]. by split_and!.
Qed.

Lemma honest_frames p src env io indices st : prepared p src -> receives p env ->
  Object.chunk_count (p_ctx p) <= 2 ^ 14 -> (forall i, i ∈ indices -> 0 <= i < Object.chunk_count (p_ctx p)) ->
  running p src env st -> (forall k, io_write (io k) = None) ->
  (forall k, admits (policy (admission (r_watch st))) (io_route (io k)) = true) ->
  exists st', receive_frames env io (chunk_frames (chunk_record p src) indices ++ [(FRAME_STREAM_END, [])]) st = (Ok false, st') /\
    running p src env st' /\
    (forall j, 0 <= j -> j ∈ indices \/ Bitmap.get (r_have st) j = Ok true -> Bitmap.get (r_have st') j = Ok true).
Proof.
  intros Hp Hrecv Hn. revert io st. induction indices as [|i rest IH]; intros io st Hin Hrun Hio Hadm.
  - exists st. split; [done|]. split; [done|]. intros j _ [Hj|Hj]; [by apply elem_of_nil in Hj|done].
  - destruct (honest_frame p src env (io O) i st Hp Hrecv ltac:(apply Hin, elem_of_cons; by left) Hn Hrun (Hio O) (Hadm O))
      as (st1 & Hh & Hrun1 & Hw1 & Hget1 & Hmono1).
    destruct (IH (fun k => io (S k)) st1) as (st2 & Hr2 & Hrun2 & Hall2).
    + intros j Hj. apply Hin, elem_of_cons. by right.
    + done.
    + intros k. apply Hio.
    + intros k. rewrite Hw1. apply Hadm.
    + exists st2. split; [|split; [done|]].
      * cbn [chunk_frames map app receive_frames]. rewrite Hh. exact Hr2.
      * intros j Hj [[->|Hjr]%elem_of_cons|Hg]; apply Hall2; try done; [by right|by left|right; by apply Hmono1].
Qed.

(** ** The loop on a stream that opens to a list of frames *)
Lemma handle_chunk env io q st st' : handle_frame env io (FRAME_CHUNK, q) st <> (Ok false, st').
Proof.
  unfold handle_frame. cbn [Z.eqb FRAME_CHUNK Pos.eqb].
  destruct (authenticate _ _ _) as [[[i pt]|]|e|]; [|done..]. destruct (accept _ _ _ _ _) as [[[]|e|] ?]; done.
Qed.
Lemma loop_on_frames env io l : forall fuel b s st st' tl b' rest,
  Forall (fun f => f.1 = FRAME_CHUNK) l ->
  recv_all b (length (l ++ [(FRAME_STREAM_END, rest)])) s = (Ok (l ++ [(FRAME_STREAM_END, rest)], tl), b') ->
  receive_frames env io (l ++ [(FRAME_STREAM_END, rest)]) st = (Ok false, st') -> (length l < fuel)%nat ->
  receive_loop fuel env io b s st = Some (Ok tt, st', b').
Proof.
  revert io. induction l as [|[ft q] l IH]; intros io fuel b s st st' tl b' rest Hl Hr Hf Hn;
    (destruct fuel as [|fuel]; [cbn in Hn; lia|]);
    cbn [app length recv_all receive_frames receive_loop] in *;
    destruct (recv_frame b s) as [[[[ft' q'] s1]|e|] b1]; try done.
  - cbn [rbind] in Hr. injection Hr as -> -> -> ->. cbn in Hf |- *. by injection Hf as <-.
  - apply Forall_cons in Hl as [Hft Hl]. cbn [fst] in Hft.
    destruct (recv_all b1 _ s1) as [r b2] eqn:Hrest. injection Hr as Hr Hb.
    apply rbind_inv in Hr as ([l' t] & -> & Hr). apply Ok_inj in Hr. injection Hr as -> -> -> ->. subst b2 ft.
    pose proof (handle_chunk env (io O) q st) as Hc.
    destruct (handle_frame env (io O) (FRAME_CHUNK, q) st) as [[[|]|e|] st1]; [| |done..].
    + eapply IH; [done|exact Hrest|exact Hf|lia].
    + by destruct (Hc st1).
Qed.

(** A stream holds at least one byte per frame. *)
Lemma recv_all_length n : forall b l s tl, bytes_ok s -> (recv_all b n s).1 = Ok (l, tl) -> (n <= length s)%nat.
Proof.
  induction n as [|n IH]; intros b l s tl Hs H; [lia|]. cbn [recv_all] in H.
  destruct (recv_frame b s) as [[[[ft q] s1]|e|] b1] eqn:Hf; [|done..].
  destruct (recv_frame_spec b s ft q s1 b1 Hs Hf) as (_ & Hs1 & Hlt).
  destruct (recv_all b1 n s1) as [r b2] eqn:Hrest. cbn [fst] in H. apply rbind_inv in H as ([l' t] & -> & _).
  specialize (IH b1 l' s1 t Hs1 ltac:(by rewrite Hrest)). lia.
Qed.

(** ** The first request of a fresh receive *)
Lemma requested_covered r i : covers (ranges r) i -> i ∈ requested_indices r.
Proof.
  intros (s & e & Hin & Hi). unfold requested_indices. apply list_elem_of_In, in_concat.
  exists (seqZ s (e - s)). split; [|apply list_elem_of_In, elem_of_seqZ; lia].
  apply in_map_iff. exists (s, e). split; [done|by apply list_elem_of_In].
Qed.

(** A bitmap with nothing set is missing in one range. *)
Lemma empty_missing have max : Bitmap.wf have -> 0 <= max ->
  (forall i, 0 <= i < Bitmap.chunk_count have -> Bitmap.get have i = Ok false) ->
  len (missing_ranges have max) <= 1.
Proof.
  intros Hwf Hm Hfalse. destruct (missing_ranges_spec have max Hwf Hm) as (Hsep & _ & _ & Hcov). cbn zeta in *.
  destruct (missing_ranges have max) as [|[s e] [|[s' e'] rs]]; [done|done|]. exfalso.
  destruct Hsep as (H1 & H2 & (H3 & H4 & H5)).
  destruct (Hcov e ltac:(lia)) as [(a & b & Hin & Hab)|[_ Hall]].
  - apply Hfalse. lia.
  - apply elem_of_cons in Hin as [[= -> ->]|Hin]; [lia|].
    apply elem_of_cons in Hin as [[= -> ->]|Hin]; [lia|].
    pose proof (separated_bounds _ _ _ a b H5 Hin). lia.
  - specialize (Hall s' e' ltac:(apply elem_of_cons; right; apply elem_of_cons; by left)). lia.
Qed.

Lemma request_value_ok r : request_wf r -> value_ok (request_value r).
Proof.
  destruct r as [tid oid c rs mb o g]. intros (H1 & H2 & H3 & [H4 H5] & H6 & H7 & H8). unfold request_value.
  cbn in *. assert (value_ok (VArray (map range_value rs))).
  { apply ok_array; [rewrite len_map; unfold MAX_RANGES_PER_REQUEST in H4; pose proof (len_nonneg rs); split; lia|].
    apply Forall_fmap. eapply Forall_impl; [exact H5|]. intros [s e] [? ?]. unfold compose, range_value. cbn in *. vok. }
  vok.
Qed.

(** The first request is one that an honest sender serves. *)
Record servable (p : PendingTransfer) (rq : bytes) (r : RangeRequest) : Prop := {
  sv_ok : bytes_ok rq;
  sv_size : len rq <= 2 ^ 17;
  sv_decode : Scheduler.decode rq (Object.chunk_count (p_ctx p)) = Ok r;
  sv_transfer : rr_transfer_id r = transfer_id (p_secrets p);
  sv_object : rr_object_id r = object_id (p_secrets p);
  sv_ranges : len (ranges r) <= MAX_RANGES_PER_REQUEST /\ separated 0 (Object.chunk_count (p_ctx p)) (ranges r);
  sv_total : chunk_total r = Object.chunk_count (p_ctx p);
  sv_all i : 0 <= i < Object.chunk_count (p_ctx p) -> i ∈ requested_indices r
}.

Lemma fresh_request p src env existing disk watch events :
  prepared p src -> e_ctx env = p_ctx p -> Object.chunk_count (p_ctx p) <= 2 ^ 14 ->
  array 32 (transfer_id (p_secrets p)) -> array 32 (object_id (p_secrets p)) ->
  exists st0 rq r, start_receive env existing None disk watch events = Ok (st0, rq) /\ r_watch st0 = watch /\
    r_received st0 = Bitmap.set_count (r_have st0) /\ servable p rq r.
Proof.
  intros Hp E1 Hn Ht Ho. pose proof Hp as [Hg _ _ _ _ [Htid Hoid] _ _ _ _].
  pose proof (geo_count _ Hg) as [Hn0 Hn1]. pose proof (geo_chunk _ Hg) as Hsz.
  destruct (Bitmap.new_spec (Object.chunk_count (p_ctx p))) as (have & Hb & Hwf & Hbc & Hcont); [done|].
  assert (Hfalse : forall i, 0 <= i < Object.chunk_count (p_ctx p) -> Bitmap.get have i = Ok false).
  { intros i Hi. destruct (Bitmap.get_spec have i Hwf ltac:(lia)) as (v & -> & Hv). rewrite Hcont in Hv.
    by apply lookup_replicate in Hv as [-> _]. }
  pose proof (empty_missing have MAX_RANGES_PER_REQUEST Hwf ltac:(done) ltac:(by rewrite Hbc)) as Hone.
  unfold start_receive. rewrite E1, Hb. cbn [map_err rbind].
  set (sch := new_scheduler _ _ _ _).
  destruct (full_request_spec sch have Hwf Hbc) as (Hval & _ & Hcov & Hmax).
  { cbn. unfold chunk_ciphertext_size, AEAD_TAG_LEN. lia. }
  destruct (missing_ranges_spec have MAX_RANGES_PER_REQUEST Hwf ltac:(done)) as (Hsep & Hlen & _).
  cbn zeta in *. set (r := full_request sch have) in *.
  change (missing_ranges have MAX_RANGES_PER_REQUEST) with (ranges r) in *. rewrite Hbc in Hsep.
  assert (Hw : request_wf r).
  { assert (Hu : Forall (fun x : Z * Z => u64 x.1 /\ u64 x.2) (ranges r)).
    { apply Forall_forall. intros [s e] Hin. pose proof (separated_bounds _ _ _ s e Hsep Hin). cbn. split; split; lia. }
    split; [change (rr_transfer_id r) with (ctx_transfer_id (p_ctx p)); by rewrite Htid|].
    split; [change (rr_object_id r) with (ctx_object_id (p_ctx p)); by rewrite Hoid|].
    split; [by vm_compute|]. split; [by split|]. split; [|by split; vm_compute].
    rewrite Hmax. pose proof (span_sum_bounds _ _ _ Hsep). cbn [sch new_scheduler s_chunk_ciphertext_size].
    unfold chunk_ciphertext_size, AEAD_TAG_LEN, U64_MAX. split; [nia|lia]. }
  rewrite encode_eq. cbn [rbind].
  eexists _, _, r. split; [reflexivity|]. split; [done|]. cbn [r_received r_have].
  split; [by rewrite (Bitmap.wf_set _ Hwf), Hcont, Bitmap.count_set_false by (by apply Forall_replicate)|].
  assert (Hall : forall i, 0 <= i < Object.chunk_count (p_ctx p) -> i ∈ requested_indices r).
  { intros i Hi. apply requested_covered, Hcov; [|lia|by apply Hfalse]. unfold MAX_RANGES_PER_REQUEST. lia. }
  unfold Object.MAX_CHUNK_COUNT in Hn1. destruct (requested_total r _ Hsep ltac:(lia)) as [Htot Hle].
  split; [by apply cbor_bytes_ok, request_value_ok|by apply request_short| |done|done|by split| |done].
  - rewrite decode_encoded by done. change (Object.chunk_count (p_ctx p)) with (s_chunk_count sch). by rewrite Hval.
  - rewrite Htot. enough (Object.chunk_count (p_ctx p) <= len (requested_indices r)) by lia.
    unfold len. rewrite <- (Z2Nat.id (Object.chunk_count (p_ctx p))), <- (length_seqZ 0) by lia.
    apply inj_le, submseteq_length, NoDup_submseteq; [apply NoDup_seqZ|].
    intros i Hi%elem_of_seqZ. apply Hall. lia.
Qed.

(** ** One transfer *)
(** What the network and the operating system must do for a transfer to
    succeed: every write succeeds, every observed route is admitted. *)
Record undisturbed (watch : RouteWatch) (obs : nat -> Z * Route) (st : SendState) (io : nat -> StepIo) (fio : FinishIo)
  : Prop := {
  un_write k : io_write (io k) = None;
  un_recv_route k : admits (policy (admission watch)) (io_route (io k)) = true;
  un_send_route k : admits (policy (admission (s_watch st))) (obs k).2 = true;
  un_sync : fi_sync_ok fio = true;
  un_read : fi_read_ok fio = true
}.

Lemma finish_complete p src env fio st : prepared p src -> receives p env ->
  e_expected_digest env = p_plaintext_digest p -> running p src env st ->
  (forall i, 0 <= i < Object.chunk_count (p_ctx p) -> Bitmap.get (r_have st) i = Ok true) ->
  fi_sync_ok fio = true -> fi_read_ok fio = true ->
  exists st', finish_receive env fio st = (Ok (blake3_hash src), st', Some src) /\
    r_received st = Object.chunk_count (p_ctx p).
Proof.
  intros Hp Hrecv He [Hinv Hdb Hcnt] Hall Hsync Hread. pose proof Hrecv as (E1 & _).
  assert (Hcomp : Bitmap.is_complete (r_have st) = true).
  { destruct Hinv as [Hwf Hc _ _ _]. rewrite E1 in Hc. apply Bitmap.is_complete_spec; [done|].
    intros i Hi. apply Hall. lia. }
  pose proof (complete_is_source p src env st Hp E1 Hinv Hcomp) as Hfile.
  unfold finish_receive. rewrite Hcomp, Hsync, Hread, Hdb, Hfile, He. cbn [negb].
  destruct Hinv as [_ Hc Hf _ Hs]. rewrite E1 in *. pose proof (pr_geometry _ _ Hp) as Hg.
  assert (match r_streaming st with
    | Some (hashed, next) => if next =? Object.chunk_count (p_ctx p) then Ok (blake3_hash hashed) else Ok (blake3_hash src)
    | None => Ok (blake3_hash src) end = Ok (E := TransferError) (blake3_hash src)) as ->.
  { destruct (r_streaming st) as [[h n]|]; [|done]. destruct (Z.eqb_spec n (Object.chunk_count (p_ctx p))) as [->|]; [|done].
    destruct Hs as (_ & -> & _). rewrite Hfile. do 2 f_equal. apply take_ge.
    unfold chunk_off. pose proof (geo_end _ Hg). pose proof (pr_size _ _ Hp). unfold len in *. lia. }
  rewrite (pr_digest _ _ Hp). assert (ct_eq (blake3_hash src) (blake3_hash src) = true) as -> by (by apply ct_eq_true).
  cbn [negb]. eexists. split; [reflexivity|].
  rewrite Hcnt. apply Z.eqb_eq. unfold Bitmap.is_complete in Hcomp. by rewrite <- Hc.
Qed.

Lemma transfer_spec p src env existing disk watch events obs st prk th b io fio : prepared p src ->
  array 32 (transfer_id (p_secrets p)) -> array 32 (object_id (p_secrets p)) ->
  receives p env -> e_expected_digest env = p_plaintext_digest p -> Object.chunk_count (p_ctx p) <= 2 ^ 14 ->
  undisturbed watch obs st io fio -> s_out st = [] ->
  in_step prk th ClientToServer (s_control st) b -> send_counter (s_control st) + 2 ^ 14 + 1 <= MAX_FRAMES_PER_EPOCH ->
  exists st0 rq r sent st1 control st2,
    start_receive env existing None disk watch events = Ok (st0, rq) /\ servable p rq r /\
    serve_request p src obs rq st = (Ok tt, sent) /\ bytes_ok (s_out sent) /\
    receive_loop (S (length (s_out sent))) env io b (s_out sent) st0 = Some (Ok tt, st1, control) /\
    finish_receive env fio st1 = (Ok (blake3_hash src), st2, Some src) /\
    r_received st1 = Object.chunk_count (p_ctx p) /\
    in_step prk th ClientToServer (s_control sent) control /\ kept (s_control st) b (s_control sent) control.
Proof.
  intros Hp Ht Ho Hrecv He Hn [Hw Hr Hs Hsync Hread] Hout Hstep Hctr. pose proof Hrecv as (E1 & _).
  destruct (fresh_request p src env existing disk watch events Hp E1 Hn Ht Ho)
    as (st0 & rq & r & Hstart & Hwatch & Hcnt & Hsv). pose proof Hsv as [Hrq _ Hdec Htid Hoid [Hl Hsep] _ Hall].
  destruct (serve_spec p src obs rq r st prk th b Hp Hrq Hdec Hl Hsep Htid Hoid Hs Hstep ltac:(lia))
    as (sent & w & control & Hserve & Hw' & _ & Hwok & Hopen & Hstep' & Hkept). rewrite Hout in Hw'. cbn [app] in Hw'.
  pose proof (pr_logical _ _ Hp) as Hlog. pose proof (pr_size _ _ Hp) as Hsize.
  destruct (start_inv (is_chunk_of p src) env existing None disk watch events st0 rq ltac:(rewrite E1; apply Hp)
    ltac:(rewrite E1; congruence) I Hstart) as (Hinv & _ & Hdb).
  destruct (honest_frames p src env io (requested_indices r) st0 Hp Hrecv Hn) as (st1 & Hrun & Hrunning & Hheld);
    [intros i; by apply requested_in_range|by split|exact Hw|by rewrite Hwatch|].
  specialize (Hopen [] ltac:(constructor)). rewrite app_nil_r in Hopen.
  assert (Hlen : length (chunk_frames (chunk_record p src) (requested_indices r) ++ [(FRAME_STREAM_END, [])])
    = S (length (requested_indices r))).
  { rewrite length_app. unfold chunk_frames. rewrite length_map. cbn [length]. lia. }
  rewrite <- Hlen in Hopen. pose proof (recv_all_length _ b _ w [] Hwok ltac:(by rewrite Hopen)) as Hfuel.
  assert (Hloop : receive_loop (S (length w)) env io b w st0 = Some (Ok tt, st1, control)).
  { eapply loop_on_frames; [|exact Hopen|exact Hrun|rewrite length_app in Hfuel; lia].
    unfold chunk_frames. apply Forall_fmap, Forall_true. done. }
  destruct (finish_complete p src env fio st1 Hp Hrecv He Hrunning) as (st2 & Hfin & Hc2); [|done..|].
  { intros i Hi. apply Hheld; [lia|]. left. by apply Hall. }
  exists st0, rq, r, sent, st1, control, st2. rewrite Hw'. by split_and!.
Qed.

Lemma ack_accepted p src events : prepared p src ->
  exists ack, encode_ack (E := TransferError) 0 (blake3_hash src) = Ok ack /\ bytes_ok ack /\ len ack <= 128 /\
    on_ack p ack events = (Ok tt, push_all [ObjectCompleted (transfer_id (p_secrets p)) (object_id (p_secrets p)) (blake3_hash src);
                      TransferCompleted (transfer_id (p_secrets p)) 1] events).
Proof.
  intros Hp. destruct (blake3_len src) as [Hl Hb]. eexists. split; [apply encode_ack_eq|]. split_and!.
  - apply cbor_bytes_ok. unfold ack_value. cbn [fst snd]. vok. all: apply ok_bytes; split; [done|by rewrite Hl].
  - unfold ack_value. cbn [fst snd]. rewrite cbor_map, !entries_cons. wsize.
  - unfold on_ack. rewrite ack_roundtrip by done. cbn [Z.eqb negb]. rewrite (pr_digest _ _ Hp).
    by assert (ct_eq (blake3_hash src) (blake3_hash src) = true) as -> by (by apply ct_eq_true).
Qed.

(** An undisturbed transfer delivers the file: for every file of at most
    2^14 chunks, when the receiver holds the offer of the prepared transfer,
    the two channels come from one handshake, every write succeeds and every
    observed route is admitted, then the receiver's first request asks for
    everything, the sender serves it, the receive loop over the bytes the
    sender wrote ends normally, the final stage releases exactly the sender's
    file and its digest, and the acknowledgement satisfies the sender. *)
Theorem transfer_delivers src secrets chunk_size p env existing disk watch events obs st prk th b io fio :
  u64 (len src) -> bytes_ok src -> prepare (len src) src secrets chunk_size = Ok p ->
  array 32 (transfer_id secrets) -> array 32 (object_id secrets) ->
  receives p env -> e_expected_digest env = p_plaintext_digest p -> Object.chunk_count (p_ctx p) <= 2 ^ 14 ->
  undisturbed watch obs st io fio -> s_out st = [] ->
  in_step prk th ClientToServer (s_control st) b -> send_counter (s_control st) + 2 ^ 14 + 1 <= MAX_FRAMES_PER_EPOCH ->
  exists st0 rq sent st1 control st2 ack,
    start_receive env existing None disk watch events = Ok (st0, rq) /\
    serve_request p src obs rq st = (Ok tt, sent) /\
    receive_loop (S (length (s_out sent))) env io b (s_out sent) st0 = Some (Ok tt, st1, control) /\
    finish_receive env fio st1 = (Ok (blake3_hash src), st2, Some src) /\
    encode_ack (E := TransferError) 0 (blake3_hash src) = Ok ack /\
    (on_ack p ack (s_events sent)).1 = Ok tt.
Proof.
  intros Hu Hb Hprep Ht Ho Hrecv He Hn Hun Hout Hstep Hctr.
  destruct (prepare_prepared _ _ _ _ Hu Hb Hprep) as (Hp & <- & _).
  destruct (transfer_spec p src env existing disk watch events obs st prk th b io fio) as
    (st0 & rq & r & sent & st1 & control & st2 & H1 & _ & H2 & _ & H3 & H4 & _); try done.
  destruct (ack_accepted p src (s_events sent) Hp) as (ack & H5 & _ & _ & H6).
  exists st0, rq, sent, st1, control, st2, ack. rewrite H6. by split_and!.
Qed.
End Delivery.

(** ** An instance *)
Module DeliveryWitness.
Import Toy SenderWitness ReceiverWitness.
Lemma transfer_delivers_witness : exists st0 rq sent st1 control st2 ack,
  start_receive env3 [1; 2; 3; 4; 5] None disk3 watch3 (Some new_queue) = Ok (st0, rq) /\
  serve_request pending3 source (fun _ => (0, Relay)) rq start3 = (Ok tt, sent) /\
  receive_loop (S (length (s_out sent))) env3 (fun _ => io3) server3 (s_out sent) st0 = Some (Ok tt, st1, control) /\
  finish_receive env3 fio3 st1 = (Ok (blake3_hash source), st2, Some source) /\
  encode_ack (E := TransferError) 0 (blake3_hash source) = Ok ack /\
  (on_ack pending3 ack (s_events sent)).1 = Ok tt.
Proof.
  apply (transfer_delivers source secrets3 65536 pending3 env3 [1; 2; 3; 4; 5] disk3 watch3 (Some new_queue)
    (fun _ => (0, Relay)) start3 [1] [2] server3 (fun _ => io3) fio3).
  - exact (proj1 source_ok).
  - exact (proj2 source_ok).
  - exact prepared3.
  - split; [reflexivity|apply bytes_ok_check; vm_compute; reflexivity].
  - split; [reflexivity|apply bytes_ok_check; vm_compute; reflexivity].
  - split; [reflexivity|]. split; [reflexivity|]. split; reflexivity.
  - reflexivity.
  - vm_compute. discriminate.
  - split; intros; reflexivity.
  - reflexivity.
  - apply new_in_step.
  - vm_compute. discriminate.
Defined.
End DeliveryWitness.
