(* ===== verification/HandshakeMsg.v ===== *)
(** * Handshake messages (handshake.rs)

    The messages of Standalone Mode and of resumption, with their wire forms
    and codecs.  An encoding is a prefix code, so a transcript, which is a
    concatenation of messages, determines them. *)

From S2P Require Import Prelude Cbor Wire Crypto Identity.

(** handshake.rs 38-49 [HandshakeError] *)
Inductive HandshakeError : Type :=
| Decode
| UnsupportedVersion
| UnsupportedSuite
| PolicyViolation
| InvalidKey
| InvalidSignature
| InvalidMac
| Replay
| EndpointMismatch
| State.
(** handshake.rs 51-55 [From] *)
#[export] Instance hs_from_cbor : From CborError HandshakeError := fun _ => Decode.
(** handshake.rs 57-61 [From] *)
#[export] Instance hs_from_pqc : From PqcError HandshakeError := fun _ => InvalidKey.

(** handshake.rs 123-123 [MODE_STANDALONE] *)
Definition MODE_STANDALONE : Z := 0.
(** handshake.rs 126-126 [MODE_RESUMPTION] *)
Definition MODE_RESUMPTION : Z := 3.

(** ** ClientHello *)
(** handshake.rs 136-149 [ClientHello] *)
Record ClientHello : Type := mkClientHello {
  ch_protocol_minor : Z;
  ch_handshake_mode : Z;
  ch_alpn : bytes;
  ch_suites : list Z;
  ch_nonce : bytes;
  ch_ex_pk : bytes;
  ch_kem_pk : bytes;
  ch_pqc_required : bool;
  ch_minimum_security_level : Z;
  ch_cert : DevicePublic;
  ch_endpoint_id : bytes;
  ch_timestamp : Z
}.

(** The entries of [ClientHello::encode]. *)
Definition write_client_hello {E} (h : ClientHello) : Writer.t -> result E Writer.t :=
  write_map 12 [
    MapWriter.uint 0 PROTOCOL_MAJOR;
    MapWriter.uint 1 (ch_protocol_minor h);
    MapWriter.uint 2 (ch_handshake_mode h);
    MapWriter.bytes 3 (ch_alpn h);
    MapWriter.nested 4 (fun w =>
      write_each (fun s w => Ok (Writer.uint s w)) (ch_suites h) (Writer.array (len (ch_suites h)) w));
    MapWriter.bytes 5 (ch_nonce h);
    MapWriter.bytes 6 (ch_ex_pk h);
    MapWriter.bytes 7 (ch_kem_pk h);
    MapWriter.nested 8 (write_map 2 [
      MapWriter.boolean 0 (ch_pqc_required h); MapWriter.uint 1 (ch_minimum_security_level h)]);
    MapWriter.nested 9 (write_device (ch_cert h));
    MapWriter.bytes 10 (ch_endpoint_id h);
    MapWriter.uint 11 (ch_timestamp h)].
(** handshake.rs 152-184 [ClientHello::encode] *)
Definition encode_client_hello {E} (h : ClientHello) : result E bytes :=
  let* w := write_client_hello h Writer.new in
  Ok (Writer.into_bytes w).

(** One suite of the list.  handshake.rs 209-215 [ClientHello::decode] *)
Definition read_suite : M Reader.t HandshakeError Z :=
  s <- q Reader.uint ;;
  guard (s <=? U16_MAX) Decode ;;;
  ret s.
(** handshake.rs 224-234 [ClientHello::decode] *)
Definition read_policy : M Reader.t HandshakeError (bool * Z) :=
  in_map (
    expect 0 ;;; req <- get Reader.boolean ;;
    expect 1 ;;; level <- get Reader.uint ;;
    no_more Decode ;;;
    ret (req, level)).
(** handshake.rs 186-259 [ClientHello::decode] *)
Definition read_client_hello : M Reader.t HandshakeError ClientHello :=
  in_map (
    expect 0 ;;; major <- get Reader.uint ;;
    guard (major =? PROTOCOL_MAJOR) UnsupportedVersion ;;;
    expect 1 ;;; minor <- get Reader.uint ;;
    expect 2 ;;; mode <- get Reader.uint ;;
    expect 3 ;;; alpn <- get Reader.bytes ;;
    guard (negb (64 <? len alpn)) Decode ;;;
    expect 4 ;;; n <- get Reader.array ;;
    guard (negb ((n =? 0) || (32 <? n))) Decode ;;;
    suites <- get (repeat_m (Z.to_nat n) read_suite) ;;
    get Reader.leave ;;;
    expect 5 ;;; nonce <- get (Reader.bytes_exact 32) ;;
    expect 6 ;;; ex_pk <- get (Reader.bytes_exact 32) ;;
    expect 7 ;;; kem_pk <- get (Reader.bytes_exact MLKEM768_PUBLIC_KEY_LEN) ;;
    expect 8 ;;; policy <- get read_policy ;;
    expect 9 ;;; cert <- get read_device ;;
    expect 10 ;;; endpoint <- get (Reader.bytes_exact 32) ;;
    expect 11 ;;; timestamp <- get Reader.uint ;;
    no_more Decode ;;;
    ret (mkClientHello minor mode alpn suites nonce ex_pk kem_pk policy.1 policy.2 cert endpoint timestamp)).
(** handshake.rs 186-259 [ClientHello::decode] *)
Definition decode_client_hello (b : bytes) : result HandshakeError ClientHello :=
  decode_all b read_client_hello.

(** ** ServerHello *)
(** handshake.rs 266-278 [ServerHello] *)
Record ServerHello : Type := mkServerHello {
  sh_selected_minor : Z;
  sh_handshake_mode : Z;
  sh_alpn : bytes;
  sh_selected_suite : Z;
  sh_nonce : bytes;
  sh_ex_pk : bytes;
  sh_kem_pk : bytes;
  sh_ct_to_a : bytes;
  sh_cert : DevicePublic;
  sh_endpoint_id : bytes;
  sh_signature : option HybridSignature
}.

(** [signature.as_ref().expect("signature present")] *)
Definition expect_signature {E} (s : option HybridSignature) (w : Writer.t) : result E Writer.t :=
  match s with Some sig => write_signature sig w | None => Panic end.
Definition write_server_hello {E} (h : ServerHello) (with_signature : bool) : Writer.t -> result E Writer.t :=
  write_map (if with_signature then 12 else 11) ([
    MapWriter.uint 0 PROTOCOL_MAJOR;
    MapWriter.uint 1 (sh_selected_minor h);
    MapWriter.uint 2 (sh_handshake_mode h);
    MapWriter.bytes 3 (sh_alpn h);
    MapWriter.uint 4 (sh_selected_suite h);
    MapWriter.bytes 5 (sh_nonce h);
    MapWriter.bytes 6 (sh_ex_pk h);
    MapWriter.bytes 7 (sh_kem_pk h);
    MapWriter.bytes 8 (sh_ct_to_a h);
    MapWriter.nested 9 (write_device (sh_cert h));
    MapWriter.bytes 10 (sh_endpoint_id h)]
    ++ (if with_signature then [MapWriter.nested 11 (expect_signature (sh_signature h))] else [])).
(** handshake.rs 283-308 [ServerHello::encode] *)
Definition encode_server_hello {E} (h : ServerHello) (with_signature : bool) : result E bytes :=
  let* w := write_server_hello h with_signature Writer.new in
  Ok (Writer.into_bytes w).

(** handshake.rs 312-347 [ServerHello::decode] *)
Definition read_server_hello : M Reader.t HandshakeError ServerHello :=
  in_map (
    expect 0 ;;; major <- get Reader.uint ;;
    guard (major =? PROTOCOL_MAJOR) UnsupportedVersion ;;;
    expect 1 ;;; minor <- get Reader.uint ;;
    expect 2 ;;; mode <- get Reader.uint ;;
    expect 3 ;;; alpn <- get Reader.bytes ;;
    guard (negb (64 <? len alpn)) Decode ;;;
    expect 4 ;;; selected <- get Reader.uint ;;
    guard (negb (U16_MAX <? selected)) Decode ;;;
    expect 5 ;;; nonce <- get (Reader.bytes_exact 32) ;;
    expect 6 ;;; ex_pk <- get (Reader.bytes_exact 32) ;;
    expect 7 ;;; kem_pk <- get (Reader.bytes_exact MLKEM768_PUBLIC_KEY_LEN) ;;
    expect 8 ;;; ct_to_a <- get (Reader.bytes_exact MLKEM768_CIPHERTEXT_LEN) ;;
    expect 9 ;;; cert <- get read_device ;;
    expect 10 ;;; endpoint <- get (Reader.bytes_exact 32) ;;
    expect 11 ;;; signature <- get read_signature ;;
    no_more Decode ;;;
    ret (mkServerHello minor mode alpn selected nonce ex_pk kem_pk ct_to_a cert endpoint (Some signature))).
(** handshake.rs 310-362 [ServerHello::decode] *)
Definition decode_server_hello (b : bytes) : result HandshakeError ServerHello :=
  decode_all b read_server_hello.

(** ** ClientFinish and ServerFinish *)
(** Decoding always fills both options.  handshake.rs 367-371 [ClientFinish] *)
Record ClientFinish : Type := mkClientFinish {
  cf_ct_to_b : bytes;
  cf_signature : option HybridSignature;
  cf_finished_mac : option bytes
}.
(** handshake.rs 374-380 [ClientFinish::encode_bare] *)
Definition encode_bare {E} (ct_to_b : bytes) : result E bytes :=
  let* w := write_map 1 [MapWriter.bytes 0 ct_to_b] Writer.new in
  Ok (Writer.into_bytes w).
(** handshake.rs 382-393 [ClientFinish::encode_full] *)
Definition encode_full {E} (f : ClientFinish) : result E bytes :=
  let* w := write_map 3 [
    MapWriter.bytes 0 (cf_ct_to_b f);
    MapWriter.nested 1 (expect_signature (cf_signature f));
    match cf_finished_mac f with Some mac => MapWriter.bytes 2 mac | None => fun _ => Panic end] Writer.new in
  Ok (Writer.into_bytes w).
(** handshake.rs 396-406 [ClientFinish::decode] *)
Definition read_client_finish : M Reader.t HandshakeError ClientFinish :=
  in_map (
    expect 0 ;;; ct <- get (Reader.bytes_exact MLKEM768_CIPHERTEXT_LEN) ;;
    expect 1 ;;; signature <- get read_signature ;;
    expect 2 ;;; mac <- get (Reader.bytes_exact 48) ;;
    no_more Decode ;;;
    ret (mkClientFinish ct (Some signature) (Some mac))).
(** handshake.rs 395-413 [ClientFinish::decode] *)
Definition decode_client_finish (b : bytes) : result HandshakeError ClientFinish :=
  decode_all b read_client_finish.

(** handshake.rs 417-423 [encode_server_finish] *)
Definition encode_server_finish {E} (mac : bytes) : result E bytes :=
  let* w := write_map 1 [MapWriter.bytes 0 mac] Writer.new in
  Ok (Writer.into_bytes w).
Definition read_server_finish : M Reader.t HandshakeError bytes :=
  in_map (expect 0 ;;; mac <- get (Reader.bytes_exact 48) ;; no_more Decode ;;; ret mac).
(** handshake.rs 425-435 [decode_server_finish] *)
Definition decode_server_finish (b : bytes) : result HandshakeError bytes :=
  decode_all b read_server_finish.

(** ** Resumption messages *)
(** handshake.rs 909-917 [ResumptionHello] *)
Record ResumptionHello : Type := mkResumptionHello {
  rh_protocol_minor : Z;
  rh_alpn : bytes;
  rh_suite_id : Z;
  rh_resumption_id : bytes;
  rh_nonce : bytes;
  rh_timestamp : Z;
  rh_endpoint_id : bytes
}.
Definition write_resumption_hello {E} (h : ResumptionHello) : Writer.t -> result E Writer.t :=
  write_map 9 [
    MapWriter.uint 0 PROTOCOL_MAJOR;
    MapWriter.uint 1 (rh_protocol_minor h);
    MapWriter.uint 2 MODE_RESUMPTION;
    MapWriter.bytes 3 (rh_alpn h);
    MapWriter.uint 4 (rh_suite_id h);
    MapWriter.bytes 5 (rh_resumption_id h);
    MapWriter.bytes 6 (rh_nonce h);
    MapWriter.uint 7 (rh_timestamp h);
    MapWriter.bytes 8 (rh_endpoint_id h)].
(** handshake.rs 932-946 [ResumptionHello::encode] *)
Definition encode_resumption_hello {E} (h : ResumptionHello) : result E bytes :=
  let* w := write_resumption_hello h Writer.new in
  Ok (Writer.into_bytes w).
Definition read_resumption_hello : M Reader.t HandshakeError ResumptionHello :=
  in_map (
    expect 0 ;;; major <- get Reader.uint ;;
    guard (major =? PROTOCOL_MAJOR) UnsupportedVersion ;;;
    expect 1 ;;; minor <- get Reader.uint ;;
    expect 2 ;;; mode <- get Reader.uint ;;
    guard (mode =? MODE_RESUMPTION) PolicyViolation ;;;
    expect 3 ;;; alpn <- get Reader.bytes ;;
    guard (bytes_eqb alpn ALPN) PolicyViolation ;;;
    expect 4 ;;; suite <- get Reader.uint ;;
    guard (suite =? SUITE_ID) UnsupportedSuite ;;;
    expect 5 ;;; id <- get (Reader.bytes_exact 16) ;;
    expect 6 ;;; nonce <- get (Reader.bytes_exact 32) ;;
    expect 7 ;;; timestamp <- get Reader.uint ;;
    expect 8 ;;; endpoint <- get (Reader.bytes_exact 32) ;;
    no_more Decode ;;;
    ret (mkResumptionHello minor alpn suite id nonce timestamp endpoint)).
(** handshake.rs 948-992 [ResumptionHello::decode] *)
Definition decode_resumption_hello (b : bytes) : result HandshakeError ResumptionHello :=
  decode_all b read_resumption_hello.

(** handshake.rs 996-1000 [ResumptionAccept] *)
Record ResumptionAccept : Type := mkResumptionAccept { ra_nonce : bytes; ra_endpoint_id : bytes; ra_timestamp : Z }.
(** handshake.rs 1011-1019 [ResumptionAccept::encode] *)
Definition encode_resumption_accept {E} (a : ResumptionAccept) : result E bytes :=
  let* w := write_map 3 [
    MapWriter.bytes 0 (ra_nonce a); MapWriter.bytes 1 (ra_endpoint_id a); MapWriter.uint 2 (ra_timestamp a)] Writer.new in
  Ok (Writer.into_bytes w).
Definition read_resumption_accept : M Reader.t HandshakeError ResumptionAccept :=
  in_map (
    expect 0 ;;; nonce <- get (Reader.bytes_exact 32) ;;
    expect 1 ;;; endpoint <- get (Reader.bytes_exact 32) ;;
    expect 2 ;;; timestamp <- get Reader.uint ;;
    no_more Decode ;;;
    ret (mkResumptionAccept nonce endpoint timestamp)).
(** handshake.rs 1021-1039 [ResumptionAccept::decode] *)
Definition decode_resumption_accept (b : bytes) : result HandshakeError ResumptionAccept :=
  decode_all b read_resumption_accept.

(** ** Wire forms *)
Definition policy_value (p : bool * Z) : value := VMap [(0, VBool p.1); (1, VUint p.2)].
Definition client_hello_value (h : ClientHello) : value :=
  VMap [(0, VUint PROTOCOL_MAJOR); (1, VUint (ch_protocol_minor h)); (2, VUint (ch_handshake_mode h));
        (3, VBytes (ch_alpn h)); (4, VArray (map VUint (ch_suites h))); (5, VBytes (ch_nonce h));
        (6, VBytes (ch_ex_pk h)); (7, VBytes (ch_kem_pk h));
        (8, policy_value (ch_pqc_required h, ch_minimum_security_level h));
        (9, device_value (ch_cert h)); (10, VBytes (ch_endpoint_id h)); (11, VUint (ch_timestamp h))].
Definition client_hello_wf (h : ClientHello) : Prop :=
  u64 (ch_protocol_minor h) /\ u64 (ch_handshake_mode h) /\ byte_string (ch_alpn h) /\ len (ch_alpn h) <= 64 /\
  (1 <= len (ch_suites h) <= 32 /\ Forall u16 (ch_suites h)) /\ array 32 (ch_nonce h) /\ array 32 (ch_ex_pk h) /\
  array MLKEM768_PUBLIC_KEY_LEN (ch_kem_pk h) /\ u64 (ch_minimum_security_level h) /\ device_wf (ch_cert h) /\
  array 32 (ch_endpoint_id h) /\ u64 (ch_timestamp h).

Definition server_hello_entries (h : ServerHello) : list (Z * value) :=
  [(0, VUint PROTOCOL_MAJOR); (1, VUint (sh_selected_minor h)); (2, VUint (sh_handshake_mode h));
   (3, VBytes (sh_alpn h)); (4, VUint (sh_selected_suite h)); (5, VBytes (sh_nonce h)); (6, VBytes (sh_ex_pk h));
   (7, VBytes (sh_kem_pk h)); (8, VBytes (sh_ct_to_a h)); (9, device_value (sh_cert h));
   (10, VBytes (sh_endpoint_id h))].
Definition server_hello_value (h : ServerHello) : value :=
  VMap (server_hello_entries h ++ match sh_signature h with Some s => [(11, signature_value s)] | None => [] end).
Definition server_hello_unsigned (h : ServerHello) : value := VMap (server_hello_entries h).
Definition server_hello_wf (h : ServerHello) : Prop :=
  u64 (sh_selected_minor h) /\ u64 (sh_handshake_mode h) /\ byte_string (sh_alpn h) /\ len (sh_alpn h) <= 64 /\
  u16 (sh_selected_suite h) /\ array 32 (sh_nonce h) /\ array 32 (sh_ex_pk h) /\
  array MLKEM768_PUBLIC_KEY_LEN (sh_kem_pk h) /\ array MLKEM768_CIPHERTEXT_LEN (sh_ct_to_a h) /\
  device_wf (sh_cert h) /\ array 32 (sh_endpoint_id h).
Definition signed_wf (h : ServerHello) : Prop :=
  server_hello_wf h /\ match sh_signature h with Some s => signature_wf s | None => False end.

Definition bare_value (ct : bytes) : value := VMap [(0, VBytes ct)].
Definition client_finish_value (f : ClientFinish) : value :=
  match cf_signature f, cf_finished_mac f with
  | Some s, Some mac => VMap [(0, VBytes (cf_ct_to_b f)); (1, signature_value s); (2, VBytes mac)]
  | _, _ => bare_value (cf_ct_to_b f)
  end.
Definition client_finish_wf (f : ClientFinish) : Prop :=
  array MLKEM768_CIPHERTEXT_LEN (cf_ct_to_b f) /\
  match cf_signature f, cf_finished_mac f with Some s, Some mac => signature_wf s /\ array 48 mac | _, _ => False end.

Definition resumption_hello_value (h : ResumptionHello) : value :=
  VMap [(0, VUint PROTOCOL_MAJOR); (1, VUint (rh_protocol_minor h)); (2, VUint MODE_RESUMPTION);
        (3, VBytes (rh_alpn h)); (4, VUint (rh_suite_id h)); (5, VBytes (rh_resumption_id h));
        (6, VBytes (rh_nonce h)); (7, VUint (rh_timestamp h)); (8, VBytes (rh_endpoint_id h))].
Definition resumption_hello_wf (h : ResumptionHello) : Prop :=
  u64 (rh_protocol_minor h) /\ rh_alpn h = ALPN /\ rh_suite_id h = SUITE_ID /\ array 16 (rh_resumption_id h) /\
  array 32 (rh_nonce h) /\ u64 (rh_timestamp h) /\ array 32 (rh_endpoint_id h).
Definition resumption_accept_value (a : ResumptionAccept) : value :=
  VMap [(0, VBytes (ra_nonce a)); (1, VBytes (ra_endpoint_id a)); (2, VUint (ra_timestamp a))].
Definition resumption_accept_wf (a : ResumptionAccept) : Prop :=
  array 32 (ra_nonce a) /\ array 32 (ra_endpoint_id a) /\ u64 (ra_timestamp a).

#[export] Instance suite_codec : codec 0 read_suite VUint u16.
Proof.
  split.
  - intros pre tl d s Hs Hd Hd'. unfold read_suite.
    assert (Hu : u64 s) by (unfold uint_range in *; lia).
    eapply bind_ok; [apply q_fwd, (codec_fwd codec_uint); [done|lia|lia]|].
    eapply bind_ok; [apply guard_ok; unfold uint_range, U16_MAX in *; lia|done].
  - intros pre rest d s r Hok Hd H. unfold read_suite in H. minv H.
    apply q_bwd, (codec_bwd codec_uint) in Hp as (tl & -> & -> & Hok1 & Hu); [|done|lia].
    minv Hk. minv Hp. minv Hk0. exists tl. split_and!; try done.
    unfold uint_range, U16_MAX in *. lia.
Qed.
#[export] Instance policy_codec : codec 1 read_policy policy_value (fun p => u64 p.2).
Proof.
  split.
  - intros pre tl d [a b] H Hd Hd'. unfold read_policy, policy_value; cbn [fst snd] in *. wforward.
  - intros pre rest d [a b] r Hok Hd H. unfold read_policy in H. wbackward H. unfold policy_value; cbn [fst snd]. wfinish. done.
Qed.

#[export] Instance client_hello_codec : codec 2 read_client_hello client_hello_value client_hello_wf.
Proof.
  split.
  - intros pre tl d [minor mode alpn suites nonce ex kem req lvl cert ep ts]
      (H1 & H2 & H3 & H4 & [H5 H6] & H7 & H8 & H9 & H10 & H11 & H12 & H13) Hd Hd'.
    unfold read_client_hello, client_hello_value; cbn [ch_protocol_minor ch_handshake_mode ch_alpn ch_suites
      ch_nonce ch_ex_pk ch_kem_pk ch_pqc_required ch_minimum_security_level ch_cert ch_endpoint_id ch_timestamp] in *.
    assert (Hu : u64 (len (map VUint suites))) by (rewrite len_map; split; lia).
    assert (Ha : negb (64 <? len alpn) = true) by lia.
    assert (Hn : negb ((len (map VUint suites) =? 0) || (32 <? len (map VUint suites))) = true) by (rewrite len_map; lia).
    wforward.
  - intros pre rest d x r Hok Hd H. unfold read_client_hello in H. wbackward H. unfold client_hello_value;
      cbn [ch_protocol_minor ch_handshake_mode ch_alpn ch_suites
      ch_nonce ch_ex_pk ch_kem_pk ch_pqc_required ch_minimum_security_level ch_cert ch_endpoint_id ch_timestamp].
    
    repeat match goal with p : (bool * Z)%type |- _ => destruct p end. cbn [fst snd] in *.
    apply Z.eqb_eq in Hg. subst. wfinish. unfold client_hello_wf; cbn.
    match goal with |- context [1 <= len ?l] => pose proof (len_nonneg l) end. split_and!; try done; lia.
Qed.

Lemma with_signature_value h s : sh_signature h = Some s ->
  server_hello_value h = VMap (server_hello_entries h ++ [(11, signature_value s)]).
Proof. unfold server_hello_value. by intros ->. Qed.

#[export] Instance server_hello_codec : codec 2 read_server_hello server_hello_value signed_wf.
Proof.
  split.
  - intros pre tl d [minor mode alpn suite nonce ex kem ct cert ep [s|]]
      [(H1 & H2 & H3 & H4 & H5 & H6 & H7 & H8 & H9 & H10 & H11) Hs] Hd Hd'; [|done].
    unfold read_server_hello, server_hello_value, server_hello_entries; cbn [sh_selected_minor sh_handshake_mode
      sh_alpn sh_selected_suite sh_nonce sh_ex_pk sh_kem_pk sh_ct_to_a sh_cert sh_endpoint_id sh_signature app] in *.
    assert (Hu : u64 suite) by (unfold uint_range in *; lia).
    assert (Ha : negb (64 <? len alpn) = true) by lia.
    assert (Hn : negb (U16_MAX <? suite) = true) by (unfold uint_range, U16_MAX in *; lia).
    wforward.
  - intros pre rest d x r Hok Hd H. unfold read_server_hello in H. wbackward H.
    unfold server_hello_value, server_hello_entries; cbn [sh_selected_minor sh_handshake_mode
      sh_alpn sh_selected_suite sh_nonce sh_ex_pk sh_kem_pk sh_ct_to_a sh_cert sh_endpoint_id sh_signature app].
    apply Z.eqb_eq in Hg. subst. wfinish. unfold signed_wf, server_hello_wf; cbn.
    unfold uint_range, U16_MAX in *. split_and!; try done; lia.
Qed.
#[export] Instance client_finish_codec : codec 2 read_client_finish client_finish_value client_finish_wf.
Proof.
  split.
  - intros pre tl d [ct [s|] [mac|]] [H1 H2] Hd Hd'; try done. destruct H2 as [H2 H3].
    unfold read_client_finish, client_finish_value; cbn [cf_ct_to_b cf_signature cf_finished_mac] in *. wforward.
  - intros pre rest d x r Hok Hd H. unfold read_client_finish in H. wbackward H.
    unfold client_finish_value; cbn [cf_ct_to_b cf_signature cf_finished_mac]. wfinish. split_and!; done.
Qed.
#[export] Instance server_finish_codec : codec 1 read_server_finish bare_value (array 48).
Proof.
  split.
  - intros pre tl d mac H Hd Hd'. unfold read_server_finish, bare_value. wforward.
  - intros pre rest d x r Hok Hd H. unfold read_server_finish in H. wbackward H. unfold bare_value. wfinish. done.
Qed.
#[export] Instance resumption_hello_codec : codec 1 read_resumption_hello resumption_hello_value resumption_hello_wf.
Proof.
  split.
  - intros pre tl d [minor alpn suite id nonce ts ep] (H1 & Ha & Hs & H4 & H5 & H6 & H7) Hd Hd'.
    cbn in Ha, Hs. subst alpn suite. unfold read_resumption_hello, resumption_hello_value; cbn [rh_protocol_minor rh_alpn rh_suite_id
      rh_resumption_id rh_nonce rh_timestamp rh_endpoint_id] in *.
    assert (byte_string ALPN) by (split; [by apply bytes_ok_check|by split]).
    wforward.
  - intros pre rest d x r Hok Hd H. unfold read_resumption_hello in H. wbackward H.
    unfold resumption_hello_value; cbn [rh_protocol_minor rh_alpn rh_suite_id
      rh_resumption_id rh_nonce rh_timestamp rh_endpoint_id].
    repeat match goal with G : (_ =? _) = true |- _ => apply Z.eqb_eq in G end.
    match goal with G : bytes_eqb _ _ = true |- _ => apply bytes_eqb_true in G end.
    subst. wfinish. split_and!; done.
Qed.
#[export] Instance resumption_accept_codec : codec 1 read_resumption_accept resumption_accept_value resumption_accept_wf.
Proof.
  split.
  - intros pre tl d [nonce ep ts] (H1 & H2 & H3) Hd Hd'. unfold read_resumption_accept, resumption_accept_value;
      cbn [ra_nonce ra_endpoint_id ra_timestamp] in *. wforward.
  - intros pre rest d x r Hok Hd H. unfold read_resumption_accept in H. wbackward H.
    unfold resumption_accept_value; cbn [ra_nonce ra_endpoint_id ra_timestamp]. wfinish. split_and!; done.
Qed.

(** ** Encoders *)
Lemma uints_emit {E} l : emits (E := E)
  (fun w => write_each (fun s w => Ok (Writer.uint s w)) l (Writer.array (len l) w)) (VArray (map VUint l)).
Proof. apply array_emits. intros x _ w. by rewrite writer_uint. Qed.
#[export] Hint Resolve uints_emit : wire.

Lemma encode_client_hello_eq {E} h : encode_client_hello (E := E) h = Ok (cbor (client_hello_value h)).
Proof.
  unfold encode_client_hello.
  assert (Hp : emits (E := E) (write_map 2 [
      MapWriter.boolean 0 (ch_pqc_required h); MapWriter.uint 1 (ch_minimum_security_level h)])
    (policy_value (ch_pqc_required h, ch_minimum_security_level h))) by (unfold policy_value; cbn [fst snd]; wemit).
  assert (Hem : emits (E := E) (write_client_hello h) (client_hello_value h))
    by (unfold write_client_hello, client_hello_value; wemit).
  by rewrite Hem.
Qed.
Lemma encode_server_hello_bare {E} h : encode_server_hello (E := E) h false = Ok (cbor (server_hello_unsigned h)).
Proof.
  unfold encode_server_hello. assert (Hem : emits (E := E) (write_server_hello h false) (server_hello_unsigned h))
    by (unfold write_server_hello, server_hello_unsigned, server_hello_entries; cbn [app]; wemit).
  by rewrite Hem.
Qed.
Lemma encode_server_hello_signed {E} h s : sh_signature h = Some s ->
  encode_server_hello (E := E) h true = Ok (cbor (server_hello_value h)).
Proof.
  intros Hs. unfold encode_server_hello. assert (Hem : emits (E := E) (write_server_hello h true) (server_hello_value h)).
  { unfold write_server_hello, server_hello_value, server_hello_entries. rewrite Hs. cbn [app expect_signature]. wemit. }
  by rewrite Hem.
Qed.
Lemma encode_bare_eq {E} ct : encode_bare (E := E) ct = Ok (cbor (bare_value ct)).
Proof.
  unfold encode_bare. assert (Hem : emits (E := E) (write_map 1 [MapWriter.bytes 0 ct]) (bare_value ct))
    by (unfold bare_value; wemit). by rewrite Hem.
Qed.
Lemma encode_server_finish_eq {E} mac : encode_server_finish (E := E) mac = Ok (cbor (bare_value mac)).
Proof. apply encode_bare_eq. Qed.
Lemma encode_full_eq {E} f s mac : cf_signature f = Some s -> cf_finished_mac f = Some mac ->
  encode_full (E := E) f = Ok (cbor (client_finish_value f)).
Proof.
  intros Hs Hm. unfold encode_full, client_finish_value. rewrite Hs, Hm. cbn [expect_signature].
  assert (Hem : emits (E := E) (write_map 3 [MapWriter.bytes 0 (cf_ct_to_b f);
    MapWriter.nested 1 (write_signature s); MapWriter.bytes 2 mac])
    (VMap [(0, VBytes (cf_ct_to_b f)); (1, signature_value s); (2, VBytes mac)])) by wemit.
  by rewrite Hem.
Qed.
Lemma encode_resumption_hello_eq {E} h : encode_resumption_hello (E := E) h = Ok (cbor (resumption_hello_value h)).
Proof.
  unfold encode_resumption_hello. assert (Hem : emits (E := E) (write_resumption_hello h) (resumption_hello_value h))
    by (unfold write_resumption_hello, resumption_hello_value; wemit). by rewrite Hem.
Qed.
Lemma encode_resumption_accept_eq {E} a : encode_resumption_accept (E := E) a = Ok (cbor (resumption_accept_value a)).
Proof.
  unfold encode_resumption_accept. assert (Hem : emits (E := E) (write_map 3 [
    MapWriter.bytes 0 (ra_nonce a); MapWriter.bytes 1 (ra_endpoint_id a); MapWriter.uint 2 (ra_timestamp a)])
    (resumption_accept_value a)) by (unfold resumption_accept_value; wemit). by rewrite Hem.
Qed.

(** ** Well-formed values and sizes *)
Lemma client_hello_value_ok h : client_hello_wf h -> value_ok (client_hello_value h).
Proof.
  intros (H1 & H2 & H3 & H4 & [H5 H6] & H7 & H8 & H9 & H10 & H11 & H12 & H13).
  apply device_value_ok in H11. unfold client_hello_value, policy_value. cbn [fst snd].
  assert (value_ok (VArray (map VUint (ch_suites h)))).
  { apply ok_array; [rewrite len_map; split; lia|]. apply Forall_fmap. eapply Forall_impl; [exact H6|].
    intros x Hx. apply ok_uint. unfold uint_range in *. lia. }
  vok.
Qed.
Lemma server_hello_unsigned_ok h : server_hello_wf h -> value_ok (server_hello_unsigned h).
Proof.
  intros (H1 & H2 & H3 & H4 & H5 & H6 & H7 & H8 & H9 & H10 & H11). apply device_value_ok in H10.
  assert (u64 (sh_selected_suite h)) by (unfold uint_range in *; lia).
  unfold server_hello_unsigned, server_hello_entries. vok.
Qed.
Lemma server_hello_value_ok h : signed_wf h -> value_ok (server_hello_value h).
Proof.
  intros [(H1 & H2 & H3 & H4 & H5 & H6 & H7 & H8 & H9 & H10 & H11) Hs]. unfold server_hello_value.
  destruct (sh_signature h) as [s|]; [|done]. apply device_value_ok in H10. apply signature_value_ok in Hs.
  assert (u64 (sh_selected_suite h)) by (unfold uint_range in *; lia).
  unfold server_hello_entries. cbn [app]. vok.
Qed.
Lemma bare_value_ok ct : byte_string ct -> value_ok (bare_value ct).
Proof. intros H. unfold bare_value. vok. Qed.
Lemma client_finish_value_ok f : client_finish_wf f -> value_ok (client_finish_value f).
Proof.
  intros [H1 H2]. unfold client_finish_value. destruct (cf_signature f), (cf_finished_mac f); try done.
  destruct H2 as [Hs Hm]. apply signature_value_ok in Hs. vok.
Qed.

Lemma device_size d : device_wf d -> len (cbor (device_value d)) <= 2200.
Proof.
  intros ([H1 _] & [H2 _] & [H3 _]). unfold MLDSA65_VERIFICATION_KEY_LEN in H3. unfold device_value.
  rewrite !cbor_map. unfold entries. wsize.
Qed.
Lemma items_uint_size l : len (items (map VUint l)) <= 9 * len l.
Proof.
  induction l as [|x l IH]; [done|]. cbn [map]. rewrite items_cons, len_app, len_cons. pose proof (cbor_uint_len x). lia.
Qed.
Lemma client_hello_size h : client_hello_wf h -> len (cbor (client_hello_value h)) <= MAX_CONTROL_SIZE.
Proof.
  intros (_ & _ & _ & H4 & [H5 _] & [H7 _] & [H8 _] & [H9 _] & _ & H11 & [H12 _] & _).
  pose proof (items_uint_size (ch_suites h)). pose proof (device_size _ H11). unfold MLKEM768_PUBLIC_KEY_LEN in H9.
  unfold client_hello_value, policy_value. cbn [fst snd]. rewrite !cbor_map. unfold entries. rewrite !cbor_map, cbor_array.
  unfold entries. wsize.
Qed.
Lemma server_hello_size h : signed_wf h -> len (cbor (server_hello_value h)) <= MAX_CONTROL_SIZE.
Proof.
  intros [(_ & _ & _ & H4 & _ & [H6 _] & [H7 _] & [H8 _] & [H9 _] & H10 & [H11 _]) Hs].
  pose proof (device_size _ H10). unfold MLKEM768_PUBLIC_KEY_LEN, MLKEM768_CIPHERTEXT_LEN in *.
  unfold server_hello_value, server_hello_entries. destruct (sh_signature h) as [s|]; [|done].
  destruct Hs as [[S1 _] [S2 _]]. unfold MLDSA65_SIGNATURE_LEN in S2. unfold signature_value. cbn [app].
  rewrite cbor_map. unfold entries. rewrite cbor_map. unfold entries. wsize.
Qed.
Lemma client_finish_size f : client_finish_wf f -> len (cbor (client_finish_value f)) <= MAX_CONTROL_SIZE.
Proof.
  intros [[H1 _] H2]. unfold client_finish_value. destruct (cf_signature f) as [s|], (cf_finished_mac f) as [m|]; try done.
  destruct H2 as [[[S1 _] [S2 _]] [M1 _]]. unfold MLDSA65_SIGNATURE_LEN, MLKEM768_CIPHERTEXT_LEN in *.
  unfold signature_value. rewrite cbor_map. unfold entries. rewrite cbor_map. unfold entries. wsize.
Qed.
Lemma bare_size x n : array n x -> n <= 65536 -> len (cbor (bare_value x)) <= MAX_CONTROL_SIZE.
Proof. intros [H _] Hn. unfold bare_value. wsize. Qed.
Lemma resumption_hello_size h : resumption_hello_wf h -> len (cbor (resumption_hello_value h)) <= MAX_CONTROL_SIZE.
Proof.
  intros (_ & Ha & _ & [H4 _] & [H5 _] & _ & [H7 _]). assert (len (rh_alpn h) = 16) by (by rewrite Ha).
  unfold resumption_hello_value. wsize.
Qed.
Lemma resumption_accept_size a : resumption_accept_wf a -> len (cbor (resumption_accept_value a)) <= MAX_CONTROL_SIZE.
Proof. intros ([H1 _] & [H2 _] & _). unfold resumption_accept_value. wsize. Qed.

(** ** Round trips *)
Lemma client_hello_decodes h : client_hello_wf h -> decode_client_hello (cbor (client_hello_value h)) = Ok h.
Proof. intros Hh. unfold decode_client_hello. by rewrite decode_message by (done || by apply client_hello_size). Qed.
Lemma server_hello_decodes h : signed_wf h -> decode_server_hello (cbor (server_hello_value h)) = Ok h.
Proof. intros Hh. unfold decode_server_hello. by rewrite decode_message by (done || by apply server_hello_size). Qed.
Lemma client_finish_decodes f : client_finish_wf f -> decode_client_finish (cbor (client_finish_value f)) = Ok f.
Proof. intros Hf. unfold decode_client_finish. by rewrite decode_message by (done || by apply client_finish_size). Qed.
Lemma server_finish_decodes mac : array 48 mac -> decode_server_finish (cbor (bare_value mac)) = Ok mac.
Proof. intros Hm. unfold decode_server_finish. by rewrite decode_message by (done || by apply (bare_size _ 48)). Qed.

Lemma client_hello_canonical b h : bytes_ok b -> decode_client_hello b = Ok h ->
  b = cbor (client_hello_value h) /\ client_hello_wf h.
Proof. apply decode_message_inv. Qed.
Lemma server_hello_canonical b h : bytes_ok b -> decode_server_hello b = Ok h ->
  b = cbor (server_hello_value h) /\ signed_wf h.
Proof. apply decode_message_inv. Qed.
Lemma client_finish_canonical b f : bytes_ok b -> decode_client_finish b = Ok f ->
  b = cbor (client_finish_value f) /\ client_finish_wf f.
Proof. apply decode_message_inv. Qed.

(** The handshake messages survive the wire: every well-formed ClientHello,
    signed ServerHello, ClientFinish and resumption message encodes without
    panicking and decodes to itself, and what a decoder accepts is the one
    canonical encoding of the message it returns. *)
Theorem hello_roundtrip ch sh s cf s2 mac rh b ch' sh' :
  client_hello_wf ch -> signed_wf sh -> sh_signature sh = Some s ->
  client_finish_wf cf -> cf_signature cf = Some s2 -> cf_finished_mac cf = Some mac -> resumption_hello_wf rh -> bytes_ok b ->
  (exists e, encode_client_hello (E := HandshakeError) ch = Ok e /\ decode_client_hello e = Ok ch) /\
  (exists e, encode_server_hello (E := HandshakeError) sh true = Ok e /\ decode_server_hello e = Ok sh) /\
  (exists e, encode_full (E := HandshakeError) cf = Ok e /\ decode_client_finish e = Ok cf) /\
  (exists e, encode_resumption_hello (E := HandshakeError) rh = Ok e /\ decode_resumption_hello e = Ok rh) /\
  (decode_client_hello b = Ok ch' -> encode_client_hello (E := HandshakeError) ch' = Ok b) /\
  (decode_server_hello b = Ok sh' -> encode_server_hello (E := HandshakeError) sh' true = Ok b).
Proof.
  intros H1 H2 Hs H3 Hs' Hm H4 Hb. split_and!.
  - eexists. by rewrite encode_client_hello_eq, client_hello_decodes.
  - eexists. by rewrite (encode_server_hello_signed _ s), server_hello_decodes.
  - eexists. by rewrite (encode_full_eq _ s2 mac), client_finish_decodes.
  - eexists. split; [apply encode_resumption_hello_eq|]. unfold decode_resumption_hello.
    by rewrite decode_message by (done || by apply resumption_hello_size).
  - intros Hd. apply client_hello_canonical in Hd as [-> _]; [|done]. apply encode_client_hello_eq.
  - intros Hd. apply server_hello_canonical in Hd as [-> [_ Hw]]; [|done].
    destruct (sh_signature sh') as [s'|] eqn:E; [|done]. by apply (encode_server_hello_signed _ s').
Qed.
