(* ===== verification/Handshake.v ===== *)
(** * The Standalone Mode handshake (handshake.rs)

    The replay cache, the key schedule, the two state machines and session
    resumption.  Random draws ([os_random_array], [OsRng]) and the clock are
    arguments of the step that reads them.  A step returns the machine
    afterwards with its outcome: an error leaves it failed. *)

From stdpp Require Import gmap.
From S2P Require Import Prelude Cbor Wire Crypto Identity HandshakeMsg.
#[local] Open Scope Z_scope.

(** handshake.rs 26-26 [TH1_DOMAIN] *)
Definition TH1_DOMAIN : bytes := lit "RTP2-HS-TH1-v1".
(** handshake.rs 27-27 [TH2_DOMAIN] *)
Definition TH2_DOMAIN : bytes := lit "RTP2-HS-TH2-v1".
(** handshake.rs 28-28 [SALT_DOMAIN] *)
Definition SALT_DOMAIN : bytes := lit "RTP2-HYBRID-SALT-v1".
(** handshake.rs 31-31 [TIMESTAMP_WINDOW_SECS] *)
Definition TIMESTAMP_WINDOW_SECS : Z := 300.
(** handshake.rs 33-33 [REPLAY_CACHE_CAP] *)
Definition REPLAY_CACHE_CAP : Z := 4096.

(** handshake.rs 68-71 [Role] *)
Inductive Role : Type := RoleInitiator | RoleResponder.
(** handshake.rs 74-86 [SessionKeys] *)
Record SessionKeys : Type := mkSession {
  role : Role;
  s_handshake_prk : bytes;
  s_th2 : bytes;
  s_control_key_c2s : bytes;
  s_control_key_s2c : bytes;
  s_transfer_wrap_key : bytes;
  s_session_resumption_secret : bytes;
  peer : DevicePublic;
  peer_endpoint_id : bytes
}.

(** ** Replay cache *)
(** handshake.rs 94-97 [ReplayCache] *)
Record ReplayCache : Type := mkCache { seen : gset bytes; order : list bytes }.
(** [ReplayCache::default()] *)
Definition empty_cache : ReplayCache := mkCache ∅ [].
(** handshake.rs 100-115 [ReplayCache::check_and_insert] *)
Definition check_and_insert (device_id nonce : bytes) (c : ReplayCache) : bool * ReplayCache :=
  let key := device_id ++ nonce in
  if bool_decide (key ∈ seen c) then (false, c) else
  let c1 := if REPLAY_CACHE_CAP <=? len (order c)
            then match order c with
                 | old :: rest => mkCache (seen c ∖ {[old]}) rest
                 | [] => c
                 end
            else c in
  (true, mkCache ({[key]} ∪ seen c1) (order c1 ++ [key])).

(** ** Key schedule *)
(** handshake.rs 442-451 [DerivedKeys] *)
Record DerivedKeys : Type := mkDerived {
  handshake_prk : bytes;
  client_finished_key : bytes;
  server_finished_key : bytes;
  control_key_c2s : bytes;
  control_key_s2c : bytes;
  transfer_wrap_key : bytes;
  session_resumption_secret : bytes
}.

Section Schedule.
Context {P : Primitives} {K : PkPrimitives}.

(** [(ss.len() as u16).to_be_bytes()] and the secret. *)
Definition framed (ss : bytes) : bytes := be_bytes 2 (wrap 16 (len ss)) ++ ss.
(** handshake.rs 455-482 [derive_keys] *)
Definition derive_keys (ch sh_wo_sig cf_bare th2 ss_x ss_pq_a ss_pq_b : bytes) : DerivedKeys :=
  let salt := sha384 [SALT_DOMAIN; ch; sh_wo_sig; cf_bare] in
  let ikm := framed ss_x ++ framed ss_pq_a ++ framed ss_pq_b in
  let prk := hkdf_extract salt ikm in
  mkDerived prk
    (hkdf_expand 48 prk [lit "RTP2 client finished v1"; th2])
    (hkdf_expand 48 prk [lit "RTP2 server finished v1"; th2])
    (hkdf_expand 32 prk [lit "RTP2 control c2s v1"; th2])
    (hkdf_expand 32 prk [lit "RTP2 control s2c v1"; th2])
    (hkdf_expand 32 prk [lit "RTP2 transfer wrap v1"; th2])
    (hkdf_expand 48 prk [lit "RTP2 resumption v1"; th2]).
(** handshake.rs 492-499 [x25519_agree] *)
Definition x25519_agree (secret peer_pk : bytes) : result HandshakeError bytes :=
  let shared := x25519 secret peer_pk in
  if bytes_eqb shared (replicate 32 0) then Err InvalidKey else Ok shared.

(** The session both roles build from the derived keys. *)
Definition session (r : Role) (k : DerivedKeys) (th2 : bytes) (p : DevicePublic) (endpoint : bytes) : SessionKeys :=
  mkSession r (handshake_prk k) th2 (control_key_c2s k) (control_key_s2c k) (transfer_wrap_key k)
    (session_resumption_secret k) p endpoint.
Definition finished_mac_b (k : DerivedKeys) (th2 mac_a : bytes) : bytes :=
  hmac_sha384 (server_finished_key k) (sha384 [th2; mac_a]).

(** ** Initiator *)
(** handshake.rs 511-527 [InitiatorState] *)
Inductive InitiatorState : Type :=
| AwaitServerHello (ex_secret : bytes) (kem : MlKemKeyPair) (ch_bytes expected_peer_endpoint : bytes)
| AwaitServerFinish (keys : DerivedKeys) (th2 finished_mac_a : bytes) (p : DevicePublic) (endpoint : bytes)
| InitiatorDone
| InitiatorFailed.
(** handshake.rs 505-508 [Initiator] *)
Record Initiator : Type := mkInitiator { i_identity : DeviceIdentity; i_state : InitiatorState }.

(** The draws of [start] and the clock it reads. *)
Record StartDraws : Type := mkStartDraws {
  sd_ex_secret : bytes; sd_kem_seed : bytes; sd_nonce : bytes; sd_now : Z }.

(** handshake.rs 540-553 [Initiator::start] *)
Definition client_hello (identity : DeviceIdentity) (local_endpoint_id : bytes) (d : StartDraws) : ClientHello :=
  mkClientHello PROTOCOL_MINOR MODE_STANDALONE ALPN [SUITE_ID] (sd_nonce d) (x25519_public (sd_ex_secret d))
    (kem_public (kem_generate (sd_kem_seed d))) true 1 (public identity) local_endpoint_id (sd_now d).
(** handshake.rs 532-567 [Initiator::start] *)
Definition start (identity : DeviceIdentity) (local_endpoint_id expected_peer_endpoint : bytes) (d : StartDraws)
  : result HandshakeError (Initiator * bytes) :=
  let* ch_bytes := encode_client_hello (client_hello identity local_endpoint_id d) in
  Ok (mkInitiator identity (AwaitServerHello (sd_ex_secret d) (kem_generate (sd_kem_seed d)) ch_bytes
                              expected_peer_endpoint), ch_bytes).

(** The checks of the ServerHello, in order.
    handshake.rs 583-600 [Initiator::on_server_hello] *)
Definition check_server_hello (sh : ServerHello) (expected_peer_endpoint : bytes) : result HandshakeError unit :=
  if negb (sh_selected_minor sh =? PROTOCOL_MINOR) then Err UnsupportedVersion else
  if negb (sh_handshake_mode sh =? MODE_STANDALONE) || negb (bytes_eqb (sh_alpn sh) ALPN) then Err PolicyViolation else
  if negb (sh_selected_suite sh =? SUITE_ID) then Err UnsupportedSuite else
  if negb (bytes_eqb (sh_endpoint_id sh) expected_peer_endpoint) then Err EndpointMismatch else
  Ok tt.
(** [encapsulated] is the draw of the encapsulation, [signed] that of the
    signature.  handshake.rs 582-648 [Initiator::on_server_hello] *)
Definition answer_server_hello (identity : DeviceIdentity) (ex_secret : bytes) (kem : MlKemKeyPair)
    (ch_bytes expected_peer_endpoint encapsulated signed sh_bytes : bytes)
  : result HandshakeError (bytes * InitiatorState) :=
  let* sh := decode_server_hello sh_bytes in
  let* _ := check_server_hello sh expected_peer_endpoint in
  let* sh_wo_sig := encode_server_hello sh false in
  let th1 := sha384 [TH1_DOMAIN; ch_bytes; sh_wo_sig] in
  let* signature := (match sh_signature sh with Some s => Ok s | None => Err Decode end) in
  let* _ := map_err (fun _ => InvalidSignature) (hybrid_verify (sh_cert sh) th1 signature) in
  let* ss_x := x25519_agree ex_secret (sh_ex_pk sh) in
  let* ss_pq_a := try (decapsulate kem (sh_ct_to_a sh)) in
  let* '(ct_to_b, ss_pq_b) := try (mlkem_encapsulate (sh_kem_pk sh) encapsulated) in
  if negb (len ct_to_b =? MLKEM768_CIPHERTEXT_LEN) then Err InvalidKey else
  let* sh_full := encode_server_hello sh true in
  let* cf_bare := encode_bare ct_to_b in
  let th2 := sha384 [TH2_DOMAIN; ch_bytes; sh_full; cf_bare] in
  let keys := derive_keys ch_bytes sh_wo_sig cf_bare th2 ss_x ss_pq_a ss_pq_b in
  let* signature := map_err (fun _ => InvalidSignature) (hybrid_sign identity th2 signed) in
  let finished_mac_a := hmac_sha384 (client_finished_key keys) th2 in
  let* cf_bytes := encode_full (mkClientFinish ct_to_b (Some signature) (Some finished_mac_a)) in
  Ok (cf_bytes, AwaitServerFinish keys th2 finished_mac_a (sh_cert sh) (sh_endpoint_id sh)).
(** handshake.rs 570-649 [Initiator::on_server_hello] *)
Definition on_server_hello (encapsulated signed : bytes) (i : Initiator) (sh_bytes : bytes)
  : result HandshakeError bytes * Initiator :=
  let failed := mkInitiator (i_identity i) InitiatorFailed in
  match i_state i with
  | AwaitServerHello ex_secret kem ch_bytes expected =>
    match answer_server_hello (i_identity i) ex_secret kem ch_bytes expected encapsulated signed sh_bytes with
    | Ok (cf, st) => (Ok cf, mkInitiator (i_identity i) st)
    | Err e => (Err e, failed)
    | Panic => (Panic, failed)
    end
  | _ => (Err State, failed)
  end.
(** handshake.rs 652-687 [Initiator::on_server_finish] *)
Definition on_server_finish (i : Initiator) (sf_bytes : bytes) : result HandshakeError SessionKeys * Initiator :=
  let failed := mkInitiator (i_identity i) InitiatorFailed in
  match i_state i with
  | AwaitServerFinish keys th2 finished_mac_a p endpoint =>
    match decode_server_finish sf_bytes with
    | Ok mac_b =>
      if negb (ct_eq mac_b (finished_mac_b keys th2 finished_mac_a)) then (Err InvalidMac, failed) else
      (Ok (session RoleInitiator keys th2 p endpoint), mkInitiator (i_identity i) InitiatorDone)
    | Err e => (Err e, failed)
    | Panic => (Panic, failed)
    end
  | _ => (Err State, failed)
  end.

(** ** Responder *)
(** handshake.rs 701-716 [ResponderState] *)
Inductive ResponderState : Type :=
| AwaitClientHello
| AwaitClientFinish (ex_secret : bytes) (kem : MlKemKeyPair) (ss_pq_a ch_bytes sh_wo_sig sh_full client_ex_pk : bytes)
    (client_cert : DevicePublic) (client_endpoint_id : bytes)
| ResponderDone
| ResponderFailed.
(** handshake.rs 694-698 [Responder] *)
Record Responder : Type := mkResponder {
  r_identity : DeviceIdentity; r_local_endpoint_id : bytes; r_state : ResponderState }.
(** handshake.rs 719-725 [Responder::new] *)
Definition new_responder (identity : DeviceIdentity) (local_endpoint_id : bytes) : Responder :=
  mkResponder identity local_endpoint_id AwaitClientHello.

(** The draws of [on_client_hello]. *)
Record HelloDraws : Type := mkHelloDraws {
  hd_ex_secret : bytes; hd_kem_seed : bytes; hd_encapsulated : bytes; hd_nonce : bytes; hd_signed : bytes }.

(** The checks of the ClientHello before the replay cache, in order.
    handshake.rs 743-768 [Responder::on_client_hello] *)
Definition check_client_hello (ch : ClientHello) (observed_peer_endpoint : bytes) (now : Z) : result HandshakeError unit :=
  if negb (bytes_eqb (ch_alpn ch) ALPN) then Err PolicyViolation else
  if negb (ch_handshake_mode ch =? MODE_STANDALONE) then Err PolicyViolation else
  if negb (bool_decide (SUITE_ID ∈ ch_suites ch)) then Err UnsupportedSuite else
  if negb (ch_pqc_required ch) || (ch_minimum_security_level ch <? 1) then Err PolicyViolation else
  if negb (bytes_eqb (ch_endpoint_id ch) observed_peer_endpoint) then Err EndpointMismatch else
  if TIMESTAMP_WINDOW_SECS <? Z.abs (ch_timestamp ch - now) then Err Replay else
  Ok tt.
(** Everything after the replay check.
    handshake.rs 773-817 [Responder::on_client_hello] *)
Definition answer_client_hello (identity : DeviceIdentity) (local_endpoint_id : bytes) (d : HelloDraws)
    (ch : ClientHello) (ch_bytes : bytes) : result HandshakeError (bytes * ResponderState) :=
  let ex_pk := x25519_public (hd_ex_secret d) in
  let kem := kem_generate (hd_kem_seed d) in
  let* '(ct_to_a, ss_pq_a) := try (mlkem_encapsulate (ch_kem_pk ch) (hd_encapsulated d)) in
  if negb (len ct_to_a =? MLKEM768_CIPHERTEXT_LEN) then Err InvalidKey else
  let unsigned := mkServerHello (Z.min (ch_protocol_minor ch) PROTOCOL_MINOR) MODE_STANDALONE ALPN SUITE_ID (hd_nonce d)
                    ex_pk (kem_public kem) ct_to_a (public identity) local_endpoint_id None in
  let* sh_wo_sig := encode_server_hello unsigned false in
  let th1 := sha384 [TH1_DOMAIN; ch_bytes; sh_wo_sig] in
  let* signature := map_err (fun _ => InvalidSignature) (hybrid_sign identity th1 (hd_signed d)) in
  let sh := mkServerHello (sh_selected_minor unsigned) MODE_STANDALONE ALPN SUITE_ID (hd_nonce d)
              ex_pk (kem_public kem) ct_to_a (public identity) local_endpoint_id (Some signature) in
  let* sh_full := encode_server_hello sh true in
  Ok (sh_full, AwaitClientFinish (hd_ex_secret d) kem ss_pq_a ch_bytes sh_wo_sig sh_full
                 (ch_ex_pk ch) (ch_cert ch) (ch_endpoint_id ch)).
(** The responder and the shared replay cache afterwards.
    handshake.rs 731-818 [Responder::on_client_hello] *)
Definition on_client_hello (d : HelloDraws) (now : Z) (r : Responder) (ch_bytes observed_peer_endpoint : bytes)
    (replay : ReplayCache) : result HandshakeError bytes * Responder * ReplayCache :=
  let become st := mkResponder (r_identity r) (r_local_endpoint_id r) st in
  match r_state r with
  | AwaitClientHello =>
    match (let* ch := decode_client_hello ch_bytes in
           let* _ := check_client_hello ch observed_peer_endpoint now in Ok ch) with
    | Ok ch =>
      let '(fresh, replay') := check_and_insert (device_id (ch_cert ch)) (ch_nonce ch) replay in
      if negb fresh then (Err Replay, become ResponderFailed, replay') else
      match answer_client_hello (r_identity r) (r_local_endpoint_id r) d ch ch_bytes with
      | Ok (sh, st) => (Ok sh, become st, replay')
      | Err e => (Err e, become ResponderFailed, replay')
      | Panic => (Panic, become ResponderFailed, replay')
      end
    | Err e => (Err e, become ResponderFailed, replay)
    | Panic => (Panic, become ResponderFailed, replay)
    end
  | _ => (Err State, become ResponderFailed, replay)
  end.

(** handshake.rs 841-882 [Responder::on_client_finish] *)
Definition accept_client_finish (ex_secret : bytes) (kem : MlKemKeyPair) (ss_pq_a ch_bytes sh_wo_sig sh_full client_ex_pk : bytes)
    (client_cert : DevicePublic) (client_endpoint_id cf_bytes : bytes) : result HandshakeError (bytes * SessionKeys) :=
  let* cf := decode_client_finish cf_bytes in
  let* cf_bare := encode_bare (cf_ct_to_b cf) in
  let th2 := sha384 [TH2_DOMAIN; ch_bytes; sh_full; cf_bare] in
  let* signature := (match cf_signature cf with Some s => Ok s | None => Err Decode end) in
  let* _ := map_err (fun _ => InvalidSignature) (hybrid_verify client_cert th2 signature) in
  let* ss_x := x25519_agree ex_secret client_ex_pk in
  let* ss_pq_b := try (decapsulate kem (cf_ct_to_b cf)) in
  let keys := derive_keys ch_bytes sh_wo_sig cf_bare th2 ss_x ss_pq_a ss_pq_b in
  let* mac_a := (match cf_finished_mac cf with Some m => Ok m | None => Err Decode end) in
  if negb (ct_eq mac_a (hmac_sha384 (client_finished_key keys) th2)) then Err InvalidMac else
  let* sf_bytes := encode_server_finish (finished_mac_b keys th2 mac_a) in
  Ok (sf_bytes, session RoleResponder keys th2 client_cert client_endpoint_id).
(** handshake.rs 821-883 [Responder::on_client_finish] *)
Definition on_client_finish (r : Responder) (cf_bytes : bytes)
  : result HandshakeError (bytes * SessionKeys) * Responder :=
  let become st := mkResponder (r_identity r) (r_local_endpoint_id r) st in
  match r_state r with
  | AwaitClientFinish ex_secret kem ss_pq_a ch_bytes sh_wo_sig sh_full client_ex_pk client_cert client_endpoint_id =>
    match accept_client_finish ex_secret kem ss_pq_a ch_bytes sh_wo_sig sh_full client_ex_pk client_cert
            client_endpoint_id cf_bytes with
    | Ok out => (Ok out, become ResponderDone)
    | Err e => (Err e, become ResponderFailed)
    | Panic => (Panic, become ResponderFailed)
    end
  | _ => (Err State, become ResponderFailed)
  end.

(** ** Resumption *)
(** handshake.rs 890-890 [RESUME_TH_DOMAIN] *)
Definition RESUME_TH_DOMAIN : bytes := lit "RTP2-RESUME-TH-v1".
(** handshake.rs 893-895 [resumption_id] *)
Definition resumption_id (secret : bytes) : bytes := hkdf_expand 16 secret [lit "RTP2 resumption id v1"].
(** handshake.rs 899-906 [ResumedSession] *)
Record ResumedSession : Type := mkResumed {
  rs_handshake_prk : bytes;
  rs_th_r : bytes;
  rs_control_key_c2s : bytes;
  rs_control_key_s2c : bytes;
  rs_transfer_wrap_key : bytes;
  rs_session_resumption_secret : bytes
}.
(** handshake.rs 920-930 [ResumptionHello::new] *)
Definition new_resumption_hello (secret endpoint_id nonce : bytes) (now : Z) : ResumptionHello :=
  mkResumptionHello PROTOCOL_MINOR ALPN SUITE_ID (resumption_id secret) nonce now endpoint_id.
(** handshake.rs 1003-1009 [ResumptionAccept::new] *)
Definition new_resumption_accept (endpoint_id nonce : bytes) (now : Z) : ResumptionAccept :=
  mkResumptionAccept nonce endpoint_id now.
(** handshake.rs 1043-1061 [resumption_keys] *)
Definition resumption_keys (secret hello_bytes accept_bytes : bytes) : ResumedSession :=
  let th_r := sha384 [RESUME_TH_DOMAIN; hello_bytes; accept_bytes] in
  let prk := hkdf_extract th_r secret in
  mkResumed prk th_r
    (hkdf_expand 32 prk [lit "RTP2 control c2s v1"; th_r])
    (hkdf_expand 32 prk [lit "RTP2 control s2c v1"; th_r])
    (hkdf_expand 32 prk [lit "RTP2 transfer wrap v1"; th_r])
    (hkdf_expand 48 prk [lit "RTP2 resumption v1"; th_r]).
(** handshake.rs 1064-1068 [resumption_finished_mac] *)
Definition resumption_finished_mac (secret th_r : bytes) : bytes :=
  let prk := hkdf_extract th_r secret in
  hmac_sha384 (hkdf_expand 48 prk [lit "RTP2 resumption finished v1"; th_r]) th_r.
End Schedule.

(** ** What each step accepts *)
Section Inversion.
Context {P : Primitives} {L : PrimitiveLaws} {K : PkPrimitives} {KL : PkLaws}.

Lemma check_server_hello_ok sh e : check_server_hello sh e = Ok tt <->
  sh_selected_minor sh = PROTOCOL_MINOR /\ sh_handshake_mode sh = MODE_STANDALONE /\ sh_alpn sh = ALPN /\
  sh_selected_suite sh = SUITE_ID /\ sh_endpoint_id sh = e.
Proof.
  unfold check_server_hello, bytes_eqb.
  destruct (Z.eqb_spec (sh_selected_minor sh) PROTOCOL_MINOR); cbn [negb]; [|split; [done|tauto]].
  destruct (Z.eqb_spec (sh_handshake_mode sh) MODE_STANDALONE); cbn [negb orb]; [|split; [done|tauto]].
  case_bool_decide; cbn [negb]; [|split; [done|tauto]].
  destruct (Z.eqb_spec (sh_selected_suite sh) SUITE_ID); cbn [negb]; [|split; [done|tauto]].
  case_bool_decide; cbn [negb]; [tauto|split; [done|tauto]].
Qed.
Lemma check_client_hello_ok ch e now : check_client_hello ch e now = Ok tt <->
  ch_alpn ch = ALPN /\ ch_handshake_mode ch = MODE_STANDALONE /\ SUITE_ID ∈ ch_suites ch /\
  ch_pqc_required ch = true /\ 1 <= ch_minimum_security_level ch /\ ch_endpoint_id ch = e /\
  Z.abs (ch_timestamp ch - now) <= TIMESTAMP_WINDOW_SECS.
Proof.
  unfold check_client_hello, bytes_eqb.
  case_bool_decide; cbn [negb]; [|split; [done|tauto]].
  destruct (Z.eqb_spec (ch_handshake_mode ch) MODE_STANDALONE); cbn [negb]; [|split; [done|tauto]].
  case_bool_decide; cbn [negb]; [|split; [done|tauto]].
  destruct (ch_pqc_required ch); cbn [negb orb]; [|split; [done|intros (_ & _ & _ & ? & _); done]].
  destruct (Z.ltb_spec (ch_minimum_security_level ch) 1); [split; [done|lia]|].
  case_bool_decide; cbn [negb]; [|split; [done|tauto]].
  destruct (Z.ltb_spec TIMESTAMP_WINDOW_SECS (Z.abs (ch_timestamp ch - now))); [split; [done|lia]|]. split; [|done].
  intros _. split_and!; try done; lia.
Qed.

Lemma x25519_agree_ok s p ss : x25519_agree s p = Ok ss <-> ss = x25519 s p /\ ss <> replicate 32 0.
Proof.
  unfold x25519_agree, bytes_eqb. case_bool_decide as H; [split; [done|intros [-> ?]; done]|].
  split; [intros [= <-]; done|by intros [-> _]].
Qed.

(** What the initiator's second message commits to. *)
Record answered (identity : DeviceIdentity) (ex_secret : bytes) (kem : MlKemKeyPair) (ch expected sh_bytes cf : bytes)
    (st : InitiatorState) (sh : ServerHello) (ct ss_x ss_a ss_b : bytes) (s0 s1 : HybridSignature) : Prop := {
  an_bytes : sh_bytes = cbor (server_hello_value sh);
  an_wf : signed_wf sh;
  an_check : check_server_hello sh expected = Ok tt;
  an_signature : sh_signature sh = Some s0;
  an_verified : hybrid_verify (sh_cert sh) (sha384 [TH1_DOMAIN; ch; cbor (server_hello_unsigned sh)]) s0 = Ok tt;
  an_x : ss_x = x25519 ex_secret (sh_ex_pk sh);
  an_a : decapsulate kem (sh_ct_to_a sh) = Ok ss_a;
  an_b : exists r, mlkem_encapsulate (sh_kem_pk sh) r = Ok (ct, ss_b);
  an_ct : len ct = MLKEM768_CIPHERTEXT_LEN;
  an_out : let th2 := sha384 [TH2_DOMAIN; ch; sh_bytes; cbor (bare_value ct)] in
    let keys := derive_keys ch (cbor (server_hello_unsigned sh)) (cbor (bare_value ct)) th2 ss_x ss_a ss_b in
    let mac := hmac_sha384 (client_finished_key keys) th2 in
    (exists r, hybrid_sign identity th2 r = Ok s1) /\
    cf = cbor (client_finish_value (mkClientFinish ct (Some s1) (Some mac))) /\
    st = AwaitServerFinish keys th2 mac (sh_cert sh) (sh_endpoint_id sh)
}.

Lemma answer_server_hello_inv identity ex kem ch expected e s sh_bytes cf st : bytes_ok sh_bytes ->
  answer_server_hello identity ex kem ch expected e s sh_bytes = Ok (cf, st) ->
  exists sh ct ss_x ss_a ss_b s0 s1, answered identity ex kem ch expected sh_bytes cf st sh ct ss_x ss_a ss_b s0 s1.
Proof.
  intros Hok H. unfold answer_server_hello in H. minv H. rename a into sh.
  apply server_hello_canonical in Hp as [-> Hwf]; [|done].
  minv Hk. destruct a. minv Hk0. rewrite encode_server_hello_bare in Hp0. apply Ok_inj in Hp0 as <-.
  cbv zeta in Hk. minv Hk. rename a into s0. destruct (sh_signature sh) as [s0'|] eqn:Hsig; [|done]. apply Ok_inj in Hp0 as ->.
  minv Hk0. minv Hp0. destruct a. rename Hp0 into Hv.
  minv Hk. apply x25519_agree_ok in Hp0 as [-> Hnz]. minv Hk0. minv Hp0. rename a into ss_a. minv Hk. destruct a as [ct ss_b].
  minv Hp1. destruct (Z.eqb_spec (len ct) MLKEM768_CIPHERTEXT_LEN) as [Hct|]; [|done]. cbn [negb] in Hk0.
  minv Hk0. rewrite (encode_server_hello_signed _ s0 Hsig) in Hp2. apply Ok_inj in Hp2 as <-.
  minv Hk. rewrite encode_bare_eq in Hp2. apply Ok_inj in Hp2 as <-. cbv zeta in Hk0. minv Hk0. rename a into s1. minv Hp2.
  minv Hk. erewrite encode_full_eq in Hp3 by reflexivity. apply Ok_inj in Hp3 as <-. apply Ok_inj in Hk0.
  injection Hk0 as <- <-. exists sh, ct, (x25519 ex (sh_ex_pk sh)), ss_a, ss_b, s0, s1.
  split; try done; [by eexists|]. cbn zeta. split; [by eexists|done].
Qed.

(** What the responder's first message is. *)
Record greeted (identity : DeviceIdentity) (endpoint : bytes) (d : HelloDraws) (ch : ClientHello) (ch_bytes out : bytes)
    (st : ResponderState) (sh : ServerHello) (ss : bytes) (s : HybridSignature) : Prop := {
  gr_kem : mlkem_encapsulate (ch_kem_pk ch) (hd_encapsulated d) = Ok (sh_ct_to_a sh, ss);
  gr_ct : len (sh_ct_to_a sh) = MLKEM768_CIPHERTEXT_LEN;
  gr_hello : sh = mkServerHello (Z.min (ch_protocol_minor ch) PROTOCOL_MINOR) MODE_STANDALONE ALPN SUITE_ID (hd_nonce d)
    (x25519_public (hd_ex_secret d)) (kem_public (kem_generate (hd_kem_seed d))) (sh_ct_to_a sh) (public identity) endpoint (Some s);
  gr_sign : hybrid_sign identity (sha384 [TH1_DOMAIN; ch_bytes; cbor (server_hello_unsigned sh)]) (hd_signed d) = Ok s;
  gr_out : out = cbor (server_hello_value sh);
  gr_state : st = AwaitClientFinish (hd_ex_secret d) (kem_generate (hd_kem_seed d)) ss ch_bytes
    (cbor (server_hello_unsigned sh)) out (ch_ex_pk ch) (ch_cert ch) (ch_endpoint_id ch)
}.

Lemma answer_client_hello_inv identity endpoint d ch ch_bytes out st :
  answer_client_hello identity endpoint d ch ch_bytes = Ok (out, st) ->
  exists sh ss s, greeted identity endpoint d ch ch_bytes out st sh ss s.
Proof.
  intros H. unfold answer_client_hello in H. cbv zeta in H. minv H. destruct a as [ct ss]. minv Hp.
  destruct (Z.eqb_spec (len ct) MLKEM768_CIPHERTEXT_LEN) as [Hct|]; [|done]. cbn [negb] in Hk.
  minv Hk. rewrite encode_server_hello_bare in Hp0. apply Ok_inj in Hp0 as <-. minv Hk0. rename a into s. minv Hp0.
  minv Hk. erewrite encode_server_hello_signed in Hp1 by reflexivity. apply Ok_inj in Hp1 as <-. apply Ok_inj in Hk0.
  injection Hk0 as <- <-. eexists (mkServerHello _ _ _ _ _ _ _ ct _ _ (Some s)), ss, s.
  split; cbn [sh_ct_to_a]; try reflexivity; try done.
Qed.

(** What the responder's last step accepted. *)
Record finished (ex_secret : bytes) (kem : MlKemKeyPair) (ss_a ch sh_wo sh_full client_ex : bytes) (cert : DevicePublic)
    (endpoint cf_bytes sf : bytes) (k : SessionKeys) (ct ss_x ss_b : bytes) (s : HybridSignature) : Prop := {
  fi_ct : len ct = MLKEM768_CIPHERTEXT_LEN;
  fi_ct_ok : bytes_ok ct;
  fi_x : ss_x = x25519 ex_secret client_ex;
  fi_b : decapsulate kem ct = Ok ss_b;
  fi_out : let th2 := sha384 [TH2_DOMAIN; ch; sh_full; cbor (bare_value ct)] in
    let keys := derive_keys ch sh_wo (cbor (bare_value ct)) th2 ss_x ss_a ss_b in
    let mac := hmac_sha384 (client_finished_key keys) th2 in
    hybrid_verify cert th2 s = Ok tt /\
    cf_bytes = cbor (client_finish_value (mkClientFinish ct (Some s) (Some mac))) /\
    sf = cbor (bare_value (finished_mac_b keys th2 mac)) /\ k = session RoleResponder keys th2 cert endpoint
}.

Lemma accept_client_finish_inv ex kem ss_a ch sh_wo sh_full client_ex cert endpoint cf_bytes sf k : bytes_ok cf_bytes ->
  accept_client_finish ex kem ss_a ch sh_wo sh_full client_ex cert endpoint cf_bytes = Ok (sf, k) ->
  exists ct ss_x ss_b s, finished ex kem ss_a ch sh_wo sh_full client_ex cert endpoint cf_bytes sf k ct ss_x ss_b s.
Proof.
  intros Hok H. unfold accept_client_finish in H. minv H. rename a into cf.
  apply client_finish_canonical in Hp as [-> [[Hct Hcto] Hwf]]; [|done]. destruct cf as [ct [s|] [mac|]]; try done. cbn [cf_ct_to_b cf_signature cf_finished_mac] in *.
  minv Hk. rewrite encode_bare_eq in Hp. apply Ok_inj in Hp as <-. cbv zeta in Hk0. cbn [rbind] in Hk0.
  minv Hk0. minv Hp. destruct a. rename Hp into Hv.
  minv Hk. apply x25519_agree_ok in Hp as [-> _]. minv Hk0. minv Hp. rename a into ss_b.
  destruct (ct_eq mac _) eqn:Hm; [|done]. apply ct_eq_true in Hm. subst mac. cbn [negb] in Hk.
  minv Hk. rewrite encode_server_finish_eq in Hp0. apply Ok_inj in Hp0 as <-. apply Ok_inj in Hk0. injection Hk0 as <- <-.
  exists ct, (x25519 ex client_ex), ss_b, s. by split.
Qed.
End Inversion.

(** ** Transcripts *)
(** The hash inputs of the two transcript hashes. *)
Definition transcript1 (ch sh_wo_sig : bytes) : bytes := concat [TH1_DOMAIN; ch; sh_wo_sig].
Definition transcript2 (ch sh : bytes) (f : ClientFinish) : bytes :=
  concat [TH2_DOMAIN; ch; sh; cbor (bare_value (cf_ct_to_b f))].

Lemma transcript_split d v1 v2 v3 v1' v2' v3' :
  value_ok v1 -> value_ok v2 -> value_ok v3 -> value_ok v1' -> value_ok v2' -> value_ok v3' ->
  concat [d; cbor v1; cbor v2; cbor v3] = concat [d; cbor v1'; cbor v2'; cbor v3'] -> v1 = v1' /\ v2 = v2' /\ v3 = v3'.
Proof.
  intros H1 H2 H3 H1' H2' H3' H. cbn [concat] in H. rewrite !app_nil_r in H. apply app_inv_head in H.
  apply cbor_prefix in H as [-> H]; [|done..]. apply cbor_prefix in H as [-> H]; [|done..].
  split_and!; [done..|]. by apply cbor_inj.
Qed.

(** The secrets of two sessions are the same. *)
Definition same_secrets (a b : SessionKeys) : Prop :=
  s_handshake_prk a = s_handshake_prk b /\ s_th2 a = s_th2 b /\ s_control_key_c2s a = s_control_key_c2s b /\
  s_control_key_s2c a = s_control_key_s2c b /\ s_transfer_wrap_key a = s_transfer_wrap_key b /\
  s_session_resumption_secret a = s_session_resumption_secret b.

Section Agreement.
Context {P : Primitives} {L : PrimitiveLaws} {K : PkPrimitives} {KL : PkLaws}.

(** Draws with the lengths the source's array types give them. *)
Definition start_ok (endpoint : bytes) (d : StartDraws) : Prop :=
  array 32 endpoint /\ array 32 (sd_nonce d) /\ u64 (sd_now d).
Definition hello_ok (endpoint : bytes) (d : HelloDraws) : Prop := array 32 endpoint /\ array 32 (hd_nonce d).

Lemma alpn_ok : byte_string ALPN /\ len ALPN <= 64.
Proof. split; [split; [by apply bytes_ok_check|by split]|done]. Qed.

Lemma client_hello_ok seed endpoint d : start_ok endpoint d -> client_hello_wf (client_hello (from_seed seed) endpoint d).
Proof.
  intros (He & Hn & Ht). pose proof (kem_public_len (sd_kem_seed d)). pose proof (x25519_public_len (sd_ex_secret d)).
  pose proof (from_seed_wf seed). destruct alpn_ok. unfold client_hello_wf, client_hello;
    cbn [ch_protocol_minor ch_handshake_mode ch_alpn ch_suites ch_nonce ch_ex_pk ch_kem_pk ch_minimum_security_level
         ch_cert ch_endpoint_id ch_timestamp].
  split_and!; try done; by apply Forall_singleton.
Qed.
Lemma start_eq seed endpoint dialed d : start (from_seed seed) endpoint dialed d
  = Ok (mkInitiator (from_seed seed) (AwaitServerHello (sd_ex_secret d) (kem_generate (sd_kem_seed d))
          (cbor (client_hello_value (client_hello (from_seed seed) endpoint d))) dialed),
        cbor (client_hello_value (client_hello (from_seed seed) endpoint d))).
Proof. unfold start. by rewrite encode_client_hello_eq. Qed.

Lemma greeted_wf seed endpoint d ch ch_bytes out st sh ss s : hello_ok endpoint d -> u64 (ch_protocol_minor ch) ->
  greeted (from_seed seed) endpoint d ch ch_bytes out st sh ss s -> array MLKEM768_CIPHERTEXT_LEN (sh_ct_to_a sh) ->
  signed_wf sh /\ hybrid_verify (public (from_seed seed)) (sha384 [TH1_DOMAIN; ch_bytes; cbor (server_hello_unsigned sh)]) s = Ok tt.
Proof.
  intros (He & Hn) Hm [_ _ Hsh Hs _ _] Hct. pose proof (kem_public_len (hd_kem_seed d)).
  pose proof (x25519_public_len (hd_ex_secret d)). pose proof (from_seed_wf seed). destruct alpn_ok.
  destruct (sign_verifies seed (sha384 [TH1_DOMAIN; ch_bytes; cbor (server_hello_unsigned sh)]) (hd_signed d))
    as (s' & Hs' & Hw & Hv). rewrite Hs in Hs'. apply Ok_inj in Hs' as <-. split; [|exact Hv].
  rewrite Hsh. unfold signed_wf, server_hello_wf; cbn [sh_selected_minor sh_handshake_mode sh_alpn sh_selected_suite sh_nonce
    sh_ex_pk sh_kem_pk sh_ct_to_a sh_cert sh_endpoint_id sh_signature]. unfold uint_range, PROTOCOL_MINOR in *.
  split_and!; try done; lia.
Qed.

Lemma encapsulated_secret seed r ct ss ss' : mlkem_encapsulate (kem_public (kem_generate seed)) r = Ok (ct, ss) ->
  decapsulate (kem_generate seed) ct = Ok ss' -> ss' = ss /\ array MLKEM768_CIPHERTEXT_LEN ct.
Proof.
  intros He Hd. destruct (kem_roundtrip seed r) as (ct1 & ss1 & He1 & Hd1 & Hct & _).
  rewrite He in He1. apply Ok_inj in He1. injection He1 as <- <-. rewrite Hd in Hd1. by apply Ok_inj in Hd1 as ->.
Qed.

Lemma encapsulated_ok k r ct ss : mlkem_encapsulate k r = Ok (ct, ss) ->
  array MLKEM768_CIPHERTEXT_LEN ct /\ array MLKEM768_SHARED_SECRET_LEN ss.
Proof.
  unfold mlkem_encapsulate. destruct (negb _); [done|]. destruct (negb _); [done|]. intros [= H].
  pose proof (mlkem768_cipher_len k r) as H1. pose proof (mlkem768_secret_len k r) as H2. rewrite H in H1, H2. done.
Qed.

(** The ClientFinish an initiator sends decodes to what it committed to. *)
Lemma answered_finish seed ex kem ch expected sh_bytes cf st sh ct ss_x ss_a ss_b s0 s1 :
  answered (from_seed seed) ex kem ch expected sh_bytes cf st sh ct ss_x ss_a ss_b s0 s1 ->
  exists mac, decode_client_finish cf = Ok (mkClientFinish ct (Some s1) (Some mac)) /\
    client_finish_wf (mkClientFinish ct (Some s1) (Some mac)).
Proof.
  intros [_ _ _ _ _ _ _ [r Hb] _ Hout]. cbv zeta in Hout. destruct Hout as ([r1 Hs1] & -> & _).
  match goal with |- context [cbor (client_finish_value (mkClientFinish ct (Some s1) (Some ?m)))] => set (mac := m) end.
  assert (Hw : client_finish_wf (mkClientFinish ct (Some s1) (Some mac))).
  { split; [by destruct (encapsulated_ok _ _ _ _ Hb)|]. split; [|apply hmac_len].
    match type of Hs1 with hybrid_sign _ ?m _ = _ => destruct (sign_verifies seed m r1) as (s' & Hs' & Hw & _) end.
    rewrite Hs1 in Hs'. by apply Ok_inj in Hs' as ->. }
  exists mac. split; [|exact Hw]. by apply client_finish_decodes.
Qed.

(** Both steps of the responder on one ClientHello and one ClientFinish. *)
Lemma responder_run idB epB dB now observed ch_in cache sh r1 cache' cf_in sf kB r2 :
  bytes_ok ch_in -> bytes_ok cf_in ->
  on_client_hello dB now (new_responder idB epB) ch_in observed cache = (Ok sh, r1, cache') ->
  on_client_finish r1 cf_in = (Ok (sf, kB), r2) ->
  exists ch sm ss s ct ss_x ss_b s2, ch_in = cbor (client_hello_value ch) /\ client_hello_wf ch /\
    check_client_hello ch observed now = Ok tt /\
    greeted idB epB dB ch ch_in sh (r_state r1) sm ss s /\
    finished (hd_ex_secret dB) (kem_generate (hd_kem_seed dB)) ss ch_in (cbor (server_hello_unsigned sm)) sh
      (ch_ex_pk ch) (ch_cert ch) (ch_endpoint_id ch) cf_in sf kB ct ss_x ss_b s2.
Proof.
  intros Hch Hcf Hh Hf. unfold on_client_hello, new_responder in Hh. cbn [r_state r_identity r_local_endpoint_id] in Hh.
  destruct (decode_client_hello ch_in) as [ch|e|] eqn:Hd; cbn [rbind] in Hh; [|done..].
  destruct (check_client_hello ch observed now) as [[]|e|] eqn:Hc; cbn [rbind] in Hh; [|done..].
  destruct (check_and_insert _ _ cache) as [[|] c1]; cbn [negb] in Hh; [|done].
  destruct (answer_client_hello idB epB dB ch ch_in) as [[o st]|e|] eqn:Ha; [|done..].
  injection Hh as -> <- <-. apply answer_client_hello_inv in Ha as (sm & ss & s & Hg).
  apply client_hello_canonical in Hd as [-> Hw]; [|done]. pose proof Hg as [_ _ _ _ _ Hst].
  unfold on_client_finish in Hf. cbn [r_state r_identity] in Hf. rewrite Hst in Hf.
  destruct (accept_client_finish _ _ _ _ _ _ _ _ _ cf_in) as [[sf' k']|e|] eqn:Hacc; [|done..].
  injection Hf as -> -> _. apply accept_client_finish_inv in Hacc as (ct & ss_x & ss_b & s2 & Hfin); [|done].
  exists ch, sm, ss, s, ct, ss_x, ss_b, s2. cbn [r_state]. by rewrite Hst in Hg |- *.
Qed.

Lemma client_hello_value_inj h h' : client_hello_wf h -> client_hello_wf h' ->
  client_hello_value h = client_hello_value h' -> h = h'.
Proof.
  intros H H' E. pose proof (client_hello_decodes h H) as D. rewrite E, client_hello_decodes in D by done. by injection D.
Qed.
Lemma server_hello_value_inj h h' : signed_wf h -> signed_wf h' ->
  server_hello_value h = server_hello_value h' -> h = h'.
Proof.
  intros H H' E. pose proof (server_hello_decodes h H) as D. rewrite E, server_hello_decodes in D by done. by injection D.
Qed.
Lemma bare_array_ok c : array MLKEM768_CIPHERTEXT_LEN c -> value_ok (bare_value c).
Proof. intros [Hl Ho]. apply bare_value_ok. split; [done|by rewrite Hl]. Qed.

(** The ciphertext an accepted ClientFinish carries. *)
Lemma finished_decodes ex kem ss ch wo sh cex cert ep cf_in sf k ct x b s f : bytes_ok cf_in ->
  finished ex kem ss ch wo sh cex cert ep cf_in sf k ct x b s -> decode_client_finish cf_in = Ok f ->
  cf_ct_to_b f = ct /\ array MLKEM768_CIPHERTEXT_LEN ct.
Proof.
  intros Hok [Hct Hcto _ _ Hout] Hd. cbv zeta in Hout. destruct Hout as (_ & -> & _).
  apply client_finish_canonical in Hd as [He [[Hl Ho] Hw]]; [|done]. split; [|by split].
  destruct f as [c2 [g2|] [m2|]]; try done. unfold client_finish_value in He; cbn [cf_signature cf_finished_mac cf_ct_to_b] in *.
  rewrite !cbor_map in He. apply app_inv_head in He. rewrite !entries_cons in He. apply app_inv_head in He.
  apply (cbor_prefix (VBytes ct) (VBytes c2)) in He as [[= ->] _]; [done|apply ok_bytes..].
  - split; [done|by rewrite Hct].
  - split; [done|by rewrite Hl].
Qed.

(** Equal transcripts carry equal messages. *)
Lemma same_messages hello chB shA sm ctA ctB : client_hello_wf hello -> client_hello_wf chB -> signed_wf shA -> signed_wf sm ->
  array MLKEM768_CIPHERTEXT_LEN ctA -> array MLKEM768_CIPHERTEXT_LEN ctB ->
  concat [TH2_DOMAIN; cbor (client_hello_value hello); cbor (server_hello_value shA); cbor (bare_value ctA)] =
  concat [TH2_DOMAIN; cbor (client_hello_value chB); cbor (server_hello_value sm); cbor (bare_value ctB)] ->
  hello = chB /\ shA = sm /\ ctA = ctB.
Proof.
  intros H1 H2 H3 H4 H5 H6 H. apply transcript_split in H as (V1 & V2 & V3);
    [|by apply client_hello_value_ok|by apply server_hello_value_ok|by apply bare_array_ok
     |by apply client_hello_value_ok|by apply server_hello_value_ok|by apply bare_array_ok].
  split; [by apply client_hello_value_inj|]. split; [by apply server_hello_value_inj|]. by injection V3.
Qed.

(** Equal messages give equal keys. *)
Lemma same_keys seedA epA dA seedB epB dB exp cfA stA ch sm ct x a b s0 s1 ss s y z s2 :
  ch = client_hello (from_seed seedA) epA dA ->
  answered (from_seed seedA) (sd_ex_secret dA) (kem_generate (sd_kem_seed dA)) (cbor (client_hello_value ch)) exp
    (cbor (server_hello_value sm)) cfA stA sm ct x a b s0 s1 ->
  greeted (from_seed seedB) epB dB ch (cbor (client_hello_value ch)) (cbor (server_hello_value sm)) s sm ss s2 ->
  y = x25519 (hd_ex_secret dB) (ch_ex_pk ch) -> decapsulate (kem_generate (hd_kem_seed dB)) ct = Ok z ->
  x = y /\ a = ss /\ b = z.
Proof.
  intros -> [_ _ _ _ _ -> Ea [rb Eb] _ _] [Ek _ Esm _ _ _] -> Fz.
  assert (Hexm : sh_ex_pk sm = x25519_public (hd_ex_secret dB)) by (by rewrite Esm).
  assert (Hkem : sh_kem_pk sm = kem_public (kem_generate (hd_kem_seed dB))) by (by rewrite Esm).
  split; [rewrite Hexm; apply x25519_symmetric|].
  split; [by destruct (encapsulated_secret (sd_kem_seed dA) (hd_encapsulated dB) _ ss a Ek Ea)|].
  rewrite Hkem in Eb. by destruct (encapsulated_secret (hd_kem_seed dB) rb _ b z Eb Fz) as [-> _].
Qed.

(** What a completed initiator run went through. *)
Lemma initiator_run seed ep dialed d e1 s1 sh_in sf_in i0 ch i1 cf i2 k : bytes_ok sh_in ->
  start (from_seed seed) ep dialed d = Ok (i0, ch) ->
  on_server_hello e1 s1 i0 sh_in = (Ok cf, i1) -> on_server_finish i1 sf_in = (Ok k, i2) ->
  exists sh ct x a b s0 sg keys mac, let hello := client_hello (from_seed seed) ep d in
    ch = cbor (client_hello_value hello) /\
    answered (from_seed seed) (sd_ex_secret d) (kem_generate (sd_kem_seed d)) ch dialed sh_in cf
      (AwaitServerFinish keys (s_th2 k) mac (sh_cert sh) (sh_endpoint_id sh)) sh ct x a b s0 sg /\
    k = session RoleInitiator keys (s_th2 k) (sh_cert sh) (sh_endpoint_id sh) /\
    decode_server_finish sf_in = Ok (finished_mac_b keys (s_th2 k) mac) /\ i_state i2 = InitiatorDone.
Proof.
  intros Hok Hst Hsh Hsf. rewrite start_eq in Hst. apply Ok_inj in Hst. injection Hst as <- <-.
  unfold on_server_hello in Hsh. cbn [i_state i_identity] in Hsh.
  destruct (answer_server_hello _ _ _ _ _ _ _ _) as [[cf0 st]|e|] eqn:Hans; [|done..]. injection Hsh as -> <-.
  apply answer_server_hello_inv in Hans as (sh & ct & x & a & b & s0 & sg & Han); [|done].
  pose proof (an_out _ _ _ _ _ _ _ _ _ _ _ _ _ _ _ Han) as (_ & _ & Est).
  unfold on_server_finish in Hsf. cbn [i_state i_identity] in Hsf. rewrite Est in Hsf.
  destruct (decode_server_finish sf_in) as [mb|e|] eqn:Hd; [|done..].
  destruct (ct_eq mb _) eqn:Hm; cbn [negb] in Hsf; [|done]. apply ct_eq_true in Hm. injection Hsf as <- <-.
  cbn [session s_th2 i_state] in *. rewrite Est in Han.
  by eexists sh, ct, x, a, b, s0, sg, _, _; split_and!; [|exact Han| |rewrite Hm|].
Qed.

Lemma agreement seedA epA dialed dA seedB epB dB e1 s1 sh_in sf_in ch_in cf_in now observed cache
    i0 ch i1 cf i2 kA r1 sh cache' r2 sf kB fA fB :
  start_ok epA dA -> hello_ok epB dB -> bytes_ok sh_in -> bytes_ok ch_in -> bytes_ok cf_in ->
  start (from_seed seedA) epA dialed dA = Ok (i0, ch) ->
  on_server_hello e1 s1 i0 sh_in = (Ok cf, i1) -> on_server_finish i1 sf_in = (Ok kA, i2) ->
  on_client_hello dB now (new_responder (from_seed seedB) epB) ch_in observed cache = (Ok sh, r1, cache') ->
  on_client_finish r1 cf_in = (Ok (sf, kB), r2) ->
  s_th2 kA = s_th2 kB -> decode_client_finish cf = Ok fA -> decode_client_finish cf_in = Ok fB ->
  no_collision (transcript2 ch sh_in fA) (transcript2 ch_in sh fB) ->
  ch_in = ch /\ sh_in = sh /\ cf_ct_to_b fA = cf_ct_to_b fB /\ same_secrets kA kB /\
  peer kA = public (from_seed seedB) /\ peer kB = public (from_seed seedA) /\
  peer_endpoint_id kA = epB /\ epB = dialed /\ peer_endpoint_id kB = epA /\ epA = observed.
Proof.
  intros HA HB Hshok Hchok Hcfok Hst Hsh Hsf Hch Hcf Hth HfA HfB Hnc.
  pose proof (client_hello_ok seedA epA dA HA) as Hchw.
  destruct (initiator_run _ _ _ _ _ _ _ _ _ _ _ _ _ _ Hshok Hst Hsh Hsf)
    as (shA & ctA & x & a & b & s0 & sg & keys & mac & -> & Han & EkA & _).
  destruct (answered_finish _ _ _ _ _ _ _ _ _ _ _ _ _ _ _ Han) as (m2 & Hdec & [HctA _]).
  rewrite Hdec in HfA. apply Ok_inj in HfA as <-.
  destruct (responder_run _ _ _ _ _ _ _ _ _ _ _ _ _ _ Hchok Hcfok Hch Hcf)
    as (chB & sm & ss & s & ct & y & z & s2 & -> & HchBw & HchBc & Hg & Hfin).
  pose proof Hg as [Ek _ Esm _ -> _]. destruct (finished_decodes _ _ _ _ _ _ _ _ _ _ _ _ _ _ _ _ _ Hcfok Hfin HfB) as [<- HctB].
  destruct (encapsulated_ok _ _ _ _ Ek) as [Hc _].
  destruct (greeted_wf seedB epB dB chB _ _ _ sm ss s HB ltac:(apply HchBw) Hg Hc) as [Hsmw _].
  pose proof Han as [-> Hsw Hck _ _ _ _ _ _ Hout]. cbv zeta in Hout. destruct Hout as (_ & _ & Est). injection Est as -> Eth _.
  pose proof Hfin as [_ _ Fx Fb Fout]. cbv zeta in Fout. destruct Fout as (_ & _ & _ & ->). cbn [session s_th2] in Hth.
  assert (Hm : client_hello (from_seed seedA) epA dA = chB /\ shA = sm /\ ctA = cf_ct_to_b fB).
  { rewrite Eth in Hth. exact (same_messages _ _ _ _ _ _ Hchw HchBw Hsw Hsmw HctA HctB (Hnc Hth)). }
  destruct Hm as (<- & -> & ->).
  destruct (same_keys seedA epA dA seedB epB dB _ _ _ _ sm (cf_ct_to_b fB) x a b s0 sg ss _ y z s
    eq_refl Han Hg Fx Fb) as (-> & -> & ->).
  apply check_server_hello_ok in Hck as (_ & _ & _ & _ & Hep).
  apply check_client_hello_ok in HchBc as (_ & _ & _ & _ & _ & Hobs & _).
  assert (Hcert : sh_cert sm = public (from_seed seedB) /\ sh_endpoint_id sm = epB) by (split; rewrite Esm; reflexivity).
  destruct Hcert as [Hcert HepB]. rewrite EkA, Hth.
  split; [reflexivity|]. split; [reflexivity|]. split; [reflexivity|].
  split; [unfold same_secrets; repeat split; reflexivity|]. split; [exact Hcert|]. split; [reflexivity|].
  split; [exact HepB|]. split; [congruence|]. split; [reflexivity|exact Hobs].
Qed.
End Agreement.

(** ** An undisturbed handshake *)
Section Honest.
Context {P : Primitives} {L : PrimitiveLaws} {K : PkPrimitives} {KL : PkLaws}.

Lemma hello_accepted seedB epB dB now observed cache ch seedA : hello_ok epB dB -> client_hello_wf ch ->
  ch_kem_pk ch = kem_public (kem_generate seedA) -> check_client_hello ch observed now = Ok tt ->
  (check_and_insert (device_id (ch_cert ch)) (ch_nonce ch) cache).1 = true ->
  exists out r1 cache', on_client_hello dB now (new_responder (from_seed seedB) epB) (cbor (client_hello_value ch)) observed cache
      = (Ok out, r1, cache') /\
    exists sm ss s, greeted (from_seed seedB) epB dB ch (cbor (client_hello_value ch)) out (r_state r1) sm ss s /\ signed_wf sm /\
      hybrid_verify (public (from_seed seedB))
        (sha384 [TH1_DOMAIN; cbor (client_hello_value ch); cbor (server_hello_unsigned sm)]) s = Ok tt.
Proof.
  intros HB Hw Hkem Hc Hf. unfold on_client_hello, new_responder. cbn [r_state r_identity r_local_endpoint_id].
  rewrite client_hello_decodes by done. cbn [rbind]. rewrite Hc. cbn [rbind].
  destruct (check_and_insert _ _ cache) as [f c1]. cbn [fst] in Hf. subst f. cbn [negb].
  assert (Hans : exists out st, answer_client_hello (from_seed seedB) epB dB ch (cbor (client_hello_value ch)) = Ok (out, st)).
  { unfold answer_client_hello. rewrite Hkem. destruct (kem_roundtrip seedA (hd_encapsulated dB)) as (ct & ss & He & _ & Hct & _).
    rewrite He. unfold try. cbn [map_err rbind]. rewrite (proj1 Hct), Z.eqb_refl. cbn [negb].
    rewrite encode_server_hello_bare. cbn [rbind].
    match goal with |- context [hybrid_sign _ ?m ?r] => destruct (sign_verifies seedB m r) as (s & -> & _) end.
    cbn [map_err rbind]. erewrite encode_server_hello_signed by reflexivity. cbn [rbind]. by eexists _, _. }
  destruct Hans as (out & st & Hans). rewrite Hans. eexists _, _, _. split; [reflexivity|].
  apply answer_client_hello_inv in Hans as (sm & ss & s & Hg). cbn [r_state]. exists sm, ss, s. split; [exact Hg|].
  eapply greeted_wf; [done|by apply Hw|exact Hg|]. destruct Hg as [Hk _ _ _ _ _]. by destruct (encapsulated_ok _ _ _ _ Hk).
Qed.

Lemma server_hello_answered seedA seedB epA epB dA dB ch ch_bytes st sm ss s e1 s1 : start_ok epA dA ->
  ch = client_hello (from_seed seedA) epA dA -> ch_bytes = cbor (client_hello_value ch) ->
  greeted (from_seed seedB) epB dB ch ch_bytes (cbor (server_hello_value sm)) st sm ss s -> signed_wf sm ->
  hybrid_verify (public (from_seed seedB)) (sha384 [TH1_DOMAIN; ch_bytes; cbor (server_hello_unsigned sm)]) s = Ok tt ->
  exists cf st', answer_server_hello (from_seed seedA) (sd_ex_secret dA) (kem_generate (sd_kem_seed dA)) ch_bytes epB e1 s1
    (cbor (server_hello_value sm)) = Ok (cf, st').
Proof.
  intros HA -> -> [Ek Ekl Esm _ _ _] Hw Hv. unfold answer_server_hello. rewrite server_hello_decodes by done. cbn [rbind].
  assert (Hc : check_server_hello sm epB = Ok tt).
  { apply check_server_hello_ok. rewrite Esm. cbn. unfold PROTOCOL_MINOR. by split_and!. }
  assert (Hsig : sh_signature sm = Some s) by (rewrite Esm; reflexivity).
  assert (Hcert : sh_cert sm = public (from_seed seedB)) by (rewrite Esm; reflexivity).
  rewrite Hc. cbn [rbind]. rewrite encode_server_hello_bare. cbn [rbind]. rewrite Hsig. cbn [rbind]. rewrite Hcert, Hv.
  cbn [map_err rbind]. assert (Hx : sh_ex_pk sm = x25519_public (hd_ex_secret dB)) by (rewrite Esm; reflexivity).
  assert (Hagree : x25519_agree (sd_ex_secret dA) (sh_ex_pk sm) = Ok (x25519 (sd_ex_secret dA) (sh_ex_pk sm))).
  { apply x25519_agree_ok. split; [done|]. rewrite Hx. apply x25519_honest. }
  rewrite Hagree. cbn [rbind].
  destruct (kem_roundtrip (sd_kem_seed dA) (hd_encapsulated dB)) as (ct & ss' & He & Hd & _ & _).
  change (ch_kem_pk (client_hello (from_seed seedA) epA dA)) with (kem_public (kem_generate (sd_kem_seed dA))) in Ek.
  rewrite Ek in He. apply Ok_inj in He. injection He as <- <-. rewrite Hd. unfold try at 1. cbn [map_err rbind].
  assert (Hk : sh_kem_pk sm = kem_public (kem_generate (hd_kem_seed dB))) by (rewrite Esm; reflexivity). rewrite Hk.
  destruct (kem_roundtrip (hd_kem_seed dB) e1) as (ct & sb & He & _ & Hct & _). rewrite He. unfold try at 1. cbn [map_err rbind].
  rewrite (proj1 Hct), Z.eqb_refl. cbn [negb]. rewrite (encode_server_hello_signed _ s Hsig), encode_bare_eq. cbn [rbind].
  match goal with |- context [hybrid_sign _ ?m ?r] => destruct (sign_verifies seedA m r) as (sg & -> & _) end.
  cbn [map_err rbind]. erewrite encode_full_eq by reflexivity. cbn [rbind]. by eexists _, _.
Qed.

Lemma client_finish_accepted seedA seedB epA epB dA dB ch st sm ss s cf stA ct x a b s1 : start_ok epA dA ->
  ch = client_hello (from_seed seedA) epA dA ->
  greeted (from_seed seedB) epB dB ch (cbor (client_hello_value ch)) (cbor (server_hello_value sm)) st sm ss s ->
  answered (from_seed seedA) (sd_ex_secret dA) (kem_generate (sd_kem_seed dA)) (cbor (client_hello_value ch)) epB
    (cbor (server_hello_value sm)) cf stA sm ct x a b s s1 ->
  exists keys th2 mac, stA = AwaitServerFinish keys th2 mac (sh_cert sm) (sh_endpoint_id sm) /\
    accept_client_finish (hd_ex_secret dB) (kem_generate (hd_kem_seed dB)) ss (cbor (client_hello_value ch))
      (cbor (server_hello_unsigned sm)) (cbor (server_hello_value sm)) (ch_ex_pk ch) (ch_cert ch) (ch_endpoint_id ch) cf
    = Ok (cbor (bare_value (finished_mac_b keys th2 mac)), session RoleResponder keys th2 (ch_cert ch) (ch_endpoint_id ch)).
Proof.
  intros HA Hch Hg Han. pose proof Han as [_ _ _ _ _ Ex Ea [rb Eb] Ect Hout]. cbv zeta in Hout. destruct Hout as ([r1 Hs1] & Ecf & ->).
  eexists _, _, _. split; [reflexivity|]. pose proof Hg as [_ _ Esm _ _ _].
  assert (Hk : sh_kem_pk sm = kem_public (kem_generate (hd_kem_seed dB))) by (rewrite Esm; reflexivity).
  rewrite Hk in Eb. destruct (kem_roundtrip (hd_kem_seed dB) rb) as (ct' & z & He & Hd & _ & _).
  rewrite Eb in He. apply Ok_inj in He. injection He as <- <-.
  destruct (same_keys seedA epA dA seedB epB dB _ _ _ ch sm ct x a b s s1 ss st _ b s Hch Han Hg eq_refl Hd) as (-> & -> & _).
  destruct (answered_finish _ _ _ _ _ _ _ _ _ _ _ _ _ _ _ Han) as (mac & Hdec & _). unfold accept_client_finish. rewrite Hdec.
  rewrite Ecf in Hdec. cbn [rbind cf_ct_to_b cf_signature cf_finished_mac]. rewrite encode_bare_eq. cbn [rbind].
  match type of Hs1 with hybrid_sign _ ?m _ = _ => destruct (sign_verifies seedA m r1) as (s' & Hs' & Hw & Hv) end.
  rewrite Hs1 in Hs'. apply Ok_inj in Hs' as <-.
  assert (Hcert : ch_cert ch = public (from_seed seedA)) by (by rewrite Hch). rewrite Hcert, Hv. cbn [map_err rbind].
  assert (Hagree : x25519_agree (hd_ex_secret dB) (ch_ex_pk ch) = Ok (x25519 (hd_ex_secret dB) (ch_ex_pk ch))).
  { apply x25519_agree_ok. split; [done|]. rewrite Hch. apply x25519_honest. }
  rewrite Hagree. cbn [rbind]. rewrite Hd. unfold try at 1. cbn [map_err rbind].
  assert (Hmac : mac = hmac_sha384 (client_finished_key (derive_keys (cbor (client_hello_value ch)) (cbor (server_hello_unsigned sm))
    (cbor (bare_value ct)) (sha384 [TH2_DOMAIN; cbor (client_hello_value ch); cbor (server_hello_value sm); cbor (bare_value ct)])
    (x25519 (hd_ex_secret dB) (ch_ex_pk ch)) ss b))
    (sha384 [TH2_DOMAIN; cbor (client_hello_value ch); cbor (server_hello_value sm); cbor (bare_value ct)])).
  { rewrite client_finish_decodes in Hdec; [by injection Hdec|].
    split; [cbn; by destruct (encapsulated_ok _ _ _ _ Eb)|]. split; [exact Hw|apply hmac_len]. }
  rewrite <- Hmac. rewrite (proj2 (ct_eq_true mac mac) eq_refl). cbn [negb]. rewrite encode_server_finish_eq. reflexivity.
Qed.

(** A message that fits a control frame. *)
Definition control_message (b : bytes) : Prop := bytes_ok b /\ len b <= MAX_CONTROL_SIZE.
Lemma control_message_cbor v : value_ok v -> len (cbor v) <= MAX_CONTROL_SIZE -> control_message (cbor v).
Proof. intros Hv Hl. split; [by apply cbor_bytes_ok|done]. Qed.

Lemma honest_handshake seedA epA dA seedB epB dB e1 s1 now cache : start_ok epA dA -> hello_ok epB dB ->
  Z.abs (sd_now dA - now) <= TIMESTAMP_WINDOW_SECS ->
  (check_and_insert (device_id (public (from_seed seedA))) (sd_nonce dA) cache).1 = true ->
  exists i0 ch sh r1 cache' cf i1 sf kB r2 kA i2,
    start (from_seed seedA) epA epB dA = Ok (i0, ch) /\
    on_client_hello dB now (new_responder (from_seed seedB) epB) ch epA cache = (Ok sh, r1, cache') /\
    on_server_hello e1 s1 i0 sh = (Ok cf, i1) /\
    on_client_finish r1 cf = (Ok (sf, kB), r2) /\
    on_server_finish i1 sf = (Ok kA, i2) /\
    i_state i2 = InitiatorDone /\ r_state r2 = ResponderDone /\ same_secrets kA kB /\
    role kA = RoleInitiator /\ role kB = RoleResponder /\
    peer kA = public (from_seed seedB) /\ peer kB = public (from_seed seedA) /\
    peer_endpoint_id kA = epB /\ peer_endpoint_id kB = epA /\
    Forall control_message [ch; sh; cf; sf].
Proof.
  intros HA HB Hnow Hfresh. pose proof (client_hello_ok seedA epA dA HA) as Hw.
  set (ch := client_hello (from_seed seedA) epA dA) in *.
  destruct (hello_accepted seedB epB dB now epA cache ch (sd_kem_seed dA) HB Hw eq_refl) as (out & r1 & cache' & Hh & sm & ss & s & Hg & Hsw & Hv).
  { apply check_client_hello_ok. by split_and!; first [done|apply elem_of_cons; left]. }
  { exact Hfresh. }
  pose proof Hg as [_ _ Esm _ Eout Est]. subst out.
  destruct (server_hello_answered seedA seedB epA epB dA dB ch _ _ sm ss s e1 s1 HA eq_refl eq_refl Hg Hsw Hv) as (cf & st' & Hans).
  pose proof Hans as Hi. apply answer_server_hello_inv in Hi as (sm' & ct & x & a & b & s0 & sg & Han);
    [|by apply cbor_bytes_ok, server_hello_value_ok].
  assert (sm' = sm) as ->.
  { apply server_hello_value_inj; [apply Han|done|]. pose proof (an_bytes _ _ _ _ _ _ _ _ _ _ _ _ _ _ _ Han) as E.
    apply cbor_inj in E; [done|by apply server_hello_value_ok|]. apply server_hello_value_ok, Han. }
  assert (s0 = s) as ->.
  { pose proof (an_signature _ _ _ _ _ _ _ _ _ _ _ _ _ _ _ Han) as E. rewrite Esm in E. cbn in E. by injection E. }
  destruct (client_finish_accepted seedA seedB epA epB dA dB ch _ sm ss s cf st' ct x a b sg HA eq_refl Hg Han)
    as (keys & th2 & mac & -> & Hacc).
  assert (Hcert : sh_cert sm = public (from_seed seedB) /\ sh_endpoint_id sm = epB) by (split; rewrite Esm; reflexivity).
  destruct Hcert as [Hcert Hep].
  eexists _, _, _, _, _, cf, _, _, _, _, (session RoleInitiator keys th2 (sh_cert sm) (sh_endpoint_id sm)), _.
  split; [apply start_eq|]. split; [exact Hh|].
  split; [unfold on_server_hello; cbn [i_state i_identity]; fold ch; rewrite Hans; reflexivity|].
  split; [unfold on_client_finish; rewrite Est; rewrite Hacc; reflexivity|].
  assert (Hsf : decode_server_finish (cbor (bare_value (finished_mac_b keys th2 mac))) = Ok (finished_mac_b keys th2 mac))
    by (apply server_finish_decodes, hmac_len).
  split; [unfold on_server_finish; cbn [i_state i_identity]; rewrite Hsf, (proj2 (ct_eq_true _ _) eq_refl); reflexivity|].
  split; [reflexivity|]. split; [reflexivity|]. split; [unfold same_secrets; repeat split; reflexivity|].
  split; [reflexivity|]. split; [reflexivity|]. split; [exact Hcert|]. split; [reflexivity|]. split; [exact Hep|].
  split; [reflexivity|]. destruct (answered_finish _ _ _ _ _ _ _ _ _ _ _ _ _ _ _ Han) as (m & Hcf & Hcfw).
  pose proof (an_out _ _ _ _ _ _ _ _ _ _ _ _ _ _ _ Han) as Hout. cbv zeta in Hout. destruct Hout as (_ & Ecf & _).
  rewrite Ecf in Hcf |- *. repeat apply Forall_cons_2; [| | | |apply Forall_nil_2]; apply control_message_cbor.
  - by apply client_hello_value_ok.
  - by apply client_hello_size.
  - by apply server_hello_value_ok.
  - by apply server_hello_size.
  - apply client_finish_value_ok. split; [apply Hcfw|]. split; [apply Hcfw|apply hmac_len].
  - apply client_finish_size. split; [apply Hcfw|]. split; [apply Hcfw|apply hmac_len].
  - apply bare_value_ok. apply array_byte_string with 48; [apply hmac_len|done].
  - apply (bare_size _ 48); [apply hmac_len|done].

Qed.
End Honest.

(** ** The replay window *)
Definition last_n {A} (n : Z) (l : list A) : list A := drop (Z.to_nat (len l - n)) l.
(** Offering hellos to the cache: those it admits, in order. *)
Fixpoint offer_all (hellos : list (bytes * bytes)) (c : ReplayCache) : list (bytes * bytes) * ReplayCache :=
  match hellos with
  | [] => ([], c)
  | (d, n) :: rest =>
    let '(fresh, c1) := check_and_insert d n c in
    let '(admitted, c2) := offer_all rest c1 in
    (if fresh then (d, n) :: admitted else admitted, c2)
  end.
(** A device id and a nonce. *)
Definition hello_id (x : bytes * bytes) : Prop := array 32 x.1 /\ array 32 x.2.
Definition cache_key (x : bytes * bytes) : bytes := x.1 ++ x.2.

Lemma cache_key_inj x y : hello_id x -> hello_id y -> cache_key x = cache_key y -> x = y.
Proof.
  destruct x as [d n], y as [d' n']. intros [[Hd _] _] [[Hd' _] _] H. unfold cache_key in H. cbn in *.
  apply app_inj_1 in H as [-> ->]; [done|]. unfold len in *. lia.
Qed.
Lemma key_elem x l : hello_id x -> Forall hello_id l -> cache_key x ∈ map cache_key l <-> x ∈ l.
Proof.
  intros Hx Hl. rewrite list_elem_of_fmap. split; [|by exists x].
  intros (y & He & Hy). rewrite Forall_forall in Hl. by rewrite (cache_key_inj x y Hx (Hl y Hy) He).
Qed.

(** The cache holds exactly the keys of the last admitted hellos. *)
Record holds (c : ReplayCache) (l : list (bytes * bytes)) : Prop := {
  ho_order : order c = map cache_key l;
  ho_seen : seen c = list_to_set (order c);
  ho_nodup : NoDup (order c);
  ho_len : len l <= REPLAY_CACHE_CAP;
  ho_ids : Forall hello_id l
}.

Lemma last_n_snoc {A} n (l : list A) x : 0 < n -> last_n n (last_n n l ++ [x]) = last_n n (l ++ [x]).
Proof.
  intros Hn. unfold last_n. pose proof (len_nonneg l).
  destruct (Z.leb_spec (len l) n).
  - by replace (Z.to_nat (len l - n)) with 0%nat by lia.
  - assert (Hl : len (drop (Z.to_nat (len l - n)) l) = n) by (unfold len in *; rewrite length_drop; lia).
    rewrite !len_app, Hl. change (len [x]) with 1. replace (n + 1 - n) with 1 by lia.
    replace (Z.to_nat (len l + 1 - n)) with (1 + Z.to_nat (len l - n))%nat by lia.
    rewrite Nat.add_comm, <- drop_drop. f_equal.
    rewrite drop_app_le by (unfold len in *; lia). done.
Qed.

Lemma check_and_insert_spec c l x : holds c l -> hello_id x ->
  let '(fresh, c') := check_and_insert x.1 x.2 c in
  fresh = bool_decide (x ∉ l) /\ holds c' (if fresh then last_n REPLAY_CACHE_CAP (l ++ [x]) else l).
Proof.
  intros [Ho Hs Hn Hl Hi] Hx. unfold check_and_insert. change (x.1 ++ x.2) with (cache_key x).
  assert (Hin : cache_key x ∈ seen c <-> x ∈ l) by (rewrite Hs, Ho, elem_of_list_to_set; by apply key_elem).
  destruct (bool_decide_reflect (cache_key x ∈ seen c)) as [Hk|Hk].
  { rewrite bool_decide_false by (intros H; apply H, Hin, Hk). by split. }
  rewrite bool_decide_true by (intros H; apply Hk, Hin, H). split; [done|].
  assert (Hk' : cache_key x ∉ order c) by (intros H; apply Hk; rewrite Hs; by apply elem_of_list_to_set).
  assert (Hlen : len (order c) = len l) by (rewrite Ho; apply len_map). rewrite Hlen.
  assert (Hids : Forall hello_id (l ++ [x])) by (apply Forall_app; split; [done|by apply Forall_singleton]).
  destruct (Z.leb_spec REPLAY_CACHE_CAP (len l)) as [Hfull|Hroom].
  - destruct l as [|y l']; [done|]. rewrite Ho in *. cbn [map] in *. apply NoDup_cons in Hn as [Hy Hn].
    rewrite len_cons in Hl, Hfull. unfold last_n. cbn [app]. rewrite len_cons, len_app. change (len [x]) with 1.
    replace (Z.to_nat (1 + (len l' + 1) - REPLAY_CACHE_CAP)) with 1%nat by lia. cbn [drop].
    split; cbn [seen order].
    + by rewrite drop_0, map_app.
    + rewrite Hs. rewrite list_to_set_app_L. cbn [list_to_set]. set_solver.
    + apply NoDup_app. split; [done|]. split; [|apply NoDup_singleton].
      intros k Hkin ->%list_elem_of_singleton. apply Hk'. by apply elem_of_cons; right.
    + rewrite drop_0, len_app. change (len [x]) with 1. lia.
    + rewrite drop_0. by inversion Hids.
  - unfold last_n. rewrite len_app. change (len [x]) with 1.
    replace (Z.to_nat (len l + 1 - REPLAY_CACHE_CAP)) with 0%nat by lia. rewrite drop_0.
    split; cbn [seen order].
    + by rewrite Ho, map_app.
    + rewrite Hs, list_to_set_app_L. cbn [list_to_set]. set_solver.
    + apply NoDup_app. split; [done|]. split; [|apply NoDup_singleton].
      intros k Hkin ->%list_elem_of_singleton. by apply Hk'.
    + rewrite len_app. change (len [x]) with 1. lia.
    + done.
Qed.

Lemma offer_all_spec hellos c l adm c' : holds c (last_n REPLAY_CACHE_CAP l) -> Forall hello_id hellos ->
  offer_all hellos c = (adm, c') -> holds c' (last_n REPLAY_CACHE_CAP (l ++ adm)).
Proof.
  revert c l adm c'. induction hellos as [|[d n] hellos IH]; intros c l adm c' Hc Hh H; cbn [offer_all] in H.
  { injection H as <- <-. by rewrite app_nil_r. }
  apply Forall_cons_iff in Hh as [Hx Hh]. pose proof (check_and_insert_spec c _ (d, n) Hc Hx) as Hs. cbn [fst snd] in Hs.
  destruct (check_and_insert d n c) as [fresh c1]. destruct Hs as [_ Hc1].
  destruct (offer_all hellos c1) as [adm1 c2] eqn:Hr. injection H as <- <-.
  destruct fresh; [|by eapply IH]. rewrite last_n_snoc in Hc1 by done.
  replace (l ++ (d, n) :: adm1) with ((l ++ [(d, n)]) ++ adm1) by (by rewrite <- app_assoc). by eapply IH.
Qed.
Lemma holds_empty : holds empty_cache (last_n REPLAY_CACHE_CAP []).
Proof. by repeat constructor. Qed.

Section Claims.
Context {P : Primitives} {L : PrimitiveLaws} {K : PkPrimitives} {KL : PkLaws}.

(** C30: The replay cache is a sliding window: whatever hellos were offered to
    it, it never holds more than 4096 entries, and it admits a hello exactly
    when its device and nonce are not among the last 4096 it admitted; so a
    hello once admitted is refused until 4096 others have been. *)
Theorem replay_window hellos admitted c x : Forall hello_id hellos -> hello_id x ->
  offer_all hellos empty_cache = (admitted, c) ->
  ((check_and_insert x.1 x.2 c).1 = true <-> x ∉ last_n REPLAY_CACHE_CAP admitted) /\
  len (order c) <= REPLAY_CACHE_CAP /\ seen c = list_to_set (order c).
Proof.
  intros Hh Hx H. pose proof (offer_all_spec hellos empty_cache [] admitted c holds_empty Hh H) as Hc. cbn [app] in Hc.
  pose proof (check_and_insert_spec c _ x Hc Hx) as Hs. destruct (check_and_insert x.1 x.2 c) as [fresh c1]. destruct Hs as [-> _].
  destruct Hc as [Ho Hseen _ Hl _]. cbn [fst]. split; [apply bool_decide_eq_true|]. split; [|done]. by rewrite Ho, len_map.
Qed.

(** C8: An undisturbed handshake completes: for any two devices, endpoints and
    draws, with clocks at most 300 seconds apart and a hello the responder
    has not seen, the four messages are all accepted, both sides end done,
    they hold the same control, transfer and resumption secrets, and each
    names the other's device and endpoint. *)
Theorem handshake_completes seedA epA dA seedB epB dB e1 s1 now cache : start_ok epA dA -> hello_ok epB dB ->
  Z.abs (sd_now dA - now) <= TIMESTAMP_WINDOW_SECS ->
  (check_and_insert (device_id (public (from_seed seedA))) (sd_nonce dA) cache).1 = true ->
  exists i0 ch sh r1 cache' cf i1 sf kB r2 kA i2,
    start (from_seed seedA) epA epB dA = Ok (i0, ch) /\
    on_client_hello dB now (new_responder (from_seed seedB) epB) ch epA cache = (Ok sh, r1, cache') /\
    on_server_hello e1 s1 i0 sh = (Ok cf, i1) /\
    on_client_finish r1 cf = (Ok (sf, kB), r2) /\
    on_server_finish i1 sf = (Ok kA, i2) /\
    i_state i2 = InitiatorDone /\ r_state r2 = ResponderDone /\ same_secrets kA kB /\
    role kA = RoleInitiator /\ role kB = RoleResponder /\
    peer kA = public (from_seed seedB) /\ peer kB = public (from_seed seedA) /\
    peer_endpoint_id kA = epB /\ peer_endpoint_id kB = epA.
Proof.
  intros HA HB Hnow Hf. destruct (honest_handshake seedA epA dA seedB epB dB e1 s1 now cache HA HB Hnow Hf)
    as (i0 & ch & sh & r1 & cache' & cf & i1 & sf & kB & r2 & kA & i2 & H1 & H2 & H3 & H4 & H5 & H6 & H7 & H8 & H9 & H10 & H11 & H12 & H13 & H14 & _).
  exists i0, ch, sh, r1, cache', cf, i1, sf, kB, r2, kA, i2. exact (conj H1 (conj H2 (conj H3 (conj H4 (conj H5 (conj H6 (conj H7 (conj H8 (conj H9 (conj H10 (conj H11 (conj H12 (conj H13 H14))))))))))))).
Qed.

(** C7: Agreement against an active network: whatever bytes were delivered to
    each side, if both sides completed and hold the same transcript hash,
    and SHA-384 does not collide on the two transcripts, then the responder
    answered exactly the initiator's ClientHello and the initiator read
    exactly the responder's ServerHello, so no negotiated field was
    rewritten on the way; all secrets are the same, and each side's peer is
    the device and the endpoint the other one really is. *)
Theorem sessions_agree seedA epA dialed dA seedB epB dB e1 s1 sh_in sf_in ch_in cf_in now observed cache
    i0 ch i1 cf i2 kA r1 sh cache' r2 sf kB fA fB :
  start_ok epA dA -> hello_ok epB dB -> bytes_ok sh_in -> bytes_ok ch_in -> bytes_ok cf_in ->
  start (from_seed seedA) epA dialed dA = Ok (i0, ch) ->
  on_server_hello e1 s1 i0 sh_in = (Ok cf, i1) -> on_server_finish i1 sf_in = (Ok kA, i2) ->
  on_client_hello dB now (new_responder (from_seed seedB) epB) ch_in observed cache = (Ok sh, r1, cache') ->
  on_client_finish r1 cf_in = (Ok (sf, kB), r2) ->
  s_th2 kA = s_th2 kB -> decode_client_finish cf = Ok fA -> decode_client_finish cf_in = Ok fB ->
  no_collision (transcript2 ch sh_in fA) (transcript2 ch_in sh fB) ->
  ch_in = ch /\ sh_in = sh /\ cf_ct_to_b fA = cf_ct_to_b fB /\ same_secrets kA kB /\
  peer kA = public (from_seed seedB) /\ peer kB = public (from_seed seedA) /\
  peer_endpoint_id kA = epB /\ epB = dialed /\ peer_endpoint_id kB = epA /\ epA = observed.
Proof. apply agreement. Qed.

(** C9: What a responder admits: it answers a ClientHello only as its first
    message, when the bytes are a canonical hello with this protocol's ALPN,
    Standalone Mode, the mandatory suite among those offered, PQC required
    at level 1 or more, the endpoint the transport observed, a timestamp
    within 300 seconds of its clock, and a device and nonce the replay cache
    admits; the cache it leaves has the hello recorded. *)
Theorem responder_admits dB now r ch_bytes observed cache sh r' cache' : bytes_ok ch_bytes ->
  on_client_hello dB now r ch_bytes observed cache = (Ok sh, r', cache') ->
  r_state r = AwaitClientHello /\
  exists ch, ch_bytes = cbor (client_hello_value ch) /\ client_hello_wf ch /\
    ch_alpn ch = ALPN /\ ch_handshake_mode ch = MODE_STANDALONE /\ SUITE_ID ∈ ch_suites ch /\
    ch_pqc_required ch = true /\ 1 <= ch_minimum_security_level ch /\ ch_endpoint_id ch = observed /\
    Z.abs (ch_timestamp ch - now) <= TIMESTAMP_WINDOW_SECS /\
    check_and_insert (device_id (ch_cert ch)) (ch_nonce ch) cache = (true, cache').
Proof.
  intros Hok H. unfold on_client_hello in H. destruct (r_state r); try done. split; [done|].
  destruct (decode_client_hello ch_bytes) as [ch|e|] eqn:Hd; cbn [rbind] in H; [|done..].
  destruct (check_client_hello ch observed now) as [[]|e|] eqn:Hc; cbn [rbind] in H; [|done..].
  destruct (check_and_insert _ _ cache) as [[|] c1] eqn:Hci; cbn [negb] in H; [|done].
  destruct (answer_client_hello _ _ _ _ _) as [[o st]|e|]; [|done..]. injection H as _ _ <-.
  apply client_hello_canonical in Hd as [-> Hw]; [|done]. apply check_client_hello_ok in Hc as (H1 & H2 & H3 & H4 & H5 & H6 & H7).
  exists ch. by split_and!.
Qed.

(** A step that did succeed refutes "no answer". *)
Ltac no_ok :=
  cbn; try match goal with |- (forall x, Ok ?y <> Ok x) -> _ => let H := fresh in intros H; by destruct (H y) end.

(** Both machines fail closed: every step of either machine either
    succeeds or leaves it failed for good; a machine that is done, failed or
    given a message out of turn answers with the state error. *)
Theorem handshake_fails_closed e1 s1 dB now i r m observed cache :
  let a := on_server_hello e1 s1 i m in let b := on_server_finish i m in
  let '(c, r1, _) := on_client_hello dB now r m observed cache in let d := on_client_finish r m in
  ((forall x, a.1 <> Ok x) -> i_state a.2 = InitiatorFailed) /\ ((forall x, b.1 <> Ok x) -> i_state b.2 = InitiatorFailed) /\
  ((forall x, c <> Ok x) -> r_state r1 = ResponderFailed) /\ ((forall x, d.1 <> Ok x) -> r_state d.2 = ResponderFailed) /\
  (i_state i = InitiatorDone \/ i_state i = InitiatorFailed -> a.1 = Err State /\ b.1 = Err State) /\
  (r_state r = ResponderDone \/ r_state r = ResponderFailed -> c = Err State /\ d.1 = Err State) /\
  (forall x, b.1 = Ok x -> i_state b.2 = InitiatorDone) /\ (forall x, d.1 = Ok x -> r_state d.2 = ResponderDone).
Proof.
  cbv zeta. destruct (on_client_hello dB now r m observed cache) as [[c r1] c'] eqn:Hc.
  unfold on_server_hello, on_server_finish, on_client_finish, on_client_hello in *.
  split_and!.
  - destruct (i_state i); try done. by destruct (answer_server_hello _ _ _ _ _ _ _ _) as [[]|?|]; no_ok.
  - destruct (i_state i); try done. destruct (decode_server_finish m); try done. by destruct (negb _); no_ok.
  - destruct (r_state r); try (by injection Hc as <- <- <-).
    destruct (rbind _ _) as [ch|?|]; try (by injection Hc as <- <- <-).
    destruct (check_and_insert _ _ cache) as [[|] ?]; cbn [negb] in Hc; try (by injection Hc as <- <- <-).
    by destruct (answer_client_hello _ _ _ _ _) as [[]|?|]; injection Hc as <- <- <-; no_ok.
  - destruct (r_state r); try done. by destruct (accept_client_finish _ _ _ _ _ _ _ _ _ _) as [[]|?|]; no_ok.
  - by intros [-> | ->].
  - intros [Hr|Hr]; rewrite Hr in *; by injection Hc as <- <- <-.
  - destruct (i_state i); try done. destruct (decode_server_finish m); try done. by destruct (negb _).
  - destruct (r_state r); try done. by destruct (accept_client_finish _ _ _ _ _ _ _ _ _ _) as [[]|?|].
Qed.
End Claims.

(** ** Concrete runs *)
Module HandshakeWitness.
Import Toy ToyPk.

Definition the {A E} (d : A) (r : result E A) : A := match r with Ok a => a | _ => d end.
Definition seed_a : bytes := replicate 32 11.
Definition seed_b : bytes := replicate 32 22.
Definition endpoint_a : bytes := replicate 32 1.
Definition endpoint_b : bytes := replicate 32 2.
Definition draws_a : StartDraws := mkStartDraws (replicate 32 3) (replicate 64 4) (replicate 32 5) 1000.
Definition draws_b : HelloDraws :=
  mkHelloDraws (replicate 32 6) (replicate 64 7) (replicate 32 8) (replicate 32 9) (replicate 32 10).

Definition started : Initiator * bytes :=
  the (mkInitiator (from_seed seed_a) InitiatorFailed, []) (start (from_seed seed_a) endpoint_a endpoint_b draws_a).
Definition ch_bytes : bytes := Eval vm_compute in started.2.
Definition hello_step := on_client_hello draws_b 1100 (new_responder (from_seed seed_b) endpoint_b) ch_bytes endpoint_a empty_cache.
Definition sh_bytes : bytes := Eval vm_compute in the [] hello_step.1.1.
Definition reply_step := on_server_hello (replicate 32 12) (replicate 32 13) started.1 sh_bytes.
Definition cf_bytes : bytes := Eval vm_compute in the [] reply_step.1.
Definition finish_step := on_client_finish hello_step.1.2 cf_bytes.
Definition keys_b : SessionKeys := (the ([], session RoleResponder (mkDerived [] [] [] [] [] [] []) [] (public (from_seed seed_b)) []) finish_step.1).2.
Definition sf_bytes : bytes := Eval vm_compute in (the ([], keys_b) finish_step.1).1.
Definition done_step := on_server_finish reply_step.2 sf_bytes.
Definition keys_a : SessionKeys := the keys_b done_step.1.
Definition finish_message : ClientFinish := Eval vm_compute in the (mkClientFinish [] None None) (decode_client_finish cf_bytes).

Lemma start_ok_a : start_ok endpoint_a draws_a.
Proof. repeat split; try (by apply bytes_ok_check); done. Qed.
Lemma hello_ok_b : hello_ok endpoint_b draws_b.
Proof. repeat split; try (by apply bytes_ok_check); done. Qed.
Lemma ran : start (from_seed seed_a) endpoint_a endpoint_b draws_a = Ok (started.1, ch_bytes) /\
  on_client_hello draws_b 1100 (new_responder (from_seed seed_b) endpoint_b) ch_bytes endpoint_a empty_cache
    = (Ok sh_bytes, hello_step.1.2, hello_step.2) /\
  on_server_hello (replicate 32 12) (replicate 32 13) started.1 sh_bytes = (Ok cf_bytes, reply_step.2) /\
  on_client_finish hello_step.1.2 cf_bytes = (Ok (sf_bytes, keys_b), finish_step.2) /\
  on_server_finish reply_step.2 sf_bytes = (Ok keys_a, done_step.2) /\ s_th2 keys_a = s_th2 keys_b /\
  decode_client_finish cf_bytes = Ok finish_message.
Proof. split_and!; vm_compute; reflexivity. Qed.
Lemma messages_ok : bytes_ok ch_bytes /\ bytes_ok sh_bytes /\ bytes_ok cf_bytes.
Proof. split_and!; apply bytes_ok_check; vm_compute; reflexivity. Qed.

Lemma handshake_completes_witness : exists i0 ch sh r1 cache' kB kA,
  start (from_seed seed_a) endpoint_a endpoint_b draws_a = Ok (i0, ch) /\
  on_client_hello draws_b 1100 (new_responder (from_seed seed_b) endpoint_b) ch endpoint_a empty_cache = (Ok sh, r1, cache') /\
  same_secrets kA kB.
Proof.
  destruct (handshake_completes seed_a endpoint_a draws_a seed_b endpoint_b draws_b (replicate 32 12) (replicate 32 13) 1100
    empty_cache start_ok_a hello_ok_b) as (i0 & ch & sh & r1 & cache' & cf & i1 & sf & kB & r2 & kA & i2 & H1 & H2 & _ & _ & _ & _ & _ & H3 & _).
  - vm_compute. discriminate.
  - reflexivity.
  - exists i0, ch, sh, r1, cache', kB, kA. split; [exact H1|]. split; [exact H2|exact H3].
Defined.

Lemma sessions_agree_witness : same_secrets keys_a keys_b /\ peer keys_a = public (from_seed seed_b) /\
  peer keys_b = public (from_seed seed_a).
Proof.
  destruct ran as (R1 & R2 & R3 & R4 & R5 & R6 & R7). destruct messages_ok as (M1 & M2 & M3).
  destruct (sessions_agree seed_a endpoint_a endpoint_b draws_a seed_b endpoint_b draws_b (replicate 32 12) (replicate 32 13)
    sh_bytes sf_bytes ch_bytes cf_bytes 1100 endpoint_a empty_cache
    started.1 ch_bytes reply_step.2 cf_bytes done_step.2 keys_a hello_step.1.2 sh_bytes hello_step.2 finish_step.2 sf_bytes keys_b
    finish_message finish_message
    start_ok_a hello_ok_b M2 M1 M3 R1 R3 R5 R2 R4 R6 R7 R7 (fun _ => eq_refl)) as (_ & _ & _ & H1 & H2 & H3 & _).
  split; [exact H1|]. split; [exact H2|exact H3].
Defined.

Lemma responder_admits_witness : exists ch, ch_bytes = cbor (client_hello_value ch) /\ ch_endpoint_id ch = endpoint_a.
Proof.
  destruct ran as (_ & R2 & _). destruct messages_ok as (M1 & _ & _).
  destruct (responder_admits draws_b 1100 (new_responder (from_seed seed_b) endpoint_b) ch_bytes endpoint_a empty_cache
    sh_bytes hello_step.1.2 hello_step.2 M1 R2) as (_ & ch & H1 & _ & _ & _ & _ & _ & _ & H2 & _).
  exists ch. split; [exact H1|exact H2].
Defined.

Definition hello_of (n : Z) : bytes * bytes := (replicate 32 n, replicate 32 (n + 1)).
Lemma hello_ids ns : forallb (fun n => (0 <=? n) && (n <? 255)) ns = true -> Forall hello_id (map hello_of ns).
Proof.
  intros H. rewrite Forall_map. apply Forall_forall. intros n Hn.
  assert (Hb : 0 <= n < 255) by (rewrite forallb_forall in H; specialize (H n ltac:(by apply list_elem_of_In)); lia).
  repeat split; cbn [hello_of fst snd]; apply Forall_replicate; split; lia.
Qed.
Definition offered := offer_all (map hello_of [1; 2; 1; 3]) empty_cache.
Lemma replay_window_witness : offered.1 = map hello_of [1; 2; 3] /\
  (check_and_insert (hello_of 2).1 (hello_of 2).2 offered.2).1 <> true /\
  (check_and_insert (hello_of 9).1 (hello_of 9).2 offered.2).1 = true.
Proof.
  assert (Hids : Forall hello_id (map hello_of [1; 2; 1; 3])) by (apply hello_ids; reflexivity).
  assert (Hrun : offer_all (map hello_of [1; 2; 1; 3]) empty_cache = (offered.1, offered.2)) by reflexivity.
  assert (Hadm : offered.1 = map hello_of [1; 2; 3]) by (vm_compute; reflexivity).
  split; [exact Hadm|]. split.
  - destruct (replay_window _ _ _ (hello_of 2) Hids (Forall_inv (hello_ids [2] eq_refl)) Hrun) as [H _].
    rewrite H, Hadm. intros Hno. apply Hno. right. left.
  - destruct (replay_window _ _ _ (hello_of 9) Hids (Forall_inv (hello_ids [9] eq_refl)) Hrun) as [H _].
    rewrite H, Hadm. apply (bool_decide_unpack _). vm_compute. exact I.
Defined.

Definition hello_a : ClientHello := client_hello (from_seed seed_a) endpoint_a draws_a.
Definition hello_b : ServerHello := Eval vm_compute in
  the (mkServerHello 0 0 [] 0 [] [] [] [] (public (from_seed seed_b)) [] None) (decode_server_hello sh_bytes).
Definition resume_a : ResumptionHello := new_resumption_hello (replicate 48 1) endpoint_a (replicate 32 5) 1000.
Lemma hello_roundtrip_witness :
  exists e, encode_server_hello (E := HandshakeError) hello_b true = Ok e /\ decode_server_hello e = Ok hello_b.
Proof.
  destruct messages_ok as (M1 & M2 & M3).
  assert (Hb : signed_wf hello_b) by (apply (server_hello_canonical sh_bytes _ M2); vm_compute; reflexivity).
  assert (Hf : client_finish_wf finish_message) by (apply (client_finish_canonical cf_bytes _ M3); vm_compute; reflexivity).
  assert (Hr : resumption_hello_wf resume_a).
  { unfold resumption_hello_wf. split_and!; try reflexivity; try done;
      try (split; [reflexivity|by apply bytes_ok_check]). }
  destruct (sh_signature hello_b) as [s|] eqn:E1; [|discriminate E1].
  destruct (cf_signature finish_message) as [s2|] eqn:E2; [|discriminate E2].
  destruct (cf_finished_mac finish_message) as [mac|] eqn:E3; [|discriminate E3].
  destruct (hello_roundtrip hello_a hello_b s finish_message s2 mac resume_a [] hello_a hello_b
    (client_hello_ok seed_a endpoint_a draws_a start_ok_a) Hb E1 Hf E2 E3 Hr (Forall_nil_2 _)) as (_ & H & _).
  exact H.
Defined.
End HandshakeWitness.
