(* ===== verification/OfferExchange.v ===== *)
(** * The offer between the handshake and the first request (transfer.rs)

    The part of [send_pending] that wraps the file secrets, builds both
    manifests and signs the offer, and the part of [receive_file] that turns
    the offer's bytes into the object it will receive, with every check in
    between.  The clock and the random draws are arguments. *)

From stdpp Require Import gmap.
From S2P Require Import Prelude Cbor Wire Crypto Merkle Keys Identity Object Extension Manifest Offer Resume Framing Sender Receiver HandshakeMsg Handshake.
#[local] Open Scope Z_scope.

(** The draws of the sender: the nonces of the envelope and of the sealed
    manifest, and the randomness of the signature. *)
Record OfferDraws : Type := mkOfferDraws { od_envelope : bytes; od_manifest : bytes; od_signature : bytes }.

(** transfer.rs 872-900 [send_pending] *)
Definition private_manifest_for (device : bytes) (scope : RecipientScope) (p : PendingTransfer) (now : Z) (file_name : bytes)
  : PrivateManifest :=
  mkPrivate device device scope file_name file_name (lit "application/octet-stream")
    (Object.logical_plaintext_size (p_ctx p)) (p_plaintext_digest p) now None
    [mkPrivateObject (Keys.object_id (p_secrets p)) ROLE_PRIMARY 0]
    (mkKeyPolicy 0 1 true)
    (mkRetention (wrap 64 (now + ENVELOPE_TTL_SECS)) false true).
(** transfer.rs 910-929 [send_pending] *)
Definition public_manifest_for {P : Primitives} (p : PendingTransfer) (now : Z) (sealed : SealedManifest) : PublicManifest :=
  let ctx := p_ctx p in
  mkPublicManifest 0 SUITE_ID (Keys.transfer_id (p_secrets p)) now (wrap 64 (now + ENVELOPE_TTL_SECS)) ROUTE_BALANCED
    [mkObject (Keys.object_id (p_secrets p)) ROLE_PRIMARY (p_ciphertext_root p) (ciphertext_size ctx)
       (Object.chunk_ciphertext_size ctx) (Object.chunk_count ctx) (Object.padding_policy ctx)]
    (ciphertext_hash sealed) CAPABILITY_SCHEME.

Section Exchange.
Context {P : Primitives} {K : PkPrimitives}.

(** The public manifest and the offer that commits to it.
    transfer.rs 855-951 [send_pending] *)
Definition build_offer (identity : DeviceIdentity) (local_endpoint_id : bytes) (s : SessionKeys) (p : PendingTransfer)
    (now : Z) (file_name : bytes) (d : OfferDraws) : result TransferError (PublicManifest * TransferOffer) :=
  let recipient := device_id (peer s) in
  let* envelope := map_err (fun _ => Crypto "envelope")
    (seal_envelope (p_secrets p) (s_transfer_wrap_key s) now (wrap 64 (now + ENVELOPE_TTL_SECS))
       (id_device_id identity) recipient (od_envelope d)) in
  let scope := device_scope recipient in
  let private := private_manifest_for (id_device_id identity) scope p now file_name in
  let* sealed := map_err (fun _ => Crypto "private manifest")
    (seal_private_manifest private (manifest_key (p_schedule p)) (Keys.transfer_id (p_secrets p))
       (Keys.object_id (p_secrets p)) (od_manifest d)) in
  let pm := public_manifest_for p now sealed in
  let* _ := map_err (fun _ => Crypto "public manifest") (validate pm) in
  let* offer := map_err (fun _ => Crypto "transfer offer")
    (create identity pm sealed [mkEntry recipient (env_nonce envelope) (env_ciphertext envelope)]
       [mkProvider KIND_SENDER_DEVICE local_endpoint_id] scope (od_signature d)) in
  Ok (pm, offer).

(** What the offer fixes for the rest of [receive_file]. *)
Record Accepted : Type := mkAccepted { a_secrets : FileSecrets; a_env : RecvEnv; a_identity : ObjectIdentity }.

(** The envelope addressed to this device, opened and checked.
    transfer.rs 1166-1182 [receive_file] *)
Definition open_entry (device : bytes) (s : SessionKeys) (now : Z) (offer : TransferOffer) : result TransferError OpenedEnvelope :=
  let* entry := (match envelope_for offer device with
                 | Some e => Ok e
                 | None => Err (Crypto "no key envelope for this device")
                 end) in
  let* opened := map_err (fun _ => Crypto "envelope")
    (open_envelope_at (mkSealed (ke_nonce entry) (ke_ciphertext entry)) (s_transfer_wrap_key s) now) in
  if negb (bytes_eqb (sender_device_id opened) (device_id (peer s)))
     || negb (bytes_eqb (recipient_device_id opened) device)
  then Err (Crypto "envelope binding") else
  Ok opened.
(** The object both manifests describe.
    transfer.rs 1222-1237 [receive_file] *)
Definition agreed_context (secrets : FileSecrets) (object : ObjectPublic) (private : PrivateManifest)
  : result TransferError ObjectContext :=
  let* chunk := map_err (fun _ => Protocol "bad chunk size")
    (chunk_plaintext_size_from_ciphertext (op_chunk_ciphertext_size object)) in
  let* ctx := map_err (fun _ => Protocol "bad object parameters")
    (for_file (Keys.transfer_id secrets) (Keys.object_id secrets) (pv_logical_plaintext_size private) chunk) in
  if negb (Object.chunk_count ctx =? op_chunk_count object)
     || negb (Object.padding_policy ctx =? op_padding_policy object)
     || negb (Object.object_role ctx =? op_object_role object)
  then Err (Protocol "manifest inconsistent with object") else
  Ok ctx.
(** [device] is this device's id and [s] the session of the handshake.
    transfer.rs 1146-1258 [receive_file] *)
Definition accept_offer (device : bytes) (s : SessionKeys) (now : Z) (offer_bytes : bytes) : result TransferError Accepted :=
  let* offer := map_err (fun _ => Protocol "bad transfer offer") (decode_offer offer_bytes) in
  if negb (bytes_eqb (device_id (sender_device offer)) (device_id (peer s)))
  then Err (Crypto "offer signer is not the session peer") else
  let scope := device_scope device in
  let* pm := map_err (fun _ => Crypto "transfer offer") (verify offer scope now) in
  let* opened := open_entry device s now offer in
  let secrets := Keys.secrets opened in
  if negb (bytes_eqb (pm_transfer_id pm) (Keys.transfer_id secrets))
  then Err (Crypto "manifest/envelope transfer id mismatch") else
  let* object := (match primary pm with Some o => Ok o | None => Err (Protocol "no primary object") end) in
  if negb (bytes_eqb (op_object_id object) (Keys.object_id secrets))
  then Err (Crypto "manifest/envelope object id mismatch") else
  let schedule := key_schedule secrets in
  let* private := map_err (fun _ => Crypto "private manifest")
    (open_private_manifest (sealed_manifest offer) (manifest_key schedule) (Keys.transfer_id secrets)
       (Keys.object_id secrets) (device_id (peer s)) scope) in
  let* differs := (if negb (len (pv_objects private) =? len (objects pm)) then Ok true else
                   match pv_objects private with
                   | o :: _ => Ok (negb (bytes_eqb (or_object_id o) (op_object_id object))
                                   || negb (or_object_role o =? op_object_role object))
                   | [] => Panic
                   end) in
  if (differs : bool) then Err (Protocol "manifest object mismatch") else
  let* ctx := agreed_context secrets object private in
  let* ctx_hash := map_err (fun _ => Crypto "object context") (context_hash ctx) in
  let* c := map_err (fun _ => Crypto "commitment") (Offer.manifest_commitment offer) in
  Ok (mkAccepted secrets
        (mkEnv ctx ctx_hash schedule (op_ciphertext_root object) (pv_plaintext_digest private))
        (Resume.mkIdentity (Keys.transfer_id secrets) (Keys.object_id secrets) c (op_ciphertext_root object)
           (Object.chunk_count ctx) (op_chunk_ciphertext_size object) (Object.logical_plaintext_size ctx))).
End Exchange.

(** ** An honest offer *)
(** What [for_file] makes of a file, and of the file's ciphertext. *)
Lemma context_sizes tid oid size chunk c : u64 size -> for_file tid oid size chunk = Ok c ->
  chunk ∈ ALLOWED_CHUNK_SIZES /\ Object.padding_policy c = PADDING_NONE /\ Object.object_role c = ROLE_PRIMARY /\
  ciphertext_size c = Object.encoded_plaintext_size c + Object.chunk_count c * AEAD_TAG_LEN /\
  0 <= ciphertext_size c <= Object.chunk_count c * Object.chunk_ciphertext_size c /\
  Object.chunk_count c * Object.chunk_ciphertext_size c < 2 ^ 55 /\
  (if Object.chunk_count c =? 0 then ciphertext_size c = 0 else
   (Object.chunk_count c - 1) * Object.chunk_ciphertext_size c + AEAD_TAG_LEN < ciphertext_size c).
Proof.
  intros Hs Hf. destruct (for_file_geometry tid oid size chunk c Hs Hf) as ([[? _] Hc Hn Hcov Hend] & He & Hch & _).
  assert (chunk ∈ ALLOWED_CHUNK_SIZES /\ Object.padding_policy c = PADDING_NONE /\ Object.object_role c = ROLE_PRIMARY) as (? & ? & ?).
  { unfold for_file in Hf. case_bool_decide; [|done]. cbn [negb] in Hf. case_match; [done|].
    by apply Ok_inj in Hf as <-. }
  unfold ciphertext_size, Object.chunk_ciphertext_size, AEAD_TAG_LEN, Object.MAX_CHUNK_COUNT, uint_range in *.
  set (n := Object.chunk_count c) in *. set (k := chunk_plaintext_size c) in *. set (e := Object.encoded_plaintext_size c) in *.
  assert (Hnk : 0 <= n * k <= 2 ^ 54) by (split; [nia|]; transitivity (2 ^ 32 * 2 ^ 22); [nia|lia]).
  assert (Hw : wrap 64 (e + wrap 64 (n * 16)) = e + n * 16) by (unfold wrap; rewrite !Z.mod_small by (rewrite ?Z.mod_small by lia; lia); lia).
  rewrite Hw. destruct (Z.eqb_spec n 0) as [Hz|Hz]; [rewrite Hz in *; split_and!; try done; lia|].
  split_and!; try done; lia.
Qed.

Section Honest.
Context {P : Primitives} {L : PrimitiveLaws} {K : PkPrimitives} {KL : PkLaws}.

(** What an honest sender brings to the offer besides the prepared file: its
    secrets and draws have the lengths of their array types, the file name is
    a text within the manifest's limit, and the expiry does not pass the end
    of the clock. *)
Record sendable (p : PendingTransfer) (now : Z) (file_name : bytes) (d : OfferDraws) : Prop := {
  se_secrets : secrets_wf (p_secrets p);
  se_now : 0 <= now /\ now + ENVELOPE_TTL_SECS < 2 ^ 64;
  se_name : text_string file_name /\ len file_name <= MAX_TEXT_LEN;
  se_draws : array 24 (od_envelope d) /\ array 24 (od_manifest d)
}.

Lemma private_for_wf p src chunk now file_name d device scope : prepared p src -> u64 (len src) ->
  for_file (Keys.transfer_id (p_secrets p)) (Keys.object_id (p_secrets p)) (len src) chunk = Ok (p_ctx p) ->
  sendable p now file_name d -> array 32 device -> scope_wf scope ->
  let m := private_manifest_for device scope p now file_name in
  private_wf m /\ within_limits m /\ validate_private m = Ok tt.
Proof.
  intros Hp Hs Hf [[Hts [Hos _]] [Hn1 Hn2] [Ht Hl] _] Hdev Hscope. cbv zeta.
  unfold private_manifest_for. split_and!.
  - unfold private_wf; cbn [sender_account_id pv_sender_device_id recipient_scope display_name original_filename mime_type
      pv_logical_plaintext_size pv_plaintext_digest pv_created_at user_caption pv_objects key_policy retention_policy].
    rewrite (pr_logical _ _ Hp), (pr_digest _ _ Hp). unfold ENVELOPE_TTL_SECS, uint_range in *.
    split_and!; try done; try lia; try apply blake3_len.
    + split; [split|]; [by apply bytes_ok_check|split; [apply len_nonneg|done]|by vm_compute].
    + constructor; [|constructor]. split; [done|]. by split.
    + unfold retention_wf, wrap; cbn. unfold uint_range. rewrite Z.mod_small; lia.
  - unfold within_limits; cbn. split_and!; try done.
  - reflexivity.
Qed.
Lemma public_for_wf p src chunk now file_name d sealed : prepared p src -> u64 (len src) ->
  for_file (Keys.transfer_id (p_secrets p)) (Keys.object_id (p_secrets p)) (len src) chunk = Ok (p_ctx p) ->
  sendable p now file_name d ->
  let m := public_manifest_for p now sealed in
  public_wf m /\ validate m = Ok tt /\ pm_expires_at m = now + ENVELOPE_TTL_SECS /\ len (cbor (public_value m)) <= 1024.
Proof.
  intros Hp Hs Hf [[Hts [Hos _]] [Hn1 Hn2] _ _]. cbv zeta.
  destruct (context_sizes _ _ _ _ _ Hs Hf) as (Hch & Hpad & Hrole & _ & [Hc1 Hc2] & Hc3 & Hc4).
  destruct (for_file_geometry _ _ _ _ _ Hs Hf) as ([_ [Hk1 Hk2] [Hn3 Hn4] _ _] & _ & Hck & _).
  set (o := mkObject (Keys.object_id (p_secrets p)) ROLE_PRIMARY (p_ciphertext_root p) (ciphertext_size (p_ctx p))
    (Object.chunk_ciphertext_size (p_ctx p)) (Object.chunk_count (p_ctx p)) (Object.padding_policy (p_ctx p))).
  assert (He : wrap 64 (now + ENVELOPE_TTL_SECS) = now + ENVELOPE_TTL_SECS) by (unfold wrap, ENVELOPE_TTL_SECS in *; by rewrite Z.mod_small by lia).
  assert (Ho : object_wf o).
  { unfold object_wf; cbn. rewrite Hpad, (pr_root _ _ Hp), (pr_leaves _ _ Hp).
    unfold Object.chunk_ciphertext_size, AEAD_TAG_LEN, Object.MAX_CHUNK_COUNT, uint_range in *.
    split_and!; try done; try lia. apply root_array, committed_leaves_array. }
  assert (Hv : validate_object o = Ok tt).
  { apply validate_object_iff; [done| |].
    - unfold unwrapped; cbn. unfold Object.chunk_ciphertext_size, AEAD_TAG_LEN in *. lia.
    - unfold sized; cbn. unfold Object.chunk_ciphertext_size in *. split; [unfold AEAD_TAG_LEN; lia|].
      split; [rewrite Z.add_simpl_r; by rewrite Hck|]. destruct (Z.eqb_spec (Object.chunk_count (p_ctx p)) 0); [done|lia]. }
  unfold public_manifest_for; cbv zeta. fold o. split_and!.
  - unfold public_wf; cbn. rewrite He. unfold ENVELOPE_TTL_SECS, MAX_OBJECTS, uint_range in *.
    split_and!; try done; try lia; try apply blake3_len. by constructor.
  - apply validate_iff; cbn. rewrite He. unfold ENVELOPE_TTL_SECS. split_and!; try done; try lia.
    + apply NoDup_singleton.
    + by constructor.
  - exact He.
  - unfold public_value, public_entries; cbn [objects map]. pose proof (object_size o Ho). destruct (blake3_len (sm_nonce sealed ++ sm_ciphertext sealed)).
    destruct Hts as [Hts _]. cbn [protocol_minor suite_id pm_transfer_id pm_created_at pm_expires_at route_profile
      private_manifest_ciphertext_hash capability_scheme]. unfold ciphertext_hash in *. rewrite cbor_map, !entries_cons, cbor_array. unfold items; cbn [flat_map]. rewrite !app_nil_r. wsize.
Qed.
Lemma private_for_small p src now file_name d device scope : prepared p src -> sendable p now file_name d -> array 32 device ->
  len (scope_id scope) = 32 -> len (cbor (private_value (private_manifest_for device scope p now file_name))) <= 10000.
Proof.
  intros Hp [[_ [[Ho _] _]] _ [_ Hn] _] [Hd _] Hs. unfold private_value, private_entries, private_manifest_for, MAX_TEXT_LEN in *.
  cbn [sender_account_id pv_sender_device_id recipient_scope display_name original_filename mime_type pv_logical_plaintext_size
    pv_plaintext_digest pv_created_at user_caption pv_objects key_policy retention_policy caption_entries app map].
  rewrite (pr_digest _ _ Hp). destruct (blake3_len src) as [Hb _].
  assert (Hm : len (lit "application/octet-stream") = 24) by reflexivity.
  unfold private_object_value, private_object_entries, scope_value, key_policy_value, retention_value;
    cbn [or_object_id or_object_role or_relationship kp_mode kp_minimum_security_level kp_pqc_required rp_expires_at rp_view_once rp_allow_local_save].
  rewrite !cbor_map, !entries_cons, ?cbor_map, ?entries_cons, ?cbor_array. unfold items; cbn [flat_map]. rewrite ?cbor_map, ?entries_cons, ?app_nil_r. wsize.
Qed.
(** The offer as both sides see it. *)
Lemma build_spec i ep sA p src chunk now file_name d : signer i -> prepared p src -> u64 (len src) ->
  for_file (Keys.transfer_id (p_secrets p)) (Keys.object_id (p_secrets p)) (len src) chunk = Ok (p_ctx p) ->
  sendable p now file_name d -> array 32 ep -> array 32 (device_id (peer sA)) ->
  let dev := device_id (peer sA) in
  let m := private_manifest_for (id_device_id i) (device_scope dev) p now file_name in
  exists e s o, let pm := public_manifest_for p now s in
    build_offer i ep sA p now file_name d = Ok (pm, o) /\
    open_envelope e (s_transfer_wrap_key sA) = Ok (mkOpened (p_secrets p) SUITE_ID now (now + ENVELOPE_TTL_SECS) (id_device_id i) dev) /\
    open_private_manifest s (manifest_key (p_schedule p)) (Keys.transfer_id (p_secrets p)) (Keys.object_id (p_secrets p))
      (id_device_id i) (device_scope dev) = Ok m /\
    sealed_manifest o = s /\ key_envelopes o = [mkEntry dev (env_nonce e) (env_ciphertext e)] /\ sender_device o = public i /\
    encode_offer (E := OfferError) o = Ok (cbor (offer_value o)) /\ bytes_ok (cbor (offer_value o)) /\
    len (cbor (offer_value o)) <= 30000 /\ decode_offer (cbor (offer_value o)) = Ok o /\
    (forall now', now' < now + ENVELOPE_TTL_SECS -> verify o (device_scope dev) now' = Ok pm) /\
    Offer.manifest_commitment o = commitment pm.
Proof.
  intros Hi Hp Hs Hf Hse Hep Hdev dev m. pose proof Hse as [Hsec [Hn1 Hn2] [Ht Hl] [Hd1 Hd2]].
  pose proof Hi as [(Hid & _ & _) _]. cbn [public device_id] in Hid.
  assert (Hx : wrap 64 (now + ENVELOPE_TTL_SECS) = now + ENVELOPE_TTL_SECS) by (unfold wrap, ENVELOPE_TTL_SECS in *; by rewrite Z.mod_small by lia).
  assert (Hsc : scope_wf (device_scope dev)).
  { split; [by split|]. destruct Hdev as [Hdl Hdo]. split; [exact Hdo|]. cbn [device_scope scope_id]. fold dev in Hdl. rewrite Hdl. done. }
  destruct (seal_envelope_spec (p_secrets p) (s_transfer_wrap_key sA) now (now + ENVELOPE_TTL_SECS) (id_device_id i) dev SUITE_ID (od_envelope d))
    as (e & He & Hen & Hel & Heo & Hopen); [done|unfold ENVELOPE_TTL_SECS, uint_range in *; lia..|done|done|by split|done|].
  destruct (private_for_wf p src chunk now file_name d (id_device_id i) (device_scope dev) Hp Hs Hf Hse Hid Hsc) as (Hm1 & Hm2 & Hm3).
  destruct (seal_open m (manifest_key (p_schedule p)) (Keys.transfer_id (p_secrets p)) (Keys.object_id (p_secrets p)) (od_manifest d))
    as (s & Hseal & Hsn & Hso & Hsl & Hopen'); [done|done|done|rewrite (pr_schedule _ _ Hp); apply manifest_key_array|done|].
  destruct (public_for_wf p src chunk now file_name d s Hp Hs Hf Hse) as (Hw & Hv & Hexp & Hsize).
  pose proof (private_for_small p src now file_name d (id_device_id i) (device_scope dev) Hp Hse Hid ltac:(apply Hdev)) as Hsmall.
  set (pm := public_manifest_for p now s) in *.
  assert (Hct : byte_string (sm_ciphertext s)) by (apply (short_bytes _ 10016); [done|fold m in Hsmall; lia|done]).
  assert (Hes : Forall entry_wf [mkEntry dev (env_nonce e) (env_ciphertext e)]).
  { constructor; [|constructor]. split; [exact Hdev|]. cbn [ke_nonce ke_ciphertext]. rewrite Hen. split; [done|]. by apply (short_bytes _ 512). }
  destruct (create_accepted i pm s [mkEntry dev (env_nonce e) (env_ciphertext e)] [mkProvider KIND_SENDER_DEVICE ep] (device_scope dev) (od_signature d))
    as (o & Hc & Ho1 & Ho2 & Ho3 & Ho4 & Ho5 & Ho6 & Ho7 & Ho8 & Ho9 & Ho10 & Ho11); [done|done| |by rewrite Hsn|done|done| | |].
  { split_and!; try done. }
  { constructor; [|constructor]. destruct Hep as [Hel' Heo']. split; [by split|]. split; [exact Heo'|]. cbn. rewrite Hel'. done. }
  { split; [by split|]. split; [apply Hdev|]. cbn [device_scope scope_id]. assert (len dev = 32) as -> by apply Hdev. done. }
  exists e, s, o. fold pm.
  assert (Hlen : len (cbor (offer_value o)) <= 30000).
  { destruct Ho4 as (_ & [N1 _] & _ & _ & _ & _ & _ & ([D1 _] & [D2 _] & [D3 _]) & _ & ([S1 _] & [S2 _])).
    unfold offer_value, auth_value, device_value, signature_value, scope_value. rewrite Ho5, Ho6, Ho7, Ho2. rewrite Ho1 in *.
    cbn [map device_scope scope_type scope_id]. unfold entry_value, provider_value; cbn [ke_recipient ke_nonce ke_ciphertext pa_kind pa_address].
    assert (len dev = 32) by apply Hdev. assert (len ep = 32) by apply Hep. destruct Hd1 as [Hd1 _]. rewrite <- Hen in Hd1. fold m in Hsmall.
    unfold MLDSA65_VERIFICATION_KEY_LEN, MLDSA65_SIGNATURE_LEN in *.
    rewrite !cbor_map, !entries_cons, !cbor_array. unfold items; cbn [flat_map]. rewrite ?cbor_map, ?entries_cons, ?app_nil_r. wsize. }
  split; [|split; [exact Hopen|split; [exact Hopen'|split; [exact Ho1|split; [exact Ho2|split; [exact Ho3|split; [exact Ho8|]]]]]]].
  - unfold build_offer. rewrite Hx. unfold seal_envelope. fold dev. rewrite He. cbn [map_err rbind]. fold m. rewrite Hseal.
    cbn [map_err rbind]. fold pm. rewrite Hv. cbn [map_err rbind]. rewrite Hc. reflexivity.
  - split; [by apply cbor_bytes_ok, offer_value_ok|]. split; [exact Hlen|]. split; [apply Ho9; unfold MAX_CONTROL_SIZE; lia|].
    split; [|exact Ho11]. intros now' Hn'. apply Ho10. rewrite Hexp. exact Hn'.
Qed.
Lemma open_at e wk now now' o : open_envelope e wk = Ok o -> created_at o = now -> expires_at o = now + ENVELOPE_TTL_SECS ->
  u64 now' -> now + ENVELOPE_TTL_SECS < 2 ^ 64 -> now' < now + ENVELOPE_TTL_SECS -> now <= now' + 300 -> open_envelope_at e wk now' = Ok o.
Proof.
  intros Ho H1 H2 Hn Hx H3 H4. unfold open_envelope_at. rewrite Ho. cbn [rbind]. rewrite H1, H2.
  destruct (Z.leb_spec (now + ENVELOPE_TTL_SECS) now'); [lia|].
  destruct (Z.ltb_spec (saturating_add now' 300) now) as [Hlt|]; [|done].
  unfold saturating_add, U64_MAX, ENVELOPE_TTL_SECS, uint_range in *. lia.
Qed.
(** The receiver ends up with exactly the prepared transfer. *)
Lemma offer_exchange_spec i ep sA sB p src chunk now now' file_name d : signer i -> prepared p src -> u64 (len src) ->
  for_file (Keys.transfer_id (p_secrets p)) (Keys.object_id (p_secrets p)) (len src) chunk = Ok (p_ctx p) ->
  sendable p now file_name d -> array 32 ep -> array 32 (device_id (peer sA)) ->
  s_transfer_wrap_key sB = s_transfer_wrap_key sA -> device_id (peer sB) = id_device_id i ->
  u64 now' -> now' < now + ENVELOPE_TTL_SECS -> now <= now' + 300 ->
  exists pm o b a c, build_offer i ep sA p now file_name d = Ok (pm, o) /\ encode_offer (E := OfferError) o = Ok b /\
    bytes_ok b /\ len b <= 30000 /\ decode_offer b = Ok o /\ sender_device o = public i /\
    commitment (E := OfferError) pm = Ok c /\
    accept_offer (device_id (peer sA)) sB now' b = Ok a /\ a_secrets a = p_secrets p /\
    receives p (a_env a) /\ e_expected_digest (a_env a) = p_plaintext_digest p /\
    a_identity a = Resume.mkIdentity (Keys.transfer_id (p_secrets p)) (Keys.object_id (p_secrets p)) c (p_ciphertext_root p)
      (Object.chunk_count (p_ctx p)) (Object.chunk_ciphertext_size (p_ctx p)) (Object.logical_plaintext_size (p_ctx p)).
Proof.
  intros Hi Hp Hs Hf Hse Hep Hdev Hwk Hpeer Hn' Hlt Hskew.
  destruct (build_spec i ep sA p src chunk now file_name d Hi Hp Hs Hf Hse Hep Hdev)
    as (e & s & o & Hb & Hopen & Hopen' & Ho1 & Ho2 & Ho3 & He & Hok & Hlen & Hd & Hv & Hm). cbv zeta in *.
  set (dev := device_id (peer sA)) in *. set (pm := public_manifest_for p now s) in *.
  set (m := private_manifest_for (id_device_id i) (device_scope dev) p now file_name) in *.
  destruct (context_sizes _ _ _ _ _ Hs Hf) as (Hch & Hpad & Hrole & _).
  destruct (for_file_geometry _ _ _ _ _ Hs Hf) as ([_ [Hk1 Hk2] _ _ _] & _ & Hck & _).
  pose proof Hse as [_ [_ Hn2] _ _].
  eexists pm, o, (cbor (offer_value o)), _, _. split; [exact Hb|]. split; [exact He|]. split; [exact Hok|]. split; [exact Hlen|].
  split; [exact Hd|]. split; [exact Ho3|]. split; [apply commitment_eq|].
  assert (Hctx : agreed_context (p_secrets p) (mkObject (Keys.object_id (p_secrets p)) ROLE_PRIMARY (p_ciphertext_root p) (ciphertext_size (p_ctx p))
    (Object.chunk_ciphertext_size (p_ctx p)) (Object.chunk_count (p_ctx p)) (Object.padding_policy (p_ctx p))) m = Ok (p_ctx p)).
  { unfold agreed_context, chunk_plaintext_size_from_ciphertext; cbn [op_chunk_ciphertext_size op_chunk_count op_padding_policy op_object_role].
    unfold Object.chunk_ciphertext_size. destruct (Z.ltb_spec (chunk_plaintext_size (p_ctx p) + AEAD_TAG_LEN) AEAD_TAG_LEN); [lia|].
    rewrite Z.add_simpl_r. destruct (Z.leb_spec (chunk_plaintext_size (p_ctx p)) U32_MAX) as [|Hx]; [|unfold U32_MAX in Hx; lia].
    cbn [map_err rbind]. unfold wrap at 1. rewrite Z.mod_small by lia. unfold m, private_manifest_for; cbn [pv_logical_plaintext_size].
    rewrite (pr_logical _ _ Hp), Hck, Hf. cbn [map_err rbind]. by rewrite Hrole, !Z.eqb_refl. }
  split.
  - unfold accept_offer. rewrite Hd. cbn [map_err rbind]. rewrite Ho3, Hpeer. cbn [public device_id].
    rewrite bytes_eqb_refl. cbn [negb]. rewrite (Hv now' Hlt). cbn [map_err rbind].
    unfold open_entry, envelope_for. rewrite Ho2. cbn [find ke_recipient].
    assert (ct_eq dev dev = true) as -> by (by apply ct_eq_true). cbn [rbind ke_nonce ke_ciphertext].
    assert (mkSealed (env_nonce e) (env_ciphertext e) = e) as -> by by destruct e.
    rewrite Hwk. rewrite (open_at e _ now now' _ Hopen) by done. cbn [map_err rbind sender_device_id recipient_device_id Keys.secrets].
    rewrite Hpeer, !bytes_eqb_refl. cbn [negb orb rbind Keys.secrets].
    unfold pm at 1, public_manifest_for at 1; cbv zeta; cbn [pm_transfer_id]. rewrite bytes_eqb_refl. cbn [negb].
    assert (primary pm = Some (mkObject (Keys.object_id (p_secrets p)) ROLE_PRIMARY (p_ciphertext_root p) (ciphertext_size (p_ctx p))
      (Object.chunk_ciphertext_size (p_ctx p)) (Object.chunk_count (p_ctx p)) (Object.padding_policy (p_ctx p)))) as -> by reflexivity.
    cbn [rbind op_object_id]. rewrite bytes_eqb_refl. cbn [negb]. rewrite Ho1, <- (pr_schedule _ _ Hp), Hopen'. cbn [map_err rbind].
    assert (len (pv_objects m) =? len (objects pm) = true) as -> by reflexivity. cbn [negb].
    unfold m at 1, private_manifest_for at 1; cbn [pv_objects rbind or_object_id or_object_role]. rewrite bytes_eqb_refl. cbn [negb orb op_object_role].
    rewrite Z.eqb_refl. cbn [negb]. rewrite Hctx. cbn [rbind]. rewrite (pr_hash _ _ Hp). cbn [map_err rbind].
    rewrite Hm, commitment_eq. cbn [map_err rbind]. reflexivity.
  - cbn [a_secrets a_env a_identity e_expected_digest]. split; [reflexivity|]. split; [|split; [reflexivity|reflexivity]].
    unfold receives; cbn [e_ctx e_ctx_hash e_schedule e_root op_ciphertext_root]. split; [reflexivity|]. split; [reflexivity|]. split; reflexivity.
Qed.
End Honest.

(** ** What an accepted offer is *)
Section Claims.
Context {P : Primitives} {L : PrimitiveLaws} {K : PkPrimitives} {KL : PkLaws}.

(** The object of the public manifest agrees with the context. *)
Definition describes (object : ObjectPublic) (c : ObjectContext) : Prop :=
  op_object_id object = ctx_object_id c /\ op_chunk_count object = Object.chunk_count c /\
  op_chunk_ciphertext_size object = Object.chunk_ciphertext_size c /\
  op_padding_policy object = Object.padding_policy c /\ op_object_role object = Object.object_role c.
Lemma for_file_ids tid oid size chunk c : for_file tid oid size chunk = Ok c ->
  ctx_transfer_id c = tid /\ ctx_object_id c = oid /\ Object.logical_plaintext_size c = size /\ chunk_plaintext_size c = chunk.
Proof.
  unfold for_file. intros H. case_bool_decide; [|done]. cbn [negb] in H. destruct (MAX_CHUNK_COUNT <? _); [done|].
  by apply Ok_inj in H as <-.
Qed.
Lemma agreed_context_inv secrets object m c : agreed_context secrets object m = Ok c ->
  for_file (Keys.transfer_id secrets) (Keys.object_id secrets) (pv_logical_plaintext_size m) (chunk_plaintext_size c) = Ok c /\
  op_chunk_count object = Object.chunk_count c /\ op_chunk_ciphertext_size object = Object.chunk_ciphertext_size c /\
  op_padding_policy object = Object.padding_policy c /\ op_object_role object = Object.object_role c.
Proof.
  unfold agreed_context. intros H. minv H. minv Hk. apply map_err_inv in Hp, Hp0.
  destruct (negb _ || negb _ || negb _) eqn:E; [done|]. apply Ok_inj in Hk0 as <-.
  apply orb_false_iff in E as [[E1 E2]%orb_false_iff E3]. apply negb_false_iff, Z.eqb_eq in E1, E2, E3.
  destruct (for_file_ids _ _ _ _ _ Hp0) as (_ & _ & _ & Hc). rewrite Hc. split_and!; try done.
  unfold chunk_plaintext_size_from_ciphertext in Hp. destruct (Z.ltb_spec (op_chunk_ciphertext_size object) AEAD_TAG_LEN); [done|].
  destruct (Z.leb_spec (op_chunk_ciphertext_size object - AEAD_TAG_LEN) U32_MAX); [|done]. apply Ok_inj in Hp.
  unfold Object.chunk_ciphertext_size. rewrite Hc, <- Hp. unfold wrap, U32_MAX, AEAD_TAG_LEN in *. rewrite Z.mod_small by lia. lia.
Qed.
(** Everything [accept_offer] established about the offer [o]. *)
Record accepted (device : bytes) (s : SessionKeys) (now : Z) (o : TransferOffer) (a : Accepted) : Prop := {
  ac_signer : device_id (sender_device o) = device_id (peer s);
  ac_envelope : exists entry opened, entry ∈ key_envelopes o /\ ke_recipient entry = device /\
    open_envelope_at (mkSealed (ke_nonce entry) (ke_ciphertext entry)) (s_transfer_wrap_key s) now = Ok opened /\
    sender_device_id opened = device_id (peer s) /\ recipient_device_id opened = device /\ Keys.secrets opened = a_secrets a;
  ac_manifests : exists pm object m, verify o (device_scope device) now = Ok pm /\ primary pm = Some object /\
    open_private_manifest (sealed_manifest o) (manifest_key (key_schedule (a_secrets a))) (Keys.transfer_id (a_secrets a))
      (Keys.object_id (a_secrets a)) (device_id (peer s)) (device_scope device) = Ok m /\
    pm_transfer_id pm = Keys.transfer_id (a_secrets a) /\ describes object (e_ctx (a_env a)) /\
    for_file (Keys.transfer_id (a_secrets a)) (Keys.object_id (a_secrets a)) (pv_logical_plaintext_size m)
      (chunk_plaintext_size (e_ctx (a_env a))) = Ok (e_ctx (a_env a)) /\
    e_root (a_env a) = op_ciphertext_root object /\ e_expected_digest (a_env a) = pv_plaintext_digest m /\
    commitment (E := OfferError) pm = Ok (Resume.manifest_commitment (a_identity a));
  ac_keys : e_schedule (a_env a) = key_schedule (a_secrets a) /\ context_hash (e_ctx (a_env a)) = Ok (e_ctx_hash (a_env a));
  ac_identity : Resume.ciphertext_root (a_identity a) = e_root (a_env a) /\
    Resume.chunk_count (a_identity a) = Object.chunk_count (e_ctx (a_env a)) /\
    Resume.logical_plaintext_size (a_identity a) = Object.logical_plaintext_size (e_ctx (a_env a))
}.
Lemma open_entry_inv device s now o opened : open_entry device s now o = Ok opened ->
  sender_device_id opened = device_id (peer s) /\ recipient_device_id opened = device /\
  exists entry, entry ∈ key_envelopes o /\ ke_recipient entry = device /\
    open_envelope_at (mkSealed (ke_nonce entry) (ke_ciphertext entry)) (s_transfer_wrap_key s) now = Ok opened.
Proof.
  unfold open_entry, envelope_for. intros H. minv H. minv Hk. apply map_err_inv in Hp0.
  destruct (find _ _) as [e|] eqn:Hf; [|done]. apply Ok_inj in Hp as <-. apply find_some in Hf as [Hin He].
  apply ct_eq_true in He. destruct (negb _ || negb _) eqn:E; [done|]. apply Ok_inj in Hk0 as <-.
  apply orb_false_iff in E as [E1 E2]. apply negb_false_iff, bytes_eqb_true in E1, E2. split_and!; try done.
  exists e. split; [by apply list_elem_of_In|done].
Qed.
Lemma accept_offer_inv device s now b a : accept_offer device s now b = Ok a ->
  exists o, decode_offer b = Ok o /\ accepted device s now o a.
Proof.
  unfold accept_offer. intros H. minv H. apply map_err_inv in Hp. exists a0. split; [exact Hp|]. rename a0 into o.
  destruct (bytes_eqb (device_id (sender_device o)) _) eqn:E1; cbn [negb] in Hk; [apply bytes_eqb_true in E1|done].
  minv Hk. apply map_err_inv in Hp0. rename a0 into pm. minv Hk0. rename a0 into opened.
  apply open_entry_inv in Hp1 as (H1 & H2 & e & H3 & H4 & H5).
  destruct (bytes_eqb (pm_transfer_id pm) _) eqn:E2; cbn [negb] in Hk; [apply bytes_eqb_true in E2|done].
  minv Hk. destruct (primary pm) as [object|] eqn:Hprim; [|done]. apply Ok_inj in Hp1 as <-.
  destruct (bytes_eqb (op_object_id object) _) eqn:E3; cbn [negb] in Hk0; [apply bytes_eqb_true in E3|done].
  minv Hk0. apply map_err_inv in Hp1. rename a0 into m. minv Hk. destruct a0; [done|]. clear Hp2.
  minv Hk0. rename a0 into c. apply agreed_context_inv in Hp2 as (F & C1 & C2 & C3 & C4).
  destruct (for_file_ids _ _ _ _ _ F) as (_ & Hoid & _).
  minv Hk. apply map_err_inv in Hp2. rename a0 into h. minv Hk0. apply map_err_inv in Hp3. rename a0 into cm.
  apply Ok_inj in Hk as <-. unfold Offer.manifest_commitment in Hp3. minv Hp3. apply try_inv in Hp4.
  apply verify_iff in Hp0 as Hv. destruct Hv as (_ & _ & Hd & _). rewrite Hd in Hp4. apply Ok_inj in Hp4 as <-.
  split; cbn [a_secrets a_env a_identity e_ctx e_ctx_hash e_schedule e_root e_expected_digest Resume.manifest_commitment
    Resume.ciphertext_root Resume.chunk_count Resume.logical_plaintext_size].
  - exact E1.
  - exists e, opened. by split_and!.
  - exists pm, object, m. split; [exact Hp0|]. split; [exact Hprim|]. split; [exact Hp1|]. split; [exact E2|].
    split; [unfold describes; rewrite Hoid; by split_and!|]. split; [exact F|]. split; [reflexivity|]. split; [reflexivity|exact Hk].
  - split; [reflexivity|exact Hp2].
  - split; [reflexivity|]. split; reflexivity.
Qed.

(** C10: The offer carries the transfer: for every prepared file whose name fits
    the manifest, the sender builds an offer of at most 30000 bytes, and the
    receiver whose session has the same wrap key and whose clock is within
    the offer's lifetime, at most 300 seconds behind, accepts its encoding
    and ends up with the sender's secrets, object context, key schedule,
    Merkle root and plaintext digest, and with the commitment of the
    sender's manifest. *)
Theorem offer_carries_transfer seed ep sA sB src secrets chunk p now now' file_name d :
  prepare (len src) src secrets chunk = Ok p -> u64 (len src) -> bytes_ok src -> sendable p now file_name d ->
  array 32 ep -> array 32 (device_id (peer sA)) ->
  s_transfer_wrap_key sB = s_transfer_wrap_key sA -> device_id (peer sB) = id_device_id (from_seed seed) ->
  u64 now' -> now' < now + ENVELOPE_TTL_SECS -> now <= now' + 300 ->
  exists pm o b a c, build_offer (from_seed seed) ep sA p now file_name d = Ok (pm, o) /\
    encode_offer (E := OfferError) o = Ok b /\ len b <= 30000 /\
    accept_offer (device_id (peer sA)) sB now' b = Ok a /\ a_secrets a = secrets /\
    receives p (a_env a) /\ e_expected_digest (a_env a) = blake3_hash src /\
    commitment (E := OfferError) pm = Ok c /\ Resume.manifest_commitment (a_identity a) = c.
Proof.
  intros Hprep Hu Hb Hse Hep Hdev Hwk Hpeer Hn Hlt Hskew. destruct (prepare_prepared _ _ _ _ Hu Hb Hprep) as (Hp & Hsec & Hf).
  rewrite <- Hsec in Hf. destruct (offer_exchange_spec (from_seed seed) ep sA sB p src chunk now now' file_name d)
    as (pm & o & b & a & c & H1 & H2 & _ & H3 & _ & _ & H4 & H5 & H6 & H7 & H8 & H9); try done; [apply from_seed_signer|].
  exists pm, o, b, a, c. rewrite <- (pr_digest _ _ Hp), <- Hsec, H9. by split_and!.
Qed.

(** C11: What an accepted offer guarantees, whatever bytes the peer sent: they
    decode to an offer that verifies for this device now and whose signer
    claims the session peer's device id; an envelope addressed to this
    device opens under the session's wrap key and names the session peer
    and this device; the private manifest opens under the secrets from that
    envelope; the object context is the one of the private manifest's size,
    the public manifest's primary object describes it, and root, digest and
    commitment are the ones of these two manifests. *)
Theorem accepted_offer_authentic device s now b a : accept_offer device s now b = Ok a ->
  exists o, decode_offer b = Ok o /\ accepted device s now o a.
Proof. apply accept_offer_inv. Qed.

(** The signer of an offer is compared with the session peer by device id
    alone, and a device id is bound to no key: for any signing keys, an
    offer signed with those keys under the peer's device id is accepted. *)
Theorem offer_signer_by_id_only i ep sA sB src secrets chunk p now now' file_name d :
  signer i -> array 32 (device_id (peer sB)) ->
  prepare (len src) src secrets chunk = Ok p -> u64 (len src) -> bytes_ok src -> sendable p now file_name d ->
  array 32 ep -> array 32 (device_id (peer sA)) -> s_transfer_wrap_key sB = s_transfer_wrap_key sA ->
  u64 now' -> now' < now + ENVELOPE_TTL_SECS -> now <= now' + 300 ->
  exists b o a, decode_offer b = Ok o /\ accept_offer (device_id (peer sA)) sB now' b = Ok a /\
    pub_ed25519 (sender_device o) = pub_ed25519 (public i) /\ pub_mldsa (sender_device o) = pub_mldsa (public i).
Proof.
  intros Hi Hid Hprep Hu Hb Hse Hep Hdev Hwk Hn Hlt Hskew. destruct (prepare_prepared _ _ _ _ Hu Hb Hprep) as (Hp & Hsec & Hf).
  rewrite <- Hsec in Hf. destruct (offer_exchange_spec (with_device_id (device_id (peer sB)) i) ep sA sB p src chunk now now' file_name d)
    as (pm & o & b & a & c & _ & _ & _ & _ & H1 & H2 & _ & H3 & _); try done; [by apply renamed_signer|].
  exists b, o, a. rewrite H2. by split_and!.
Qed.
End Claims.

(** ** Two concrete sessions *)
Module ExchangeWitness.
Import Toy ToyPk SenderWitness.
Definition seed1 : bytes := replicate 32 11.
Definition device1 : bytes := replicate 32 6.
Definition session1 (r : Role) (peer_public : DevicePublic) : SessionKeys :=
  mkSession r [1] [2] [] [] (replicate 32 7) [] peer_public (replicate 32 9).
Definition sender1 : SessionKeys := session1 RoleInitiator (mkPublic device1 [] []).
Definition receiver1 : SessionKeys := session1 RoleResponder (public (from_seed seed1)).
Definition draws1 : OfferDraws := mkOfferDraws (replicate 24 1) (replicate 24 2) (replicate 32 3).
Lemma sendable1 : sendable pending3 1000 (lit "report.pdf") draws1.
Proof.
  split.
  - split; [|split; [|split]]; (split; [reflexivity|apply bytes_ok_check; vm_compute; reflexivity]).
  - vm_compute. split; [discriminate|reflexivity].
  - split; [|vm_compute; discriminate]. split; [|vm_compute; reflexivity].
    split; [apply bytes_ok_check; vm_compute; reflexivity|vm_compute; split; [discriminate|reflexivity]].
  - split; (split; [reflexivity|apply bytes_ok_check; vm_compute; reflexivity]).
Qed.
Lemma array1 n b : forallb (fun x => (0 <=? x) && (x <? 256)) b = true -> len b = n -> array n b.
Proof. intros Hb Hl. split; [exact Hl|by apply bytes_ok_check]. Qed.

Lemma offer_carries_transfer_witness : exists pm o b a c,
  build_offer (from_seed seed1) (replicate 32 4) sender1 pending3 1000 (lit "report.pdf") draws1 = Ok (pm, o) /\
  encode_offer (E := OfferError) o = Ok b /\ len b <= 30000 /\
  accept_offer device1 receiver1 1005 b = Ok a /\ a_secrets a = secrets3 /\
  receives pending3 (a_env a) /\ e_expected_digest (a_env a) = blake3_hash source /\
  commitment (E := OfferError) pm = Ok c /\ Resume.manifest_commitment (a_identity a) = c.
Proof.
  apply (offer_carries_transfer seed1 (replicate 32 4) sender1 receiver1 source secrets3 65536 pending3 1000 1005 (lit "report.pdf") draws1).
  - exact prepared3.
  - exact (proj1 source_ok).
  - exact (proj2 source_ok).
  - exact sendable1.
  - apply array1; vm_compute; reflexivity.
  - apply array1; vm_compute; reflexivity.
  - reflexivity.
  - reflexivity.
  - vm_compute. split; [discriminate|reflexivity].
  - vm_compute. reflexivity.
  - vm_compute. discriminate.
Defined.
Lemma offer_signer_by_id_only_witness : exists b o a, decode_offer b = Ok o /\ accept_offer device1 receiver1 1005 b = Ok a /\
  pub_ed25519 (sender_device o) = pub_ed25519 (public (from_seed (replicate 32 12))) /\
  pub_mldsa (sender_device o) = pub_mldsa (public (from_seed (replicate 32 12))).
Proof.
  apply (offer_signer_by_id_only (from_seed (replicate 32 12)) (replicate 32 4) sender1 receiver1 source secrets3 65536 pending3 1000 1005
    (lit "report.pdf") draws1).
  - apply from_seed_signer.
  - apply array1; vm_compute; reflexivity.
  - exact prepared3.
  - exact (proj1 source_ok).
  - exact (proj2 source_ok).
  - exact sendable1.
  - apply array1; vm_compute; reflexivity.
  - apply array1; vm_compute; reflexivity.
  - reflexivity.
  - vm_compute. split; [discriminate|reflexivity].
  - vm_compute. reflexivity.
  - vm_compute. discriminate.
Defined.
(** The keys of the two devices differ. *)
Example other_keys : pub_ed25519 (public (from_seed (replicate 32 12))) <> pub_ed25519 (peer receiver1).
Proof. vm_compute. discriminate. Qed.
Lemma accepted1 : exists b a, accept_offer device1 receiver1 1005 b = Ok a.
Proof.
  destruct (prepare_prepared source secrets3 65536 pending3 (proj1 source_ok) (proj2 source_ok) prepared3) as (Hp & Hsec & Hf).
  destruct (offer_exchange_spec (from_seed seed1) (replicate 32 4) sender1 receiver1 pending3 source 65536 1000 1005 (lit "report.pdf") draws1)
    as (pm & o & b & a & c & _ & _ & _ & _ & _ & _ & _ & Ha & _).
  - apply from_seed_signer.
  - exact Hp.
  - exact (proj1 source_ok).
  - rewrite Hsec. exact Hf.
  - exact sendable1.
  - apply array1; vm_compute; reflexivity.
  - apply array1; vm_compute; reflexivity.
  - reflexivity.
  - reflexivity.
  - vm_compute. split; [discriminate|reflexivity].
  - vm_compute. reflexivity.
  - vm_compute. discriminate.
  - exists b, a. exact Ha.
Qed.
Lemma accepted_offer_authentic_witness : exists b a o, accept_offer device1 receiver1 1005 b = Ok a /\ decode_offer b = Ok o /\
  device_id (sender_device o) = device_id (public (from_seed seed1)).
Proof.
  destruct accepted1 as (b & a & Ha). destruct (accepted_offer_authentic device1 receiver1 1005 b a Ha) as (o & Ho & [Hs _ _ _ _]).
  exists b, a, o. split; [exact Ha|]. split; [exact Ho|exact Hs].
Defined.
End ExchangeWitness.
