(* ===== verification/Session.v ===== *)
(** * Whole transfers (transfer.rs)

    [send_pending] and [receive_file] from the connected peer to the report,
    each as one function of the bytes the peer sends.  A [Node] is everything
    the function can touch; an error keeps what was done before it.  Clock
    readings, random draws, observed routes and the outcomes of system calls
    are the fields of a world. *)

From stdpp Require Import gmap.
From S2P Require Import Resume Bitmap Prelude Cbor Wire Crypto Keys Identity Object Manifest Offer Scheduler Control Events Route Framing Sender Receiver Delivery HandshakeMsg Handshake OfferExchange.
#[local] Open Scope Z_scope.

(** The bytes still to be read, the bytes written, the event queue, the
    replay cache, the file at the destination and the disk of the resume
    record. *)
Record Node : Type := mkNode {
  n_in : bytes;
  n_out : bytes;
  n_events : option Inner;
  n_replay : ReplayCache;
  n_dest : option bytes;
  n_disk : Resume.Disk
}.
Definition set_in (b : bytes) (n : Node) : Node := mkNode b (n_out n) (n_events n) (n_replay n) (n_dest n) (n_disk n).
Definition put (b : bytes) (n : Node) : Node := mkNode (n_in n) (n_out n ++ b) (n_events n) (n_replay n) (n_dest n) (n_disk n).
Definition set_events (q : option Inner) (n : Node) : Node := mkNode (n_in n) (n_out n) q (n_replay n) (n_dest n) (n_disk n).
Definition set_replay (c : ReplayCache) (n : Node) : Node := mkNode (n_in n) (n_out n) (n_events n) c (n_dest n) (n_disk n).
Definition set_dest (f : option bytes) (n : Node) : Node := mkNode (n_in n) (n_out n) (n_events n) (n_replay n) f (n_disk n).
Definition set_disk (d : Resume.Disk) (n : Node) : Node := mkNode (n_in n) (n_out n) (n_events n) (n_replay n) (n_dest n) d.

(** ** Actions *)
Abbreviation Act := (Action Node TransferError).
#[local] Abbreviation lift := from_result.

(** [if let Some(q) = events { q.push(..) }] *)
Definition push_events (evs : list Event) : Act unit := modify (fun n => set_events (push_all evs (n_events n)) n).
(** [send_plain_frame(&mut send, ..).await?] *)
Definition write_plain (ft : Z) (payload : bytes) : Act unit :=
  w <~ lift (send_plain_frame ft payload) ;; modify (put w).
(** [expect_plain_frame(&mut recv, ..).await?] *)
Definition read_plain (ft : Z) : Act bytes := fun n =>
  match expect_plain_frame ft (n_in n) with
  | Ok (b, rest) => (Ok b, set_in rest n)
  | Err e => (Err e, n)
  | Panic => (Panic, n)
  end.

Section Frames.
Context {P : Primitives}.
(** [send_frame(&mut send, &mut control, ..).await?] *)
Definition write_frame (c : ControlChannel) (ft : Z) (payload : bytes) : Act ControlChannel :=
  let '(r, c') := send_frame c ft payload in
  w <~ lift r ;; modify (put w) ;~ done_with c'.
(** [expect_frame(&mut recv, &mut control, ..).await?] *)
Definition read_frame (c : ControlChannel) (ft : Z) : Act (bytes * ControlChannel) := fun n =>
  match expect_frame c (n_in n) ft with
  | (Ok (b, rest), c') => (Ok (b, c'), set_in rest n)
  | (Err e, _) => (Err e, n)
  | (Panic, _) => (Panic, n)
  end.
End Frames.

(** transfer.rs 100-122 [TransferReport] *)
Record TransferReport : Type := mkReport {
  tr_transfer_id : bytes;
  tr_object_id : bytes;
  tr_manifest_commitment : bytes;
  tr_ciphertext_root : bytes;
  tr_plaintext_digest : bytes;
  tr_bytes : Z;
  tr_chunks : Z;
  tr_chunks_transferred : Z;
  tr_peer_device_id : bytes;
  tr_peer_endpoint_id : bytes;
  tr_route : Route
}.

(** ** Sender *)
(** [sw_route] is the path [await_admissible_route] returned, [sw_watch] the
    instant the route watch starts, [sw_file] what the source path holds
    ([None]: it cannot be opened), [sw_obs] the polls of the route watch. *)
Record SendWorld : Type := mkSendWorld {
  sw_remote_id : bytes;
  sw_route : Route;
  sw_watch : Z;
  sw_start : StartDraws;
  sw_encapsulated : bytes;
  sw_signed : bytes;
  sw_file : option bytes;
  sw_now : Z;
  sw_file_name : bytes;
  sw_offer : OfferDraws;
  sw_obs : nat -> Z * Route
}.

Section Sessions.
Context {P : Primitives} {K : PkPrimitives}.

(** [admit_route(..).await?] *)
Definition check_route (transfer_id : bytes) (a : RouteAdmission) (route : Route) : Act Route :=
  let '(r, evs) := admit_route transfer_id a route in
  push_events evs ;~
  lift (match r with Ok x => Ok x | Err x => Err (RouteRefused x) | Panic => Panic end).

(** transfer.rs 813-824 [send_pending] *)
Definition initiate (w : SendWorld) (identity : DeviceIdentity) (local_endpoint_id expected_peer_endpoint : bytes) : Act SessionKeys :=
  '(i0, ch) <~ lift (map_err (fun _ => Framing.Handshake) (start identity local_endpoint_id expected_peer_endpoint (sw_start w))) ;;
  write_plain FRAME_CLIENT_HELLO ch ;~
  sh <~ read_plain FRAME_SERVER_HELLO ;;
  let '(answer, i1) := on_server_hello (sw_encapsulated w) (sw_signed w) i0 sh in
  cf <~ lift (map_err (fun _ => Framing.Handshake) answer) ;;
  write_plain FRAME_CLIENT_FINISH cf ;~
  sf <~ read_plain FRAME_SERVER_FINISH ;;
  lift (map_err (fun _ => Framing.Handshake) (on_server_finish i1 sf).1).

(** The chunk loop writes to the stream and to the event queue as it goes. *)
Definition serve (p : PendingTransfer) (file : bytes) (obs : nat -> Z * Route) (request : RangeRequest)
    (control : ControlChannel) (watch : RouteWatch) : Act (ControlChannel * RouteWatch) := fun n =>
  let '(r, st) := serve_ranges p file obs request (mkSend control [] watch 0 0 (n_events n)) in
  ((let* _ := r in Ok (s_control st, s_watch st)), set_events (s_events st) (put (s_out st) n)).
(** The acknowledgement. *)
Definition confirm (p : PendingTransfer) (ack : bytes) : Act unit := fun n =>
  let '(r, q) := on_ack p ack (n_events n) in (r, set_events q n).

(** Everything under the control keys: nothing here goes out in the clear.
    transfer.rs 828-1077 [send_pending] *)
Definition send_session (w : SendWorld) (identity : DeviceIdentity) (local_endpoint_id : bytes)
    (pending : PendingTransfer) (watch : RouteWatch) (session : SessionKeys) : Act TransferReport :=
  let secrets := p_secrets pending in
  let control := new_channel (s_handshake_prk session) (s_th2 session) ClientToServer in
  file <~ lift (match sw_file w with Some f => Ok f | None => Err Framing.Io end) ;;
  '(public, offer) <~ lift (build_offer identity local_endpoint_id session pending (sw_now w) (sw_file_name w) (sw_offer w)) ;;
  offer_bytes <~ lift (encode_offer offer) ;;
  control <~ write_frame control FRAME_OFFER offer_bytes ;;
  '(request_bytes, control) <~ read_frame control FRAME_RANGE_REQUEST ;;
  request <~ lift (accept_request pending request_bytes) ;;
  '(control, watch) <~ serve pending file (sw_obs w) request control watch ;;
  '(ack, _) <~ read_frame control FRAME_COMPLETE ;;
  confirm pending ack ;~
  commitment <~ lift (Manifest.commitment public) ;;
  done_with (mkReport (Keys.transfer_id secrets) (Keys.object_id secrets) commitment (p_ciphertext_root pending)
    (p_plaintext_digest pending) (Object.logical_plaintext_size (p_ctx pending)) (Object.chunk_count (p_ctx pending))
    (chunk_total request) (device_id (peer session)) (peer_endpoint_id session) (last_route watch)).

(** [peer_endpoint] is the endpoint dialed, [local_endpoint_id] this one.
    transfer.rs 789-1077 [send_pending] *)
Definition send_pending (w : SendWorld) (identity : DeviceIdentity) (local_endpoint_id peer_endpoint : bytes)
    (pending : PendingTransfer) (admission : RouteAdmission) : Act TransferReport :=
  if negb (bytes_eqb (sw_remote_id w) peer_endpoint) then lift (Err Framing.Handshake) else
  route <~ check_route (Keys.transfer_id (p_secrets pending)) admission (sw_route w) ;;
  let watch := new_watch route admission (sw_watch w) in
  session <~ initiate w identity local_endpoint_id peer_endpoint ;;
  send_session w identity local_endpoint_id pending watch session.

(** ** Receiver *)
(** [rw_observed] is the endpoint of the accepted connection, [rw_existing]
    what the destination holds after it was opened without truncation
    ([None]: opening or sizing it failed), [rw_record] what reading the
    resume record returned, [rw_path] the destination's path. *)
Record RecvWorld : Type := mkRecvWorld {
  rw_observed : bytes;
  rw_route : Route;
  rw_watch : Z;
  rw_hello : HelloDraws;
  rw_hello_now : Z;
  rw_now : Z;
  rw_existing : option bytes;
  rw_record : option bytes;
  rw_path : bytes;
  rw_io : nat -> StepIo;
  rw_finish : FinishIo
}.

(** transfer.rs 1125-1135 [receive_file] *)
Definition respond (w : RecvWorld) (identity : DeviceIdentity) (local_endpoint_id : bytes) : Act SessionKeys :=
  ch <~ read_plain FRAME_CLIENT_HELLO ;;
  '(answer, r1) <~ (fun n =>
     let '(answer, r1, cache) := on_client_hello (rw_hello w) (rw_hello_now w) (new_responder identity local_endpoint_id)
                                   ch (rw_observed w) (n_replay n) in
     (Ok (answer, r1), set_replay cache n)) ;;
  sh <~ lift (map_err (fun _ => Framing.Handshake) answer) ;;
  write_plain FRAME_SERVER_HELLO sh ;~
  cf <~ read_plain FRAME_CLIENT_FINISH ;;
  '(sf, session) <~ lift (map_err (fun _ => Framing.Handshake) (on_client_finish r1 cf).1) ;;
  write_plain FRAME_SERVER_FINISH sf ;~
  done_with session.

(** The resume database and the destination file.
    transfer.rs 1259-1280 [receive_file] *)
Definition open_files (w : RecvWorld) (resume : bool) (env : RecvEnv) (id : Resume.ObjectIdentity)
  : Act (option Resume.ResumeDb * bytes) :=
  db <~ lift (if resume
              then let* '(db, _) := map_err (fun _ => Framing.Io) (Resume.open_db (rw_record w) id (rw_path w)) in Ok (Some db)
              else Ok None) ;;
  existing <~ lift (match rw_existing w with Some f => Ok f | None => Err Framing.Io end) ;;
  modify (set_dest (Some (set_len (Object.logical_plaintext_size (e_ctx env)) existing))) ;~
  done_with (db, existing).

(** The loop writes to the destination, the record's disk and the events;
    lack of fuel cannot happen ([receive_loop_frames]). *)
Definition receive_chunks (w : RecvWorld) (env : RecvEnv) (control : ControlChannel) (st : RecvState)
  : Act (RecvState * ControlChannel) := fun n =>
  match receive_loop (S (length (n_in n))) env (rw_io w) control (n_in n) st with
  | Some (r, st', control') =>
      ((let* _ := r in Ok (st', control')),
       set_disk (r_disk st') (set_dest (Some (r_file st')) (set_events (r_events st') (set_in [] n))))
  | None => (Panic, n)
  end.
Definition finish (w : RecvWorld) (env : RecvEnv) (st : RecvState) : Act bytes := fun n =>
  let '(r, st', dest) := finish_receive env (rw_finish w) st in
  (r, set_disk (r_disk st') (set_dest dest (set_events (r_events st') n))).

(** [resume] tells whether a resume state path was given.
    transfer.rs 1137-1513 [receive_file] *)
Definition receive_session (w : RecvWorld) (identity : DeviceIdentity) (resume : bool) (watch : RouteWatch)
    (session : SessionKeys) : Act TransferReport :=
  let control := new_channel (s_handshake_prk session) (s_th2 session) ServerToClient in
  '(offer_bytes, control) <~ read_frame control FRAME_OFFER ;;
  a <~ lift (accept_offer (id_device_id identity) session (rw_now w) offer_bytes) ;;
  let env := a_env a in
  '(db, existing) <~ open_files w resume env (a_identity a) ;;
  '(st0, request) <~ (fun n => (start_receive env existing db (n_disk n) watch (n_events n), n)) ;;
  control <~ write_frame control FRAME_RANGE_REQUEST request ;;
  modify (set_events (r_events st0)) ;~
  '(st1, control) <~ receive_chunks w env control st0 ;;
  digest <~ finish w env st1 ;;
  ack <~ lift (encode_ack 0 digest) ;;
  _ <~ write_frame control FRAME_COMPLETE ack ;;
  done_with (mkReport (Keys.transfer_id (a_secrets a)) (Keys.object_id (a_secrets a))
    (Resume.manifest_commitment (a_identity a)) (e_root env) digest
    (Object.logical_plaintext_size (e_ctx env)) (Object.chunk_count (e_ctx env)) (r_received st1)
    (device_id (peer session)) (peer_endpoint_id session) (last_route (r_watch st1))).

(** transfer.rs 1097-1513 [receive_file] *)
Definition receive_file (w : RecvWorld) (identity : DeviceIdentity) (local_endpoint_id : bytes)
    (admission : RouteAdmission) (resume : bool) : Act TransferReport :=
  route <~ check_route (replicate 32 0) admission (rw_route w) ;;
  let watch := new_watch route admission (rw_watch w) in
  session <~ respond w identity local_endpoint_id ;;
  receive_session w identity resume watch session.
End Sessions.

(** ** Running actions *)
(** One step forward, one step back. *)
Ltac act H := refine (eq_trans (andthen_ok _ _ _ _ _ H) _).
Ltac actl H := refine (eq_trans (andthen_ok _ _ _ _ _ (from_result_ok _ _ _ H)) _).

Lemma write_plain_ok ft b w n : send_plain_frame ft b = Ok w -> write_plain ft b n = (Ok tt, put w n).
Proof. intros H. unfold write_plain. by actl H. Qed.
Lemma read_plain_ok ft b rest n : expect_plain_frame ft (n_in n) = Ok (b, rest) -> read_plain ft n = (Ok b, set_in rest n).
Proof. intros H. unfold read_plain. by rewrite H. Qed.

Section Running.
Context {P : Primitives} {L : PrimitiveLaws} {K : PkPrimitives} {KL : PkLaws}.
Lemma write_frame_ok c ft b w c' n : send_frame c ft b = (Ok w, c') -> write_frame c ft b n = (Ok c', put w n).
Proof. intros H. unfold write_frame. by rewrite H. Qed.
Lemma read_frame_ok c ft b rest c' n : recv_frame c (n_in n) = (Ok (ft, b, rest), c') -> read_frame c ft n = (Ok (b, c'), set_in rest n).
Proof. intros H. unfold read_frame, expect_frame. by rewrite H, Z.eqb_refl. Qed.
Lemma check_route_ok tid a route n : admits (policy a) route = true ->
  check_route tid a route n = (Ok route, set_events (push_all [route_event tid route] (n_events n)) n).
Proof. intros H. unfold check_route, admit_route. by rewrite H. Qed.

(** A frame from [a] to [b], each with its own node. *)
Lemma frame_step prk th d a b ft p : paired prk th d a b -> send_counter a < MAX_FRAMES_PER_EPOCH ->
  u8 ft -> bytes_ok p -> len p + 16 <= body_limit ft ->
  exists w a' b', bytes_ok w /\ (forall n, write_frame a ft p n = (Ok a', put w n)) /\
    (forall n tl, bytes_ok tl -> n_in n = w ++ tl -> read_frame b ft n = (Ok (p, b'), set_in tl n)) /\
    paired prk th d a' b' /\ send_counter a' = send_counter a + 1 /\ send_counter b' = send_counter b.
Proof.
  intros Hp Hn Hft Hb Hl. pose proof Hp as [Hs _ He].
  destruct (frame_delivered prk th d a b ft p Hs Hn Hft Hb Hl) as (w & a' & b' & H1 & H2 & H3 & H4 & H5 & H6).
  exists w, a', b'. split; [exact H2|]. split; [intros n; by apply write_frame_ok|]. split.
  - intros n tl Htl Hin. apply read_frame_ok. by rewrite Hin, H3.
  - split; [by eapply paired_step|]. split; [exact H5|]. destruct H6 as [_ _ Hk]. by apply Hk.
Qed.
Lemma plain_step ft p : u8 ft -> control_message p -> ft <> FRAME_CHUNK ->
  exists w, bytes_ok w /\ (forall n, write_plain ft p n = (Ok tt, put w n)) /\
    (forall n tl, bytes_ok tl -> n_in n = w ++ tl -> read_plain ft n = (Ok p, set_in tl n)).
Proof.
  intros Hft [Hb Hl] Hc. destruct (plain_delivered ft p Hft Hb) as (w & H1 & H2 & H3).
  { unfold body_limit. destruct (Z.eqb_spec ft FRAME_CHUNK); [done|]. unfold MAX_CONTROL_BODY, MAX_CONTROL_SIZE in *. lia. }
  exists w. split; [exact H2|]. split; [intros n; by apply write_plain_ok|].
  intros n tl Htl Hin. apply read_plain_ok. by rewrite Hin, H3.
Qed.

(** What the two handshakes need of their worlds. *)
Record greetable (wA : SendWorld) (wB : RecvWorld) (seedA epA epB : bytes) (cache : ReplayCache) : Prop := {
  gr_start : start_ok epA (sw_start wA);
  gr_hello : hello_ok epB (rw_hello wB);
  gr_clock : Z.abs (sd_now (sw_start wA) - rw_hello_now wB) <= TIMESTAMP_WINDOW_SECS;
  gr_fresh : (check_and_insert (device_id (public (from_seed seedA))) (sd_nonce (sw_start wA)) cache).1 = true;
  gr_observed : rw_observed wB = epA
}.
Lemma handshake_step wA wB seedA epA seedB epB cache : greetable wA wB seedA epA epB cache ->
  exists kA kB wch wsh wcf wsf cache', bytes_ok wch /\ bytes_ok wsh /\ bytes_ok wcf /\ bytes_ok wsf /\
    same_secrets kA kB /\ peer kA = public (from_seed seedB) /\ peer kB = public (from_seed seedA) /\
    peer_endpoint_id kA = epB /\ peer_endpoint_id kB = epA /\
    (forall n tl, bytes_ok tl -> n_in n = wsh ++ wsf ++ tl ->
       initiate wA (from_seed seedA) epA epB n = (Ok kA, set_in tl (put (wch ++ wcf) n))) /\
    (forall n tl, bytes_ok tl -> n_in n = wch ++ wcf ++ tl -> n_replay n = cache ->
       respond wB (from_seed seedB) epB n = (Ok kB, set_replay cache' (set_in tl (put (wsh ++ wsf) n)))).
Proof.
  intros [Hs Hh Hc Hf Hobs].
  destruct (honest_handshake seedA epA (sw_start wA) seedB epB (rw_hello wB) (sw_encapsulated wA) (sw_signed wA) (rw_hello_now wB) cache Hs Hh Hc Hf)
    as (i0 & ch & sh & r1 & cache' & cf & i1 & sf & kB & r2 & kA & i2 & E1 & E2 & E3 & E4 & E5 & _ & _ & Hsame & _ & _ & Hpa & Hpb & Hea & Heb & Hm).
  apply Forall_cons_iff in Hm as [M1 Hm]. apply Forall_cons_iff in Hm as [M2 Hm].
  apply Forall_cons_iff in Hm as [M3 Hm]. apply Forall_cons_iff in Hm as [M4 _].
  destruct (plain_step FRAME_CLIENT_HELLO ch) as (wch & B1 & W1 & R1); [by split|assumption|discriminate|].
  destruct (plain_step FRAME_SERVER_HELLO sh) as (wsh & B2 & W2 & R2); [by split|assumption|discriminate|].
  destruct (plain_step FRAME_CLIENT_FINISH cf) as (wcf & B3 & W3 & R3); [by split|assumption|discriminate|].
  destruct (plain_step FRAME_SERVER_FINISH sf) as (wsf & B4 & W4 & R4); [by split|assumption|discriminate|].
  exists kA, kB, wch, wsh, wcf, wsf, cache'. do 9 (split; [assumption|]). split.
  - intros n tl Htl Hin. unfold initiate. rewrite E1.
    assert (Hw : bytes_ok (wsf ++ tl)) by (apply bytes_ok_app; split; assumption).
    actl (eq_refl (Ok (E := TransferError) (i0, ch))). act (W1 n). act (R2 (put wch n) (wsf ++ tl) Hw Hin). rewrite E3.
    actl (eq_refl (Ok (E := TransferError) cf)). act (W3 (set_in (wsf ++ tl) (put wch n))).
    act (R4 (put wcf (set_in (wsf ++ tl) (put wch n))) tl Htl eq_refl). rewrite E5.
    destruct n. unfold lift, put, set_in. cbn [fst map_err n_in n_out n_events n_replay n_dest n_disk]. by rewrite app_assoc.
  - intros n tl Htl Hin Hrep. unfold respond.
    assert (Hw : bytes_ok (wcf ++ tl)) by (apply bytes_ok_app; split; assumption).
    act (R1 n (wcf ++ tl) Hw Hin). unfold andthen at 1. cbn [n_replay set_in]. rewrite Hrep, Hobs, E2.
    actl (eq_refl (Ok (E := TransferError) sh)). act (W2 (set_replay cache' (set_in (wcf ++ tl) n))).
    act (R3 (put wsh (set_replay cache' (set_in (wcf ++ tl) n))) tl Htl eq_refl). rewrite E4.
    actl (eq_refl (Ok (E := TransferError) (sf, kB))).
    act (W4 (set_in tl (put wsh (set_replay cache' (set_in (wcf ++ tl) n))))).
    destruct n. unfold done_with, put, set_in, set_replay. cbn [n_in n_out n_events n_replay n_dest n_disk]. by rewrite app_assoc.
Qed.

(** Everything outside the two programs goes well: the parties reach each
    other, the clocks agree within the protocol's windows, every observed
    route is admitted, the source is still there and the destination can be
    written. *)
Record ready (src : bytes) (p : PendingTransfer) (wA : SendWorld) (wB : RecvWorld) (seedA epA epB : bytes)
    (admA admB : RouteAdmission) (cache : ReplayCache) : Prop := {
  rd_greet : greetable wA wB seedA epA epB cache;
  rd_remote : sw_remote_id wA = epB;
  rd_file : sw_file wA = Some src;
  rd_offer : sendable p (sw_now wA) (sw_file_name wA) (sw_offer wA);
  rd_clock : u64 (rw_now wB) /\ rw_now wB < sw_now wA + ENVELOPE_TTL_SECS /\ sw_now wA <= rw_now wB + 300;
  rd_dest : is_Some (rw_existing wB);
  rd_routes : admits (policy admA) (sw_route wA) = true /\ admits (policy admB) (rw_route wB) = true;
  rd_polls k : admits (policy admA) (sw_obs wA k).2 = true /\ admits (policy admB) (io_route (rw_io wB k)) = true;
  rd_write k : io_write (rw_io wB k) = None;
  rd_read : fi_sync_ok (rw_finish wB) = true /\ fi_read_ok (rw_finish wB) = true
}.

(** The parts of the report both sides state about the same object. *)
Definition same_object (a b : TransferReport) : Prop :=
  tr_transfer_id a = tr_transfer_id b /\ tr_object_id a = tr_object_id b /\
  tr_manifest_commitment a = tr_manifest_commitment b /\ tr_ciphertext_root a = tr_ciphertext_root b /\
  tr_plaintext_digest a = tr_plaintext_digest b /\ tr_bytes a = tr_bytes b /\ tr_chunks a = tr_chunks b /\
  tr_chunks_transferred a = tr_chunks_transferred b.

(** The frames under the control keys. *)
Lemma control_step src p chunk wA wB seedA epA epB admA admB cache kA kB seedB dev_events evB disk :
  prepared p src -> u64 (len src) -> Object.chunk_count (p_ctx p) <= 2 ^ 14 ->
  for_file (Keys.transfer_id (p_secrets p)) (Keys.object_id (p_secrets p)) (len src) chunk = Ok (p_ctx p) ->
  ready src p wA wB seedA epA epB admA admB cache ->
  same_secrets kA kB -> peer kA = public (from_seed seedB) -> peer kB = public (from_seed seedA) ->
  let watchA := new_watch (sw_route wA) admA (sw_watch wA) in
  let watchB := new_watch (rw_route wB) admB (rw_watch wB) in
  exists wo wr wc wa repA repB, bytes_ok wo /\ bytes_ok wr /\ bytes_ok wc /\ bytes_ok wa /\ same_object repA repB /\
    tr_plaintext_digest repA = blake3_hash src /\ tr_bytes repA = len src /\
    tr_chunks_transferred repA = tr_chunks repA /\
    tr_peer_device_id repA = device_id (peer kA) /\ tr_peer_endpoint_id repA = peer_endpoint_id kA /\
    tr_peer_device_id repB = device_id (peer kB) /\ tr_peer_endpoint_id repB = peer_endpoint_id kB /\
    (forall n, n_in n = wr ++ wa -> n_events n = dev_events ->
       exists n', send_session wA (from_seed seedA) epA p watchA kA n = (Ok repA, n') /\ n_out n' = n_out n ++ wo ++ wc) /\
    (forall n, n_in n = wo ++ wc -> n_events n = evB -> n_disk n = disk ->
       exists n', receive_session wB (from_seed seedB) false watchB kB n = (Ok repB, n') /\
         n_out n' = n_out n ++ wr ++ wa /\ n_dest n' = Some src).
Proof.
  intros Hp Hu Hn Hfor [Hgr Hrem Hfile Hse [Hc1 [Hc2 Hc3]] [existing Hex] [Hra Hrb] Hpoll Hwr [Hsy Hrd]] Hsame HpA HpB watchA watchB.
  destruct Hsame as (Eprk & Eth & _ & _ & Ewk & _). destruct Hgr as [[Hep _] _ _ _ _].
  assert (Hdev : array 32 (device_id (peer kA))) by (rewrite HpA; apply from_seed_wf).
  destruct (offer_exchange_spec (from_seed seedA) epA kA kB p src chunk (sw_now wA) (rw_now wB) (sw_file_name wA) (sw_offer wA))
    as (pm & o & ob & a & c & Hbuild & Henc & Hob & Hol & _ & _ & Hcom & Hacc & Hsec & Hrecv & Hdig & Hid);
    try assumption; [apply from_seed_signer|by rewrite Ewk|by rewrite HpB|].
  set (prk := s_handshake_prk kA) in *. set (th := s_th2 kA) in *.
  (* the offer and the request *)
  destruct (frame_step prk th ClientToServer _ _ FRAME_OFFER ob (new_paired prk th ClientToServer))
    as (wo & a1 & b1 & Bo & Wo & Ro & P1 & C1 & D1); [done|by split|exact Hob|unfold body_limit, MAX_CONTROL_BODY; cbn; lia|].
  pose proof Hse as [[Ht [Ho _]] _ _ _].
  destruct (fresh_request p src (a_env a) existing disk watchB evB Hp ltac:(apply Hrecv) Hn Ht Ho)
    as (st0 & rq & r & Hstart & _ & _ & Hsv).
  pose proof Hsv as [Hrq Hrl _ _ _ _ Htot _].
  destruct (frame_step prk th (opposite ClientToServer) _ _ FRAME_RANGE_REQUEST rq (paired_sym _ _ _ _ _ P1))
    as (wr & b2 & a2 & Br & Wr & Rr & P2 & C2 & D2);
    [rewrite D1; done|by split|exact Hrq|unfold body_limit, MAX_CONTROL_BODY; cbn; lia|].
  apply paired_sym in P2. cbn [opposite] in P2.
  (* the chunks *)
  set (stA := mkSend a2 [] watchA 0 0 dev_events).
  assert (Ca : send_counter a2 = 1) by (rewrite D2, C1; reflexivity).
  assert (Cb : send_counter b2 = 1) by (rewrite C2, D1; reflexivity).
  destruct (transfer_spec p src (a_env a) existing disk watchB evB (sw_obs wA) stA prk th b2 (rw_io wB) (rw_finish wB))
    as (st0' & rq' & r' & sent & st1 & b3 & st2 & Hstart' & Hsv' & Hserve & Bc & Hloop & Hfin & Hcount & Hstep & Hkept);
    [exact Hp|exact Ht|exact Ho|exact Hrecv|exact Hdig|exact Hn| |reflexivity|apply P2|unfold stA; cbn [s_control]; rewrite Ca; done|].
  { split; [exact Hwr|intros k; apply Hpoll|intros k; apply Hpoll|exact Hsy|exact Hrd]. }
  rewrite Hstart in Hstart'. apply Ok_inj in Hstart'. injection Hstart' as <- <-.
  assert (Hr : accept_request p rq = Ok r').
  { destruct Hsv' as [_ _ E1 E2 E3 _ _ _]. unfold accept_request. rewrite E1. cbn [map_err rbind]. by rewrite E2, E3, !bytes_eqb_refl. }
  rewrite (serve_accepted _ _ _ _ _ _ Hr) in Hserve.
  pose proof (paired_step _ _ _ _ _ _ _ P2 Hstep Hkept) as P3.
  assert (Cc : send_counter b3 = 1).
  { destruct Hkept as [_ _ Hk]. rewrite <- Cb. apply Hk. apply P2. }
  (* the acknowledgement *)
  destruct (ack_accepted p src (s_events sent) Hp) as (ack & Hack & Back & Lack & Hon).
  destruct (frame_step prk th (opposite ClientToServer) _ _ FRAME_COMPLETE ack (paired_sym _ _ _ _ _ P3))
    as (wa & b4 & a4 & Ba & Wa & Ra & _);
    [rewrite Cc; done|by split|exact Back|unfold body_limit, MAX_CONTROL_BODY; cbn; lia|].
  pose proof Hrecv as (Ectx & _ & _ & Eroot).
  set (repA := mkReport (Keys.transfer_id (p_secrets p)) (Keys.object_id (p_secrets p)) c (p_ciphertext_root p)
    (p_plaintext_digest p) (Object.logical_plaintext_size (p_ctx p)) (Object.chunk_count (p_ctx p))
    (chunk_total r') (device_id (peer kA)) (peer_endpoint_id kA) (last_route (s_watch sent))).
  set (repB := mkReport (Keys.transfer_id (a_secrets a)) (Keys.object_id (a_secrets a))
    (Resume.manifest_commitment (a_identity a)) (e_root (a_env a)) (blake3_hash src)
    (Object.logical_plaintext_size (e_ctx (a_env a))) (Object.chunk_count (e_ctx (a_env a))) (r_received st1)
    (device_id (peer kB)) (peer_endpoint_id kB) (last_route (r_watch st1))).
  exists wo, wr, (s_out sent), wa, repA, repB. do 4 (split; [assumption|]).
  split.
  { unfold same_object, repA, repB. cbn [tr_transfer_id tr_object_id tr_manifest_commitment tr_ciphertext_root
      tr_plaintext_digest tr_bytes tr_chunks tr_chunks_transferred].
    rewrite Hsec, Hid, Eroot, Ectx, Hcount. cbn [Resume.manifest_commitment].
    split_and!; try reflexivity; [apply (pr_digest _ _ Hp)|apply Hsv']. }
  split; [apply (pr_digest _ _ Hp)|]. split; [apply (pr_logical _ _ Hp)|]. split; [apply Hsv'|].
  do 4 (split; [reflexivity|]). split.
  - intros n Hin Hev. eexists. split.
    + unfold send_session. rewrite Hfile. actl (eq_refl (Ok (E := TransferError) src)).
      assert (Henc' : encode_offer (E := TransferError) o = Ok ob)
        by (rewrite encode_offer_eq in Henc; rewrite encode_offer_eq; apply Ok_inj in Henc as ->; reflexivity).
      assert (Hcom' : Manifest.commitment (E := TransferError) pm = Ok c)
        by (rewrite commitment_eq in Hcom; rewrite commitment_eq; apply Ok_inj in Hcom as ->; reflexivity).
      actl Hbuild. actl Henc'. act (Wo n). act (Rr (put wo n) wa Ba Hin). actl Hr.
      assert (Hs : serve p src (sw_obs wA) r' a2 watchA (set_in wa (put wo n))
        = (Ok (s_control sent, s_watch sent), set_events (s_events sent) (put (s_out sent) (set_in wa (put wo n))))).
      { unfold serve. cbn [n_events set_in put]. rewrite Hev. fold stA. rewrite Hserve. reflexivity. }
      act Hs. act (Ra (set_events (s_events sent) (put (s_out sent) (set_in wa (put wo n)))) [] ltac:(constructor) ltac:(by rewrite app_nil_r)).
      eapply eq_trans; [apply andthen_ok; unfold confirm; cbn [n_events set_events set_in]; rewrite Hon; reflexivity|].
      actl Hcom'. reflexivity.
    + destruct n. cbn. by rewrite <- app_assoc.
  - intros n Hin Hev Hdisk. eexists. split; [|split].
    + unfold receive_session.
      change (new_channel (s_handshake_prk kB) (s_th2 kB) ServerToClient) with (new_channel (s_handshake_prk kB) (s_th2 kB) (opposite ClientToServer)).
      rewrite <- Eprk, <- Eth. act (Ro n (s_out sent) Bc Hin).
      assert (Hacc' : accept_offer (id_device_id (from_seed seedB)) kB (rw_now wB) ob = Ok a) by (rewrite HpA in Hacc; exact Hacc).
      actl Hacc'.
      assert (Hopen : forall m, open_files wB false (a_env a) (a_identity a) m
        = (Ok (None, existing), set_dest (Some (set_len (Object.logical_plaintext_size (e_ctx (a_env a))) existing)) m))
        by (intros m; unfold open_files; rewrite Hex; reflexivity).
      act (Hopen (set_in (s_out sent) n)).
      eapply eq_trans; [apply andthen_ok; cbn [n_disk n_events set_dest set_in]; rewrite Hev, Hdisk, Hstart; reflexivity|].
      cbn iota. eapply eq_trans; [apply andthen_ok, Wr|].
      eapply eq_trans; [apply andthen_ok; reflexivity|].
      eapply eq_trans.
      { apply andthen_ok. unfold receive_chunks. cbn [n_in set_events put set_dest set_in]. rewrite Hloop. reflexivity. }
      cbn iota. eapply eq_trans; [apply andthen_ok; unfold finish; rewrite Hfin; reflexivity|].
      assert (Hack' : encode_ack (E := TransferError) 0 (blake3_hash src) = Ok ack) by exact Hack.
      actl Hack'. eapply eq_trans; [apply andthen_ok, Wa|]. reflexivity.
    + destruct n. cbn. by rewrite <- app_assoc.
    + reflexivity.
Qed.

Lemma session_run src p chunk wA wB seedA epA seedB epB admA admB nA nB :
  prepared p src -> u64 (len src) -> Object.chunk_count (p_ctx p) <= 2 ^ 14 ->
  for_file (Keys.transfer_id (p_secrets p)) (Keys.object_id (p_secrets p)) (len src) chunk = Ok (p_ctx p) ->
  ready src p wA wB seedA epA epB admA admB (n_replay nB) ->
  exists s2r r2s repA repB nA' nB', bytes_ok s2r /\ bytes_ok r2s /\
    send_pending wA (from_seed seedA) epA epB p admA (set_in r2s nA) = (Ok repA, nA') /\ n_out nA' = n_out nA ++ s2r /\
    receive_file wB (from_seed seedB) epB admB false (set_in s2r nB) = (Ok repB, nB') /\ n_out nB' = n_out nB ++ r2s /\
    n_dest nB' = Some src /\ same_object repA repB /\ tr_plaintext_digest repA = blake3_hash src /\ tr_bytes repA = len src /\
    tr_chunks_transferred repA = tr_chunks repA /\
    tr_peer_device_id repA = id_device_id (from_seed seedB) /\ tr_peer_endpoint_id repA = epB /\
    tr_peer_device_id repB = id_device_id (from_seed seedA) /\ tr_peer_endpoint_id repB = epA.
Proof.
  intros Hp Hu Hn Hf Hr. pose proof Hr as [Hg Hrem _ _ _ _ [Hra Hrb] _ _ _].
  destruct (handshake_step wA wB seedA epA seedB epB (n_replay nB) Hg)
    as (kA & kB & wch & wsh & wcf & wsf & cache' & B1 & B2 & B3 & B4 & Hsame & HpA & HpB & HeA & HeB & HA & HB).
  set (evA := push_all [route_event (Keys.transfer_id (p_secrets p)) (sw_route wA)] (n_events nA)).
  set (evB := push_all [route_event (replicate 32 0) (rw_route wB)] (n_events nB)).
  destruct (control_step src p chunk wA wB seedA epA epB admA admB (n_replay nB) kA kB seedB evA evB (n_disk nB)
    Hp Hu Hn Hf Hr Hsame HpA HpB)
    as (wo & wr & wc & wa & repA & repB & Bo & Br & Bc & Ba & Hobj & Hdig & Hlen & Htr & H1 & H2 & H3 & H4 & HsA & HsB).
  assert (Bin : bytes_ok (wr ++ wa) /\ bytes_ok (wo ++ wc)) by (split; apply bytes_ok_app; split; assumption).
  destruct (HsA (set_in (wr ++ wa) (put (wch ++ wcf) (set_events evA (set_in (wsh ++ wsf ++ wr ++ wa) nA)))) eq_refl eq_refl)
    as (nA' & HrA & HoA).
  destruct (HsB (set_replay cache' (set_in (wo ++ wc) (put (wsh ++ wsf) (set_events evB (set_in (wch ++ wcf ++ wo ++ wc) nB)))))
    eq_refl eq_refl eq_refl) as (nB' & HrB & HoB & HdB).
  exists (wch ++ wcf ++ wo ++ wc), (wsh ++ wsf ++ wr ++ wa), repA, repB, nA', nB'.
  split; [rewrite !bytes_ok_app; tauto|]. split; [rewrite !bytes_ok_app; tauto|]. split; [|split; [|split; [|split]]].
  - unfold send_pending. rewrite Hrem, bytes_eqb_refl. cbn [negb]. act (check_route_ok (Keys.transfer_id (p_secrets p)) _ _ (set_in (wsh ++ wsf ++ wr ++ wa) nA) Hra).
    act (HA (set_events evA (set_in (wsh ++ wsf ++ wr ++ wa) nA)) (wr ++ wa) (proj1 Bin) eq_refl). exact HrA.
  - rewrite HoA. cbn [n_out set_in put set_events]. by rewrite <- !app_assoc.
  - unfold receive_file. act (check_route_ok (replicate 32 0) _ _ (set_in (wch ++ wcf ++ wo ++ wc) nB) Hrb).
    act (HB (set_events evB (set_in (wch ++ wcf ++ wo ++ wc) nB)) (wo ++ wc) (proj2 Bin) eq_refl eq_refl). exact HrB.
  - rewrite HoB. cbn [n_out set_in put set_events set_replay]. by rewrite <- !app_assoc.
  - rewrite H1, H2, H3, H4, HpA, HpB, HeA, HeB. repeat (split; [assumption|reflexivity] || (split; [assumption|])).
    repeat split.
Qed.
End Running.

(** ** What a finished run went through *)
Ltac ainv H x n Hx := apply andthen_inv in H as (x & n & Hx & H).
Lemma map_err_handshake {A} (r : result HandshakeError A) a : map_err (fun _ => Framing.Handshake) r = Ok a -> r = Ok a.
Proof. by destruct r; [intros [= ->]|..]. Qed.
Lemma write_plain_inv ft b n u n' : write_plain ft b n = (Ok u, n') ->
  exists w, send_plain_frame ft b = Ok w /\ n' = put w n.
Proof.
  unfold write_plain. intros H. ainv H w n1 Hw. apply from_result_inv in Hw as [Hw ->]. apply modify_inv in H as ->. by exists w.
Qed.
Lemma read_plain_inv ft n b n' : bytes_ok (n_in n) -> read_plain ft n = (Ok b, n') ->
  exists rest, expect_plain_frame ft (n_in n) = Ok (b, rest) /\ bytes_ok b /\ bytes_ok rest /\ n' = set_in rest n.
Proof.
  intros Hok. unfold read_plain. destruct (expect_plain_frame ft (n_in n)) as [[x rest]|e|] eqn:He; [|done..].
  intros [= <- <-]. exists rest. split; [done|]. unfold expect_plain_frame in He. minv He. destruct a as [[f ep] c].
  cbn [fst] in Hk. unfold guard in Hk. minv Hk. destruct (frame_type f =? ft); [|done]. unfold ret in Hk0. injection Hk0 as <- <-.
  unfold ret in Hp0. injection Hp0 as <-. apply recv_raw_frame_iff in Hp as [Hs (_ & _ & _ & Hb & _)]; [|done].
  rewrite Hs in Hok. apply bytes_ok_app in Hok as [_ Hok].
  match goal with E : s = _ |- _ => rewrite <- E end. split; [exact Hb|]. split; [exact Hok|reflexivity].
Qed.

Section Inversion.
Context {P : Primitives} {L : PrimitiveLaws} {K : PkPrimitives}.
Lemma write_frame_inv c ft b n c' n' : write_frame c ft b n = (Ok c', n') -> exists w, send_frame c ft b = (Ok w, c') /\ n' = put w n.
Proof.
  unfold write_frame. destruct (send_frame c ft b) as [r c1]. intros H. ainv H w n1 Hw. apply from_result_inv in Hw as [-> ->].
  ainv H u n2 Hu. apply modify_inv in Hu as ->. unfold done_with in H. injection H as -> <-. by exists w.
Qed.
Lemma read_frame_inv c ft n b c' n' : bytes_ok (n_in n) -> read_frame c ft n = (Ok (b, c'), n') ->
  exists rest, recv_frame c (n_in n) = (Ok (ft, b, rest), c') /\ bytes_ok b /\ bytes_ok rest /\ n' = set_in rest n.
Proof.
  intros Hok. unfold read_frame, expect_frame. destruct (recv_frame c (n_in n)) as [[[[t x] rest]|e|] c1] eqn:Hr; [|done..].
  destruct (Z.eqb_spec t ft) as [->|]; cbn [negb]; [|done]. intros [= <- <- <-].
  destruct (recv_frame_spec _ _ _ _ _ _ Hok Hr) as (H1 & H2 & _). by exists rest.
Qed.
Lemma check_route_inv tid a route n x n' : check_route tid a route n = (Ok x, n') ->
  x = route /\ admits (policy a) route = true /\ n' = set_events (push_all [route_event tid route] (n_events n)) n.
Proof.
  unfold check_route, admit_route. destruct (admits (policy a) route); intros H; ainv H u n1 Hu; apply modify_inv in Hu as ->;
    apply from_result_inv in H as [H ->]; [|done]. by apply Ok_inj in H as <-.
Qed.

(** The receiver's side of the handshake, from the bytes [input] it reads; what
    follows them is [stream]. *)
Definition authenticated (w : RecvWorld) (identity : DeviceIdentity) (ep : bytes) (cache : ReplayCache) (input : bytes)
    (s : SessionKeys) (stream : bytes) : Prop :=
  exists ch rest sh r1 cache' cf sf r2,
    expect_plain_frame FRAME_CLIENT_HELLO input = Ok (ch, rest) /\
    on_client_hello (rw_hello w) (rw_hello_now w) (new_responder identity ep) ch (rw_observed w) cache = (Ok sh, r1, cache') /\
    expect_plain_frame FRAME_CLIENT_FINISH rest = Ok (cf, stream) /\
    on_client_finish r1 cf = (Ok (sf, s), r2).
Lemma respond_inv w i ep n s n' : bytes_ok (n_in n) -> respond w i ep n = (Ok s, n') ->
  authenticated w i ep (n_replay n) (n_in n) s (n_in n') /\ bytes_ok (n_in n') /\ n_events n' = n_events n /\ n_disk n' = n_disk n /\ n_dest n' = n_dest n.
Proof.
  intros Hok H. unfold respond in H. ainv H ch n1 Hch. apply read_plain_inv in Hch as (t1 & Hch & _ & Ht1 & ->); [|done].
  ainv H x n2 Hx. cbn [n_replay set_in] in Hx.
  destruct (on_client_hello _ _ _ _ _ _) as [[answer r1] cache'] eqn:Hh. injection Hx as <- <-.
  ainv H sh n3 Hsh. apply from_result_inv in Hsh as [Hsh ->]. apply map_err_handshake in Hsh as ->.
  ainv H u n4 Hu. apply write_plain_inv in Hu as (w1 & _ & ->).
  ainv H cf n5 Hcf. apply read_plain_inv in Hcf as (t2 & Hcf & _ & Ht2 & ->); [|done].
  ainv H y n6 Hy. apply from_result_inv in Hy as [Hy ->]. apply map_err_handshake in Hy. destruct y as [sf s'].
  ainv H u2 n7 Hu2. apply write_plain_inv in Hu2 as (w2 & _ & ->). unfold done_with in H. injection H as -> <-.
  split; [|by split_and!]. destruct (on_client_finish r1 cf) as [r r2] eqn:Hf. cbn [fst] in Hy. subst r.
  exists ch, t1, sh, r1, cache', cf, sf, r2. exact (conj Hch (conj Hh (conj Hcf Hf))).
Qed.

(** The sender's side of the handshake, from the bytes [input] it reads; what
    follows them is [stream]. *)
Definition greeted (w : SendWorld) (identity : DeviceIdentity) (ep peer_ep input : bytes) (s : SessionKeys) (stream : bytes) : Prop :=
  exists i0 ch sh rest cf i1 sf i2,
    start identity ep peer_ep (sw_start w) = Ok (i0, ch) /\
    expect_plain_frame FRAME_SERVER_HELLO input = Ok (sh, rest) /\
    on_server_hello (sw_encapsulated w) (sw_signed w) i0 sh = (Ok cf, i1) /\
    expect_plain_frame FRAME_SERVER_FINISH rest = Ok (sf, stream) /\
    on_server_finish i1 sf = (Ok s, i2).
Lemma initiate_inv w i ep peer_ep n s n' : bytes_ok (n_in n) -> initiate w i ep peer_ep n = (Ok s, n') ->
  greeted w i ep peer_ep (n_in n) s (n_in n') /\ bytes_ok (n_in n').
Proof.
  intros Hok H. unfold initiate in H. ainv H x n1 Hx. apply from_result_inv in Hx as [Hx ->]. apply map_err_handshake in Hx. destruct x as [i0 ch].
  ainv H u n2 Hu. apply write_plain_inv in Hu as (w1 & _ & ->).
  ainv H sh n3 Hsh. apply read_plain_inv in Hsh as (t1 & Hsh & _ & Ht & ->); [|exact Hok].
  destruct (on_server_hello _ _ i0 sh) as [answer i1] eqn:Hans. ainv H cf n4 Hcf. apply from_result_inv in Hcf as [Hcf ->].
  apply map_err_handshake in Hcf as ->. ainv H u2 n5 Hu2. apply write_plain_inv in Hu2 as (w2 & _ & ->).
  ainv H sf n6 Hsf. apply read_plain_inv in Hsf as (t2 & Hsf & _ & Ht2 & ->); [|exact Ht].
  apply from_result_inv in H as [H ->]. apply map_err_handshake in H. destruct (on_server_finish i1 sf) as [r i2] eqn:Hfin.
  cbn [fst] in H. subst r. split; [|exact Ht2].
  exists i0, ch, sh, t1, cf, i1, sf, i2. exact (conj Hx (conj Hsh (conj Hans (conj Hsf Hfin)))).
Qed.

(** The first frame the receiver's control channel opens is the offer. *)
Definition offered (s : SessionKeys) (stream : bytes) (o : TransferOffer) : Prop :=
  exists b rest c, recv_frame (new_channel (s_handshake_prk s) (s_th2 s) ServerToClient) stream = (Ok (FRAME_OFFER, b, rest), c) /\
    decode_offer b = Ok o.
(** What the receiver ends with. *)
Record received (w : RecvWorld) (device : bytes) (s : SessionKeys) (input : bytes) (resume : bool) (rep : TransferReport)
    (dest : option bytes) (o : TransferOffer) (a : Accepted) : Prop := {
  rc_frame : offered s input o;
  rc_offer : accepted device s (rw_now w) o a;
  rc_start : exists existing db flag disk watch events st0 rq stream control st1 control' st2,
    rw_existing w = Some existing /\
    (if resume : bool then exists d, db = Some d /\ Resume.open_db (rw_record w) (a_identity a) (rw_path w) = Ok (d, flag) else db = None) /\
    start_receive (a_env a) existing db disk watch events = Ok (st0, rq) /\ bytes_ok stream /\
    receive_loop (S (length stream)) (a_env a) (rw_io w) control stream st0 = Some (Ok tt, st1, control') /\
    finish_receive (a_env a) (rw_finish w) st1 = (Ok (tr_plaintext_digest rep), st2, dest);
  rc_ids : tr_transfer_id rep = Keys.transfer_id (a_secrets a) /\ tr_object_id rep = Keys.object_id (a_secrets a) /\
    tr_manifest_commitment rep = Resume.manifest_commitment (a_identity a) /\
    tr_bytes rep = Object.logical_plaintext_size (e_ctx (a_env a)) /\
    tr_peer_device_id rep = device_id (peer s) /\ tr_peer_endpoint_id rep = peer_endpoint_id s
}.
Lemma receive_session_inv w i resume watch s n rep n' : bytes_ok (n_in n) ->
  receive_session w i resume watch s n = (Ok rep, n') -> exists o a, received w (id_device_id i) s (n_in n) resume rep (n_dest n') o a.
Proof.
  intros Hok H. unfold receive_session in H. ainv H x n1 Hx. destruct x as [b c1].
  apply read_frame_inv in Hx as (t1 & Hframe & _ & Ht1 & ->); [|done].
  ainv H a n2 Ha. apply from_result_inv in Ha as [Ha ->]. apply accept_offer_inv in Ha as (o & Hdec & Ha).
  ainv H y n3 Hy. destruct y as [db existing].
  assert (Hopen : n_disk n3 = n_disk n /\ bytes_ok (n_in n3) /\ exists flag, rw_existing w = Some existing /\
    (if resume : bool then exists d, db = Some d /\ Resume.open_db (rw_record w) (a_identity a) (rw_path w) = Ok (d, flag) else db = None)).
  { unfold open_files in Hy. ainv Hy d m1 Hd. apply from_result_inv in Hd as [Hd ->]. ainv Hy f m2 Hf. apply from_result_inv in Hf as [Hf ->].
    ainv Hy u m3 Hu. apply modify_inv in Hu as ->. unfold done_with in Hy. injection Hy as <- <- <-. split; [reflexivity|].
    split; [exact Ht1|]. destruct (rw_existing w) as [f'|]; [|done]. apply Ok_inj in Hf as ->.
    destruct resume; [|apply Ok_inj in Hd as <-; by exists false]. minv Hd. destruct a0 as [d' flag]. apply map_err_inv in Hp.
    apply Ok_inj in Hk as <-. exists flag. split; [done|]. by exists d'. }
  destruct Hopen as (_ & Ht3 & flag & Hex & Hdb).
  ainv H z n4 Hz. injection Hz as Hstart <-. destruct z as [st0 rq].
  ainv H c2 n5 Hc2. apply write_frame_inv in Hc2 as (w2 & _ & ->).
  ainv H u n6 Hu. apply modify_inv in Hu as ->.
  ainv H v n7 Hv. destruct v as [st1 c3]. unfold receive_chunks in Hv. cbn [n_in set_events put] in Hv.
  destruct (receive_loop _ _ _ _ _ _) as [[[r st1'] c3']|] eqn:Hloop; [|done]. destruct r as [[]|e|]; [|done..].
  cbn [rbind] in Hv. injection Hv as -> -> <-.
  ainv H dg n8 Hdg. unfold finish in Hdg. destruct (finish_receive _ _ _) as [[r st2] dest] eqn:Hfin. injection Hdg as -> <-.
  ainv H ack n9 Hack. apply from_result_inv in Hack as [_ ->]. ainv H c4 n10 Hc4. apply write_frame_inv in Hc4 as (w4 & _ & ->).
  unfold done_with in H. injection H as <- <-. exists o, a. split; [by exists b, t1, c1|exact Ha| |by split_and!].
  by exists existing, db, flag, (n_disk n3), watch, (n_events n3), st0, rq, (n_in n3), c2, st1, c3, st2.
Qed.
End Inversion.

(** ** Claims *)
Section Claims.
Context {P : Primitives} {L : PrimitiveLaws} {K : PkPrimitives} {KL : PkLaws}.

(** C1: A whole transfer between honest parties: for every prepared file of at
    most 2^14 chunks there are two byte streams such that [send_pending]
    reading the second writes the first, [receive_file] reading the first
    writes the second, both return a report, the file at the destination is
    the sender's file, the reports agree on ids, commitment, root, digest,
    size and chunk counts, and each names the other's device and endpoint. *)
Theorem session_delivers src secrets chunk p wA wB seedA epA seedB epB admA admB nA nB :
  prepare (len src) src secrets chunk = Ok p -> u64 (len src) -> bytes_ok src -> Object.chunk_count (p_ctx p) <= 2 ^ 14 ->
  ready src p wA wB seedA epA epB admA admB (n_replay nB) ->
  exists s2r r2s repA repB nA' nB',
    send_pending wA (from_seed seedA) epA epB p admA (set_in r2s nA) = (Ok repA, nA') /\ n_out nA' = n_out nA ++ s2r /\
    receive_file wB (from_seed seedB) epB admB false (set_in s2r nB) = (Ok repB, nB') /\ n_out nB' = n_out nB ++ r2s /\
    n_dest nB' = Some src /\ same_object repA repB /\ tr_plaintext_digest repA = blake3_hash src /\ tr_bytes repA = len src /\
    tr_chunks_transferred repA = tr_chunks repA /\
    tr_peer_device_id repA = id_device_id (from_seed seedB) /\ tr_peer_endpoint_id repA = epB /\
    tr_peer_device_id repB = id_device_id (from_seed seedA) /\ tr_peer_endpoint_id repB = epA.
Proof.
  intros Hprep Hu Hb Hn Hr. destruct (prepare_prepared _ _ _ _ Hu Hb Hprep) as (Hp & Hsec & Hf). rewrite <- Hsec in Hf.
  destruct (session_run src p chunk wA wB seedA epA seedB epB admA admB nA nB Hp Hu Hn Hf Hr)
    as (s2r & r2s & repA & repB & nA' & nB' & _ & _ & H). by exists s2r, r2s, repA, repB, nA', nB'.
Qed.

(** A chunk that a resumed receive kept: the record of this object called it
    durable, and it is what the destination held when the receive began. *)
Definition kept (w : RecvWorld) (resume : bool) (a : Accepted) (k : Z) (pt : bytes) : Prop := resume = true /\
  exists d flag existing, Resume.open_db (rw_record w) (a_identity a) (rw_path w) = Ok (d, flag) /\ rw_existing w = Some existing /\
    Bitmap.get (Resume.durable (Resume.record d)) k = Ok true /\
    pt = file_chunk (e_ctx (a_env a)) (set_len (Object.logical_plaintext_size (e_ctx (a_env a))) existing) k.
(** What reading the record returned is bytes. *)
Definition record_bytes_ok (w : RecvWorld) : Prop := forall b, rw_record w = Some b -> bytes_ok b.
Lemma accepted_geometry device s now o a : accepted device s now o a ->
  geometry (e_ctx (a_env a)) /\ Object.logical_plaintext_size (e_ctx (a_env a)) = Object.encoded_plaintext_size (e_ctx (a_env a)).
Proof.
  intros [_ _ (pm & object & m & _ & _ & Hm & _ & _ & Hf & _) _ _].
  apply private_opened in Hm as ((v & _ & (Hw & _)) & _).
  assert (Hs : u64 (pv_logical_plaintext_size m)) by apply Hw.
  destruct (for_file_geometry _ _ _ _ _ Hs Hf) as (Hg & He & _ & _ & _ & Hl). split; [exact Hg|congruence].
Qed.
Lemma kept_db w resume s o a device existing db flag : accepted device s (rw_now w) o a -> record_bytes_ok w ->
  rw_existing w = Some existing ->
  (if resume : bool then exists d, db = Some d /\ Resume.open_db (rw_record w) (a_identity a) (rw_path w) = Ok (d, flag) else db = None) ->
  db_ok (fun k pt => authentic (a_env a) k pt \/ kept w resume a k pt) (a_env a) existing db.
Proof.
  intros Ha Hrec Hex Hdb. destruct resume; [|by rewrite Hdb]. destruct Hdb as (d & -> & Hopen).
  destruct (accepted_geometry _ _ _ _ _ Ha) as [Hg _]. destruct Ha as [_ _ _ _ (_ & Hc & _)].
  destruct (Resume.open_db_bitmap _ _ _ _ _ Hrec ltac:(rewrite Hc; apply Hg) Hopen) as (Hwf & Hcount & _).
  split; [exact Hwf|]. split; [congruence|]. intros k _ Hk. right. split; [done|]. by exists d, flag, existing.
Qed.
(** Nothing is kept of a transfer without a record. *)
Lemma nothing_kept w resume s o a device k pt : accepted device s (rw_now w) o a -> 0 <= k -> rw_record w = None -> ~ kept w resume a k pt.
Proof.
  intros Ha Hk Hn (_ & d & flag & existing & Hopen & _ & Hget & _).
  destruct (accepted_geometry _ _ _ _ _ Ha) as [Hg _]. destruct Ha as [_ _ _ _ (_ & Hc & _)].
  assert (Hrec : record_bytes_ok w) by (intros b Hb; congruence).
  destruct (Resume.open_db_bitmap _ _ _ _ _ Hrec ltac:(rewrite Hc; apply Hg) Hopen) as (_ & _ & Hnone).
  exact (Hnone Hn k Hk Hget).
Qed.

Lemma receive_file_spec w i ep adm resume n rep n' : bytes_ok (n_in n) -> record_bytes_ok w ->
  receive_file w i ep adm resume n = (Ok rep, n') ->
  admits (policy adm) (rw_route w) = true /\
  exists s stream o a f, authenticated w i ep (n_replay n) (n_in n) s stream /\ offered s stream o /\ accepted (id_device_id i) s (rw_now w) o a /\
    n_dest n' = Some f /\ len f = Object.logical_plaintext_size (e_ctx (a_env a)) /\
    blake3_hash f = e_expected_digest (a_env a) /\
    (forall k, 0 <= k < Object.chunk_count (e_ctx (a_env a)) ->
       authentic (a_env a) k (file_chunk (e_ctx (a_env a)) f k) \/ kept w resume a k (file_chunk (e_ctx (a_env a)) f k)) /\
    tr_plaintext_digest rep = blake3_hash f /\ tr_bytes rep = len f /\
    tr_transfer_id rep = Keys.transfer_id (a_secrets a) /\ tr_object_id rep = Keys.object_id (a_secrets a) /\
    tr_peer_device_id rep = device_id (peer s) /\ tr_peer_endpoint_id rep = peer_endpoint_id s.
Proof.
  intros Hok Hrec H. unfold receive_file in H. ainv H route n1 Hadm. apply check_route_inv in Hadm as (-> & Hadm & ->).
  split; [exact Hadm|]. ainv H s n2 Hs. apply respond_inv in Hs as (Hauth & Hok2 & _); [|exact Hok].
  apply receive_session_inv in H as (o & a & [Hfr Hacc Hst (T1 & T2 & _ & T3 & T4 & T5)]); [|exact Hok2].
  destruct Hst as (existing & db & flag & disk & watch & events & st0 & rq & stream & control & st1 & control' & st2 &
    Hex & Hdb & Hstart & Hstream & Hloop & Hfin).
  destruct (accepted_geometry _ _ _ _ _ Hacc) as [Hg Hlog].
  pose proof (kept_db w resume s o a _ existing db flag Hacc Hrec Hex Hdb) as Hkeep.
  destruct (loop_holds (fun k pt => authentic (a_env a) k pt \/ kept w resume a k pt) _ _ _ _ _ _ _ _ _ _ _ _ _ _
    (fun _ _ H => or_introl H) Hg Hlog Hkeep Hstart Hstream Hloop)
    as [Hinv _].
  pose proof Hinv as [Hwf Hc Hf Hheld _].
  destruct (finish_spec _ _ _ _ _ _ _ Hg Hinv Hfin) as (Hcomp & Hdg & Hexp & Hdest).
  exists s, (n_in n2), o, a, (r_file st1). split; [exact Hauth|]. split; [exact Hfr|]. split; [exact Hacc|]. split; [exact Hdest|]. split; [congruence|].
  split; [congruence|]. split; [|split_and!; congruence].
  intros k Hk. apply Hheld; [lia|]. apply (Bitmap.is_complete_spec _ Hwf); [exact Hcomp|lia].
Qed.

(** C2: What a returned report guarantees, whatever bytes the network delivered
    and whatever the resume record holds: the route was admitted, the
    handshake read first authenticated the peer the report names, the first
    frame of the session's control channel is an offer of that peer which was
    accepted for this device, and the file at the destination has the
    size and the hash that offer's private manifest commits to; every chunk
    of it is the decryption of a ciphertext under the offer's Merkle root,
    except, in a resumed receive, chunks that the record of the same object
    calls durable, which are what the destination held before; so without a
    record every chunk is one. *)
Theorem received_file_authentic w i ep adm resume n rep n' : bytes_ok (n_in n) -> record_bytes_ok w ->
  receive_file w i ep adm resume n = (Ok rep, n') ->
  admits (policy adm) (rw_route w) = true /\
  exists s stream o a f, authenticated w i ep (n_replay n) (n_in n) s stream /\ offered s stream o /\ accepted (id_device_id i) s (rw_now w) o a /\
    n_dest n' = Some f /\ len f = Object.logical_plaintext_size (e_ctx (a_env a)) /\
    blake3_hash f = e_expected_digest (a_env a) /\
    (forall k, 0 <= k < Object.chunk_count (e_ctx (a_env a)) ->
       authentic (a_env a) k (file_chunk (e_ctx (a_env a)) f k) \/ kept w resume a k (file_chunk (e_ctx (a_env a)) f k)) /\
    (resume = false \/ rw_record w = None -> forall k, 0 <= k < Object.chunk_count (e_ctx (a_env a)) ->
       authentic (a_env a) k (file_chunk (e_ctx (a_env a)) f k)) /\
    tr_plaintext_digest rep = blake3_hash f /\ tr_bytes rep = len f /\
    tr_transfer_id rep = Keys.transfer_id (a_secrets a) /\ tr_object_id rep = Keys.object_id (a_secrets a) /\
    tr_peer_device_id rep = device_id (peer s) /\ tr_peer_endpoint_id rep = peer_endpoint_id s.
Proof.
  intros Hok Hrec H. destruct (receive_file_spec _ _ _ _ _ _ _ _ Hok Hrec H) as (Hadm & s & stream & o & a & f & Hau & Hof & Hac & H1 & H2 & H3 & H4 & Hids).
  split; [exact Hadm|]. exists s, stream, o, a, f. do 7 (split; [assumption|]). split; [|exact Hids].
  intros Hnone k Hk. destruct (H4 k Hk) as [Ha|Hkept]; [exact Ha|]. exfalso.
  destruct Hnone as [->|Hnone]; [by destruct Hkept|]. eapply nothing_kept; [exact Hac| |exact Hnone|exact Hkept]. lia.
Qed.

(** C6: A route policy is settled before the first byte: on a connection to
    another endpoint the sender fails and touches nothing; on a route the
    policy refuses, sender and receiver fail with that route, and all that
    changed is the event that reports it. *)
Theorem refused_before_first_byte wA wB i ep peer_ep p adm resume n :
  (sw_remote_id wA <> peer_ep -> send_pending wA i ep peer_ep p adm n = (Err Framing.Handshake, n)) /\
  (sw_remote_id wA = peer_ep -> admits (policy adm) (sw_route wA) = false ->
     send_pending wA i ep peer_ep p adm n = (Err (RouteRefused (sw_route wA)),
       set_events (push_all [route_event (Keys.transfer_id (p_secrets p)) (sw_route wA)] (n_events n)) n)) /\
  (admits (policy adm) (rw_route wB) = false ->
     receive_file wB i ep adm resume n = (Err (RouteRefused (rw_route wB)),
       set_events (push_all [route_event (replicate 32 0) (rw_route wB)] (n_events n)) n)).
Proof.
  split; [|split].
  - intros Hne. unfold send_pending. destruct (bytes_eqb _ _) eqn:E; [by apply bytes_eqb_true in E|done].
  - intros He Hr. unfold send_pending. rewrite He, bytes_eqb_refl. cbn [negb]. unfold check_route, admit_route. rewrite Hr. reflexivity.
  - intros Hr. unfold receive_file, check_route, admit_route. rewrite Hr. reflexivity.
Qed.

Lemma on_ack_inv p ack q r q' : on_ack p ack q = (Ok r, q') ->
  Ack.decode_ack ack = Ok (0, p_plaintext_digest p) /\
  q' = push_all [ObjectCompleted (Keys.transfer_id (p_secrets p)) (Keys.object_id (p_secrets p)) (p_plaintext_digest p);
                 TransferCompleted (Keys.transfer_id (p_secrets p)) 1] q.
Proof.
  unfold on_ack. destruct (Ack.decode_ack ack) as [[st dg]|e|]; [|done..].
  destruct (Z.eqb_spec st 0) as [->|]; cbn [negb]; [|done]. destruct (ct_eq dg _) eqn:E; cbn [negb]; [|done].
  apply ct_eq_true in E as ->. intros [= _ <-]. done.
Qed.
Lemma serve_inv p f obs r c watch n c' watch' n' : serve p f obs r c watch n = (Ok (c', watch'), n') ->
  n_in n' = n_in n /\ receiving_half c' = receiving_half c.
Proof.
  unfold serve. destruct (serve_ranges _ _ _ _ _) as [res st] eqn:H. apply serve_half in H. cbn [s_control] in H.
  intros [= Hr <-]. split; [done|]. destruct res as [[]|e|]; [|done..]. by injection Hr as <- _.
Qed.

(** C5: The sender reports delivery only on the receiver's word: when
    [send_pending] returns a report, the bytes it received are a handshake
    that ended in a session with the peer the report names, then a frame that
    the session's control channel opens as a range request the pending
    transfer accepts, then a frame that the channel opens next as a COMPLETE
    with status 0 and the digest of the prepared file, and nothing more was
    read; the report carries that digest and the number of chunks requested,
    and the two completion events are the last ones pushed. *)
Theorem delivery_acknowledged w i ep peer_ep p adm n rep n' : bytes_ok (n_in n) ->
  send_pending w i ep peer_ep p adm n = (Ok rep, n') ->
  exists s stream rq request rest ack c1 c2 q, greeted w i ep peer_ep (n_in n) s stream /\
    recv_frame (new_channel (s_handshake_prk s) (s_th2 s) ClientToServer) stream = (Ok (FRAME_RANGE_REQUEST, rq, rest), c1) /\
    accept_request p rq = Ok request /\
    recv_frame c1 rest = (Ok (FRAME_COMPLETE, ack, n_in n'), c2) /\
    Ack.decode_ack ack = Ok (0, p_plaintext_digest p) /\ tr_plaintext_digest rep = p_plaintext_digest p /\
    tr_chunks_transferred rep = chunk_total request /\ tr_peer_device_id rep = device_id (peer s) /\
    n_events n' = push_all [ObjectCompleted (Keys.transfer_id (p_secrets p)) (Keys.object_id (p_secrets p)) (p_plaintext_digest p);
                            TransferCompleted (Keys.transfer_id (p_secrets p)) 1] q.
Proof.
  intros Hok H. unfold send_pending in H. destruct (negb _); [done|].
  ainv H route n1 Hadm. apply check_route_inv in Hadm as (_ & _ & ->). ainv H s n2 Hs. apply initiate_inv in Hs as [Hs Hin]; [|exact Hok].
  unfold send_session in H. ainv H f n3 Hf. apply from_result_inv in Hf as [_ ->]. ainv H x n3 Hx. apply from_result_inv in Hx as [_ ->].
  destruct x as [pm o]. ainv H ob n3 Hob. apply from_result_inv in Hob as [_ ->].
  ainv H c1 n3 Hc1. apply write_frame_inv in Hc1 as (w1 & Hsent & ->). apply send_keeps_half in Hsent.
  ainv H y n3 Hy. destruct y as [rq c2]. apply read_frame_inv in Hy as (t1 & Hrq & _ & Ht1 & ->); [|exact Hin].
  ainv H r n3 Hr. apply from_result_inv in Hr as [Hr ->]. ainv H z n4 Hz. destruct z as [c3 watch]. apply serve_inv in Hz as [Hz Hserved].
  ainv H v n5 Hv. destruct v as [ack c4]. apply read_frame_inv in Hv as (t2 & Hack & _ & _ & ->); [|by rewrite Hz].
  ainv H u n6 Hu. unfold confirm in Hu. cbn [n_events set_in] in Hu.
  destruct (on_ack p ack (n_events n4)) as [r5 q] eqn:Hon. injection Hu as -> <-. apply on_ack_inv in Hon as [Hdec ->].
  ainv H c n7 Hc. apply from_result_inv in Hc as [_ ->]. unfold done_with in H. injection H as <- <-.
  destruct (recv_same_half _ _ _ _ _ (eq_sym Hsent) Hrq) as (h1 & Hrq' & Hh1). rewrite Hz in Hack. cbn [n_in set_in] in Hack.
  destruct (recv_same_half h1 _ _ _ _ (eq_trans Hh1 (eq_sym Hserved)) Hack) as (h2 & Hack' & _).
  exists s, (n_in n2), rq, r, t1, ack, h1, h2, (n_events n4). by split_and!.
Qed.
End Claims.

(** ** A session *)
Module SessionWitness.
Import Toy ToyPk SenderWitness ReceiverWitness HandshakeWitness ExchangeWitness.
Definition sendworld1 : SendWorld :=
  mkSendWorld endpoint_b Relay 0 draws_a (replicate 32 12) (replicate 32 13) (Some source) 1000 (lit "report.pdf") draws1 (fun _ => (0, Relay)).
Definition recvworld1 : RecvWorld :=
  mkRecvWorld endpoint_a Relay 0 draws_b 1100 1005 (Some [1; 2]) None [] (fun _ => io3) fio3.
Definition any1 : RouteAdmission := new_admission Any.
Definition node1 (q : option Inner) : Node := mkNode [] [] q empty_cache None disk3.
Lemma ready1 : ready source pending3 sendworld1 recvworld1 seed_a endpoint_a endpoint_b any1 any1 empty_cache.
Proof.
  split.
  - split; [exact start_ok_a|exact hello_ok_b|vm_compute; discriminate|vm_compute; reflexivity|reflexivity].
  - reflexivity.
  - reflexivity.
  - exact sendable1.
  - split; [vm_compute; split; [discriminate|reflexivity]|split; [vm_compute; reflexivity|vm_compute; discriminate]].
  - exists [1; 2]. reflexivity.
  - split; reflexivity.
  - intros k. split; reflexivity.
  - intros k. reflexivity.
  - split; reflexivity.
Qed.
Lemma session_delivers_witness : exists s2r r2s repA repB nA nB,
  send_pending sendworld1 (from_seed seed_a) endpoint_a endpoint_b pending3 any1 (set_in r2s (node1 (Some new_queue))) = (Ok repA, nA) /\
  n_out nA = s2r /\
  receive_file recvworld1 (from_seed seed_b) endpoint_b any1 false (set_in s2r (node1 None)) = (Ok repB, nB) /\
  n_out nB = r2s /\ n_dest nB = Some source /\ same_object repA repB /\ tr_bytes repA = 3.
Proof.
  destruct (session_delivers source secrets3 65536 pending3 sendworld1 recvworld1 seed_a endpoint_a seed_b endpoint_b any1 any1
    (node1 (Some new_queue)) (node1 None)) as (s2r & r2s & repA & repB & nA & nB & H1 & H2 & H3 & H4 & H5 & H6 & _ & H7 & _).
  - exact prepared3.
  - exact (proj1 source_ok).
  - exact (proj2 source_ok).
  - vm_compute. discriminate.
  - exact ready1.
  - exists s2r, r2s, repA, repB, nA, nB. split; [exact H1|]. split; [exact H2|]. split; [exact H3|]. split; [exact H4|].
    split; [exact H5|]. split; [exact H6|exact H7].
Defined.

(** The same session, for the statements about what was returned. *)
Lemma session1 : exists s2r r2s repA repB nA nB, bytes_ok s2r /\ bytes_ok r2s /\
  send_pending sendworld1 (from_seed seed_a) endpoint_a endpoint_b pending3 any1 (set_in r2s (node1 (Some new_queue))) = (Ok repA, nA) /\
  receive_file recvworld1 (from_seed seed_b) endpoint_b any1 false (set_in s2r (node1 None)) = (Ok repB, nB) /\ n_dest nB = Some source.
Proof.
  destruct (prepare_prepared source secrets3 65536 pending3 (proj1 source_ok) (proj2 source_ok) prepared3) as (Hp & Hsec & Hf).
  rewrite <- Hsec in Hf.
  destruct (session_run source pending3 65536 sendworld1 recvworld1 seed_a endpoint_a seed_b endpoint_b any1 any1
    (node1 (Some new_queue)) (node1 None) Hp (proj1 source_ok)) as (s2r & r2s & repA & repB & nA & nB & H1 & H2 & H3 & _ & H4 & _ & H5 & _).
  - vm_compute. discriminate.
  - exact Hf.
  - exact ready1.
  - exists s2r, r2s, repA, repB, nA, nB. split; [exact H1|]. split; [exact H2|]. split; [exact H3|]. split; [exact H4|exact H5].
Qed.
Lemma received_file_authentic_witness : exists s2r rep nB f,
  receive_file recvworld1 (from_seed seed_b) endpoint_b any1 false (set_in s2r (node1 None)) = (Ok rep, nB) /\
  n_dest nB = Some f /\ tr_plaintext_digest rep = blake3_hash f /\ tr_bytes rep = len f.
Proof.
  destruct session1 as (s2r & r2s & repA & repB & nA & nB & Hok & _ & _ & H & _).
  destruct (received_file_authentic recvworld1 (from_seed seed_b) endpoint_b any1 false (set_in s2r (node1 None)) repB nB Hok
    (fun b Hb => ltac:(discriminate Hb)) H) as (_ & s & stream & o & a & f & _ & _ & _ & Hd & _ & _ & _ & _ & H1 & H2 & _).
  exists s2r, repB, nB, f. split; [exact H|]. split; [exact Hd|]. split; [exact H1|exact H2].
Defined.
(** A receive resumed from a record of this object, whose only chunk is
    durable: the chunk is kept. *)
Definition object3 : Resume.ObjectIdentity :=
  Resume.mkIdentity (Keys.transfer_id secrets3) (Keys.object_id secrets3) (replicate 32 5) (e_root env3)
    (Object.chunk_count (e_ctx env3)) (Object.chunk_ciphertext_size (e_ctx env3)) (Object.logical_plaintext_size (e_ctx env3)).
Definition record3 : bytes :=
  match Resume.encode_record (E := Resume.ResumeError)
    (Resume.mkRecord object3 (Bitmap.mkBitmap 1 [128] 1) (Bitmap.mkBitmap 1 [128] 1) (lit "/tmp/report.pdf") [] 0) with
  | Ok b => b
  | _ => []
  end.
Definition resumedworld : RecvWorld :=
  mkRecvWorld endpoint_a Relay 0 draws_b 1100 1005 (Some source) (Some record3) (lit "/tmp/report.pdf") (fun _ => io3) fio3.
Example resumed_chunk_kept : record_bytes_ok resumedworld /\ kept resumedworld true (mkAccepted secrets3 env3 object3) 0 source.
Proof.
  split; [intros b Hb; apply bytes_ok_check; revert b Hb|split; [reflexivity|]].
  { change (rw_record resumedworld) with (Some record3). intros b Hb. assert (b = record3) as -> by congruence. vm_compute. reflexivity. }
  eexists _, _, source. split; [vm_compute; reflexivity|]. split; [reflexivity|]. split; vm_compute; reflexivity.
Qed.
Lemma delivery_acknowledged_witness : exists r2s rep nA s stream rq rest ack c1 c2,
  send_pending sendworld1 (from_seed seed_a) endpoint_a endpoint_b pending3 any1 (set_in r2s (node1 (Some new_queue))) = (Ok rep, nA) /\
  greeted sendworld1 (from_seed seed_a) endpoint_a endpoint_b r2s s stream /\
  recv_frame (new_channel (s_handshake_prk s) (s_th2 s) ClientToServer) stream = (Ok (FRAME_RANGE_REQUEST, rq, rest), c1) /\
  recv_frame c1 rest = (Ok (FRAME_COMPLETE, ack, n_in nA), c2) /\ Ack.decode_ack ack = Ok (0, p_plaintext_digest pending3).
Proof.
  destruct session1 as (s2r & r2s & repA & repB & nA & nB & _ & Hok & H & _).
  destruct (delivery_acknowledged sendworld1 (from_seed seed_a) endpoint_a endpoint_b pending3 any1 (set_in r2s (node1 (Some new_queue))) repA nA Hok H)
    as (s & stream & rq & request & rest & ack & c1 & c2 & q & H1 & H2 & _ & H3 & H4 & _).
  exists r2s, repA, nA, s, stream, rq, rest, ack, c1, c2. split; [exact H|]. split; [exact H1|]. split; [exact H2|]. split; [exact H3|exact H4].
Defined.
(** A relayed path under a policy for direct ones. *)
Definition direct1 : RouteAdmission := new_admission DirectOnly.
Lemma refused_before_first_byte_witness :
  send_pending sendworld1 (from_seed seed_a) endpoint_a endpoint_b pending3 direct1 (node1 None) = (Err (RouteRefused Relay), node1 None) /\
  send_pending sendworld1 (from_seed seed_a) endpoint_a endpoint_a pending3 any1 (node1 None) = (Err Framing.Handshake, node1 None).
Proof.
  split.
  - refine (proj1 (proj2 (refused_before_first_byte sendworld1 recvworld1 (from_seed seed_a) endpoint_a endpoint_b pending3 direct1 false (node1 None))) _ _);
      reflexivity.
  - apply (proj1 (refused_before_first_byte sendworld1 recvworld1 (from_seed seed_a) endpoint_a endpoint_a pending3 any1 false (node1 None))).
    vm_compute. discriminate.
Defined.
End SessionWitness.
