(* ===== verification/NoPanic.v ===== *)
(** * Receiving without a panic

    No bytes of the peer, no record file and no outcome of a system call makes
    [receive_file] panic.  The readers are shown safe by composition: [safe]
    is the statement that a computation of the monad [M] does not panic and
    what holds of its state afterwards. *)

From stdpp Require Import gmap.
From S2P Require Import Resume Bitmap Prelude Cbor Wire Crypto Merkle Keys Identity Object Extension Manifest Offer Scheduler Control Events Route Framing.
From S2P Require Import Sender Receiver HandshakeMsg Handshake OfferExchange Session.
#[local] Open Scope Z_scope.

(** ** Computations that do not panic *)
Definition safe {S E A} (I : S -> Prop) (p : M S E A) (Q : A -> S -> Prop) : Prop :=
  forall s, I s -> match p s with Ok (a, s') => Q a s' | Err _ => True | Panic => False end.
Lemma safe_bind {S E A B} (I : S -> Prop) (R : A -> S -> Prop) Q (p : M S E A) (k : A -> M S E B) :
  safe I p R -> (forall a, safe (R a) (k a) Q) -> safe I (bind p k) Q.
Proof.
  intros Hp Hk s Hs. specialize (Hp s Hs). unfold bind. destruct (p s) as [[a s']|e|]; [|done..]. exact (Hk a s' Hp).
Qed.
Lemma safe_ret {S E A} (I : S -> Prop) (a : A) (Q : A -> S -> Prop) : (forall s, I s -> Q a s) -> safe I (ret (E := E) a) Q.
Proof. intros H s Hs. by apply H. Qed.
Lemma safe_fail {S E A} (I : S -> Prop) (e : E) (Q : A -> S -> Prop) : safe I (fail e) Q.
Proof. by intros s _. Qed.
Lemma safe_guard {S E} (I : S -> Prop) c (e : E) : safe I (guard c e) (fun _ => I).
Proof. intros s Hs. by destruct c. Qed.
Lemma safe_q {S E' E A} `{From E' E} (I : S -> Prop) (p : M S E' A) Q : safe I p Q -> safe I (q p) Q.
Proof. intros Hp s Hs. specialize (Hp s Hs). unfold q, try, map_err. by destruct (p s) as [[]| |]. Qed.
Lemma safe_repeat {S E A} (I : S -> Prop) n (p : M S E A) : safe I p (fun _ => I) -> safe I (repeat_m n p) (fun _ => I).
Proof.
  intros Hp. induction n as [|n IH]; cbn [repeat_m]; [by apply safe_ret|]. eapply safe_bind; [exact Hp|]. intros a.
  eapply safe_bind; [exact IH|]. intros l. by apply safe_ret.
Qed.

Lemma safe_pre {S E A} (I J : S -> Prop) (p : M S E A) Q : (forall s, J s -> I s) -> safe I p Q -> safe J p Q.
Proof. intros Hi Hp s Hs. apply Hp, Hi, Hs. Qed.

(** ** Readers

    A reader over bytes at a depth of at least [d]; a map reader in a map
    that was opened there, with the last key it read. *)
Definition at_depth (d : Z) (r : Reader.t) : Prop := exists pre rest d', r = mkr pre rest d' /\ bytes_ok rest /\ 0 <= d <= d'.
Definition in_depth (d : Z) (last : option Z) (m : MapReader.t) : Prop :=
  exists pre rest d' n, m = mkm pre rest d' n last /\ bytes_ok rest /\ 0 <= d < d'.
(** After the last entry. *)
Definition closed (d : Z) (m : MapReader.t) : Prop := at_depth d (MapReader.reader m).
Abbreviation reads d p := (safe (at_depth d) p (fun _ => at_depth d)).

Lemma reads_of {E A} (p : M Reader.t E A) d :
  (forall pre rest d', bytes_ok rest -> p (mkr pre rest d') <> Panic) ->
  (forall pre rest d' a r, bytes_ok rest -> 0 <= d' -> p (mkr pre rest d') = Ok (a, r) ->
    exists pre' rest', r = mkr pre' rest' d' /\ bytes_ok rest') -> reads d p.
Proof.
  intros Ht Hb r (pre & rest & d' & -> & Hok & Hd). specialize (Ht pre rest d' Hok).
  destruct (p _) as [[a r]|e|] eqn:H; [|done..]. destruct (Hb pre rest d' a r Hok ltac:(lia) H) as (pre' & rest' & -> & Hok').
  by eexists pre', rest', d'.
Qed.
Lemma reads_codec {E A k f Q} {p : M Reader.t E A} (Hc : codec k p f Q) d :
  (forall pre rest d', bytes_ok rest -> p (mkr pre rest d') <> Panic) -> reads d p.
Proof.
  intros Ht. apply reads_of; [exact Ht|]. intros pre rest d' a r Hok Hd H.
  destruct (codec_bwd Hc pre rest d' a r Hok Hd H) as (tl & _ & -> & Hok' & _). by eexists _, tl.
Qed.
Lemma reads_uint d : reads d Reader.uint.
Proof. apply (reads_codec codec_uint). exact uint_total. Qed.
Lemma reads_bytes d : reads d Reader.bytes.
Proof. apply (reads_codec codec_bytes). exact bytes_total. Qed.
Lemma reads_text d : reads d Reader.text.
Proof. apply (reads_codec codec_text). exact text_total. Qed.
Lemma reads_boolean d : reads d Reader.boolean.
Proof.
  apply (reads_codec codec_boolean). intros pre rest d' Hok. apply bind_total; [by apply head_total|]. intros a s _. by destruct (negb _).
Qed.
Lemma reads_bytes_exact n d : reads d (Reader.bytes_exact n).
Proof.
  unfold Reader.bytes_exact. eapply safe_bind; [apply reads_bytes|]. intros raw. destruct (_ =? _); [by apply safe_ret|apply safe_fail].
Qed.
Lemma reads_array d : safe (at_depth d) Reader.array (fun _ => at_depth (d + 1)).
Proof.
  intros r (pre & rest & d' & -> & Hok & Hd). pose proof (array_total pre rest d' Hok) as Ht.
  destruct (Reader.array _) as [[n r]|e|] eqn:H; [|done..]. apply array_bwd in H as (tl & _ & -> & _ & Hok' & _); [|done].
  eexists _, tl, (d' + 1). split_and!; [done|done|lia|lia].
Qed.
Lemma reads_leave {E} d : 0 <= d -> safe (at_depth (d + 1)) (Reader.leave (E := E)) (fun _ => at_depth d).
Proof.
  intros Hd r (pre & rest & d' & -> & Hok & Hd'). rewrite leave_fwd by lia. eexists pre, rest, (d' - 1). split_and!; [done|done|lia|lia].
Qed.
(** Entering without leaving goes deeper. *)
Lemma deeper d d' r : 0 <= d <= d' -> at_depth d' r -> at_depth d r.
Proof. intros Hd (pre & rest & x & -> & Hok & Hx). exists pre, rest, x. split_and!; [done|done|lia|lia]. Qed.

(** ** Maps *)
Lemma reads_next {E} `{From CborError E} d last : safe (in_depth d last) (next (E := E)) (fun k m =>
  match k with Some k' => key_after last k' /\ in_depth d (Some k') m | None => closed d m end).
Proof.
  intros m (pre & rest & d' & n & -> & Hok & Hd). pose proof (next_total (E := E) pre rest d' n last Hok ltac:(lia)) as Ht.
  destruct (next _) as [[k m]|e|] eqn:Hn; [|done..].
  apply next_bwd in Hn as [(-> & _ & Hd' & ->)|(k' & tl & -> & _ & _ & Hk & _ & Hok' & ->)]; [| |done|lia].
  - eexists pre, rest, (d' - 1). split_and!; [done|done|lia|lia].
  - split; [exact Hk|]. by eexists _, tl, d', (n - 1).
Qed.
Lemma reads_expect {E} `{From CborError E} d last k : safe (in_depth d last) (expect (E := E) k) (fun _ => in_depth d (Some k)).
Proof.
  unfold expect, MapReader.expect_key. apply safe_q.
  eapply (safe_bind _ _ _ (MapReader.next_key)).
  { intros m Hm. pose proof (reads_next (E := CborError) d last m Hm) as Hn. unfold next, q in Hn.
    destruct (MapReader.next_key m) as [[a m']| |]; [exact Hn|exact Hn|exact Hn]. }
  intros [k'|]; [|apply safe_fail]. destruct (Z.eqb_spec k' k) as [->|]; [|apply safe_fail]. apply safe_ret. by intros s [].
Qed.
Lemma gets {E' E A} `{From E' E} (p : M Reader.t E' A) d d1 last : safe (at_depth (d + 1)) p (fun _ => at_depth (d1 + 1)) -> 0 <= d1 ->
  safe (in_depth d last) (get p : M MapReader.t E A) (fun _ => in_depth d1 last).
Proof.
  intros Hp Hd1 m (pre & rest & d' & n & -> & Hok & Hd).
  specialize (Hp (mkr pre rest d') ltac:(exists pre, rest, d'; split_and!; [done|done|lia|lia])).
  unfold get, MapReader.on, mkm, q, try, map_err. cbn [MapReader.reader MapReader.remaining MapReader.last_key].
  fold (mkr pre rest d'). destruct (p (mkr pre rest d')) as [[a r]|e|]; [|done..]. destruct Hp as (pre' & rest' & d2 & -> & Hok' & Hd2).
  cbn [rbind]. exists pre', rest', d2, n. split_and!; [done|done|lia|lia].
Qed.
Lemma in_depth_nonneg {E A} d last (p : M MapReader.t E A) Q : (0 <= d -> safe (in_depth d last) p Q) -> safe (in_depth d last) p Q.
Proof. intros H m Hm. refine (H _ m Hm). destruct Hm as (? & ? & ? & ? & _ & _ & ?). lia. Qed.
Lemma reads_get {E' E A} `{From E' E} (p : M Reader.t E' A) d last : reads (d + 1) p ->
  safe (in_depth d last) (get p : M MapReader.t E A) (fun _ => in_depth d last).
Proof. intros Hp. apply in_depth_nonneg. intros Hd. by apply gets. Qed.
Lemma reads_get_array {E} `{From CborError E} d last :
  safe (in_depth d last) (get Reader.array : M MapReader.t E Z) (fun _ => in_depth (d + 1) last).
Proof. apply in_depth_nonneg. intros Hd. apply gets; [apply reads_array|lia]. Qed.
Lemma reads_get_leave {E' E} `{From E' E} d last : 0 <= d ->
  safe (in_depth (d + 1) last) (get (Reader.leave (E := E')) : M MapReader.t E unit) (fun _ => in_depth d last).
Proof. intros Hd. apply gets; [apply reads_leave; lia|lia]. Qed.
Lemma reads_no_more {E} `{From CborError E} d last (e : E) : safe (in_depth d last) (no_more e) (fun _ => closed d).
Proof. eapply safe_bind; [apply reads_next|]. intros [k|]; [apply safe_fail|by apply safe_ret]. Qed.
Lemma reads_in_map {E A} `{From CborError E} (p : M MapReader.t E A) d :
  (0 <= d -> safe (in_depth d None) p (fun _ => closed d)) -> reads d (in_map p).
Proof.
  intros Hp r (pre & rest & d' & -> & Hok & Hd). unfold in_map. pose proof (map_total pre rest d' Hok) as Ht.
  destruct (Reader.map (mkr pre rest d')) as [[n r1]|e|] eqn:Hr; [|done..]. cbn [try map_err rbind].
  apply map_bwd in Hr as (tl & _ & -> & _ & Hok' & _); [|done].
  specialize (Hp ltac:(lia) (mkm (pre ++ hdr MAJOR_MAP n) tl (d' + 1) n None)
    ltac:(eexists _, tl, (d' + 1), n; split_and!; [done|done|lia|lia])).
  unfold mkm in Hp. destruct (p _) as [[a m]|e|]; [exact Hp|done..].
Qed.

(** ** Skipped values *)
Lemma reads_skip_value d : reads d (fun r => skip_value (skip_fuel r) r).
Proof.
  intros r (pre & rest & d' & -> & Hok & Hd).
  assert (Ht : skip_value (skip_fuel (mkr pre rest d')) (mkr pre rest d') <> Panic).
  { apply (proj1 (total_all _)); [done|lia|]. rewrite skip_fuel_eq. unfold len. lia. }
  destruct (skip_value _ _) as [[[] r]|e|] eqn:H; [|done..].
  apply (proj1 (skipped_all _)) in H as (v & tl & _ & -> & Hok' & _); [|done|lia]. by eexists _, tl, d'.
Qed.
Lemma reads_skip_extension_map d : reads d skip_extension_map.
Proof.
  intros r (pre & rest & d' & -> & Hok & Hd). pose proof (skip_total pre rest d' Hok ltac:(lia)) as Ht.
  destruct (skip_extension_map _) as [[[] r]|e|] eqn:H; [|done..]. unfold skip_extension_map in H.
  apply in_map_bwd in H as (n & tl & m & _ & [Hn _] & Hok' & H & ->); [|done].
  apply (proj2 (proj2 (skipped_all _))) in H as (l & tl2 & last & _ & -> & Hok2 & _); [|done|lia|done].
  eexists _, tl2, d'. split_and!; [unfold mkm, mkr; cbn [MapReader.reader]; by rewrite Z.add_simpl_r|done|lia|lia].
Qed.
Lemma reads_extension d last key : safe (in_depth d last) (extension key) (fun _ => closed d).
Proof.
  eapply safe_bind; [apply reads_next|]. intros [k|]; [|by apply safe_ret]. cbn beta iota.
  destruct (_ =? _); [|apply safe_fail]. apply (safe_pre (in_depth d (Some k))); [intros m Hm; exact (proj2 Hm)|].
  eapply safe_bind; [apply reads_get, reads_skip_extension_map|]. intros u. apply reads_no_more.
Qed.
Lemma reads_skip_optional fuel d last : 2 <= last -> 6 - last <= Z.of_nat fuel -> last <= 5 ->
  safe (in_depth d (Some last)) (skip_optional fuel) (fun _ => closed d).
Proof.
  revert last. induction fuel as [|fuel IH]; intros last Hl Hf H5; [lia|]. cbn [skip_optional].
  eapply safe_bind; [apply reads_next|]. intros [k|]; [|by apply safe_ret]. cbn beta iota.
  destruct (Z.leb_spec 3 k), (Z.leb_spec k 5); cbn [andb]; try apply safe_fail.
  intros m [Hk Hm]. cbn in Hk. revert m Hm. change (safe (in_depth d (Some k))
    (get (fun r => skip_value (skip_fuel r) r) ;;; skip_optional fuel) (fun _ => closed d)).
  eapply safe_bind; [apply reads_get, reads_skip_value|]. intros u. apply IH; lia.
Qed.

(** ** The readers of the receive path *)
Create HintDb reads.
#[local] Hint Resolve reads_uint reads_bytes reads_text reads_boolean reads_bytes_exact : reads.
#[local] Hint Resolve reads_expect reads_get_array reads_no_more reads_extension safe_guard : reads.
#[local] Hint Extern 1 (safe _ (get Reader.leave) _) => apply reads_get_leave; lia : reads.
#[local] Hint Extern 2 (safe _ (get _) _) => apply reads_get : reads.
#[local] Hint Extern 2 (safe _ (q _) _) => apply safe_q : reads.
#[local] Hint Extern 2 (safe _ (repeat_m _ _) _) => apply safe_repeat : reads.
(** Step by step through a reader. *)
Ltac reading := repeat first
  [ apply safe_fail
  | apply safe_ret; done
  | solve [eauto with reads nocore]
  | eapply safe_bind; [solve [eauto with reads nocore]|intros ?; cbn beta]
  | match goal with |- safe _ (if ?c then _ else _) _ => destruct c end ].
Ltac reading_map := apply reads_in_map; intros ?; reading.

Lemma reads_device d : reads d read_device.
Proof. reading_map. Qed.
Lemma reads_signature d : reads d read_signature.
Proof. reading_map. Qed.
Lemma reads_envelope d : reads d read_envelope.
Proof. reading_map. Qed.
Lemma reads_suite d : reads d read_suite.
Proof. unfold read_suite. reading. Qed.
Lemma reads_policy d : reads d read_policy.
Proof. reading_map. Qed.
#[local] Hint Resolve reads_device reads_signature reads_suite reads_policy : reads.
Lemma reads_client_hello d : reads d read_client_hello.
Proof. reading_map. Qed.
Lemma reads_client_finish d : reads d read_client_finish.
Proof. reading_map. Qed.
Lemma reads_object d : reads d read_object.
Proof. reading_map. Qed.
#[local] Hint Resolve reads_object : reads.
Lemma reads_public d : reads d read_public.
Proof. reading_map. Qed.
Lemma reads_scope d : reads d read_scope.
Proof. reading_map. Qed.
Lemma reads_key_policy d : reads d read_key_policy.
Proof. reading_map. Qed.
Lemma reads_retention d : reads d read_retention.
Proof. reading_map. Qed.
#[local] Hint Resolve reads_scope reads_key_policy reads_retention : reads.
Lemma reads_private_object d : reads d read_private_object.
Proof.
  reading_map. eapply safe_bind; [apply reads_skip_optional; lia|]. intros u.
  eapply safe_bind; [apply safe_guard|]. intros v. by apply safe_ret.
Qed.
#[local] Hint Resolve reads_private_object : reads.
(** The caption is optional: the key of the objects follows it. *)
Lemma reads_caption d last : safe (in_depth d last) read_caption (fun _ => in_depth d (Some 10)).
Proof.
  unfold read_caption. eapply safe_bind; [apply reads_next|]. intros [k|]; [|apply safe_fail]. cbn beta iota.
  apply (safe_pre (in_depth d (Some k))); [intros m Hm; exact (proj2 Hm)|].
  destruct (_ =? _).
  - eapply safe_bind; [apply reads_get, reads_text|]. intros caption. eapply safe_bind; [apply reads_next|].
    intros [k2|]; [|apply safe_fail]. cbn beta iota. apply (safe_pre (in_depth d (Some k2))); [intros m Hm; exact (proj2 Hm)|].
    destruct (Z.eqb_spec k2 10) as [->|]; [by apply safe_ret|apply safe_fail].
  - destruct (Z.eqb_spec k 10) as [->|]; [by apply safe_ret|apply safe_fail].
Qed.
#[local] Hint Resolve reads_caption : reads.
Lemma reads_private d : reads d read_private.
Proof. reading_map. Qed.
Lemma reads_entry d : reads d read_entry.
Proof. reading_map. Qed.
Lemma reads_provider d : reads d read_provider.
Proof. reading_map. Qed.
Lemma reads_offer_scope d : reads d decode_scope.
Proof. reading_map. Qed.
Lemma reads_auth_mode d : reads d read_auth_mode.
Proof.
  unfold read_auth_mode. eapply safe_bind; [apply safe_q, reads_uint|]. intros v r Hr. unfold lift, Offer.from_u64.
  by destruct (v =? 0), (v =? 1).
Qed.
#[local] Hint Resolve reads_entry reads_provider reads_offer_scope reads_auth_mode : reads.
Lemma reads_offer d : reads d read_offer.
Proof. reading_map. Qed.
Lemma reads_record d : reads d Resume.read_record.
Proof. reading_map. Qed.
(** The proof loop enters arrays it does not leave. *)
Lemma reads_step d : reads d ChunkRecord.read_step.
Proof.
  intros r0 Hr0. assert (Hd : 0 <= d) by (destruct Hr0 as (? & ? & ? & _ & _ & ?); lia). revert r0 Hr0.
  eapply safe_bind; [apply safe_q, reads_array|]. intros n.
  apply (safe_pre (at_depth d)); [intros r; apply deeper; lia|].
  reading. eapply (safe_bind _ (fun _ => at_depth d)); [reading|]. intros dir. reading.
Qed.
#[local] Hint Resolve reads_step : reads.
Lemma reads_chunk_record d : reads d ChunkRecord.read_chunk_record.
Proof. reading_map. Qed.

(** ** Decoders *)
Lemma from_start b : bytes_ok b -> at_depth 0 (Reader.mk b 0 0).
Proof. intros Hok. by exists [], b, 0. Qed.
Lemma finish_never {E} `{From CborError E} r : try (F := E) (Reader.finish r) <> Panic.
Proof. unfold Reader.finish. by destruct (_ =? _). Qed.
Lemma rbind_never {E A B} (r : result E A) (k : A -> result E B) :
  r <> Panic -> (forall a, r = Ok a -> k a <> Panic) -> rbind r k <> Panic.
Proof. destruct r; [|done..]. intros _ Hk. by apply Hk. Qed.
Lemma map_err_never {E F A} (f : E -> F) (r : result E A) : r <> Panic -> map_err f r <> Panic.
Proof. by destruct r. Qed.
Lemma decode_all_never {E A} `{From CborError E} b (p : M Reader.t E A) : bytes_ok b -> reads 0 p -> decode_all b p <> Panic.
Proof.
  intros Hok Hp. unfold decode_all, Reader.new. destruct (_ <? _); [done|]. cbn [try map_err rbind].
  specialize (Hp _ (from_start b Hok)). destruct (p _) as [[a r]|e|]; [|done..]. cbn [rbind].
  apply rbind_never; [apply finish_never|done].
Qed.
Lemma decode_unbounded_never {E A} `{From CborError E} b (p : M Reader.t E A) : bytes_ok b -> reads 0 p -> decode_unbounded b p <> Panic.
Proof.
  intros Hok Hp. unfold decode_unbounded, Reader.new_unbounded. specialize (Hp _ (from_start b Hok)).
  destruct (p _) as [[a r]|e|]; [|done..]. cbn [rbind]. apply rbind_never; [apply finish_never|done].
Qed.

Create HintDb never.
(** Every branch of a fallible computation. *)
Ltac never := repeat first
  [ done
  | solve [eauto with never nocore]
  | match goal with
    | |- rbind _ _ <> Panic => apply rbind_never; [|intros ? ?]
    | |- map_err _ _ <> Panic => apply map_err_never
    | |- try _ <> Panic => apply map_err_never
    | |- (if ?c then _ else _) <> Panic => destruct c
    | |- match ?x with _ => _ end <> Panic => destruct x
    end ].

Section Received.
Context {P : Primitives} {L : PrimitiveLaws} {K : PkPrimitives}.

(** ** The handshake *)
Lemma mlkem_encapsulate_never k r : mlkem_encapsulate k r <> Panic.
Proof. unfold mlkem_encapsulate. never. Qed.
Lemma decapsulate_never k ct : decapsulate k ct <> Panic.
Proof. unfold decapsulate. never. Qed.
Lemma x25519_agree_never s p : x25519_agree s p <> Panic.
Proof. unfold x25519_agree. never. Qed.
Lemma hybrid_sign_never i h r : hybrid_sign i h r <> Panic.
Proof. unfold hybrid_sign, dsa_sign. never. Qed.
Lemma hybrid_verify_never d h s : hybrid_verify d h s <> Panic.
Proof. unfold hybrid_verify, mldsa_verify. never. Qed.
#[local] Hint Resolve mlkem_encapsulate_never decapsulate_never x25519_agree_never hybrid_sign_never hybrid_verify_never : never.
Lemma answer_client_hello_never i ep d ch b : answer_client_hello i ep d ch b <> Panic.
Proof.
  unfold answer_client_hello. apply rbind_never; [never|]. intros [ct ss] _. destruct (negb _); [done|].
  rewrite encode_server_hello_bare. cbn [rbind]. apply rbind_never; [never|]. intros s _.
  by erewrite encode_server_hello_signed by reflexivity.
Qed.
Lemma accept_client_finish_never x kem ss ch sw sf cpk cert cep b : bytes_ok b -> accept_client_finish x kem ss ch sw sf cpk cert cep b <> Panic.
Proof.
  intros Hok. unfold accept_client_finish. apply rbind_never; [by apply decode_all_never, reads_client_finish|]. intros cf _.
  rewrite encode_bare_eq. cbn [rbind]. never.
Qed.
Lemma on_client_hello_never d now i ep b observed cache : bytes_ok b ->
  (on_client_hello d now (new_responder i ep) b observed cache).1.1 <> Panic.
Proof.
  intros Hok. unfold on_client_hello, new_responder. cbn [r_state].
  assert (Hdec : (let* ch := decode_client_hello b in let* _ := check_client_hello ch observed now in Ok ch) <> Panic).
  { apply rbind_never; [by apply decode_all_never, reads_client_hello|]. intros ch _. unfold check_client_hello. never. }
  destruct (rbind _ _) as [ch|e|]; [|done..]. destruct (check_and_insert _ _ _) as [[|] c]; [|done]. cbn [negb].
  pose proof (answer_client_hello_never i ep d ch b) as Ha. by destruct (answer_client_hello _ _ _ _ _) as [[sh st]| |].
Qed.
Lemma on_client_finish_never r b : bytes_ok b -> (on_client_finish r b).1 <> Panic.
Proof.
  intros Hok. unfold on_client_finish. destruct (r_state r); try done.
  match goal with |- context [accept_client_finish ?a ?b ?c ?d ?e ?f ?g ?h ?i ?j] =>
    pose proof (accept_client_finish_never a b c d e f g h i j Hok) as Ha; by destruct (accept_client_finish a b c d e f g h i j) end.
Qed.

(** ** The offer *)
Lemma commitment_never {E} m : commitment (E := E) m <> Panic.
Proof. by rewrite commitment_eq. Qed.
Lemma validate_object_never o : validate_object o <> Panic.
Proof. unfold validate_object. cbv zeta. never. Qed.
#[local] Hint Resolve commitment_never validate_object_never : never.
Lemma validate_never m : Manifest.validate m <> Panic.
Proof.
  unfold Manifest.validate. repeat (match goal with |- (if ?c then _ else _) <> Panic => destruct c end; [done|]).
  generalize (objects m), (∅ : gset bytes). intros l. induction l as [|o l IH]; intros seen; cbn [validate_objects]; never.
Qed.
Lemma decode_public_never b : bytes_ok b -> decode_public b <> Panic.
Proof.
  intros Hok. unfold decode_public. apply rbind_never; [by apply decode_all_never, reads_public|]. intros m _.
  apply rbind_never; [apply validate_never|done].
Qed.
Lemma decode_private_never b : bytes_ok b -> decode_private b <> Panic.
Proof.
  intros Hok. unfold decode_private. apply rbind_never; [by apply decode_all_never, reads_private|]. intros m _.
  unfold validate_private. never.
Qed.
Lemma decode_offer_never b : bytes_ok b -> decode_offer b <> Panic.
Proof. intros Hok. unfold decode_offer. apply rbind_never; [by apply decode_all_never, reads_offer|]. intros o _. never. Qed.
#[local] Hint Resolve decode_public_never : never.
Lemma verify_never o scope now : bytes_ok (public_manifest_bytes o) -> verify o scope now <> Panic.
Proof.
  intros Hok. unfold verify. destruct (negb _); [done|]. destruct (negb _); [done|]. apply rbind_never; [by apply map_err_never, decode_public_never|].
  intros pm _. destruct (negb _); [done|]. rewrite commitment_eq. cbn [rbind]. apply rbind_never.
  { apply map_err_never. unfold verify_commitment. rewrite commitment_eq. cbn [rbind]. never. }
  intros u _. unfold offer_binding_hash. rewrite write_binding_emits. cbn [rbind]. unfold offer_signing_hash. rewrite scope_hash_eq. cbn [rbind].
  never.
Qed.
Lemma open_entry_never device s now o : open_entry device s now o <> Panic.
Proof.
  unfold open_entry. apply rbind_never; [never|]. intros e _. apply rbind_never; [|intros opened _; never].
  apply map_err_never. unfold open_envelope_at. apply rbind_never; [|intros opened _; never].
  unfold open_envelope. destruct (aead_decrypt _ _ _ _) as [pt|] eqn:Hd; [|done]. apply aead_open_len in Hd as [_ Hok].
  apply rbind_never; [by apply decode_all_never, reads_envelope|]. intros x _. never.
Qed.
Lemma open_private_manifest_never sm key tid oid sender scope : open_private_manifest sm key tid oid sender scope <> Panic.
Proof.
  unfold open_private_manifest. rewrite manifest_aad_eq. cbn [rbind].
  destruct (aead_decrypt _ _ _ _) as [pt|] eqn:Hd; [|done]. apply aead_open_len in Hd as [_ Hok].
  apply rbind_never; [by apply decode_private_never|]. intros m _. never.
Qed.
Lemma agreed_context_never secrets object m : agreed_context secrets object m <> Panic.
Proof. unfold agreed_context, chunk_plaintext_size_from_ciphertext, for_file. never. Qed.
Lemma validated_objects m b : decode_private b = Ok m -> pv_objects m <> [].
Proof.
  unfold decode_private. intros H. apply rbind_inv in H as (m' & _ & H). apply rbind_inv in H as ([] & Hv & H). apply Ok_inj in H as ->.
  intros He. unfold validate_private in Hv. by rewrite He in Hv.
Qed.
(** The list whose first element is read is not empty. *)
Lemma opened_objects sm key tid oid sender scope m : open_private_manifest sm key tid oid sender scope = Ok m -> pv_objects m <> [].
Proof.
  unfold open_private_manifest. rewrite manifest_aad_eq. cbn [rbind]. destruct (aead_decrypt _ _ _ _) as [pt|]; [|done].
  intros H. apply rbind_inv in H as (m' & Hd & H). destruct (_ || _); [done|]. apply Ok_inj in H as ->. by eapply validated_objects.
Qed.
Lemma accept_offer_never device s now b : bytes_ok b -> accept_offer device s now b <> Panic.
Proof.
  intros Hok. unfold accept_offer. apply rbind_never; [by apply map_err_never, decode_offer_never|]. intros o Ho. apply map_err_inv in Ho.
  destruct (negb _); [done|]. apply decode_offer_inv in Ho as (_ & (Hpm & Hrest) & _); [|exact Hok].
  apply rbind_never; [apply map_err_never, verify_never, Hpm|]. intros pm _.
  apply rbind_never; [apply open_entry_never|]. intros opened _. destruct (negb _); [done|].
  apply rbind_never; [never|]. intros object _. destruct (negb _); [done|].
  apply rbind_never; [apply map_err_never, open_private_manifest_never|]. intros m Hm. apply map_err_inv, opened_objects in Hm.
  apply rbind_never; [destruct (negb _); [done|]; by destruct (pv_objects m)|]. intros differs _. destruct differs; [done|].
  apply rbind_never; [apply agreed_context_never|]. intros ctx _. rewrite context_hash_eq. cbn [map_err rbind].
  apply rbind_never; [|done]. apply map_err_never. unfold Offer.manifest_commitment.
  apply rbind_never; [apply map_err_never, decode_public_never, Hpm|]. intros pm' _. apply commitment_never.
Qed.

(** ** The resume record *)
Definition bitmaps_ok (n : Z) (db : Resume.ResumeDb) : Prop :=
  Bitmap.wf (Resume.verified (Resume.record db)) /\ Bitmap.chunk_count (Resume.verified (Resume.record db)) = n /\
  Bitmap.wf (Resume.durable (Resume.record db)) /\ Bitmap.chunk_count (Resume.durable (Resume.record db)) = n.
Lemma decode_record_never b : bytes_ok b -> Resume.decode_record b <> Panic.
Proof.
  intros Hok. unfold Resume.decode_record. destruct (_ || _); [done|]. cbv zeta. destruct (negb _); [done|].
  assert (Hb : bytes_ok (drop 32 b)) by by apply Forall_drop.
  apply rbind_never; [by apply decode_unbounded_never, reads_record|]. intros raw Hraw.
  assert (Hu : u64 (Resume.chunk_count (Resume.raw_identity raw))).
  { apply decode_unbounded_inv in Hraw as [_ (Hi & _)]; [apply Hi|exact Hb]. }
  pose proof (Bitmap.decode_rle_total (Resume.chunk_count (Resume.raw_identity raw)) (Resume.raw_verified raw) Hu) as H1.
  pose proof (Bitmap.decode_rle_total (Resume.chunk_count (Resume.raw_identity raw)) (Resume.raw_durable raw) Hu) as H2.
  destruct (Bitmap.decode_rle _ (Resume.raw_verified raw)); [|done..]. cbn [map_err rbind].
  by destruct (Bitmap.decode_rle _ (Resume.raw_durable raw)).
Qed.
Lemma new_record_bitmaps id path : 0 <= Resume.chunk_count id <= Bitmap.MAX_CHUNK_COUNT ->
  exists r, Resume.new_record id path = Ok r /\ forall p c, bitmaps_ok (Resume.chunk_count id) (Resume.mkDb r p c).
Proof.
  intros Hn. unfold Resume.new_record. destruct (Bitmap.new_spec (Resume.chunk_count id) Hn) as (b & -> & Hwf & Hc & _).
  eexists. split; [reflexivity|]. intros p c. by split_and!.
Qed.
Lemma open_db_bitmaps file id path : (forall b, file = Some b -> bytes_ok b) -> 0 <= Resume.chunk_count id <= Bitmap.MAX_CHUNK_COUNT ->
  exists db flag, Resume.open_db file id path = Ok (db, flag) /\ bitmaps_ok (Resume.chunk_count id) db.
Proof.
  intros Hok Hn. destruct (new_record_bitmaps id path Hn) as (r & Hr & Hb). unfold Resume.open_db. rewrite Hr. cbn [rbind].
  destruct file as [b|]; [|by eexists _, _]. destruct (Resume.decode_record b) as [stored|e|] eqn:Hdec; [|by eexists _, _..].
  destruct (Resume.matches _ id) eqn:Hm; [|by eexists _, _]. eexists _, _. split; [reflexivity|].
  apply Resume.decode_record_wf in Hdec as [_ Hv Hd Hvc Hdc _ _]; [|by apply Hok].
  unfold Resume.matches in Hm. repeat (apply andb_true_iff in Hm as [Hm ?]).
  repeat match goal with H : (_ =? _) = true |- _ => apply Z.eqb_eq in H end. unfold bitmaps_ok. cbn [Resume.record]. split_and!; congruence.
Qed.

(** ** The chunks *)
Lemma bitmap_set_never b i : Bitmap.wf b -> 0 <= i -> Bitmap.set i b <> Panic.
Proof.
  intros Hwf Hi. destruct (decide (i < Bitmap.chunk_count b)).
  - by destruct (Bitmap.set_spec b i Hwf ltac:(lia)) as (was & b' & -> & _).
  - unfold Bitmap.set. by destruct (Z.leb_spec (Bitmap.chunk_count b) i); [|lia].
Qed.
Lemma checkpoint_never io db dk : (Resume.checkpoint io db dk).1 <> Panic /\ Resume.record (Resume.checkpoint io db dk).2.1 = Resume.record db.
Proof.
  unfold Resume.checkpoint. rewrite Resume.encode_record_eq.
  by destruct (Resume.create_ok io), (Resume.write_ok io), (Resume.fsync_ok io), (Resume.rename_ok io).
Qed.
Lemma mark_verified_never i n db : 0 <= i -> bitmaps_ok n db ->
  (Resume.mark_verified i db).1 <> Panic /\ bitmaps_ok n (Resume.mark_verified i db).2.
Proof.
  intros Hi (Hv & Hvc & Hd & Hdc). unfold Resume.mark_verified. pose proof (bitmap_set_never _ i Hv Hi) as Hn.
  destruct (Bitmap.set i _) as [[f v]|e|] eqn:Hs; [|done..]. destruct (Bitmap.set_ok _ _ _ _ Hv Hi Hs) as (Hwf & Hc & _).
  split; [done|]. split_and!; [exact Hwf|cbn; congruence|done|done].
Qed.
Lemma chunk_written_never i n ok io db dk : 0 <= i -> bitmaps_ok n db ->
  (Resume.chunk_written i ok io db dk).1 <> Panic /\ bitmaps_ok n (Resume.chunk_written i ok io db dk).2.1.
Proof.
  intros Hi (Hv & Hvc & Hd & Hdc). unfold Resume.chunk_written. pose proof (bitmap_set_never _ i Hd Hi) as Hn.
  destruct (Bitmap.set i _) as [[f v]|e|] eqn:Hs; [|done..]. destruct (Bitmap.set_ok _ _ _ _ Hd Hi Hs) as (Hwf & Hc & _). cbv zeta.
  assert (Hb : forall p c, bitmaps_ok n (Resume.mkDb (Resume.mkRecord (Resume.identity (Resume.record db)) (Resume.verified (Resume.record db)) v
    (Resume.temporary_path (Resume.record db)) (Resume.last_provider (Resume.record db)) (Resume.last_activity (Resume.record db))) p c))
    by (intros p c; split_and!; [done|done|exact Hwf|cbn; congruence]).
  destruct (_ <? _); [split; [done|apply Hb]|]. destruct (negb ok); [split; [done|apply Hb]|].
  match goal with |- context [Resume.checkpoint ?a ?b ?c] => destruct (checkpoint_never a b c) as [Hp Hr] end.
  split; [exact Hp|]. unfold bitmaps_ok. rewrite Hr. apply (Hb 0 0).
Qed.
(** The state of the loop: what [recv_inv] keeps, and the record's bitmaps. *)
Definition loop_ok (env : RecvEnv) (st : RecvState) : Prop := recv_inv (fun _ _ => True) env st /\
  forall db, r_db st = Some db -> bitmaps_ok (Object.chunk_count (e_ctx env)) db.
Lemma poll_with_never tid now seen w : (poll_with tid now seen w).1.1 <> Panic.
Proof. unfold poll_with. cbv zeta. destruct (_ <? _); [done|]. destruct (admits _ _); [done|]. by destruct (_ <=? _). Qed.
Lemma accept_never env io i pt st : geometry (e_ctx env) -> loop_ok env st -> 0 <= i -> (accept env io i pt st).1 <> Panic /\
  forall db, r_db (accept env io i pt st).2 = Some db -> bitmaps_ok (Object.chunk_count (e_ctx env)) db.
Proof.
  intros Hg [[Hwf _ _ _ _] Hdb] Hi. unfold accept. cbv zeta. destruct (io_write io); [split; [done|exact Hdb]|]. cbn [r_db].
  assert (Hm : let m := (match r_db st with
    | Some db => let '(r, db') := Resume.mark_verified i db in (map_err (fun _ => Framing.Io) r, Some db')
    | None => (Ok tt, None) end) in m.1 <> Panic /\ forall db, m.2 = Some db -> bitmaps_ok (Object.chunk_count (e_ctx env)) db).
  { cbv zeta. destruct (r_db st) as [db|]; [|done]. destruct (mark_verified_never i _ db Hi (Hdb db eq_refl)) as [H1 H2].
    destruct (Resume.mark_verified i db) as [r db']. split; [by apply map_err_never|]. by intros x [= <-]. }
  cbv zeta in Hm. destruct (match r_db st with Some db => _ | None => _ end) as [[u|e|] db1]; destruct Hm as [Hm1 Hm2]; [|split; [done|exact Hm2]|done].
  cbn [snd] in Hm2. pose proof (bitmap_set_never _ i Hwf Hi) as Hn. destruct (Bitmap.set i _) as [[f have]|e|]; [|split; [done|exact Hm2]|done].
  pose proof (poll_with_never (ctx_transfer_id (e_ctx env)) (io_now io) (io_route io) (r_watch st)) as Hp.
  destruct (poll_with _ _ _ _) as [[[v|route|] evs] watch]; [|split; [done|exact Hm2]|done].
  destruct db1 as [db|]; [|done]. match goal with |- context [Resume.chunk_written ?a ?b ?c ?d ?x] =>
    destruct (chunk_written_never a _ b c d x Hi (Hm2 db eq_refl)) as [H1 H2]; destruct (Resume.chunk_written a b c d x) as [r [db' dk]] end.
  split; [by apply map_err_never|]. by intros y [= <-].
Qed.
Lemma authenticate_never env have b : bytes_ok b -> authenticate env have b <> Panic.
Proof.
  intros Hok. unfold authenticate. apply rbind_never; [by apply decode_unbounded_never, reads_chunk_record|]. intros [[i proof] ct] _.
  destruct (_ <=? i); [done|]. destruct (Bitmap.get_or_false _ _); [done|].
  assert (Hlen : forall k, chunk_len (e_ctx env) k <> Panic) by (intros k; unfold chunk_len; never).
  apply rbind_never; [apply map_err_never, rbind_never; [apply Hlen|done]|]. intros l _. destruct (negb _); [done|].
  apply rbind_never; [apply map_err_never; unfold verify_proof; cbv zeta; never|]. intros u _. apply rbind_never; [|done].
  apply map_err_never. unfold decrypt_chunk. apply rbind_never; [apply Hlen|]. intros n _. cbv zeta. never.
Qed.
Lemma handle_frame_never env io ft b st : geometry (e_ctx env) -> loop_ok env st -> bytes_ok b ->
  (handle_frame env io (ft, b) st).1 <> Panic /\ loop_ok env (handle_frame env io (ft, b) st).2.
Proof.
  intros Hg Hst Hok. destruct (handle_frame env io (ft, b) st) as [r st'] eqn:Hh. pose proof Hst as [Hinv Hdb].
  destruct (handle_frame_inv _ env io ft b st r st' Hg Hinv Hok ltac:(done) Hh) as (Hinv' & _).
  unfold handle_frame in Hh. destruct (_ =? _); [|destruct (_ =? _); injection Hh as <- <-; by split].
  pose proof (authenticate_never env (r_have st) b Hok) as Ha.
  destruct (authenticate _ _ _) as [[[i pt]|]|e|] eqn:Hau; [|injection Hh as <- <-; by split..|done].
  destruct (authenticate_spec env _ b i pt Hg Hok Hau) as (Hi & _). destruct (accept_never env io i pt st Hg Hst Hi) as [H1 H2].
  destruct (accept env io i pt st) as [x y]. injection Hh as <- <-. cbn [fst snd] in *. split; [apply rbind_never; done|by split].
Qed.
Lemma recv_raw_frame_never protected s : recv_raw_frame protected s <> Panic.
Proof.
  assert (Hx : forall n, safe (fun _ : bytes => True) (read_exact n) (fun _ _ => True)) by (intros n x _; unfold read_exact; by destruct (_ <? _)).
  assert (H : safe (fun _ : bytes => True) (recv_raw_frame protected) (fun _ _ => True)).
  { unfold recv_raw_frame. eapply safe_bind; [apply Hx|]. intros h. cbv zeta. eapply safe_bind; [apply safe_guard|]. intros ?.
    eapply safe_bind; [apply safe_guard|]. intros ?. eapply safe_bind; [apply safe_guard|]. intros ?.
    eapply (safe_bind _ (fun _ _ => True)); [destruct protected; [eapply safe_bind; [apply Hx|]; intros m|]; by apply safe_ret|].
    intros ec. eapply safe_bind; [apply Hx|]. intros b. by apply safe_ret. }
  specialize (H s I). by destruct (recv_raw_frame protected s) as [[]| |].
Qed.
Lemma recv_frame_never c s : (recv_frame c s).1 <> Panic.
Proof.
  unfold recv_frame. pose proof (recv_raw_frame_never true s) as Hr.
  destruct (recv_raw_frame true s) as [[[[f e] n] t]|x|]; [|done..]. by destruct (Control.open _ _ _ _ _ _ _) as [[]].
Qed.
Lemma receive_loop_never fuel env io c s st : geometry (e_ctx env) -> loop_ok env st -> bytes_ok s -> (length s < fuel)%nat ->
  exists r st' c', receive_loop fuel env io c s st = Some (r, st', c') /\ r <> Panic /\ loop_ok env st'.
Proof.
  intros Hg. revert io c s st. induction fuel as [|fuel IH]; intros io c s st Hst Hok Hlt; [lia|]. cbn [receive_loop].
  pose proof (recv_frame_never c s) as Hr. destruct (recv_frame c s) as [[[[ft p] s1]|e|] c1] eqn:Hf; [|by eexists _, _, _|done].
  destruct (recv_frame_spec c s ft p s1 c1 Hok Hf) as (Hp & Hs1 & Hlen).
  destruct (handle_frame_never env (io O) ft p st Hg Hst Hp) as [Hn Hst1].
  destruct (handle_frame env (io O) (ft, p) st) as [[[|]|e|] st1]; cbn [fst snd] in *; [|by eexists _, _, _..|done].
  apply IH; [done|done|lia].
Qed.
Lemma finish_receive_never env io st : (finish_receive env io st).1.1 <> Panic.
Proof.
  unfold finish_receive. cbv zeta. destruct (negb _).
  - destruct (r_db st) as [db|]; [|done]. destruct (negb _); [done|].
    match goal with |- context [Resume.checkpoint ?a ?b ?c] => destruct (checkpoint_never a b c) as [Hp _];
      by destruct (Resume.checkpoint a b c) as [[| |] [? ?]] end.
  - destruct (negb _); [done|].
    assert (Hrm : forall ok dk, (Resume.remove ok dk).1 <> Panic) by (intros ok dk; unfold Resume.remove; by destruct (Resume.record_file dk), ok).
    destruct (match r_streaming st with Some _ => _ | None => _ end) as [digest|e|] eqn:Hd; [|done|].
    + destruct (negb _).
      * destruct (r_db st); [|done]. by destruct (Resume.remove _ _).
      * destruct (r_db st); [|done]. match goal with |- context [Resume.remove ?a ?b] => specialize (Hrm a b); by destruct (Resume.remove a b) as [[| |] ?] end.
    + exfalso. destruct (r_streaming st) as [[h n]|]; [destruct (_ =? _); [done|]|]; by destruct (fi_read_ok io).
Qed.

(** ** The whole run *)
Definition readable (n : Node) : Prop := bytes_ok (n_in n).
(** An action on what the stream still delivers, and what its result satisfies. *)
Definition runs {A} (m : Act A) (Q : A -> Prop) : Prop := forall n, readable n ->
  match m n with (Ok a, n') => Q a /\ readable n' | (Err _, _) => True | (Panic, _) => False end.
Lemma runs_then {A B} (R : A -> Prop) (Q : B -> Prop) (m : Act A) (k : A -> Act B) :
  runs m R -> (forall a, R a -> runs (k a) Q) -> runs (andthen m k) Q.
Proof.
  intros Hm Hk n Hn. specialize (Hm n Hn). unfold andthen. destruct (m n) as [[a| |] n']; [|done..]. destruct Hm as [Ha Hn']. exact (Hk a Ha n' Hn').
Qed.
Lemma runs_lift {A} (r : result TransferError A) : r <> Panic -> runs (from_result r) (fun a => r = Ok a).
Proof. intros Hr n Hn. by destruct r. Qed.
Lemma runs_modify (f : Node -> Node) : (forall n, n_in (f n) = n_in n) -> runs (modify f) (fun _ => True).
Proof. intros Hf n Hn. unfold modify, readable. by rewrite Hf. Qed.
Lemma runs_give {A} (a : A) (Q : A -> Prop) : Q a -> runs (done_with a) Q.
Proof. intros Ha n Hn. by split. Qed.
Lemma header_bytes_never ft ff rid l x : header_bytes ft ff rid l x <> Panic.
Proof. unfold header_bytes. cbv zeta. never. Qed.
Lemma runs_write_plain ft b : runs (write_plain ft b) (fun _ => True).
Proof.
  eapply runs_then; [apply runs_lift|intros w _; by apply runs_modify]. unfold send_plain_frame.
  apply rbind_never; [apply header_bytes_never|done].
Qed.
Lemma runs_read_plain ft : runs (read_plain ft) bytes_ok.
Proof.
  intros n Hn. destruct (read_plain ft n) as [[b|e|] n'] eqn:H; [|done|].
  - by apply read_plain_inv in H as (t & _ & Hb & Ht & ->).
  - unfold read_plain, expect_plain_frame, bind in H. pose proof (recv_raw_frame_never false (n_in n)) as Hr.
    destruct (recv_raw_frame false (n_in n)) as [[f t]| |]; [|done..]. cbn [rbind] in H. unfold guard, ret, fail in H. by destruct (_ =? _).
Qed.
Lemma runs_write_frame c ft b : runs (write_frame c ft b) (fun _ => True).
Proof.
  unfold write_frame. destruct (send_frame c ft b) as [r c'] eqn:Hs.
  eapply runs_then; [apply runs_lift|intros w _; eapply runs_then; [by apply runs_modify|intros u _; by apply runs_give]].
  intros ->. unfold send_frame in Hs. destruct (Control.seal _ _ _ _ _) as [[f| |] c1]; [|done..].
  pose proof (header_bytes_never ft 0 0 (len (f_ciphertext f)) 16) as Hh. by destruct (header_bytes _ _ _ _ _).
Qed.
Lemma runs_read_frame c ft : runs (read_frame c ft) (fun x => bytes_ok x.1).
Proof.
  intros n Hn. unfold read_frame, expect_frame. pose proof (recv_frame_never c (n_in n)) as Hr.
  destruct (recv_frame c (n_in n)) as [[[[t b] rest]|e|] c'] eqn:Hf; [|done..]. destruct (recv_frame_spec c _ _ _ _ _ Hn Hf) as (Hb & Ht & _).
  by destruct (negb _).
Qed.
Lemma runs_check_route tid a route : runs (check_route tid a route) (fun _ => True).
Proof.
  unfold check_route, admit_route. destruct (admits _ _).
  all: eapply runs_then; [by apply runs_modify|]; intros u _ n Hn; by split.
Qed.
Lemma runs_respond w i ep : runs (respond w i ep) (fun _ => True).
Proof.
  unfold respond. eapply runs_then; [apply runs_read_plain|]. intros ch Hch.
  apply (runs_then (fun x => x.1 <> Panic)).
  { intros n Hn. pose proof (on_client_hello_never (rw_hello w) (rw_hello_now w) i ep ch (rw_observed w) (n_replay n) Hch) as Hr.
    destruct (on_client_hello _ _ _ _ _ _) as [[answer r1] cache]. by split. }
  intros [answer r1] Ha. eapply runs_then; [by apply runs_lift, map_err_never|]. intros sh _.
  eapply runs_then; [apply runs_write_plain|]. intros u _. eapply runs_then; [apply runs_read_plain|]. intros cf Hcf.
  eapply runs_then; [by apply runs_lift, map_err_never, on_client_finish_never|]. intros [sf s] _.
  eapply runs_then; [apply runs_write_plain|]. intros v _. by apply runs_give.
Qed.
Definition db_bitmaps (env : RecvEnv) (db : option Resume.ResumeDb) : Prop :=
  forall d, db = Some d -> bitmaps_ok (Object.chunk_count (e_ctx env)) d.
Lemma runs_open_files w resume env id : record_bytes_ok w -> geometry (e_ctx env) -> Resume.chunk_count id = Object.chunk_count (e_ctx env) ->
  runs (open_files w resume env id) (fun x => db_bitmaps env x.1).
Proof.
  intros Hrec Hg Hc. unfold open_files. destruct (open_db_bitmaps (rw_record w) id (rw_path w) Hrec) as (d & flag & Hopen & Hb); [rewrite Hc; apply Hg|].
  apply (runs_then (db_bitmaps env)).
  { intros n Hn. unfold from_result. destruct resume; [rewrite Hopen; cbn [map_err rbind]|by split].
    split; [|exact Hn]. intros x [= <-]. by rewrite <- Hc. }
  intros db Hdb. eapply runs_then; [apply runs_lift; by destruct (rw_existing w)|]. intros f _.
  eapply runs_then; [by apply runs_modify|]. intros u _. by apply runs_give.
Qed.
Lemma start_receive_never env existing db disk watch events : geometry (e_ctx env) ->
  start_receive env existing db disk watch events <> Panic.
Proof.
  intros Hg. unfold start_receive. apply rbind_never.
  { destruct db; [done|]. apply map_err_never. by destruct (Bitmap.new_spec (Object.chunk_count (e_ctx env)) ltac:(apply Hg)) as (b & -> & _). }
  intros have _. cbv zeta. by rewrite Scheduler.encode_eq.
Qed.
Lemma start_receive_ok env existing db disk watch events st rq : geometry (e_ctx env) ->
  logical_plaintext_size (e_ctx env) = encoded_plaintext_size (e_ctx env) -> db_bitmaps env db ->
  start_receive env existing db disk watch events = Ok (st, rq) -> loop_ok env st.
Proof.
  intros Hg Hl Hdb Hs. destruct (start_inv (fun _ _ => True) env existing db disk watch events st rq Hg Hl) as (Hinv & _ & Hd); [|exact Hs|].
  - unfold db_ok. destruct db as [d|]; [|done]. by destruct (Hdb d eq_refl) as (_ & _ & Hw & Hc).
  - split; [exact Hinv|]. rewrite Hd. exact Hdb.
Qed.
Lemma runs_receive_chunks w env c st : geometry (e_ctx env) -> loop_ok env st -> runs (receive_chunks w env c st) (fun _ => True).
Proof.
  intros Hg Hst n Hn. unfold receive_chunks.
  destruct (receive_loop_never (S (length (n_in n))) env (rw_io w) c (n_in n) st Hg Hst Hn ltac:(lia)) as (r & st' & c' & -> & Hr & _).
  destruct r; [|done..]. cbn [rbind]. split; [done|]. apply Forall_nil_2.
Qed.
Lemma runs_finish w env st : runs (finish w env st) (fun _ => True).
Proof.
  intros n Hn. unfold finish. pose proof (finish_receive_never env (rw_finish w) st) as Hf.
  by destruct (finish_receive _ _ _) as [[[| |] st'] dest].
Qed.
Lemma runs_receive_session w i resume watch s : record_bytes_ok w -> runs (receive_session w i resume watch s) (fun _ => True).
Proof.
  intros Hrec. unfold receive_session. eapply runs_then; [apply runs_read_frame|]. intros [b c1] Hb. cbn [fst] in Hb.
  eapply runs_then; [by apply runs_lift, accept_offer_never|]. intros a Ha.
  apply accept_offer_inv in Ha as (o & _ & Ha). destruct (accepted_geometry _ _ _ _ _ Ha) as [Hg Hl]. destruct Ha as [_ _ _ _ (_ & Hc & _)].
  eapply runs_then; [by apply runs_open_files|]. intros [db existing] Hdb. cbn [fst] in Hdb.
  apply (runs_then (fun x => loop_ok (a_env a) x.1)).
  { intros n Hn. pose proof (start_receive_never (a_env a) existing db (n_disk n) watch (n_events n) Hg) as Hs.
    destruct (start_receive _ _ _ _ _ _) as [[st0 rq]| |] eqn:E; [|done..]. split; [by eapply start_receive_ok|exact Hn]. }
  intros [st0 rq] Hst. eapply runs_then; [apply runs_write_frame|]. intros c2 _. eapply runs_then; [by apply runs_modify|]. intros u _.
  eapply runs_then; [by apply runs_receive_chunks|]. intros [st1 c3] _. eapply runs_then; [apply runs_finish|]. intros digest _.
  eapply runs_then; [apply runs_lift; by rewrite encode_ack_eq|]. intros ack _.
  eapply runs_then; [apply runs_write_frame|]. intros v _. by apply runs_give.
Qed.
(** Whatever bytes arrive and whatever the record file holds. *)
Lemma receive_never_panics w i ep adm resume n : bytes_ok (n_in n) -> record_bytes_ok w ->
  (receive_file w i ep adm resume n).1 <> Panic.
Proof.
  intros Hok Hrec. assert (H : runs (receive_file w i ep adm resume) (fun _ => True)).
  { unfold receive_file. eapply runs_then; [apply runs_check_route|]. intros route _. cbv zeta.
    eapply runs_then; [apply runs_respond|]. intros s _. by apply runs_receive_session. }
  specialize (H n Hok). by destruct (receive_file _ _ _ _ _ _) as [[] ?].
Qed.
End Received.
