(* ===== verification/Capability.v ===== *)
(** * Capabilities and provider authorization (capability.rs)

    The body with its validation and codec, the MACed token, and the check a
    provider makes before it serves.  The drawn nonce is an argument. *)

From S2P Require Import Prelude Cbor Wire Crypto.
#[local] Open Scope Z_scope.

(** capability.rs 25-25 [TAG_DOMAIN] *)
Definition TAG_DOMAIN : bytes := lit "RTP2-CAPABILITY-TAG-v1".
(** capability.rs 28-28 [OP_READ_MANIFEST] *)
Definition OP_READ_MANIFEST : Z := Z.shiftl 1 0.
(** capability.rs 29-29 [OP_READ_CHUNKS] *)
Definition OP_READ_CHUNKS : Z := Z.shiftl 1 1.
(** capability.rs 30-30 [OP_READ_PROOFS] *)
Definition OP_READ_PROOFS : Z := Z.shiftl 1 2.
(** capability.rs 31-31 [OP_READ_PREVIEW] *)
Definition OP_READ_PREVIEW : Z := Z.shiftl 1 3.
(** capability.rs 32-32 [OP_UPLOAD_CHUNKS] *)
Definition OP_UPLOAD_CHUNKS : Z := Z.shiftl 1 4.
(** capability.rs 33-33 [OP_DELETE_OBJECT] *)
Definition OP_DELETE_OBJECT : Z := Z.shiftl 1 5.
(** capability.rs 37-42 [OP_ALL] *)
Definition OP_ALL : Z :=
  Z.lor (Z.lor (Z.lor (Z.lor (Z.lor OP_READ_MANIFEST OP_READ_CHUNKS) OP_READ_PROOFS) OP_READ_PREVIEW) OP_UPLOAD_CHUNKS) OP_DELETE_OBJECT.
(** capability.rs 45-45 [OP_DOWNLOAD] *)
Definition OP_DOWNLOAD : Z := Z.lor (Z.lor (Z.lor OP_READ_MANIFEST OP_READ_CHUNKS) OP_READ_PROOFS) OP_READ_PREVIEW.
(** capability.rs 47-47 [CAPABILITY_VERSION] *)
Definition CAPABILITY_VERSION : Z := 1.
(** capability.rs 50-50 [NONCE_LEN] *)
Definition NONCE_LEN : Z := 32.
(** capability.rs 52-52 [MAX_OBJECTS] *)
Definition MAX_OBJECTS : Z := 1024.

(** capability.rs 55-68 [CapabilityError] *)
Inductive CapabilityError : Type :=
| Encoding
| UnsupportedVersion
| UnknownOperation
| NoOperations
| TooManyObjects
| BadTag
| NotYetValid
| Expired
| WrongProvider
| WrongTransfer
| WrongObject
| OperationNotPermitted.
(** capability.rs 70-74 [From] *)
#[export] Instance cap_from_cbor : From CborError CapabilityError := fun _ => Encoding.

(** capability.rs 80-89 [CapabilityBody] *)
Record CapabilityBody : Type := mkBody {
  version : Z;
  provider_id : bytes;
  cb_transfer_id : bytes;
  object_ids : list bytes;
  operations : Z;
  not_before : Z;
  cb_expires_at : Z;
  cb_nonce : bytes
}.

(** [!x] of a u64. *)
Definition not64 (x : Z) : Z := Z.lxor x (2 ^ 64 - 1).
(** capability.rs 115-136 [CapabilityBody::validate] *)
Definition validate_body (b : CapabilityBody) : result CapabilityError unit :=
  if negb (version b =? CAPABILITY_VERSION) then Err UnsupportedVersion else
  if operations b =? 0 then Err NoOperations else
  if negb (Z.land (operations b) (not64 OP_ALL) =? 0) then Err UnknownOperation else
  if len (object_ids b) =? 0 then Err WrongObject else
  if MAX_OBJECTS <? len (object_ids b) then Err TooManyObjects else
  if cb_expires_at b <=? not_before b then Err Expired else
  Ok tt.
(** [nonce] is the draw.  capability.rs 93-113 [CapabilityBody::new] *)
Definition new_body (provider transfer : bytes) (objects : list bytes) (ops from until : Z) (nonce : bytes)
  : result CapabilityError CapabilityBody :=
  let body := mkBody CAPABILITY_VERSION provider transfer objects ops from until nonce in
  let* _ := validate_body body in
  Ok body.

(** The entries of [CapabilityBody::encode]. *)
Definition write_body {E} (b : CapabilityBody) : Writer.t -> result E Writer.t :=
  write_map 8 [
    MapWriter.uint 0 (version b);
    MapWriter.bytes 1 (provider_id b);
    MapWriter.bytes 2 (cb_transfer_id b);
    MapWriter.nested 3 (fun w =>
      write_each (fun id w => Ok (Writer.bytes id w)) (object_ids b) (Writer.array (len (object_ids b)) w));
    MapWriter.uint 4 (operations b);
    MapWriter.uint 5 (not_before b);
    MapWriter.uint 6 (cb_expires_at b);
    MapWriter.bytes 7 (cb_nonce b)].
(** capability.rs 138-157 [CapabilityBody::encode] *)
Definition encode_body {E} (b : CapabilityBody) : result E bytes :=
  let* w := write_body b Writer.new in
  Ok (Writer.into_bytes w).
Definition read_object_id : M Reader.t CapabilityError bytes := q (Reader.bytes_exact 32).
(** capability.rs 159-203 [CapabilityBody::decode] *)
Definition read_body : M Reader.t CapabilityError CapabilityBody :=
  in_map (
    expect 0 ;;; ver <- get Reader.uint ;;
    expect 1 ;;; provider <- get (Reader.bytes_exact 32) ;;
    expect 2 ;;; transfer <- get (Reader.bytes_exact 32) ;;
    expect 3 ;;; count <- get Reader.array ;;
    guard (count <=? MAX_OBJECTS) TooManyObjects ;;;
    objects <- get (repeat_m (Z.to_nat count) read_object_id) ;;
    get Reader.leave ;;;
    expect 4 ;;; ops <- get Reader.uint ;;
    expect 5 ;;; from <- get Reader.uint ;;
    expect 6 ;;; until <- get Reader.uint ;;
    expect 7 ;;; nonce <- get (Reader.bytes_exact NONCE_LEN) ;;
    no_more Encoding ;;;
    ret (mkBody ver provider transfer objects ops from until nonce)).
(** capability.rs 159-203 [CapabilityBody::decode] *)
Definition decode_body (b : bytes) : result CapabilityError CapabilityBody :=
  let* body := decode_all b read_body in
  let* _ := validate_body body in
  Ok body.

(** capability.rs 210-213 [CapabilityToken] *)
Record CapabilityToken : Type := mkToken { body_bytes : bytes; tag : bytes }.
(** capability.rs 223-230 [CapabilityToken::encode] *)
Definition encode_token {E} (t : CapabilityToken) : result E bytes :=
  let* w := write_map 2 [MapWriter.bytes 0 (body_bytes t); MapWriter.bytes 1 (tag t)] Writer.new in
  Ok (Writer.into_bytes w).
(** capability.rs 232-244 [CapabilityToken::decode] *)
Definition read_token : M Reader.t CapabilityError CapabilityToken :=
  in_map (
    expect 0 ;;; body <- get Reader.bytes ;;
    expect 1 ;;; t <- get (Reader.bytes_exact 48) ;;
    no_more Encoding ;;;
    ret (mkToken body t)).
(** capability.rs 232-244 [CapabilityToken::decode] *)
Definition decode_token (b : bytes) : result CapabilityError CapabilityToken := decode_all b read_token.

Section Token.
Context {P : Primitives}.
(** capability.rs 260-265 [tag_for] *)
Definition tag_for (body_bytes provider_capability_key : bytes) : bytes :=
  hmac_sha384 provider_capability_key (TAG_DOMAIN ++ body_bytes).
(** capability.rs 217-221 [CapabilityToken::mint] *)
Definition mint {E} (body : CapabilityBody) (provider_capability_key : bytes) : result E CapabilityToken :=
  let* b := encode_body body in
  Ok (mkToken b (tag_for b provider_capability_key)).
(** capability.rs 248-257 [CapabilityToken::verify] *)
Definition verify_token (t : CapabilityToken) (provider_capability_key : bytes) : result CapabilityError CapabilityBody :=
  let expected := tag_for (body_bytes t) provider_capability_key in
  if negb (ct_eq (tag t) expected) then Err BadTag else
  decode_body (body_bytes t).

(** [operation.count_ones()] *)
Definition popcount64 (x : Z) : Z := len (List.filter (Z.testbit x) (map Z.of_nat (List.seq 0 64))).
(** capability.rs 269-306 [authorize] *)
Definition authorize (t : CapabilityToken) (key provider transfer object : bytes) (operation now : Z)
  : result CapabilityError CapabilityBody :=
  let* body := verify_token t key in
  if negb (ct_eq (provider_id body) provider) then Err WrongProvider else
  if negb (ct_eq (cb_transfer_id body) transfer) then Err WrongTransfer else
  if negb (existsb (fun id => ct_eq id object) (object_ids body)) then Err WrongObject else
  if (operation =? 0) || negb (Z.land operation (not64 OP_ALL) =? 0) || negb (popcount64 operation =? 1)
  then Err UnknownOperation else
  if Z.land (operations body) operation =? 0 then Err OperationNotPermitted else
  if now <? not_before body then Err NotYetValid else
  if cb_expires_at body <=? now then Err Expired else
  Ok body.
End Token.

(** capability.rs 311-318 [AbuseLimits] *)
Record AbuseLimits : Type := mkLimits {
  max_bytes_per_capability : Z;
  max_concurrent_streams : Z;
  max_requests_per_minute : Z;
  max_ranges_per_request : Z;
  max_proof_bytes : Z;
  max_connection_memory_bytes : Z
}.
(** capability.rs 321-332 [AbuseLimits::default] *)
Definition default_limits : AbuseLimits :=
  mkLimits (8 * 1024 * 1024 * 1024) 8 600 64 4096 (32 * 1024 * 1024).

(** ** Wire forms *)
Definition body_value (b : CapabilityBody) : value :=
  VMap [(0, VUint (version b)); (1, VBytes (provider_id b)); (2, VBytes (cb_transfer_id b));
        (3, VArray (map VBytes (object_ids b))); (4, VUint (operations b)); (5, VUint (not_before b));
        (6, VUint (cb_expires_at b)); (7, VBytes (cb_nonce b))].
Definition body_wf (b : CapabilityBody) : Prop :=
  u64 (version b) /\ array 32 (provider_id b) /\ array 32 (cb_transfer_id b) /\
  (len (object_ids b) <= MAX_OBJECTS /\ Forall (array 32) (object_ids b)) /\
  u64 (operations b) /\ u64 (not_before b) /\ u64 (cb_expires_at b) /\ array 32 (cb_nonce b).
Definition token_value (t : CapabilityToken) : value := VMap [(0, VBytes (body_bytes t)); (1, VBytes (tag t))].
Definition token_wf (t : CapabilityToken) : Prop := byte_string (body_bytes t) /\ array 48 (tag t).

#[export] Instance object_id_codec : codec 0 read_object_id VBytes (array 32).
Proof.
  split.
  - intros pre tl d b Hb Hd Hd'. unfold read_object_id. apply q_fwd, (codec_fwd _); [done|lia|lia].
  - intros pre rest d b r Hok Hd H. unfold read_object_id in H. by apply q_bwd, (codec_bwd _) in H.
Qed.
#[export] Instance body_codec : codec 2 read_body body_value body_wf.
Proof.
  split.
  - intros pre tl d [ver pr tr ids ops nb ex nonce] (H1 & H2 & H3 & [H4 H5] & H6 & H7 & H8 & H9) Hd Hd'.
    unfold read_body, body_value; cbn [version provider_id cb_transfer_id object_ids operations not_before cb_expires_at cb_nonce] in *.
    assert (Hu : u64 (len (map VBytes ids))).
    { rewrite len_map. unfold MAX_OBJECTS in H4. pose proof (len_nonneg ids). split; lia. }
    assert (Hg : (len (map VBytes ids) <=? MAX_OBJECTS) = true) by (rewrite len_map; by apply Z.leb_le).
    wforward.
  - intros pre rest d x r Hok Hd H. unfold read_body in H. wbackward H. unfold body_value;
      cbn [version provider_id cb_transfer_id object_ids operations not_before cb_expires_at cb_nonce].
    wfinish. apply Z.leb_le in Hg. unfold body_wf; cbn. split_and!; done.
Qed.
#[export] Instance token_codec : codec 1 read_token token_value token_wf.
Proof.
  split.
  - intros pre tl d [b t] [H1 H2] Hd Hd'. unfold read_token, token_value; cbn [body_bytes tag] in *. wforward.
  - intros pre rest d x r Hok Hd H. unfold read_token in H. wbackward H. unfold token_value; cbn [body_bytes tag]. wfinish. done.
Qed.

Lemma write_body_emits {E} b : emits (E := E) (write_body b) (body_value b).
Proof.
  unfold write_body, body_value. apply write_map_emits; [|by cbn; repeat split; lia|done].
  repeat (apply List.Forall2_cons; [cbn [fst snd]; eauto with wire|]); [|apply List.Forall2_nil].
  apply writes_nested, array_emits. intros x _ w. by rewrite writer_bytes.
Qed.
Lemma encode_body_eq {E} b : encode_body (E := E) b = Ok (cbor (body_value b)).
Proof. unfold encode_body. by rewrite write_body_emits. Qed.
Lemma encode_token_eq {E} t : encode_token (E := E) t = Ok (cbor (token_value t)).
Proof.
  unfold encode_token. assert (H : emits (E := E) (write_map 2 [MapWriter.bytes 0 (body_bytes t); MapWriter.bytes 1 (tag t)]) (token_value t))
    by (unfold token_value; wemit). by rewrite H.
Qed.
Lemma ids_size ids : Forall (array 32) ids -> len (items (map VBytes ids)) <= 41 * len ids.
Proof.
  induction 1 as [|x ids [Hx _] _ IH]; [done|]. cbn [map]. rewrite items_cons, len_app, len_cons.
  pose proof (cbor_bytes_len x). lia.
Qed.
Lemma body_size b : body_wf b -> len (cbor (body_value b)) <= 65536.
Proof.
  intros (_ & [? _] & [? _] & [Hl Hi] & _ & _ & _ & [? _]). pose proof (ids_size _ Hi). unfold MAX_OBJECTS in Hl.
  unfold body_value. wsize.
Qed.
Lemma decode_body_encoded b : body_wf b -> decode_body (cbor (body_value b)) = (let* _ := validate_body b in Ok b).
Proof.
  intros Hb. unfold decode_body. rewrite decode_message; [done|done|done|].
  pose proof (body_size b Hb). unfold MAX_CONTROL_SIZE. lia.
Qed.
Lemma decode_body_inv x b : bytes_ok x -> decode_body x = Ok b -> x = cbor (body_value b) /\ body_wf b /\ validate_body b = Ok tt.
Proof.
  intros Hok H. unfold decode_body in H. minv H. minv Hk. destruct a0. apply Ok_inj in Hk0 as ->.
  by apply decode_message_inv in Hp as [-> Hw].
Qed.
Lemma token_roundtrip t : token_wf t -> len (body_bytes t) <= 65536 -> decode_token (cbor (token_value t)) = Ok t.
Proof.
  intros Ht Hl. unfold decode_token. rewrite decode_message; [done|done|done|].
  destruct Ht as [_ [Hl' _]]. unfold token_value, MAX_CONTROL_SIZE. wsize.
Qed.

(** ** Operations *)
Lemma unknown_bits x : u64 x -> Z.land x (not64 OP_ALL) = 0 <-> x < 64.
Proof.
  intros [H0 H64]. change (not64 OP_ALL) with (Z.shiftl (Z.ones 58) 6).
  assert (Hb : forall i, Z.testbit (Z.shiftl (Z.ones 58) 6) i = ((6 <=? i) && (i <? 64))%bool).
  { intros i. destruct (Z.ltb_spec i 0) as [Hn|Hn].
    - rewrite Z.testbit_neg_r by done. destruct (Z.leb_spec 6 i); [lia|done].
    - rewrite Z.shiftl_spec by done. destruct (Z.leb_spec 6 i); cbn [andb]; [|by rewrite Z.testbit_neg_r by lia].
      rewrite Z.testbit_ones by lia. destruct (Z.leb_spec 0 (i - 6)), (Z.ltb_spec (i - 6) 58), (Z.ltb_spec i 64); lia || done. }
  split.
  - intros H. destruct (Z.lt_ge_cases x 64) as [|Hge]; [done|]. exfalso.
    apply (f_equal (fun v => Z.testbit v (Z.log2 x))) in H. rewrite Z.land_spec, Z.bits_0, Z.bit_log2, Hb in H by lia.
    assert (6 <= Z.log2 x) by (change 6 with (Z.log2 64); by apply Z.log2_le_mono).
    assert (Z.log2 x < 64) by (apply Z.log2_lt_pow2; lia).
    destruct (Z.leb_spec 6 (Z.log2 x)), (Z.ltb_spec (Z.log2 x) 64); cbn in H; lia || done.
  - intros Hlt. apply Z.bits_inj'. intros i Hi. rewrite Z.land_spec, Z.bits_0, Hb.
    destruct (Z.leb_spec 6 i) as [H6|]; cbn [andb]; [|by rewrite andb_false_r].
    destruct (Z.eq_dec x 0) as [->|]; [by rewrite Z.bits_0|]. rewrite Z.bits_above_log2; [done|lia|].
    apply Z.lt_le_trans with 6; [|done]. apply Z.log2_lt_pow2; lia.
Qed.
(** The operations of §15.2, by bit. *)
Definition known_operation (op : Z) : bool := existsb (fun k => op =? 2 ^ k) [0; 1; 2; 3; 4; 5].
Lemma single_operation op : u64 op ->
  ((op =? 0) || negb (Z.land op (not64 OP_ALL) =? 0) || negb (popcount64 op =? 1))%bool = negb (known_operation op).
Proof.
  intros Hu. pose proof (unknown_bits op Hu) as Hk.
  destruct (Z.eqb_spec (Z.land op (not64 OP_ALL)) 0) as [H|H]; cbn [negb].
  - apply Hk in H. rewrite orb_false_r.
    assert (Hall : forallb (fun x => Bool.eqb ((x =? 0) || negb (popcount64 x =? 1)) (negb (known_operation x)))
      (map Z.of_nat (List.seq 0 64)) = true) by (vm_compute; reflexivity).
    rewrite forallb_forall in Hall. apply eqb_prop, Hall, in_map_iff. exists (Z.to_nat op). unfold uint_range in Hu.
    split; [lia|]. apply in_seq. lia.
  - rewrite orb_true_r. cbn [orb]. symmetry. apply negb_true_iff, not_true_is_false. intros Hex. apply H, Hk.
    unfold known_operation in Hex. apply existsb_exists in Hex as (k & Hin & ->%Z.eqb_eq).
    cbn in Hin. repeat destruct Hin as [<-|Hin]; done.
Qed.
Lemma granted ops k : 0 <= k -> (Z.land ops (2 ^ k) =? 0) = negb (Z.testbit ops k).
Proof.
  intros Hk. destruct (Z.testbit ops k) eqn:Hb; cbn [negb].
  - apply Z.eqb_neq. intros H. apply (f_equal (fun v => Z.testbit v k)) in H.
    rewrite Z.land_spec, Hb, Z.pow2_bits_true, Z.bits_0 in H by done. done.
  - apply Z.eqb_eq, Z.bits_inj'. intros i Hi. rewrite Z.land_spec, Z.bits_0.
    destruct (Z.eq_dec i k) as [->|Hne]; [by rewrite Hb|]. by rewrite Z.pow2_bits_false, andb_false_r.
Qed.

(** What [validate] asks of a body. *)
Record valid_body (b : CapabilityBody) : Prop := {
  vb_version : version b = CAPABILITY_VERSION;
  vb_operations : 0 < operations b < 64;
  vb_objects : 1 <= len (object_ids b) <= MAX_OBJECTS;
  vb_window : not_before b < cb_expires_at b
}.
Lemma validate_body_iff b : u64 (operations b) -> validate_body b = Ok tt <-> valid_body b.
Proof.
  intros Hu. unfold validate_body. pose proof (unknown_bits _ Hu) as Hk. pose proof (len_nonneg (object_ids b)) as Hl.
  assert (Hn : valid_body b -> version b = CAPABILITY_VERSION /\ operations b <> 0 /\ operations b < 64 /\
    len (object_ids b) <> 0 /\ len (object_ids b) <= MAX_OBJECTS /\ not_before b < cb_expires_at b)
    by (intros [? ? ? ?]; split_and!; lia).
  destruct (Z.eqb_spec (version b) CAPABILITY_VERSION) as [Hv|Hv]; cbn [negb]; [|split; [done|tauto]].
  destruct (Z.eqb_spec (operations b) 0); [split; [done|tauto]|].
  destruct (Z.eqb_spec (Z.land (operations b) (not64 OP_ALL)) 0) as [H6|H6]; cbn [negb]; [apply Hk in H6|split; [done|tauto]].
  destruct (Z.eqb_spec (len (object_ids b)) 0); [split; [done|tauto]|].
  destruct (Z.ltb_spec MAX_OBJECTS (len (object_ids b))); [split; [done|intros H'; apply Hn in H'; lia]|].
  destruct (Z.leb_spec (cb_expires_at b) (not_before b)); [split; [done|intros H'; apply Hn in H'; lia]|].
  split; [intros _|done]. unfold uint_range in Hu. split; [done|lia|lia|done].
Qed.

(** What a capability allows. *)
Record grants (b : CapabilityBody) (provider transfer object : bytes) (operation now : Z) : Prop := {
  gr_provider : provider_id b = provider;
  gr_transfer : cb_transfer_id b = transfer;
  gr_object : object ∈ object_ids b;
  gr_operation : exists k, 0 <= k < 6 /\ operation = 2 ^ k /\ Z.testbit (operations b) k = true;
  gr_time : not_before b <= now < cb_expires_at b
}.

Section Claims.
Context {P : Primitives} {L : PrimitiveLaws}.

Lemma authorize_iff t key provider transfer object operation now b : u64 operation ->
  authorize t key provider transfer object operation now = Ok b <->
  tag t = tag_for (body_bytes t) key /\ decode_body (body_bytes t) = Ok b /\ grants b provider transfer object operation now.
Proof.
  intros Hu. unfold authorize, verify_token. destruct (ct_eq (tag t) _) eqn:Ht; cbn [negb].
  2: { split; [done|]. intros [He _]. apply ct_eq_true in He. congruence. }
  apply ct_eq_true in Ht. destruct (decode_body (body_bytes t)) as [b'|e|]; cbn [rbind].
  2-3: split; [discriminate|intros (_ & He & _); discriminate He].
  transitivity (b' = b /\ grants b' provider transfer object operation now).
  2: { split; [intros [-> H]; by split_and!|]. by intros (_ & [= ->] & H). }
  destruct (ct_eq (provider_id b') provider) eqn:H1; cbn [negb].
  2: { split; [done|]. intros [_ [He _ _ _ _]]. apply ct_eq_true in He. congruence. }
  destruct (ct_eq (cb_transfer_id b') transfer) eqn:H2; cbn [negb].
  2: { split; [done|]. intros [_ [_ He _ _ _]]. apply ct_eq_true in He. congruence. }
  destruct (existsb _ (object_ids b')) eqn:H3; cbn [negb].
  2: { split; [done|]. intros [_ [_ _ He _ _]]. apply not_true_iff_false in H3. exfalso. apply H3, existsb_exists.
       exists object. split; [by apply list_elem_of_In|by apply ct_eq_true]. }
  rewrite single_operation by done. destruct (known_operation operation) eqn:H4; cbn [negb].
  2: { split; [done|]. intros [_ [_ _ _ (k & Hk & -> & _) _]]. apply not_true_iff_false in H4. exfalso. apply H4, existsb_exists.
       exists k. split; [cbn; lia|by apply Z.eqb_eq]. }
  apply existsb_exists in H4 as (k & Hin & ->%Z.eqb_eq).
  assert (Hk : 0 <= k < 6) by (cbn in Hin; lia).
  rewrite granted by lia. destruct (Z.testbit (operations b') k) eqn:H5; cbn [negb].
  2: { split; [done|]. intros [_ [_ _ _ (k' & Hk' & Heq & Hb) _]]. apply Z.pow_inj_r in Heq; [|lia..]. congruence. }
  destruct (Z.ltb_spec now (not_before b')); [split; [done|intros [_ [_ _ _ _ ?]]; lia]|].
  destruct (Z.leb_spec (cb_expires_at b') now); [split; [done|intros [_ [_ _ _ _ ?]]; lia]|].
  apply ct_eq_true in H1, H2. apply existsb_exists in H3 as (id & Hid & ->%ct_eq_true).
  split; [|by intros [-> _]]. intros [= <-]. split; [done|]. split; [done|done|by apply list_elem_of_In| |done].
  by exists k.
Qed.

(** C29: A capability grants exactly its scope: a body of the right shape mints
    a token if it is valid, the token survives its encoding, and with the
    provider's key a request is authorized if and only if provider, transfer
    and object are the body's, the operation is a single known bit the body
    sets and the time is inside its window; then the body comes back. *)
Theorem capability_grants_exactly body key : body_wf body -> valid_body body ->
  exists t b, mint (E := CapabilityError) body key = Ok t /\ encode_token (E := CapabilityError) t = Ok b /\ decode_token b = Ok t /\
    forall provider transfer object operation now, u64 operation ->
      (authorize t key provider transfer object operation now = Ok body <-> grants body provider transfer object operation now) /\
      (forall other, authorize t key provider transfer object operation now = Ok other -> other = body).
Proof.
  intros Hw Hv. pose proof (body_size body Hw) as Hl.
  assert (Hd : decode_body (cbor (body_value body)) = Ok body).
  { rewrite decode_body_encoded by done. apply validate_body_iff in Hv as ->; [done|apply Hw]. }
  eexists _, _. split; [unfold mint; rewrite encode_body_eq; reflexivity|]. split; [apply encode_token_eq|].
  split.
  { apply token_roundtrip; [|exact Hl]. split; [|apply hmac_len]. split.
    - apply cbor_bytes_ok. destruct Hw as (H1 & H2 & H3 & [H4 H5] & H6 & H7 & H8 & H9). unfold body_value.
      assert (value_ok (VArray (map VBytes (object_ids body)))).
      { apply ok_array; [rewrite len_map; unfold MAX_OBJECTS in H4; pose proof (len_nonneg (object_ids body)); split; lia|].
        apply Forall_fmap. eapply Forall_impl; [exact H5|]. intros x Hx. unfold compose. vok. }
      vok.
    - pose proof (len_nonneg (cbor (body_value body))). split; cbn [body_bytes]; lia. }
  intros provider transfer object operation now Hu. rewrite authorize_iff by done. cbn [tag body_bytes]. rewrite Hd.
  split; [tauto|]. intros other. rewrite authorize_iff by done. cbn [tag body_bytes]. rewrite Hd. by intros (_ & [= ->] & _).
Qed.

(** C28: No other token passes: whatever its bytes, an authorized token carries
    the MAC of its body under the provider's key, and that body is the one
    encoding of a valid body whose scope covers the request. *)
Theorem authorized_token_sound t key provider transfer object operation now b : bytes_ok (body_bytes t) -> u64 operation ->
  authorize t key provider transfer object operation now = Ok b ->
  tag t = tag_for (body_bytes t) key /\ body_bytes t = cbor (body_value b) /\ body_wf b /\ valid_body b /\
  grants b provider transfer object operation now.
Proof.
  intros Hok Hu H. apply authorize_iff in H as (Ht & Hd & Hg); [|done].
  apply decode_body_inv in Hd as (Hb & Hw & Hv); [|done]. apply validate_body_iff in Hv; [|apply Hw]. by split_and!.
Qed.
End Claims.

(** ** A capability *)
Module CapabilityWitness.
Import Toy.
Definition body1 : CapabilityBody :=
  mkBody CAPABILITY_VERSION (replicate 32 1) (replicate 32 2) [replicate 32 3; replicate 32 4] OP_DOWNLOAD 100 200 (replicate 32 5).
Definition key1 : bytes := [9; 9].
Lemma body1_ok : body_wf body1 /\ valid_body body1.
Proof.
  split; [|split; [reflexivity|vm_compute; split; reflexivity|vm_compute; split; discriminate|reflexivity]].
  assert (Ha : forall x, u8 x -> array 32 (replicate 32 x)) by (intros x Hx; split; [done|by apply Forall_replicate]).
  assert (H : u8 1 /\ u8 2 /\ u8 3 /\ u8 4 /\ u8 5) by (repeat split; done). destruct H as (? & ? & ? & ? & ?).
  unfold body_wf, body1; cbn [version provider_id cb_transfer_id object_ids operations not_before cb_expires_at cb_nonce].
  split; [by split|]. split; [by apply Ha|]. split; [by apply Ha|].
  split; [split; [vm_compute; discriminate|]|split; [by vm_compute|split; [by split|split; [by split|by apply Ha]]]].
  constructor; [by apply Ha|]. constructor; [by apply Ha|constructor].
Qed.
Definition token1 : CapabilityToken := match mint (E := CapabilityError) body1 key1 with Ok t => t | _ => mkToken [] [] end.
Lemma capability_grants_exactly_witness : exists t, mint (E := CapabilityError) body1 key1 = Ok t /\
  authorize t key1 (replicate 32 1) (replicate 32 2) (replicate 32 4) OP_READ_CHUNKS 150 = Ok body1 /\
  authorize t key1 (replicate 32 1) (replicate 32 2) (replicate 32 4) OP_READ_CHUNKS 200 <> Ok body1.
Proof.
  destruct (capability_grants_exactly body1 key1 (proj1 body1_ok) (proj2 body1_ok)) as (t & b & H1 & _ & _ & H).
  exists t. split; [exact H1|]. split.
  - apply (H (replicate 32 1) (replicate 32 2) (replicate 32 4) OP_READ_CHUNKS 150); [by split|]. split.
    + reflexivity.
    + reflexivity.
    + apply elem_of_cons. right. by apply elem_of_cons; left.
    + exists 1. by repeat split.
    + vm_compute. split; [discriminate|reflexivity].
  - rewrite (proj1 (H (replicate 32 1) (replicate 32 2) (replicate 32 4) OP_READ_CHUNKS 200 ltac:(by split))). intros [_ _ _ _ [_ Ht]]. vm_compute in Ht. discriminate.
Defined.
Lemma authorized_token_sound_witness : body_bytes token1 = cbor (body_value body1) /\ valid_body body1.
Proof.
  destruct (authorized_token_sound token1 key1 (replicate 32 1) (replicate 32 2) (replicate 32 3) OP_READ_PROOFS 100 body1)
    as (_ & H1 & _ & H2 & _).
  - apply bytes_ok_check. vm_compute. reflexivity.
  - by split.
  - vm_compute. reflexivity.
  - split; [exact H1|exact H2].
Defined.
(** Scope by scope, in the order of the checks. *)
Example refusals :
  authorize token1 [9] (replicate 32 1) (replicate 32 2) (replicate 32 3) OP_READ_CHUNKS 150 = Err BadTag /\
  authorize token1 key1 (replicate 32 2) (replicate 32 2) (replicate 32 3) OP_READ_CHUNKS 150 = Err WrongProvider /\
  authorize token1 key1 (replicate 32 1) (replicate 32 1) (replicate 32 3) OP_READ_CHUNKS 150 = Err WrongTransfer /\
  authorize token1 key1 (replicate 32 1) (replicate 32 2) (replicate 32 5) OP_READ_CHUNKS 150 = Err WrongObject /\
  authorize token1 key1 (replicate 32 1) (replicate 32 2) (replicate 32 3) OP_DOWNLOAD 150 = Err UnknownOperation /\
  authorize token1 key1 (replicate 32 1) (replicate 32 2) (replicate 32 3) OP_DELETE_OBJECT 150 = Err OperationNotPermitted /\
  authorize token1 key1 (replicate 32 1) (replicate 32 2) (replicate 32 3) OP_READ_CHUNKS 99 = Err NotYetValid /\
  authorize token1 key1 (replicate 32 1) (replicate 32 2) (replicate 32 3) OP_READ_CHUNKS 200 = Err Expired.
Proof. vm_compute. repeat split. Qed.
End CapabilityWitness.
