(* ===== verification/Store.v ===== *)
(** * The device store (store.rs)

    Sealed records in single files, the device identity and the resumption
    secrets.  The random nonce of a seal, the clock and the outcomes of system
    calls are arguments.  The file modes are those of Unix. *)

From Stdlib Require Import Sorted Eqdep_dec.
From S2P Require Import Prelude Cbor Wire Crypto Identity.
#[local] Open Scope Z_scope.

(** store.rs 33-33 [RECORD_VERSION] *)
Definition RECORD_VERSION : Z := 1.
(** store.rs 35-35 [MAX_RECORD_BYTES] *)
Definition MAX_RECORD_BYTES : Z := 256 * 1024.
(** store.rs 37-37 [IDENTITY_DOMAIN] *)
Definition IDENTITY_DOMAIN : bytes := lit "RTP2-IDENTITY-RECORD-v1".
(** store.rs 38-38 [IDENTITY_PAYLOAD_VERSION] *)
Definition IDENTITY_PAYLOAD_VERSION : Z := 1.

(** store.rs 41-56 [StoreError] *)
Inductive StoreError : Type :=
| Io
| Corrupt
| VersionMismatch
| ProtectionDowngrade
| UnsafePath
| NotRegularFile
| Seal.
(** store.rs 74-78 [From] *)
#[export] Instance store_from_cbor : From CborError StoreError := fun _ => Corrupt.

(** ** Protection and sealers *)
(** store.rs 91-102 [Protection] *)
Inductive Protection : Type := Plaintext | PlatformKeystore | HardwareKeystore.
(** store.rs 105-107 [Protection::as_u64] *)
Definition as_u64 (p : Protection) : Z :=
  match p with Plaintext => 0 | PlatformKeystore => 1 | HardwareKeystore => 2 end.
(** store.rs 109-116 [Protection::from_u64] *)
Definition from_u64 (v : Z) : result StoreError Protection :=
  match v with 0 => Ok Plaintext | 1 => Ok PlatformKeystore | 2 => Ok HardwareKeystore | _ => Err VersionMismatch end.
(** The derived order. *)
Definition weaker (a b : Protection) : bool := as_u64 a <? as_u64 b.

(** [draw] is the randomness of the seal.  store.rs 120-124 [SecretSealer] *)
Class SecretSealer (S : Type) : Type := {
  protection : S -> Protection;
  seal : S -> bytes -> bytes -> bytes -> result StoreError bytes;
  open : S -> bytes -> bytes -> result StoreError bytes
}.
(** What the store relies on: a seal opens under the same associated data to
    what was sealed, and grows by at most 128 bytes. *)
Class SealerLaws (S : Type) `{SecretSealer S} : Prop := {
  seal_opens s draw plaintext aad : array 24 draw -> bytes_ok plaintext -> len plaintext <= MAX_RECORD_BYTES ->
    exists sealed, seal s draw plaintext aad = Ok sealed /\ bytes_ok sealed /\ len sealed <= len plaintext + 128 /\
      open s sealed aad = Ok plaintext;
  open_ok s sealed aad plaintext : bytes_ok sealed -> open s sealed aad = Ok plaintext -> bytes_ok plaintext
}.

(** store.rs 127-127 [PlaintextSealer] *)
Inductive PlaintextSealer : Type := plaintext_sealer.
(** store.rs 129-141 [impl SecretSealer for PlaintextSealer] *)
#[export] Instance PlaintextSealer_sealer : SecretSealer PlaintextSealer := {
  protection _ := Plaintext;
  seal _ _ plaintext _ := Ok plaintext;
  open _ sealed _ := Ok sealed
}.

(** The length and range of a [\[u8; N\]], as a boolean: a key carries the
    proof, of which there is only one. *)
Definition array_b (n : Z) (l : bytes) : bool := (len l =? n) && forallb (fun b => (0 <=? b) && (b <? 256)) l.
(** store.rs 152-155 [AeadSealer] *)
Record AeadSealer : Type := mkAead { as_key : bytes; as_protection : Protection; as_key_len : array_b 32 as_key = true }.

Section Aead.
Context {P : Primitives}.
(** store.rs 174-195 [AeadSealer::seal] *)
Definition aead_seal (s : AeadSealer) (nonce plaintext aad : bytes) : result StoreError bytes :=
  match aead_encrypt (as_key s) nonce aad plaintext with
  | Some ct => Ok (nonce ++ ct)
  | None => Err Seal
  end.
(** store.rs 197-219 [AeadSealer::open] *)
Definition aead_open (s : AeadSealer) (sealed aad : bytes) : result StoreError bytes :=
  if len sealed <? 24 then Err Seal else
  match aead_decrypt (as_key s) (take 24 sealed) aad (drop 24 sealed) with
  | Some pt => Ok pt
  | None => Err Seal
  end.
(** store.rs 169-220 [impl SecretSealer for AeadSealer] *)
#[export] Instance AeadSealer_sealer : SecretSealer AeadSealer := {
  protection := as_protection;
  seal := aead_seal;
  open := aead_open
}.
End Aead.

(** ** Files *)
(** What a path names: a regular file with its mode and content, a directory
    with its mode, a symbolic link, nothing, or something [symlink_metadata]
    fails on. *)
Inductive Entry : Type :=
| RegularFile (mode : Z) (content : bytes)
| Directory (mode : Z)
| Symlink
| Missing
| Unreadable.
(** A record: its path, the path of its temporary file, and every entry that
    may be at the record's path after a power loss (a rename is final once
    the directory is synced). *)
Record FileState : Type := mkFile { visible : Entry; tmp : Entry; surviving : list Entry }.
(** Outcomes of the calls of one write; [dirsync_ok]: the directory could be
    opened and synced. *)
Record WriteIo : Type := mkWriteIo { write_ok : bool; sync_ok : bool; rename_ok : bool; dirsync_ok : bool }.
Definition group_or_other (mode : Z) : Z := Z.land mode 63.
(** store.rs 374-384 [check_private_mode] *)
Definition check_private_mode (mode : Z) : result StoreError unit :=
  if negb (group_or_other mode =? 0) then Err UnsafePath else Ok tt.
(** Create or truncate; the mode is that of a file that is created, and a
    symbolic link is followed.
    store.rs 357-366 [create_private_file] *)
Definition create_private_file (at_path : Entry) : result StoreError Entry :=
  match at_path with
  | Missing => Ok (RegularFile 384 [])
  | RegularFile mode _ => Ok (RegularFile mode [])
  | Symlink => Ok Symlink
  | Directory _ | Unreadable => Err Io
  end.
Definition with_content (b : bytes) (e : Entry) : Entry :=
  match e with RegularFile mode _ => RegularFile mode b | _ => e end.

(** ** Sealed records *)
Section Records.
Context {P : Primitives} {S : Type} {SS : SecretSealer S}.

(** store.rs 230-236 [record_aad] *)
Definition record_aad (domain : bytes) (p : Protection) : bytes :=
  domain ++ be_bytes 8 RECORD_VERSION ++ be_bytes 8 (as_u64 p).
(** The CBOR of a record.  store.rs 250-255 [write_sealed] *)
Definition encode_record {E} (p : Protection) (sealed : bytes) : result E bytes :=
  let* w := write_map 3 [MapWriter.uint 0 RECORD_VERSION; MapWriter.uint 1 (as_u64 p); MapWriter.bytes 2 sealed] Writer.new in
  Ok (Writer.into_bytes w).
Definition checksum_of (domain body : bytes) : bytes := blake3_hash (domain ++ body).
(** The file's content.  store.rs 241-268 [write_sealed] *)
Definition record_bytes (domain : bytes) (s : S) (draw payload : bytes) : result StoreError bytes :=
  let* sealed := seal s draw payload (record_aad domain (protection s)) in
  let* body := encode_record (protection s) sealed in
  let file_bytes := checksum_of domain body ++ body in
  if MAX_RECORD_BYTES <? len file_bytes then Err Corrupt else
  Ok file_bytes.
(** Temporary file, sync, rename, best-effort sync of the directory.
    store.rs 241-285 [write_sealed] *)
Definition write_sealed (io : WriteIo) (domain : bytes) (s : S) (draw payload : bytes) (f : FileState)
  : result StoreError unit * FileState :=
  match record_bytes domain s draw payload with
  | Ok file_bytes =>
    match create_private_file (tmp f) with
    | Ok created =>
      let filled := with_content file_bytes created in
      if negb (write_ok io) then (Err Io, mkFile (visible f) created (surviving f)) else
      if negb (sync_ok io) then (Err Io, mkFile (visible f) filled (surviving f)) else
      if negb (rename_ok io) then (Err Io, mkFile (visible f) filled (surviving f)) else
      (Ok tt, mkFile filled Missing (if dirsync_ok io then [filled] else filled :: surviving f))
    | Err e => (Err e, f)
    | Panic => (Panic, f)
    end
  | Err e => (Err e, f)
  | Panic => (Panic, f)
  end.

(** store.rs 325-337 [read_sealed] *)
Definition read_record : M Reader.t StoreError (Z * Z * bytes) :=
  in_map (
    expect 0 ;;; version <- get Reader.uint ;;
    expect 1 ;;; protection_raw <- get Reader.uint ;;
    expect 2 ;;; sealed <- get Reader.bytes ;;
    no_more Corrupt ;;;
    ret (version, protection_raw, sealed)).
(** From the content of the file to the payload.
    store.rs 311-353 [read_sealed] *)
Definition unseal (domain : bytes) (s : S) (minimum : Protection) (content : bytes) : result StoreError bytes :=
  if (len content <? 32) || (MAX_RECORD_BYTES <? len content) then Err Corrupt else
  let body := drop 32 content in
  if negb (ct_eq (take 32 content) (checksum_of domain body)) then Err Corrupt else
  let* '(version, protection_raw, sealed) := decode_all body read_record in
  if negb (version =? RECORD_VERSION) then Err VersionMismatch else
  let* p := from_u64 protection_raw in
  if weaker p minimum then Err ProtectionDowngrade else
  open s sealed (record_aad domain p).
(** [None]: there is no file.  [read_ok]: [std::fs::read] succeeded.
    store.rs 289-354 [read_sealed] *)
Definition read_sealed (read_ok : bool) (domain : bytes) (s : S) (minimum : Protection) (f : FileState)
  : result StoreError (option bytes) :=
  match visible f with
  | Missing => Ok None
  | Unreadable => Err Io
  | Symlink | Directory _ => Err NotRegularFile
  | RegularFile mode content =>
    let* _ := check_private_mode mode in
    if negb read_ok then Err Io else
    let* payload := unseal domain s minimum content in
    Ok (Some payload)
  end.
End Records.

(** ** The store *)
(** [DeviceStore::open] of a directory: what is there afterwards.
    store.rs 403-423 [DeviceStore::open] *)
Definition open_store (mkdir_ok : bool) (dir : Entry) : result StoreError Entry :=
  match dir with
  | Directory mode => let* _ := check_private_mode mode in Ok dir
  | Missing => if mkdir_ok then Ok (Directory 448) else Err Io
  | Unreadable => Err Io
  | RegularFile _ _ | Symlink => Err NotRegularFile
  end.

(** The sealer and the minimum protection; the paths are the [FileState]s
    the operations work on.  store.rs 395-399 [DeviceStore] *)
Record DeviceStore (S : Type) : Type := mkStore { sealer : S; minimum_protection : Protection }.
Arguments mkStore {S} sealer minimum_protection.
Arguments sealer {S} d.
Arguments minimum_protection {S} d.
(** The store [DeviceStore::open] returns.  store.rs 418-422 [DeviceStore::open] *)
Definition default_store : DeviceStore PlaintextSealer := mkStore plaintext_sealer Plaintext.
(** store.rs 427-431 [DeviceStore::with_sealer] *)
Definition with_sealer {S S'} (d : DeviceStore S) (s : S') (minimum : Protection) : DeviceStore S' := mkStore s minimum.

(** store.rs 689-697 [encode_identity_payload] *)
Definition encode_identity_payload {E} (seed : bytes) (created_at : Z) : result E bytes :=
  let* w := write_map 3 [MapWriter.uint 0 IDENTITY_PAYLOAD_VERSION; MapWriter.bytes 1 seed; MapWriter.uint 2 created_at] Writer.new in
  Ok (Writer.into_bytes w).
Definition read_identity_payload : M Reader.t StoreError bytes :=
  in_map (
    expect 0 ;;; version <- get Reader.uint ;;
    guard (version =? IDENTITY_PAYLOAD_VERSION) VersionMismatch ;;;
    expect 1 ;;; seed <- get (Reader.bytes_exact 32) ;;
    expect 2 ;;; _ <- get Reader.uint ;;
    no_more Corrupt ;;;
    ret seed).
(** store.rs 699-717 [decode_identity_payload] *)
Definition decode_identity_payload (b : bytes) : result StoreError bytes := decode_all b read_identity_payload.

Section Device.
Context {P : Primitives} {K : PkPrimitives} {S : Type} {SS : SecretSealer S}.

(** [seed] and [draw] are the randomness of a creation, [now] its time.  The
    flag is true when the identity was loaded.
    store.rs 457-477 [DeviceStore::load_or_create_identity] *)
Definition load_or_create_identity (d : DeviceStore S) (read_ok : bool) (io : WriteIo) (seed draw : bytes) (now : Z) (f : FileState)
  : result StoreError (DeviceIdentity * bool) * FileState :=
  match read_sealed read_ok IDENTITY_DOMAIN (sealer d) (minimum_protection d) f with
  | Ok (Some payload) =>
    ((let* stored := decode_identity_payload payload in Ok (from_seed stored, true)), f)
  | Ok None =>
    match encode_identity_payload seed now with
    | Ok payload =>
      let '(r, f') := write_sealed io IDENTITY_DOMAIN (sealer d) draw payload f in
      ((let* _ := r in Ok (from_seed seed, false)), f')
    | Err e => (Err e, f)
    | Panic => (Panic, f)
    end
  | Err e => (Err e, f)
  | Panic => (Panic, f)
  end.
End Device.

(** ** Resumption secrets *)
(** store.rs 484-484 [RESUMPTION_DOMAIN] *)
Definition RESUMPTION_DOMAIN : bytes := lit "RTP2-RESUMPTION-v1".
(** store.rs 485-485 [RESUMPTION_PAYLOAD_VERSION] *)
Definition RESUMPTION_PAYLOAD_VERSION : Z := 1.
(** store.rs 487-487 [RESUMPTION_MAX_LIFETIME_SECS] *)
Definition RESUMPTION_MAX_LIFETIME_SECS : Z := 24 * 60 * 60.
(** store.rs 489-489 [MAX_RESUMPTION_ENTRIES] *)
Definition MAX_RESUMPTION_ENTRIES : Z := 64.
(** store.rs 496-504 [ResumptionEntry] *)
Record ResumptionEntry : Type := mkEntry {
  re_id : bytes;
  re_peer : bytes;
  re_secret : bytes;
  re_suite_id : Z;
  re_protocol_major : Z;
  re_created_at : Z;
  re_expires_at : Z
}.

Definition write_entry {E} (e : ResumptionEntry) : Writer.t -> result E Writer.t :=
  write_map 7 [
    MapWriter.bytes 0 (re_id e);
    MapWriter.bytes 1 (re_peer e);
    MapWriter.bytes 2 (re_secret e);
    MapWriter.uint 3 (re_suite_id e);
    MapWriter.uint 4 (re_protocol_major e);
    MapWriter.uint 5 (re_created_at e);
    MapWriter.uint 6 (re_expires_at e)].
(** store.rs 641-660 [DeviceStore::write_resumption_entries] *)
Definition encode_entries {E} (entries : list ResumptionEntry) : result E bytes :=
  let* w := write_map 2 [
    MapWriter.uint 0 RESUMPTION_PAYLOAD_VERSION;
    MapWriter.nested 1 (fun w => write_each write_entry entries (Writer.array (len entries) w))] Writer.new in
  Ok (Writer.into_bytes w).
(** store.rs 601-632 [DeviceStore::load_resumption_entries] *)
Definition read_entry : M Reader.t StoreError ResumptionEntry :=
  in_map (
    expect 0 ;;; id <- get (Reader.bytes_exact 16) ;;
    expect 1 ;;; p <- get (Reader.bytes_exact 32) ;;
    expect 2 ;;; secret <- get (Reader.bytes_exact 48) ;;
    expect 3 ;;; suite <- get Reader.uint ;;
    expect 4 ;;; major <- get Reader.uint ;;
    expect 5 ;;; created <- get Reader.uint ;;
    expect 6 ;;; expires <- get Reader.uint ;;
    no_more Corrupt ;;;
    guard (negb ((U16_MAX <? suite) || (U16_MAX <? major))) Corrupt ;;;
    ret (mkEntry id p secret suite major created expires)).
(** store.rs 588-637 [DeviceStore::load_resumption_entries] *)
Definition read_entries : M Reader.t StoreError (list ResumptionEntry) :=
  in_map (
    expect 0 ;;; version <- get Reader.uint ;;
    guard (version =? RESUMPTION_PAYLOAD_VERSION) VersionMismatch ;;;
    expect 1 ;;; count <- get Reader.array ;;
    guard (count <=? MAX_RESUMPTION_ENTRIES) Corrupt ;;;
    entries <- get (repeat_m (Z.to_nat count) read_entry) ;;
    get Reader.leave ;;;
    no_more Corrupt ;;;
    ret entries).

(** Stable, by [created_at]. *)
Fixpoint insert_entry (e : ResumptionEntry) (l : list ResumptionEntry) : list ResumptionEntry :=
  match l with
  | [] => [e]
  | x :: rest => if re_created_at e <=? re_created_at x then e :: x :: rest else x :: insert_entry e rest
  end.
(** [entries.sort_by_key(|e| e.created_at)] *)
Definition sort_entries (l : list ResumptionEntry) : list ResumptionEntry := foldr insert_entry [] l.
(** The list the store writes for a new entry.
    store.rs 518-536 [DeviceStore::store_resumption] *)
Definition with_entry (entry : ResumptionEntry) (now : Z) (entries : list ResumptionEntry) : list ResumptionEntry :=
  let kept := List.filter (fun e => negb (bytes_eqb (re_id e) (re_id entry)) && (now <? re_expires_at e)) entries in
  let stored := mkEntry (re_id entry) (re_peer entry) (re_secret entry) (re_suite_id entry) (re_protocol_major entry)
    (re_created_at entry)
    (Z.min (re_expires_at entry) (Z.min (re_created_at entry + RESUMPTION_MAX_LIFETIME_SECS) U64_MAX)) in
  let sorted := sort_entries (kept ++ [stored]) in
  drop (Z.to_nat (len sorted - MAX_RESUMPTION_ENTRIES)) sorted.
(** The first entry of that id, and the others.
    store.rs 553-561 [DeviceStore::take_resumption] *)
Fixpoint remove_id (id : bytes) (entries : list ResumptionEntry) : option (ResumptionEntry * list ResumptionEntry) :=
  match entries with
  | [] => None
  | e :: rest =>
    if ct_eq (re_id e) id then Some (e, rest)
    else (fun x => (x.1, e :: x.2)) <$> remove_id id rest
  end.

Section Resumption.
Context {P : Primitives} {S : Type} {SS : SecretSealer S}.
(** store.rs 577-638 [DeviceStore::load_resumption_entries] *)
Definition load_resumption_entries (d : DeviceStore S) (read_ok : bool) (f : FileState) : result StoreError (list ResumptionEntry) :=
  let* payload := read_sealed read_ok RESUMPTION_DOMAIN (sealer d) (minimum_protection d) f in
  match payload with
  | None => Ok []
  | Some b => decode_all b read_entries
  end.
(** store.rs 640-667 [DeviceStore::write_resumption_entries] *)
Definition write_resumption_entries (d : DeviceStore S) (io : WriteIo) (draw : bytes) (entries : list ResumptionEntry) (f : FileState)
  : result StoreError unit * FileState :=
  match encode_entries entries with
  | Ok payload => write_sealed io RESUMPTION_DOMAIN (sealer d) draw payload f
  | Err e => (Err e, f)
  | Panic => (Panic, f)
  end.
(** store.rs 518-536 [DeviceStore::store_resumption] *)
Definition store_resumption (d : DeviceStore S) (read_ok : bool) (io : WriteIo) (draw : bytes) (entry : ResumptionEntry) (now : Z)
    (f : FileState) : result StoreError unit * FileState :=
  match load_resumption_entries d read_ok f with
  | Ok entries => write_resumption_entries d io draw (with_entry entry now entries) f
  | Err e => (Err e, f)
  | Panic => (Panic, f)
  end.
(** store.rs 544-575 [DeviceStore::take_resumption] *)
Definition take_resumption (d : DeviceStore S) (read_ok : bool) (io : WriteIo) (draw id peer : bytes) (suite_id major now : Z)
    (f : FileState) : result StoreError (option ResumptionEntry) * FileState :=
  match load_resumption_entries d read_ok f with
  | Ok entries =>
    match remove_id id entries with
    | None => (Ok None, f)
    | Some (candidate, rest) =>
      match write_resumption_entries d io draw (List.filter (fun e => now <? re_expires_at e) rest) f with
      | (Ok _, f') =>
        (Ok (if (re_expires_at candidate <=? now) || negb (ct_eq (re_peer candidate) peer)
                || negb (re_suite_id candidate =? suite_id) || negb (re_protocol_major candidate =? major)
             then None else Some candidate), f')
      | (Err e, f') => (Err e, f')
      | (Panic, f') => (Panic, f')
      end
    end
  | Err e => (Err e, f)
  | Panic => (Panic, f)
  end.
End Resumption.
Lemma array_b_true n l : array_b n l = true <-> array n l.
Proof.
  unfold array_b, array. rewrite andb_true_iff, Z.eqb_eq, forallb_forall. split; intros [H1 H2]; split; try done.
  - apply Forall_forall. intros x Hx%list_elem_of_In. apply H2 in Hx. unfold is_byte. lia.
  - intros x Hx%list_elem_of_In. unfold bytes_ok, is_byte in H2. rewrite Forall_forall in H2. specialize (H2 x Hx). lia.
Qed.
Lemma aead_eq s s' : as_key s = as_key s' -> as_protection s = as_protection s' -> s = s'.
Proof.
  destruct s as [k p H], s' as [k' p' H']. cbn. intros -> ->. f_equal. apply Eqdep_dec.UIP_dec, Bool.bool_dec.
Qed.
#[export] Instance PlaintextSealer_laws : SealerLaws PlaintextSealer.
Proof.
  split.
  - intros s draw pt aad _ Hb _. exists pt. split; [done|]. split; [done|]. split; [lia|done].
  - intros s sealed aad pt Hb [= <-]. done.
Qed.
Section AeadLaws.
Context {P : Primitives}.
#[export] Instance AeadSealer_laws {L : PrimitiveLaws} : SealerLaws AeadSealer.
Proof.
  split.
  - intros s draw pt aad Hd Hb Hl. cbn [seal open AeadSealer_sealer]. unfold aead_seal, aead_open.
    destruct (aead_correct (as_key s) draw aad pt (proj1 (array_b_true _ _) (as_key_len s)) Hd Hb) as (ct & -> & Hc & Hcb & Hdec).
    { unfold MAX_RECORD_BYTES, AEAD_MAX in *. lia. }
    exists (draw ++ ct). split; [done|]. destruct Hd as [Hd Hdb]. split; [by apply bytes_ok_app|].
    rewrite len_app. split; [lia|]. pose proof (len_nonneg ct). destruct (Z.ltb_spec (len draw + len ct) 24); [lia|].
    rewrite take_app_length', drop_app_length' by (unfold len in Hd; lia). by rewrite Hdec.
  - intros s sealed aad pt _. cbn [open AeadSealer_sealer]. unfold aead_open. destruct (len sealed <? 24); [done|].
    destruct (aead_decrypt _ _ _ _) as [x|] eqn:Hx; [|done]. intros [= <-]. by apply aead_open_len in Hx as [_ ?].
Qed.
End AeadLaws.

(** ** Wire forms *)
Definition record_value (r : Z * Z * bytes) : value := VMap [(0, VUint r.1.1); (1, VUint r.1.2); (2, VBytes r.2)].
Definition record_wf (r : Z * Z * bytes) : Prop := u64 r.1.1 /\ u64 r.1.2 /\ byte_string r.2.
#[export] Instance record_codec : codec 1 read_record record_value record_wf.
Proof.
  split.
  - intros pre tl d [[v p] s] (H1 & H2 & H3) Hd Hd'. unfold read_record, record_value; cbn [fst snd] in *. wforward.
  - intros pre rest d x r Hok Hd H. unfold read_record in H. wbackward H. unfold record_value; cbn [fst snd]. wfinish. done.
Qed.
Lemma encode_sealed_eq {E} p sealed : encode_record (E := E) p sealed = Ok (cbor (record_value (RECORD_VERSION, as_u64 p, sealed))).
Proof.
  unfold encode_record.
  assert (H : emits (E := E) (write_map 3 [MapWriter.uint 0 RECORD_VERSION; MapWriter.uint 1 (as_u64 p); MapWriter.bytes 2 sealed])
    (record_value (RECORD_VERSION, as_u64 p, sealed))) by (unfold record_value; cbn [fst snd]; wemit).
  by rewrite H.
Qed.

Definition seed_value (x : bytes * Z) : value :=
  VMap [(0, VUint IDENTITY_PAYLOAD_VERSION); (1, VBytes x.1); (2, VUint x.2)].
Lemma encode_identity_eq {E} seed now : encode_identity_payload (E := E) seed now = Ok (cbor (seed_value (seed, now))).
Proof.
  unfold encode_identity_payload.
  assert (H : emits (E := E) (write_map 3 [MapWriter.uint 0 IDENTITY_PAYLOAD_VERSION; MapWriter.bytes 1 seed; MapWriter.uint 2 now])
    (seed_value (seed, now))) by (unfold seed_value; cbn [fst snd]; wemit).
  by rewrite H.
Qed.
Lemma decode_identity_encoded seed now : array 32 seed -> u64 now -> decode_identity_payload (cbor (seed_value (seed, now))) = Ok seed.
Proof.
  intros Hs Hn. unfold decode_identity_payload. eapply decode_all_fwd.
  - destruct Hs as [Hl _]. unfold seed_value; cbn [fst snd]. wsize.
  - unfold read_identity_payload, seed_value; cbn [fst snd]. wforward.
Qed.

Definition entry_value (e : ResumptionEntry) : value :=
  VMap [(0, VBytes (re_id e)); (1, VBytes (re_peer e)); (2, VBytes (re_secret e)); (3, VUint (re_suite_id e));
        (4, VUint (re_protocol_major e)); (5, VUint (re_created_at e)); (6, VUint (re_expires_at e))].
Record entry_wf (e : ResumptionEntry) : Prop := {
  ew_id : array 16 (re_id e);
  ew_peer : array 32 (re_peer e);
  ew_secret : array 48 (re_secret e);
  ew_suite : u16 (re_suite_id e);
  ew_major : u16 (re_protocol_major e);
  ew_created : u64 (re_created_at e);
  ew_expires : u64 (re_expires_at e)
}.
#[export] Instance entry_codec : codec 1 read_entry entry_value entry_wf.
Proof.
  split.
  - intros pre tl d [i p s su ma cr ex] [H1 H2 H3 H4 H5 H6 H7] Hd Hd'. unfold read_entry, entry_value;
      cbn [re_id re_peer re_secret re_suite_id re_protocol_major re_created_at re_expires_at] in *.
    assert (Hg : negb ((U16_MAX <? su) || (U16_MAX <? ma)) = true).
    { unfold U16_MAX. destruct H4, H5. rewrite (proj2 (Z.ltb_ge _ su)), (proj2 (Z.ltb_ge _ ma)) by lia. done. }
    assert (u64 su /\ u64 ma) as [Hs Hm] by (unfold uint_range in *; lia).
    wforward.
  - intros pre rest d x r Hok Hd H. unfold read_entry in H. wbackward H. unfold entry_value;
      cbn [re_id re_peer re_secret re_suite_id re_protocol_major re_created_at re_expires_at].
    wfinish. apply negb_true_iff, orb_false_iff in Hg as [Hg1 Hg2]. apply Z.ltb_ge in Hg1, Hg2.
    unfold U16_MAX, uint_range in *. split; cbn; first [done | unfold uint_range; lia].
Qed.
Definition entries_value (l : list ResumptionEntry) : value :=
  VMap [(0, VUint RESUMPTION_PAYLOAD_VERSION); (1, VArray (map entry_value l))].
Definition entries_wf (l : list ResumptionEntry) : Prop := len l <= MAX_RESUMPTION_ENTRIES /\ Forall entry_wf l.
#[export] Instance entries_codec : codec 3 read_entries entries_value entries_wf.
Proof.
  split.
  - intros pre tl d l [H1 H2] Hd Hd'. unfold read_entries, entries_value.
    assert (Hu : u64 (len (map entry_value l))).
    { rewrite len_map. unfold MAX_RESUMPTION_ENTRIES in H1. pose proof (len_nonneg l). split; lia. }
    assert (Hg : (len (map entry_value l) <=? MAX_RESUMPTION_ENTRIES) = true) by (rewrite len_map; by apply Z.leb_le).
    assert (Hv : (RESUMPTION_PAYLOAD_VERSION =? RESUMPTION_PAYLOAD_VERSION) = true) by done.
    assert (u64 RESUMPTION_PAYLOAD_VERSION) by done.
    wforward.
  - intros pre rest d x r Hok Hd H. unfold read_entries in H. wbackward H. unfold entries_value.
    apply Z.eqb_eq in Hg as ->. wfinish. apply Z.leb_le in Hg0. done.
Qed.
Lemma write_entry_emits {E} e : emits (E := E) (write_entry e) (entry_value e).
Proof. unfold write_entry, entry_value. wemit. Qed.
Lemma encode_entries_eq {E} l : encode_entries (E := E) l = Ok (cbor (entries_value l)).
Proof.
  unfold encode_entries. erewrite write_map_emits with (l := [(0, _); (1, VArray (map entry_value l))]); [reflexivity| |by cbn; repeat split; lia|done].
  apply List.Forall2_cons; [cbn [fst snd]; eauto with wire|]. apply List.Forall2_cons; [|apply List.Forall2_nil].
  cbn [fst snd]. apply writes_nested, array_emits. intros x _. apply write_entry_emits.
Qed.
Lemma secret_value_ok e : entry_wf e -> value_ok (entry_value e).
Proof.
  intros [H1 H2 H3 H4 H5 H6 H7]. assert (u64 (re_suite_id e) /\ u64 (re_protocol_major e)) as [? ?] by (unfold uint_range in *; lia).
  unfold entry_value. vok.
Qed.
Lemma secrets_value_ok l : entries_wf l -> value_ok (entries_value l).
Proof.
  intros [Hl Hf]. unfold entries_value, MAX_RESUMPTION_ENTRIES in *.
  assert (value_ok (VArray (map entry_value l))).
  { apply ok_array; [rewrite len_map; pose proof (len_nonneg l); split; lia|].
    apply Forall_fmap. eapply Forall_impl; [exact Hf|]. apply secret_value_ok. }
  assert (u64 RESUMPTION_PAYLOAD_VERSION) by done. vok.
Qed.
Lemma entry_size e : entry_wf e -> len (cbor (entry_value e)) <= 300.
Proof. intros [[H1 _] [H2 _] [H3 _] _ _ _ _]. unfold entry_value. wsize. Qed.
Lemma entries_size l : entries_wf l -> len (cbor (entries_value l)) <= 20000.
Proof.
  intros [Hl Hf]. assert (H : len (items (map entry_value l)) <= 300 * len l).
  { clear Hl. induction Hf as [|x l Hx _ IH]; [done|]. cbn [map]. rewrite items_cons, len_app, len_cons.
    pose proof (entry_size x Hx). lia. }
  unfold entries_value, MAX_RESUMPTION_ENTRIES in *. wsize.
Qed.
Lemma decode_entries_encoded l : entries_wf l -> decode_all (cbor (entries_value l)) read_entries = Ok l.
Proof.
  intros H. rewrite decode_message; [done|done|done|]. pose proof (entries_size l H). unfold MAX_CONTROL_SIZE. lia.
Qed.

(** ** Sealed records *)
Lemma from_as_u64 p : from_u64 (as_u64 p) = Ok p.
Proof. by destruct p. Qed.
Lemma from_u64_inv v p : from_u64 v = Ok p -> v = as_u64 p.
Proof. destruct v as [|[q|[q|q|]|]|q]; cbn; intros [= <-]; done. Qed.

(** A regular file only its owner can access. *)
Definition private (mode : Z) : Prop := group_or_other mode = 0.
Lemma check_private_iff mode : check_private_mode mode = Ok tt <-> private mode.
Proof. unfold check_private_mode, private. destruct (Z.eqb_spec (group_or_other mode) 0); done. Qed.
(** A temporary file the next write can take over. *)
Definition usable_tmp (e : Entry) : Prop := e = Missing \/ exists mode b, e = RegularFile mode b /\ private mode.

Section SealedLaws.
Context {P : Primitives} {L : PrimitiveLaws} {S : Type} {SS : SecretSealer S} {SL : SealerLaws S}.

(** The file of a record. *)
Definition file_of (domain : bytes) (p : Protection) (sealed : bytes) : bytes :=
  let body := cbor (record_value (RECORD_VERSION, as_u64 p, sealed)) in checksum_of domain body ++ body.
Lemma checksum_of_array domain body : array 32 (checksum_of domain body).
Proof. apply blake3_len. Qed.
Lemma file_of_size domain p sealed : 32 <= len (file_of domain p sealed) <= len sealed + 100.
Proof.
  unfold file_of. cbv zeta. rewrite len_app. destruct (checksum_of_array domain (cbor (record_value (RECORD_VERSION, as_u64 p, sealed)))) as [-> _].
  assert (H : len (cbor (record_value (RECORD_VERSION, as_u64 p, sealed))) <= len sealed + 68)
    by (unfold record_value; cbn [fst snd]; wsize).
  pose proof (len_nonneg (cbor (record_value (RECORD_VERSION, as_u64 p, sealed)))). lia.
Qed.
Lemma unseal_file domain s minimum p sealed : byte_string sealed -> len (file_of domain p sealed) <= MAX_RECORD_BYTES ->
  unseal domain s minimum (file_of domain p sealed)
    = if weaker p minimum then Err ProtectionDowngrade else open s sealed (record_aad domain p).
Proof.
  intros Hs Hl. unfold unseal. pose proof (file_of_size domain p sealed) as [H32 _].
  rewrite (proj2 (Z.ltb_ge (len _) 32)), (proj2 (Z.ltb_ge MAX_RECORD_BYTES _)) by lia. cbn [orb]. revert Hl H32.
  unfold file_of. cbv zeta. intros Hl _. set (body := cbor _) in *. pose proof (checksum_of_array domain body) as Hc.
  assert (Hn : length (checksum_of domain body) = 32%nat) by (destruct Hc as [Hc _]; unfold len in Hc; lia).
  rewrite drop_app_length', take_app_length' by done. rewrite (proj2 (ct_eq_true _ _) eq_refl). cbn [negb].
  rewrite len_app in Hl. destruct Hc as [Hc _]. subst body. rewrite (decode_message (P := record_wf)); cbn [rbind fst snd].
  - rewrite from_as_u64. done.
  - done.
  - split; [done|]. split; [by destruct p|done].
  - unfold MAX_CONTROL_SIZE, MAX_RECORD_BYTES in *. lia.
Qed.

(** [b] is the content of a record of [payload]. *)
Record seals (domain : bytes) (s : S) (payload b : bytes) : Prop := {
  sl_ok : bytes_ok b;
  sl_file : exists sealed, b = file_of domain (protection s) sealed;
  sl_opens : forall minimum, unseal domain s minimum b
    = if weaker (protection s) minimum then Err ProtectionDowngrade else Ok payload
}.
Lemma record_bytes_seals domain s draw payload : array 24 draw -> bytes_ok payload -> len payload <= MAX_RECORD_BYTES - 240 ->
  exists b, record_bytes domain s draw payload = Ok b /\ seals domain s payload b.
Proof.
  intros Hd Hb Hl.
  destruct (seal_opens s draw payload (record_aad domain (protection s)) Hd Hb ltac:(lia)) as (sealed & Hs & Hsb & Hsl & Ho).
  pose proof (file_of_size domain (protection s) sealed) as [H32 Hsz].
  assert (Hbs : byte_string sealed).
  { split; [done|]. unfold MAX_RECORD_BYTES in Hl. pose proof (len_nonneg sealed). split; lia. }
  exists (file_of domain (protection s) sealed). split.
  - unfold record_bytes. rewrite Hs. cbn [rbind]. rewrite encode_sealed_eq. cbn [rbind].
    change (checksum_of _ _ ++ _) with (file_of domain (protection s) sealed). destruct (Z.ltb_spec MAX_RECORD_BYTES (len (file_of domain (protection s) sealed))); [lia|done].
  - split; [|by eexists|].
    + apply bytes_ok_app. split; [apply checksum_of_array|]. apply cbor_bytes_ok. unfold record_value; cbn [fst snd].
      assert (u64 RECORD_VERSION) by done. assert (u64 (as_u64 (protection s))) by by destruct (protection s). vok.
    + intros minimum. rewrite unseal_file by (done || lia). by rewrite Ho.
Qed.
End SealedLaws.

(** ** Writing and reading one record *)
Section SealedClaims.
Context {P : Primitives} {L : PrimitiveLaws} {S : Type} {SS : SecretSealer S} {SL : SealerLaws S}.

(** The record became visible, and final if the directory was synced. *)
Record replaced (io : WriteIo) (b : bytes) (f f' : FileState) : Prop := {
  rp_visible : exists mode, private mode /\ visible f' = RegularFile mode b;
  rp_surviving : surviving f' = if dirsync_ok io then [visible f'] else visible f' :: surviving f
}.
(** Nothing but the temporary file changed. *)
Record untouched (f f' : FileState) : Prop := {
  un_visible : visible f' = visible f;
  un_surviving : surviving f' = surviving f
}.
Definition io_succeeds (io : WriteIo) : bool := write_ok io && sync_ok io && rename_ok io.
Lemma write_sealed_outcome io domain s draw payload b f : record_bytes domain s draw payload = Ok b -> usable_tmp (tmp f) ->
  exists f', write_sealed io domain s draw payload f = (if io_succeeds io then Ok tt else Err Io, f') /\
    usable_tmp (tmp f') /\ if io_succeeds io then replaced io b f f' else untouched f f'.
Proof.
  intros Hb Ht. assert (Hc : exists mode, private mode /\ create_private_file (tmp f) = Ok (RegularFile mode [])).
  { destruct Ht as [->|(mode & c & -> & Hm)]; [by exists 384|by exists mode]. }
  destruct Hc as (mode & Hm & Hc). unfold write_sealed, io_succeeds. rewrite Hb, Hc. cbn [with_content].
  assert (Hu : forall c, usable_tmp (RegularFile mode c)) by (intros c; right; by exists mode, c).
  destruct (write_ok io); cbn [negb andb]; [|eexists; split; [done|split; [apply Hu|done]]].
  destruct (sync_ok io); cbn [negb andb]; [|eexists; split; [done|split; [apply Hu|done]]].
  destruct (rename_ok io); cbn [negb andb]; [|eexists; split; [done|split; [apply Hu|done]]].
  eexists. split; [done|]. split; [by left|]. split; [by exists mode|done].
Qed.
Lemma read_private domain s minimum mode b f : private mode -> visible f = RegularFile mode b ->
  read_sealed true domain s minimum f = (let* payload := unseal domain s minimum b in Ok (Some payload)).
Proof. intros Hm Hv. unfold read_sealed. rewrite Hv. apply check_private_iff in Hm as ->. done. Qed.
Lemma read_sealed_record domain s minimum payload mode b f : seals domain s payload b -> private mode -> visible f = RegularFile mode b ->
  read_sealed true domain s minimum f = if weaker (protection s) minimum then Err ProtectionDowngrade else Ok (Some payload).
Proof. intros Hs Hm Hv. rewrite (read_private _ _ _ mode b) by done. rewrite (sl_opens _ _ _ _ Hs). by destruct (weaker _ _). Qed.
Lemma read_ok_or_io ro domain s minimum f :
  read_sealed ro domain s minimum f = read_sealed true domain s minimum f \/ read_sealed ro domain s minimum f = Err Io.
Proof.
  destruct ro; [by left|]. unfold read_sealed. destruct (visible f); try by left.
  destruct (check_private_mode mode); [by right|by left|by left].
Qed.

Lemma unseal_iff domain s minimum content payload : bytes_ok content ->
  unseal domain s minimum content = Ok payload <->
  exists p sealed, content = file_of domain p sealed /\ byte_string sealed /\ len content <= MAX_RECORD_BYTES /\
    weaker p minimum = false /\ open s sealed (record_aad domain p) = Ok payload.
Proof.
  intros Hok. split.
  - intros H. unfold unseal in H. destruct ((len content <? 32) || (MAX_RECORD_BYTES <? len content)) eqn:Hl; [done|].
    apply orb_false_iff in Hl as [H32%Z.ltb_ge HM%Z.ltb_ge].
    destruct (ct_eq (take 32 content) _) eqn:Hc; cbn [negb] in H; [|done]. apply ct_eq_true in Hc.
    minv H. destruct a as [[v p] sealed].
    apply (decode_message_inv (P := record_wf)) in Hp as [Hbody Hwf]; [|by apply Forall_drop].
    destruct (Z.eqb_spec v RECORD_VERSION) as [->|]; cbn [negb] in Hk; [|done]. minv Hk. apply from_u64_inv in Hp as ->.
    destruct (weaker a minimum) eqn:Hw; [done|]. exists a, sealed. split; [|by split; [apply Hwf|]].
    unfold file_of. cbv zeta. rewrite <- Hbody, <- Hc. by rewrite take_drop.
  - intros (p & sealed & -> & Hs & Hl & Hw & Ho). by rewrite unseal_file, Hw.
Qed.
Lemma record_aad_inj domain p p' : record_aad domain p = record_aad domain p' -> p = p'.
Proof.
  unfold record_aad. intros H. do 2 apply app_inv_head in H. apply be_bytes_inj in H; [|by destruct p|by destruct p'].
  destruct p, p'; done.
Qed.

(** A sealed write replaces the record or leaves it: with a lawful sealer
    and a payload that fits, the call answers [Ok] exactly when write, sync
    and rename succeed; then the file reads back, at every demanded protection
    up to the sealer's, to the payload, and a stronger demand is refused.
    Otherwise the answer is an I/O error and the record is what it was.  After
    a power loss the record is an earlier one or, whole, the new one; the new
    one for certain when the directory was synced. *)
Theorem sealed_write_atomic io domain s draw payload f :
  array 24 draw -> bytes_ok payload -> len payload <= MAX_RECORD_BYTES - 240 -> usable_tmp (tmp f) ->
  exists f', write_sealed io domain s draw payload f = (if io_succeeds io then Ok tt else Err Io, f') /\ usable_tmp (tmp f') /\
    (forall x, x ∈ surviving f' -> x ∈ surviving f \/ io_succeeds io = true /\ x = visible f') /\
    if io_succeeds io then
      (forall minimum, read_sealed true domain s minimum f'
        = if weaker (protection s) minimum then Err ProtectionDowngrade else Ok (Some payload)) /\
      (dirsync_ok io = true -> surviving f' = [visible f'])
    else visible f' = visible f.
Proof.
  intros Hd Hb Hl Ht. destruct (record_bytes_seals domain s draw payload Hd Hb Hl) as (b & Hr & Hs).
  destruct (write_sealed_outcome io domain s draw payload b f Hr Ht) as (f' & Hw & Ht' & Ho).
  exists f'. split; [exact Hw|]. split; [exact Ht'|]. destruct (io_succeeds io).
  - destruct Ho as [(mode & Hm & Hv) Hsur]. split.
    + intros x. rewrite Hsur. destruct (dirsync_ok io); rewrite ?elem_of_cons, ?elem_of_nil; tauto.
    + split; [intros minimum; by apply (read_sealed_record _ _ _ _ mode b)|]. intros Hds. by rewrite Hds in Hsur.
  - destruct Ho as [Hv Hsur]. split; [|done]. intros x. rewrite Hsur. tauto.
Qed.

(** C27: What a read accepts: a payload comes out exactly of a regular file
    that only its owner can access, whose checksum and canonical record are
    right, whose protection is no weaker than demanded, and whose sealed bytes
    open under associated data that names the domain and that protection (so a
    record whose protection was rewritten is not the sealed one). *)
Theorem sealed_read_exactly domain s minimum f payload :
  match visible f with RegularFile _ c => bytes_ok c | _ => True end ->
  read_sealed true domain s minimum f = Ok (Some payload) <->
  exists mode p sealed, visible f = RegularFile mode (file_of domain p sealed) /\ private mode /\ byte_string sealed /\
    len (file_of domain p sealed) <= MAX_RECORD_BYTES /\ as_u64 minimum <= as_u64 p /\
    open s sealed (record_aad domain p) = Ok payload /\
    forall p', record_aad domain p' = record_aad domain p -> p' = p.
Proof.
  intros Hok. assert (Hwk : forall p, weaker p minimum = false <-> as_u64 minimum <= as_u64 p) by (intros; apply Z.ltb_ge).
  split.
  - intros H. unfold read_sealed in H. destruct (visible f) as [mode c| | | |] eqn:Hv; try done.
    minv H. destruct a. apply check_private_iff in Hp. cbn [negb] in Hk. minv Hk. apply Ok_inj in Hk0 as [= <-].
    apply unseal_iff in Hp0 as (p & sealed & -> & Hs & Hl & Hw & Ho); [|done].
    exists mode, p, sealed. repeat (split; [first [done | by apply Hwk]|]). intros p'. apply record_aad_inj.
  - intros (mode & p & sealed & Hv & Hm & Hs & Hl & Hw & Ho & _). rewrite (read_private _ _ _ mode _ f Hm Hv).
    rewrite Hv in Hok. rewrite (proj2 (unseal_iff domain s minimum _ payload Hok)); [done|].
    exists p, sealed. rewrite Hwk. done.
Qed.
End SealedClaims.

(** ** Runs of a store *)
Fixpoint run_calls {C A : Type} (step : C -> FileState -> A * FileState) (calls : list C) (f : FileState) : list A * FileState :=
  match calls with
  | [] => ([], f)
  | c :: rest =>
    let '(o, f1) := step c f in
    let '(os, f2) := run_calls step rest f1 in
    (o :: os, f2)
  end.
(** A value created once: calls fail while nothing is there, one creates it,
    and every later one finds it. *)
Lemma run_once {C A} (step : C -> FileState -> A * FileState) (nothing there : FileState -> Prop) (failed made : A) (found : C -> A) pre c post f :
  Forall (fun x => forall g, nothing g -> exists g', step x g = (failed, g') /\ nothing g') pre ->
  (forall g, nothing g -> exists g', step c g = (made, g') /\ there g') ->
  (forall x g, there g -> step x g = (found x, g)) -> nothing f ->
  (run_calls step (pre ++ c :: post) f).1 = map (fun _ => failed) pre ++ made :: map found post.
Proof.
  intros Hpre Hc Hpost. revert f. induction Hpre as [|x pre Hx _ IH]; intros f Hf; cbn [app run_calls map].
  - destruct (Hc f Hf) as (g & -> & Hg).
    assert (Hrest : run_calls step post g = (map found post, g)); [|by rewrite Hrest].
    clear -Hpost Hg. induction post as [|x post IH]; [done|]. cbn [run_calls map]. by rewrite Hpost, IH.
  - destruct (Hx f Hf) as (g & -> & Hg). specialize (IH g Hg). by destruct (run_calls _ _ g); cbn in *; rewrite IH.
Qed.

(** ** The identity *)
(** One call of [load_or_create_identity]: the outcomes and draws it meets. *)
Record IdentityCall : Type := mkCall { ic_read_ok : bool; ic_io : WriteIo; ic_seed : bytes; ic_draw : bytes; ic_now : Z }.
Definition identity_call_ok (c : IdentityCall) : Prop := array 32 (ic_seed c) /\ array 24 (ic_draw c) /\ u64 (ic_now c).

Section IdentityClaims.
Context {P : Primitives} {L : PrimitiveLaws} {K : PkPrimitives} {S : Type} {SS : SecretSealer S} {SL : SealerLaws S}.

(** Successive runs of the program on one store. *)
Definition load_identities (d : DeviceStore S) : list IdentityCall -> FileState -> list (result StoreError (DeviceIdentity * bool)) * FileState :=
  run_calls (fun c => load_or_create_identity d (ic_read_ok c) (ic_io c) (ic_seed c) (ic_draw c) (ic_now c)).
(** The store's sealer meets the store's own minimum. *)
Definition consistent (d : DeviceStore S) : Prop := weaker (protection (sealer d)) (minimum_protection d) = false.

Lemma seed_size seed now : array 32 seed -> u64 now -> bytes_ok (cbor (seed_value (seed, now))) /\ len (cbor (seed_value (seed, now))) <= 100.
Proof.
  intros Hs Hn. assert (u64 IDENTITY_PAYLOAD_VERSION) by done. split.
  - apply cbor_bytes_ok. unfold seed_value; cbn [fst snd]. vok.
  - destruct Hs as [Hl _]. unfold seed_value; cbn [fst snd]. wsize.
Qed.
(** The record of the identity of [seed]. *)
Definition holds_identity (d : DeviceStore S) (seed : bytes) (f : FileState) : Prop :=
  exists now, u64 now /\
    read_sealed true IDENTITY_DOMAIN (sealer d) (minimum_protection d) f = Ok (Some (cbor (seed_value (seed, now)))).
Lemma identity_kept d ro io seed draw now f : visible f <> Missing ->
  exists r, load_or_create_identity d ro io seed draw now f = (r, f) /\ forall i, r <> Ok (i, false).
Proof.
  intros Hv. unfold load_or_create_identity.
  destruct (read_sealed ro _ _ _ f) as [[payload|]|e|] eqn:Hr; [| |by eexists|by eexists].
  - eexists. split; [done|]. intros i H. minv H. done.
  - exfalso. apply Hv. unfold read_sealed in Hr. destruct (visible f); try done.
    minv Hr. destruct ro; cbn [negb] in Hk; [|done]. minv Hk. done.
Qed.
Lemma identity_loads d ro io seed draw now seed0 f : array 32 seed0 -> holds_identity d seed0 f ->
  load_or_create_identity d ro io seed draw now f = (if ro then Ok (from_seed seed0, true) else Err Io, f).
Proof.
  intros Hs (now0 & Hn & Hr). unfold load_or_create_identity. destruct ro.
  - rewrite Hr. by rewrite decode_identity_encoded.
  - unfold read_sealed in *. destruct (visible f) as [mode c| | | |]; try done.
    destruct (check_private_mode mode); done.
Qed.
Lemma identity_creates d c f : identity_call_ok c -> consistent d -> usable_tmp (tmp f) -> visible f = Missing ->
  exists f', load_or_create_identity d (ic_read_ok c) (ic_io c) (ic_seed c) (ic_draw c) (ic_now c) f
      = (if io_succeeds (ic_io c) then Ok (from_seed (ic_seed c), false) else Err Io, f') /\
    usable_tmp (tmp f') /\ if io_succeeds (ic_io c) then holds_identity d (ic_seed c) f' else visible f' = Missing.
Proof.
  intros (Hs & Hd & Hn) Hc Ht Hv. destruct (seed_size _ _ Hs Hn) as [Hb Hl].
  destruct (record_bytes_seals IDENTITY_DOMAIN (sealer d) (ic_draw c) _ Hd Hb) as (b & Hr & Hsl); [unfold MAX_RECORD_BYTES; lia|].
  destruct (write_sealed_outcome (ic_io c) _ _ _ _ b f Hr Ht) as (f' & Hw & Ht' & Ho).
  exists f'. unfold load_or_create_identity, read_sealed. rewrite Hv, encode_identity_eq, Hw.
  split; [by destruct (io_succeeds _)|]. split; [exact Ht'|]. destruct (io_succeeds _).
  - destruct Ho as [(mode & Hm & Hvis) _]. exists (ic_now c). split; [exact Hn|].
    rewrite (read_sealed_record _ _ _ _ mode b) by done. by rewrite Hc.
  - destruct Ho as [Ho _]. by rewrite Ho.
Qed.
(** C17: A device has one identity: whatever is at the record's path, a call
    never replaces it, and it creates an identity only where nothing was.
    From an empty path, over any calls of the program: those before the first
    whose write goes through report an I/O error, that one creates the
    identity of its seed, and every later one loads that same identity or, if
    the file cannot be read, reports the error. *)
Theorem identity_created_once d f pre c post :
  consistent d -> usable_tmp (tmp f) -> visible f = Missing -> Forall identity_call_ok (pre ++ c :: post) ->
  Forall (fun c => io_succeeds (ic_io c) = false) pre -> io_succeeds (ic_io c) = true ->
  (load_identities d (pre ++ c :: post) f).1
    = map (fun _ => Err Io) pre ++ Ok (from_seed (ic_seed c), false) ::
      map (fun c' => if ic_read_ok c' then Ok (from_seed (ic_seed c), true) else Err Io) post /\
  (forall c' g, visible g <> Missing -> exists r,
    load_or_create_identity d (ic_read_ok c') (ic_io c') (ic_seed c') (ic_draw c') (ic_now c') g = (r, g) /\
    forall i, r <> Ok (i, false)).
Proof.
  intros Hc Ht Hv Hok Hpre Hio. apply Forall_app in Hok as [Hok Hok']. apply Forall_cons_1 in Hok' as [Hcall _].
  split; [|intros; by apply identity_kept]. unfold load_identities.
  rewrite (run_once _ (fun g => usable_tmp (tmp g) /\ visible g = Missing) (fun g => holds_identity d (ic_seed c) g) (Err Io)
    (Ok (from_seed (ic_seed c), false)) (fun c' => if ic_read_ok c' then Ok (from_seed (ic_seed c), true) else Err Io)); [done| | | |by split].
  - apply Forall_forall. intros x Hx g [Hgt Hgv]. rewrite Forall_forall in Hok, Hpre.
    destruct (identity_creates d x g (Hok x Hx) Hc Hgt Hgv) as (g' & Hg & Hgt' & Hv'). rewrite (Hpre x Hx) in Hg, Hv'. by exists g'.
  - intros g [Hgt Hgv]. destruct (identity_creates d c g Hcall Hc Hgt Hgv) as (g' & Hg & _ & Hh). rewrite Hio in Hg, Hh. by exists g'.
  - intros x g Hg. apply identity_loads; [apply Hcall|done].
Qed.
End IdentityClaims.

(** ** The list of secrets *)
(** The order of [sort_by_key]. *)
Definition older (a b : ResumptionEntry) : Prop := re_created_at a <= re_created_at b.
Lemma insert_entry_perm e l : insert_entry e l ≡ₚ e :: l.
Proof.
  induction l as [|x l IH]; [done|]. cbn [insert_entry]. destruct (_ <=? _); [done|]. rewrite IH. apply Permutation_swap.
Qed.
Lemma sort_entries_perm l : sort_entries l ≡ₚ l.
Proof. induction l as [|x l IH]; [done|]. cbn. by rewrite insert_entry_perm, IH. Qed.
Lemma insert_entry_sorted e l : StronglySorted older l -> StronglySorted older (insert_entry e l).
Proof.
  induction 1 as [|x l Hs IH Hx]; [by repeat constructor|]. cbn [insert_entry].
  destruct (Z.leb_spec (re_created_at e) (re_created_at x)).
  - constructor; [by constructor|]. constructor; [done|]. eapply Forall_impl; [exact Hx|]. intros y Hy. unfold older in *. cbn in *. lia.
  - constructor; [exact IH|]. rewrite insert_entry_perm. constructor; [unfold older; lia|exact Hx].
Qed.
Lemma sort_entries_sorted l : StronglySorted older (sort_entries l).
Proof. induction l as [|x l IH]; [constructor|]. by apply insert_entry_sorted. Qed.

(** The clamped entry that is stored. *)
Definition clamped (e : ResumptionEntry) : ResumptionEntry :=
  mkEntry (re_id e) (re_peer e) (re_secret e) (re_suite_id e) (re_protocol_major e) (re_created_at e)
    (Z.min (re_expires_at e) (Z.min (re_created_at e + RESUMPTION_MAX_LIFETIME_SECS) U64_MAX)).
(** What [retain] keeps when [entry] comes in. *)
Definition retained (entry : ResumptionEntry) (now : Z) (l : list ResumptionEntry) : list ResumptionEntry :=
  List.filter (fun e => negb (bytes_eqb (re_id e) (re_id entry)) && (now <? re_expires_at e)) l.
Lemma with_entry_split entry now l : exists evicted,
  evicted ++ with_entry entry now l ≡ₚ retained entry now l ++ [clamped entry] /\
  StronglySorted older (evicted ++ with_entry entry now l) /\
  (len l < MAX_RESUMPTION_ENTRIES -> evicted = []) /\ len (with_entry entry now l) <= MAX_RESUMPTION_ENTRIES.
Proof.
  unfold with_entry. fold (retained entry now l) (clamped entry).
  set (sorted := sort_entries _). set (n := Z.to_nat _). exists (take n sorted). rewrite take_drop.
  split; [apply sort_entries_perm|]. split; [apply sort_entries_sorted|].
  assert (Hl : len sorted <= len l + 1).
  { unfold len, sorted. rewrite sort_entries_perm, length_app. cbn [length].
    pose proof (filter_length_le (fun e => negb (bytes_eqb (re_id e) (re_id entry)) && (now <? re_expires_at e)) l).
    unfold retained. lia. }
  split.
  - intros Hm. assert (n = 0%nat) as -> by lia. done.
  - unfold n, len, MAX_RESUMPTION_ENTRIES in *. rewrite length_drop. lia.
Qed.
Lemma retained_in e entry now l : e ∈ retained entry now l <-> e ∈ l /\ re_id e <> re_id entry /\ now < re_expires_at e.
Proof.
  unfold retained. rewrite !list_elem_of_In, filter_In, andb_true_iff, negb_true_iff, Z.ltb_lt.
  rewrite <- not_true_iff_false, bytes_eqb_true. done.
Qed.
Lemma with_entry_in e entry now l : e ∈ with_entry entry now l -> e = clamped entry \/ e ∈ l /\ re_id e <> re_id entry /\ now < re_expires_at e.
Proof.
  intros He. destruct (with_entry_split entry now l) as (ev & Hp & _).
  assert (Hin : e ∈ ev ++ with_entry entry now l) by (apply elem_of_app; by right).
  rewrite Hp, elem_of_app, list_elem_of_singleton, retained_in in Hin. tauto.
Qed.

(** No id twice. *)
Definition distinct (l : list ResumptionEntry) : Prop := NoDup (map re_id l).
Lemma filter_sublist f (l : list ResumptionEntry) : sublist (List.filter f l) l.
Proof. induction l as [|x l IH]; cbn; [constructor|]. destruct (f x); by constructor. Qed.
Lemma distinct_sublist l k : sublist l k -> distinct k -> distinct l.
Proof. intros Hs. unfold distinct. intros Hd. eapply sublist_NoDup; [exact Hd|]. by apply (fmap_sublist re_id). Qed.
Lemma with_entry_distinct entry now l : distinct l -> distinct (with_entry entry now l).
Proof.
  intros Hd. destruct (with_entry_split entry now l) as (ev & Hp & _).
  assert (H : distinct (ev ++ with_entry entry now l)).
  { unfold distinct. rewrite Hp, map_app. cbn [map clamped re_id]. apply NoDup_app.
    split; [eapply distinct_sublist; [apply filter_sublist|exact Hd]|]. split; [|apply NoDup_singleton].
    intros i Hi Hi'. apply list_elem_of_singleton in Hi' as ->. apply list_elem_of_fmap in Hi as (e & He & Hin).
    apply retained_in in Hin. naive_solver. }
  unfold distinct in *. rewrite map_app in H. by apply NoDup_app in H as (_ & _ & H).
Qed.

Lemma remove_id_spec id l : match remove_id id l with
  | None => Forall (fun e => re_id e <> id) l
  | Some (e, rest) => re_id e = id /\ l ≡ₚ e :: rest
  end.
Proof.
  induction l as [|x l IH]; cbn [remove_id]; [constructor|].
  destruct (ct_eq (re_id x) id) eqn:Hx.
  - apply ct_eq_true in Hx. done.
  - assert (Hne : re_id x <> id) by (intros H; apply ct_eq_true in H; congruence).
    destruct (remove_id id l) as [[e rest]|]; cbn.
    + destruct IH as [He Hp]. split; [done|]. rewrite Hp. apply Permutation_swap.
    + by constructor.
Qed.
Lemma with_entry_incl entry now l : Forall (fun e => e = clamped entry \/ e ∈ l) (with_entry entry now l).
Proof. apply Forall_forall. intros e He. apply with_entry_in in He. naive_solver. Qed.

(** ** Runs of the resumption store *)
#[warnings="-register-all"]
Inductive ResumptionOp : Type :=
| StoreOp (entry : ResumptionEntry) (now : Z)
| TakeOp (id peer : bytes) (suite_id major now : Z).
Record ResumptionCall : Type := mkResumption { rc_op : ResumptionOp; rc_read_ok : bool; rc_io : WriteIo; rc_draw : bytes }.
#[warnings="-register-all"]
Inductive Outcome : Type :=
| Stored (r : result StoreError unit)
| Taken (r : result StoreError (option ResumptionEntry)).
Definition call_ok (c : ResumptionCall) : Prop :=
  array 24 (rc_draw c) /\ match rc_op c with StoreOp e _ => entry_wf e | TakeOp _ _ _ _ _ => True end.

(** The abstract store: a list of entries. *)
Definition usable_by (peer : bytes) (suite_id major now : Z) (e : ResumptionEntry) : bool :=
  negb ((re_expires_at e <=? now) || negb (ct_eq (re_peer e) peer) || negb (re_suite_id e =? suite_id)
        || negb (re_protocol_major e =? major)).
Definition spec_step (op : ResumptionOp) (l : list ResumptionEntry) : Outcome * list ResumptionEntry :=
  match op with
  | StoreOp e now => (Stored (Ok tt), with_entry e now l)
  | TakeOp id peer suite_id major now =>
    match remove_id id l with
    | None => (Taken (Ok None), l)
    | Some (e, rest) =>
      (Taken (Ok (if usable_by peer suite_id major now e then Some e else None)), List.filter (fun x => now <? re_expires_at x) rest)
    end
  end.
(** A system call failed. *)
Definition io_failed (op : ResumptionOp) : Outcome :=
  match op with StoreOp _ _ => Stored (Err Io) | TakeOp _ _ _ _ _ => Taken (Err Io) end.

(** What the store keeps: at most 64 entries of the right shape, no id twice,
    no lifetime over the ceiling. *)
Record list_wf (l : list ResumptionEntry) : Prop := {
  lw_entries : entries_wf l;
  lw_distinct : distinct l;
  lw_lifetime : Forall (fun e => re_expires_at e <= re_created_at e + RESUMPTION_MAX_LIFETIME_SECS) l
}.
Lemma clamped_wf e : entry_wf e -> entry_wf (clamped e).
Proof.
  intros [H1 H2 H3 H4 H5 H6 H7]. unfold clamped. split; cbn; try done.
  unfold uint_range, U64_MAX, RESUMPTION_MAX_LIFETIME_SECS in *. lia.
Qed.
Lemma list_wf_nil : list_wf [].
Proof. split; [split; [done|constructor]|apply NoDup_nil_2|constructor]. Qed.
Lemma list_wf_store e now l : entry_wf e -> list_wf l -> list_wf (with_entry e now l).
Proof.
  intros He [[_ Hf] Hd Ht]. pose proof (with_entry_incl e now l) as Hi. split; [split| |].
  - by destruct (with_entry_split e now l) as (_ & _ & _ & _ & ?).
  - eapply Forall_impl; [exact Hi|]. intros x [->|Hx]; [by apply clamped_wf|]. rewrite Forall_forall in Hf. auto.
  - by apply with_entry_distinct.
  - eapply Forall_impl; [exact Hi|]. intros x [->|Hx]; [|rewrite Forall_forall in Ht; auto]. cbn. lia.
Qed.
Lemma Forall_sub (Q : ResumptionEntry -> Prop) k l : sublist k l -> Forall Q l -> Forall Q k.
Proof. intros Hs. induction Hs as [|x k l Hs IH|x k l Hs IH]; intros Hf; [done| |]; apply Forall_cons_1 in Hf as [? ?]; auto. Qed.
Lemma list_wf_sublist k l : sublist k l -> list_wf l -> list_wf k.
Proof.
  intros Hs [[Hl Hf] Hd Ht]. split; [split| |].
  - apply sublist_length in Hs. unfold len in *. lia.
  - by eapply Forall_sub.
  - by eapply distinct_sublist.
  - by eapply Forall_sub.
Qed.
Lemma remove_id_sublist id l e rest : remove_id id l = Some (e, rest) -> sublist rest l.
Proof.
  revert e rest. induction l as [|x l IH]; intros e rest H; [done|]. cbn [remove_id] in H.
  destruct (ct_eq (re_id x) id); [injection H as <- <-; by constructor|].
  destruct (remove_id id l) as [[e' rest']|]; [|done]. cbn in H. injection H as <- <-. constructor. by eapply IH.
Qed.
Lemma list_wf_step op l : match op with StoreOp e _ => entry_wf e | TakeOp _ _ _ _ _ => True end ->
  list_wf l -> list_wf (spec_step op l).2.
Proof.
  destruct op as [e now|id peer su ma now]; intros He Hl; cbn [spec_step snd]; [by apply list_wf_store|].
  destruct (remove_id id l) as [[e rest]|] eqn:Hr; cbn [snd]; [|done].
  eapply list_wf_sublist; [|exact Hl]. etrans; [apply filter_sublist|by eapply remove_id_sublist].
Qed.

Section ResumptionClaims.
Context {P : Primitives} {L : PrimitiveLaws} {S : Type} {SS : SecretSealer S} {SL : SealerLaws S}.

Definition step_resumption (d : DeviceStore S) (c : ResumptionCall) (f : FileState) : Outcome * FileState :=
  match rc_op c with
  | StoreOp e now => let '(r, f') := store_resumption d (rc_read_ok c) (rc_io c) (rc_draw c) e now f in (Stored r, f')
  | TakeOp id peer suite_id major now =>
    let '(r, f') := take_resumption d (rc_read_ok c) (rc_io c) (rc_draw c) id peer suite_id major now f in (Taken r, f')
  end.
Definition run_resumption (d : DeviceStore S) : list ResumptionCall -> FileState -> list Outcome * FileState :=
  run_calls (step_resumption d).

(** The file holds the list. *)
Record holds (d : DeviceStore S) (f : FileState) (l : list ResumptionEntry) : Prop := {
  hd_tmp : usable_tmp (tmp f);
  hd_load : load_resumption_entries d true f = Ok l;
  hd_wf : list_wf l
}.
Lemma holds_nothing d f : usable_tmp (tmp f) -> visible f = Missing -> holds d f [].
Proof.
  intros Ht Hv. split; [exact Ht| |exact list_wf_nil]. unfold load_resumption_entries, read_sealed. by rewrite Hv.
Qed.
Lemma load_holds d ro f l : holds d f l ->
  load_resumption_entries d ro f = Ok l \/ load_resumption_entries d ro f = Err Io /\ ro = false.
Proof.
  intros [_ Hl _]. destruct ro; [by left|]. unfold load_resumption_entries in *.
  destruct (read_ok_or_io false RESUMPTION_DOMAIN (sealer d) (minimum_protection d) f) as [-> | ->]; [by left|by right].
Qed.
Lemma write_holds d io draw l l' f : consistent d -> array 24 draw -> list_wf l' -> holds d f l ->
  exists f', write_resumption_entries d io draw l' f = (if io_succeeds io then Ok tt else Err Io, f') /\
    holds d f' (if io_succeeds io then l' else l) /\
    (io_succeeds io = true -> dirsync_ok io = true -> surviving f' = [visible f']).
Proof.
  intros Hc Hd Hw [Ht Hl Hwl]. pose proof (entries_size _ (lw_entries _ Hw)) as Hs.
  destruct (record_bytes_seals RESUMPTION_DOMAIN (sealer d) draw (cbor (entries_value l')) Hd) as (b & Hr & Hsl).
  { apply cbor_bytes_ok, secrets_value_ok, Hw. }
  { unfold MAX_RECORD_BYTES. lia. }
  destruct (write_sealed_outcome io _ _ _ _ b f Hr Ht) as (f' & Hwr & Ht' & Ho).
  exists f'. unfold write_resumption_entries. rewrite encode_entries_eq. split; [exact Hwr|]. destruct (io_succeeds io).
  - destruct Ho as [(mode & Hm & Hv) Hsur]. split.
    + split; [exact Ht'| |exact Hw]. unfold load_resumption_entries.
      rewrite (read_sealed_record _ _ _ _ mode b) by done. rewrite Hc. cbn [rbind]. apply decode_entries_encoded, Hw.
    + intros _ Hds. by rewrite Hsur, Hds.
  - destruct Ho as [Hv _]. split; [|done]. split; [exact Ht'| |exact Hwl].
    rewrite <- Hl. unfold load_resumption_entries, read_sealed. by rewrite Hv.
Qed.

Lemma step_refines d c f l : consistent d -> call_ok c -> holds d f l ->
  exists f', (step_resumption d c f = ((spec_step (rc_op c) l).1, f') /\ holds d f' (spec_step (rc_op c) l).2 /\
               (dirsync_ok (rc_io c) = true -> f' = f \/ surviving f' = [visible f'])) \/
    (step_resumption d c f = (io_failed (rc_op c), f') /\ holds d f' l /\ rc_read_ok c && io_succeeds (rc_io c) = false).
Proof.
  intros Hc [Hd He] Hh. pose proof (list_wf_step (rc_op c) l He (hd_wf _ _ _ Hh)) as Hw.
  pose proof (load_holds d (rc_read_ok c) f l Hh) as Hld. unfold step_resumption.
  destruct (rc_op c) as [e now|id peer su ma now]; cbn [spec_step fst snd io_failed] in *.
  - unfold store_resumption. destruct Hld as [-> | [-> ->]]; [|exists f; by right].
    destruct (write_holds d (rc_io c) (rc_draw c) l _ f Hc Hd Hw Hh) as (f' & -> & Hh' & Hsur).
    exists f'. destruct (io_succeeds (rc_io c)); [left|right; by rewrite andb_false_r]. split; [done|]. split; [done|]. auto.
  - unfold take_resumption. destruct Hld as [-> | [-> ->]]; [|exists f; by right].
    destruct (remove_id id l) as [[e rest]|]; cbn [fst snd] in *; [|exists f; left; split; [done|]; split; [done|]; by left].
    destruct (write_holds d (rc_io c) (rc_draw c) l _ f Hc Hd Hw Hh) as (f' & -> & Hh' & Hsur).
    exists f'. destruct (io_succeeds (rc_io c)); [left|right; by rewrite andb_false_r]. split; [|split; [done|]; auto].
    unfold usable_by. by destruct ((_ <=? _) || _ || _ || _).
Qed.

(** The same run on the list; the flag of a call says whether it took effect. *)
Fixpoint spec_run (ops : list (ResumptionOp * bool)) (l : list ResumptionEntry) : list Outcome * list ResumptionEntry :=
  match ops with
  | [] => ([], l)
  | (op, false) :: rest => let '(os, l') := spec_run rest l in (io_failed op :: os, l')
  | (op, true) :: rest =>
    let '(o, l1) := spec_step op l in
    let '(os, l2) := spec_run rest l1 in
    (o :: os, l2)
  end.

Lemma run_refines d calls f l : consistent d -> Forall call_ok calls -> holds d f l ->
  exists oks, length oks = length calls /\
    (run_resumption d calls f).1 = (spec_run (zip (map rc_op calls) oks) l).1 /\
    holds d (run_resumption d calls f).2 (spec_run (zip (map rc_op calls) oks) l).2 /\
    Forall2 (fun c (ok : bool) => rc_read_ok c && io_succeeds (rc_io c) = true -> ok = true) calls oks.
Proof.
  intros Hc Hok. revert f l. induction Hok as [|c calls Hcall _ IH]; intros f l Hh; [by exists []|].
  assert (Hstep : exists ok f1 o l1, step_resumption d c f = (o, f1) /\ holds d f1 l1 /\
    (rc_read_ok c && io_succeeds (rc_io c) = true -> ok = true) /\
    (o, l1) = if ok then spec_step (rc_op c) l else (io_failed (rc_op c), l)).
  { destruct (step_refines d c f l Hc Hcall Hh) as (f1 & [(Hs & Hh1 & _)|(Hs & Hh1 & Hio)]).
    - exists true, f1, (spec_step (rc_op c) l).1, (spec_step (rc_op c) l).2. by rewrite <- surjective_pairing.
    - exists false, f1, (io_failed (rc_op c)), l. split; [done|]. split; [done|]. split; [congruence|done]. }
  destruct Hstep as (ok & f1 & o & l1 & Hs & Hh1 & Hio & Heq).
  destruct (IH f1 l1 Hh1) as (oks & Hlen & Ho & Hh' & Hf). exists (ok :: oks).
  unfold run_resumption in *; cbn [run_calls map zip zip_with length]. rewrite Hs.
  destruct (run_calls (step_resumption d) calls f1) as [os f2]. cbn [fst snd] in *.
  split; [by rewrite Hlen|].
  assert (Hrun : spec_run ((rc_op c, ok) :: zip (map rc_op calls) oks) l
    = (o :: (spec_run (zip (map rc_op calls) oks) l1).1, (spec_run (zip (map rc_op calls) oks) l1).2)).
  { cbn [spec_run]. destruct ok.
    - rewrite <- Heq. by destruct (spec_run (zip (map rc_op calls) oks) l1).
    - injection Heq as -> ->. by destruct (spec_run (zip (map rc_op calls) oks) l). }
  cbn [zip] in Hrun. rewrite Hrun. cbn [fst snd]. rewrite Ho. split; [done|]. split; [done|]. by constructor.
Qed.

(** An id that is not in the list. *)
Definition absent (id : bytes) (l : list ResumptionEntry) : Prop := Forall (fun e => re_id e <> id) l.
Definition stores (id : bytes) (c : ResumptionCall) : Prop := match rc_op c with StoreOp e _ => re_id e = id | TakeOp _ _ _ _ _ => False end.
Lemma absent_step id op l : match op with StoreOp e _ => re_id e <> id | TakeOp _ _ _ _ _ => True end ->
  absent id l -> absent id (spec_step op l).2.
Proof.
  destruct op as [e now|i p su ma now]; intros He Ha; cbn [spec_step snd].
  - eapply Forall_impl; [apply with_entry_incl|]. intros x [->|Hx]; [exact He|]. unfold absent in Ha. rewrite Forall_forall in Ha. auto.
  - destruct (remove_id i l) as [[e rest]|] eqn:Hr; cbn [snd]; [|done].
    eapply Forall_sub; [|exact Ha]. etrans; [apply filter_sublist|by eapply remove_id_sublist].
Qed.
Lemma absent_run d calls f l id : consistent d -> Forall call_ok calls -> Forall (fun c => ~ stores id c) calls ->
  holds d f l -> absent id l -> exists l', holds d (run_resumption d calls f).2 l' /\ absent id l'.
Proof.
  intros Hc Hok Hns. revert f l. induction Hok as [|c calls Hcall _ IH]; intros f l Hh Ha; [by exists l|].
  apply Forall_cons_1 in Hns as [Hn Hns]. unfold run_resumption in *; cbn [run_calls].
  assert (exists o f1 l1, step_resumption d c f = (o, f1) /\ holds d f1 l1 /\ absent id l1) as (o & f1 & l1 & -> & Hh1 & Ha1).
  { destruct (step_refines d c f l Hc Hcall Hh) as (f1 & [(Hs & Hh1 & _)|(Hs & Hh1 & _)]).
    - eexists _, f1, _. split; [exact Hs|]. split; [exact Hh1|]. apply absent_step; [|done].
      unfold stores in Hn. by destruct (rc_op c).
    - by eexists _, f1, l. }
  destruct (IH Hns f1 l1 Hh1 Ha1) as (l' & Hh' & Ha'). destruct (run_calls (step_resumption d) calls f1). by exists l'.
Qed.
(** Every entry held was stored. *)
Definition stored_by (calls : list ResumptionCall) (e : ResumptionEntry) : Prop :=
  exists e0 now, StoreOp e0 now ∈ map rc_op calls /\ e = clamped e0.
Lemma spec_step_incl op l : Forall (fun e => e ∈ l \/ exists e0 now, op = StoreOp e0 now /\ e = clamped e0) (spec_step op l).2.
Proof.
  destruct op as [e now|i p su ma now]; cbn [spec_step snd].
  - eapply Forall_impl; [apply with_entry_incl|]. intros x [->|Hx]; [right; by exists e, now|by left].
  - apply Forall_forall. intros x Hx. left. destruct (remove_id i l) as [[e rest]|] eqn:Hr; cbn [snd] in Hx; [|done].
    eapply elem_of_sublist; [exact Hx|]. etrans; [apply filter_sublist|by eapply remove_id_sublist].
Qed.
Lemma run_holds d calls f l prev : consistent d -> Forall call_ok calls -> holds d f l -> Forall (stored_by prev) l ->
  exists l', holds d (run_resumption d calls f).2 l' /\ Forall (stored_by (prev ++ calls)) l'.
Proof.
  intros Hc Hok. revert f l prev. induction Hok as [|c calls Hcall _ IH]; intros f l prev Hh Hst.
  { exists l. by rewrite app_nil_r. }
  unfold run_resumption in *; cbn [run_calls].
  assert (exists o f1 l1, step_resumption d c f = (o, f1) /\ holds d f1 l1 /\ Forall (stored_by (prev ++ [c])) l1) as (o & f1 & l1 & -> & Hh1 & Hs1).
  { assert (Hmono : Forall (stored_by (prev ++ [c])) l).
    { eapply Forall_impl; [exact Hst|]. intros e (e0 & now & Hin & ->). exists e0, now. rewrite map_app, elem_of_app. auto. }
    destruct (step_refines d c f l Hc Hcall Hh) as (f1 & [(Hs & Hh1 & _)|(Hs & Hh1 & _)]); [|by eexists _, f1, l].
    eexists _, f1, _. split; [exact Hs|]. split; [exact Hh1|]. eapply Forall_impl; [apply spec_step_incl|].
    intros e [Hin|(e0 & now & Hop & ->)]; [rewrite Forall_forall in Hmono; auto|].
    exists e0, now. split; [|reflexivity]. rewrite map_app, elem_of_app, <- Hop. right. by apply list_elem_of_singleton. }
  destruct (IH f1 l1 (prev ++ [c]) Hh1 Hs1) as (l' & Hh' & Hs'). rewrite <- app_assoc in Hs'.
  destruct (run_calls (step_resumption d) calls f1). by exists l'.
Qed.
Lemma take_inv d c f l id peer su ma now e f' : consistent d -> call_ok c -> holds d f l ->
  rc_op c = TakeOp id peer su ma now -> step_resumption d c f = (Taken (Ok (Some e)), f') ->
  e ∈ l /\ re_id e = id /\ usable_by peer su ma now e = true /\
  (exists l', holds d f' l' /\ absent id l') /\ (dirsync_ok (rc_io c) = true -> surviving f' = [visible f']).
Proof.
  intros Hc Hok Hh Hop Hs. destruct (step_refines d c f l Hc Hok Hh) as (f1 & [(H1 & Hh1 & Hsur)|(H1 & _)]).
  2: { rewrite Hop in H1. cbn [io_failed] in H1. congruence. }
  rewrite Hop in *. cbn [spec_step] in *. pose proof (remove_id_spec id l) as Hr.
  destruct (remove_id id l) as [[x rest]|] eqn:Hrm; cbn [fst snd] in *; [|congruence].
  rewrite H1 in Hs. destruct (usable_by peer su ma now x) eqn:Hu; [|congruence]. injection Hs as -> ->.
  destruct Hr as [Hid Hp]. split; [rewrite Hp; by left|]. split; [done|]. split; [done|].
  assert (Ha : absent id (List.filter (fun y => now <? re_expires_at y) rest)).
  { eapply Forall_sub; [apply filter_sublist|].
  pose proof (lw_distinct _ (hd_wf _ _ _ Hh)) as Hd. unfold distinct in Hd. rewrite Hp in Hd. cbn [map] in Hd.
  apply NoDup_cons in Hd as [Hni _]. apply Forall_forall. intros y Hy Heq. apply Hni.
  apply list_elem_of_fmap. exists y. split; [congruence|done]. }
  split; [by eexists|]. intros Hds. destruct (Hsur Hds) as [-> | ?]; [|done]. exfalso.
  pose proof (hd_load _ _ _ Hh) as He1. rewrite (hd_load _ _ _ Hh1) in He1. injection He1 as He1.
  rewrite He1 in Ha. unfold absent in Ha. rewrite Forall_forall in Ha. apply (Ha e); [rewrite Hp; by left|done].
Qed.
Lemma usable_by_iff peer su ma now e : usable_by peer su ma now e = true <->
  now < re_expires_at e /\ re_peer e = peer /\ re_suite_id e = su /\ re_protocol_major e = ma.
Proof.
  unfold usable_by. rewrite negb_true_iff, !orb_false_iff, !negb_false_iff, Z.leb_gt, !Z.eqb_eq, ct_eq_true. tauto.
Qed.

(** C16: The resumption file implements a list of entries: whatever the outcomes
    of the system calls, a run on the file answers as the same operations on
    the list, in which an operation whose reading, writing, syncing or
    renaming failed answers an I/O error and changes nothing (one whose calls
    all succeed always takes effect); and the list always fits in the file
    format, has at most 64 entries, no id twice and no lifetime over the
    ceiling of 24 hours. *)
Theorem resumption_refines d calls f l : consistent d -> Forall call_ok calls -> holds d f l ->
  exists oks, length oks = length calls /\
    (run_resumption d calls f).1 = (spec_run (zip (map rc_op calls) oks) l).1 /\
    load_resumption_entries d true (run_resumption d calls f).2 = Ok (spec_run (zip (map rc_op calls) oks) l).2 /\
    list_wf (spec_run (zip (map rc_op calls) oks) l).2 /\
    Forall2 (fun c (ok : bool) => rc_read_ok c && io_succeeds (rc_io c) = true -> ok = true) calls oks.
Proof.
  intros Hc Hok Hh. destruct (run_refines d calls f l Hc Hok Hh) as (oks & Hl & Ho & [_ Hld Hw] & Hf).
  by exists oks.
Qed.

(** C15: A resumption secret is used at most once, and only as it was stored:
    from an empty store, an entry that a call takes was stored by an earlier
    call, is bound to the id, peer, suite and protocol asked for, is unexpired
    and lives at most 24 hours from its creation; a later take of that id gives
    no secret as long as no call has stored the id anew.  If the directory was
    synced, no earlier version of the file survives a power loss. *)
Theorem resumption_single_use d f pre c mid c' id peer suite_id major now peer' suite_id' major' now' e f1 f2 o f3 :
  consistent d -> usable_tmp (tmp f) -> visible f = Missing ->
  Forall call_ok (pre ++ c :: mid ++ [c']) -> Forall (fun x => ~ stores id x) mid ->
  rc_op c = TakeOp id peer suite_id major now -> rc_op c' = TakeOp id peer' suite_id' major' now' ->
  (run_resumption d pre f).2 = f1 ->
  step_resumption d c f1 = (Taken (Ok (Some e)), f2) ->
  step_resumption d c' (run_resumption d mid f2).2 = (o, f3) ->
  stored_by pre e /\ re_id e = id /\ re_peer e = peer /\ re_suite_id e = suite_id /\ re_protocol_major e = major /\
  now < re_expires_at e <= re_created_at e + RESUMPTION_MAX_LIFETIME_SECS /\
  (o = Taken (Ok None) \/ o = Taken (Err Io)) /\
  (dirsync_ok (rc_io c) = true -> surviving f2 = [visible f2]).
Proof.
  intros Hc Ht Hv Hok Hmid Hop Hop' Hf1 Hs Hs'. subst f1.
  apply Forall_app in Hok as [Hpre Hok]. apply Forall_cons_1 in Hok as [Hcall Hok].
  apply Forall_app in Hok as [Hmok Hok]. apply Forall_cons_1 in Hok as [Hcall' _].
  destruct (run_holds d pre f [] [] Hc Hpre (holds_nothing d f Ht Hv)) as (l1 & Hh1 & Hst); [constructor|].
  destruct (take_inv d c _ l1 _ _ _ _ _ e f2 Hc Hcall Hh1 Hop Hs) as (Hin & Hid & Hu & (l2 & Hh2 & Ha2) & Hsur).
  destruct (absent_run d mid f2 l2 id Hc Hmok Hmid Hh2 Ha2) as (l3 & Hh3 & Ha3).
  apply usable_by_iff in Hu as (Hex & Hp & Hsu & Hma).
  pose proof (lw_lifetime _ (hd_wf _ _ _ Hh1)) as Hlt. rewrite Forall_forall in Hlt, Hst.
  split; [by apply (Hst e)|]. repeat (split; [first [done | by auto]|]). split; [|exact Hsur].
  destruct (step_refines d c' _ l3 Hc Hcall' Hh3) as (f4 & [(H4 & _)|(H4 & _)]); rewrite Hop' in H4; cbn [spec_step io_failed] in H4.
  - pose proof (remove_id_spec id l3) as Hr. destruct (remove_id id l3) as [[x rest]|]; cbn [fst] in H4; [|left; congruence].
    exfalso. destruct Hr as [Hx Hperm]. unfold absent in Ha3. rewrite Forall_forall in Ha3. apply (Ha3 x); [|done]. rewrite Hperm. by left.
  - right. congruence.
Qed.
End ResumptionClaims.

(** ** Eviction *)
Lemma sorted_app_older a b : StronglySorted older (a ++ b) -> forall x y, x ∈ a -> y ∈ b -> older x y.
Proof.
  induction a as [|z a IH]; intros Hs x y Hx Hy; [by apply elem_of_nil in Hx|].
  cbn [app] in Hs. apply StronglySorted_inv in Hs as [Hs Hz]. apply elem_of_cons in Hx as [->|Hx]; [|by apply IH].
  rewrite Forall_forall in Hz. apply Hz, elem_of_app. by right.
Qed.
Lemma insert_entry_last e k s : older e s -> insert_entry e (k ++ [s]) = insert_entry e k ++ [s].
Proof.
  intros He. induction k as [|x k IH]; cbn [app insert_entry].
  - unfold older in He. by rewrite (proj2 (Z.leb_le _ _) He).
  - destruct (_ <=? _); [done|]. by rewrite IH.
Qed.
Lemma sort_entries_last k s : Forall (fun e => older e s) k -> sort_entries (k ++ [s]) = sort_entries k ++ [s].
Proof.
  induction 1 as [|x k Hx _ IH]; [done|]. cbn [app]. change (insert_entry x (sort_entries (k ++ [s])) = insert_entry x (sort_entries k) ++ [s]).
  rewrite IH. by apply insert_entry_last.
Qed.
(** Eviction is oldest first: an unexpired entry or the new one is missing
    from the list only if the list is full of entries created no earlier, and
    the new entry, when nothing held is newer, is always there. *)
Theorem eviction_oldest_first entry now l :
  (forall e, (e ∈ l /\ re_id e <> re_id entry /\ now < re_expires_at e) \/ e = clamped entry -> e ∉ with_entry entry now l ->
     len (with_entry entry now l) = MAX_RESUMPTION_ENTRIES /\ Forall (older e) (with_entry entry now l)) /\
  (Forall (fun e => re_created_at e <= re_created_at entry) l -> clamped entry ∈ with_entry entry now l).
Proof.
  split.
  - intros e He Hni. unfold with_entry in *. fold (retained entry now l) (clamped entry) in *.
    set (sorted := sort_entries _) in *. set (n := Z.to_nat _) in *.
    assert (Hin : e ∈ sorted).
    { unfold sorted. rewrite sort_entries_perm, elem_of_app, list_elem_of_singleton, retained_in. exact He. }
    rewrite <- (take_drop n sorted), elem_of_app in Hin. destruct Hin as [Hin|]; [|done]. split.
    + assert (0 < n)%nat by (destruct n; [by apply elem_of_nil in Hin|lia]).
      unfold n, len, MAX_RESUMPTION_ENTRIES in *. rewrite length_drop. lia.
    + apply Forall_forall. intros y Hy. apply (sorted_app_older (take n sorted) (drop n sorted)); [|done|done].
      rewrite take_drop. apply sort_entries_sorted.
  - intros Hall. unfold with_entry. fold (retained entry now l) (clamped entry).
    rewrite sort_entries_last; [|apply Forall_forall; intros x Hx; apply retained_in in Hx as [Hx _]; rewrite Forall_forall in Hall; exact (Hall x Hx)].
    set (k := sort_entries _). rewrite drop_app_le.
    + apply elem_of_app. right. by apply list_elem_of_singleton.
    + unfold len, MAX_RESUMPTION_ENTRIES. rewrite length_app. cbn [length]. lia.
Qed.

(** ** A store *)
Module StoreWitness.
Import Toy ToyPk.
Lemma array_replicate n x : u8 x -> array (Z.of_nat n) (replicate n x).
Proof. intros Hx. split; [unfold len; by rewrite length_replicate|by apply Forall_replicate]. Qed.
Definition sealer1 : AeadSealer := mkAead (replicate 32 7) PlatformKeystore eq_refl.
Definition store1 : DeviceStore AeadSealer := with_sealer default_store sealer1 PlatformKeystore.
Definition empty : FileState := mkFile Missing Missing [Missing].
Definition all_ok : WriteIo := mkWriteIo true true true true.
Definition no_rename : WriteIo := mkWriteIo true true false true.
Definition no_dirsync : WriteIo := mkWriteIo true true true false.
Definition draw1 : bytes := replicate 24 5.
Lemma draw1_ok : array 24 draw1.
Proof. by apply (array_replicate 24). Qed.

Lemma sealed_write_atomic_witness :
  (write_sealed all_ok RESUMPTION_DOMAIN sealer1 draw1 [1; 2; 3] empty).1 = Ok tt /\
  visible (write_sealed no_rename RESUMPTION_DOMAIN sealer1 draw1 [1; 2; 3] empty).2 = Missing.
Proof.
  assert (Hb : bytes_ok [1; 2; 3]) by (apply bytes_ok_check; reflexivity).
  destruct (sealed_write_atomic all_ok RESUMPTION_DOMAIN sealer1 draw1 [1; 2; 3] empty draw1_ok Hb ltac:(by vm_compute) (or_introl eq_refl))
    as (f' & -> & _).
  destruct (sealed_write_atomic no_rename RESUMPTION_DOMAIN sealer1 draw1 [1; 2; 3] empty draw1_ok Hb ltac:(by vm_compute) (or_introl eq_refl))
    as (f2 & -> & _ & _ & Hv).
  split; [reflexivity|exact Hv].
Defined.
Definition written1 : FileState := (write_sealed all_ok RESUMPTION_DOMAIN sealer1 draw1 [1; 2; 3] empty).2.
Lemma sealed_read_exactly_witness : exists mode p sealed, visible written1 = RegularFile mode (file_of RESUMPTION_DOMAIN p sealed) /\
  private mode /\ as_u64 PlatformKeystore <= as_u64 p.
Proof.
  assert (Hb : match visible written1 with RegularFile _ c => bytes_ok c | _ => True end).
  { apply bytes_ok_check. vm_compute. reflexivity. }
  destruct (proj1 (sealed_read_exactly RESUMPTION_DOMAIN sealer1 PlatformKeystore written1 [1; 2; 3] Hb)) as (mode & p & sealed & H1 & H2 & _ & _ & H3 & _).
  - vm_compute. reflexivity.
  - exists mode, p, sealed. split; [exact H1|]. split; [exact H2|exact H3].
Defined.
(** A record written in plaintext is refused by a store that asks for more;
    a record with another protection claimed, and the checksum redone, does not open. *)
Definition claimed : FileState :=
  mkFile (RegularFile 384 (match aead_seal sealer1 draw1 [1; 2; 3] (record_aad RESUMPTION_DOMAIN PlatformKeystore) with
    | Ok sealed => file_of RESUMPTION_DOMAIN HardwareKeystore sealed | _ => [] end)) Missing [].
Example downgrades :
  read_sealed true RESUMPTION_DOMAIN sealer1 PlatformKeystore (write_sealed all_ok RESUMPTION_DOMAIN plaintext_sealer draw1 [1; 2; 3] empty).2
    = Err ProtectionDowngrade /\
  read_sealed true RESUMPTION_DOMAIN sealer1 PlatformKeystore claimed = Err Seal /\
  read_sealed true IDENTITY_DOMAIN sealer1 PlatformKeystore written1 = Err Corrupt.
Proof. vm_compute. repeat split. Qed.

Definition call1 (io : WriteIo) (x : Z) : IdentityCall := mkCall true io (replicate 32 x) draw1 1000.
Lemma call1_ok io x : u8 x -> identity_call_ok (call1 io x).
Proof. intros Hx. split; [by apply (array_replicate 32)|]. split; [exact draw1_ok|done]. Qed.
Lemma identity_created_once_witness :
  (load_identities store1 [call1 no_rename 1; call1 all_ok 2; call1 all_ok 3] empty).1
    = [Err Io; Ok (from_seed (replicate 32 2), false); Ok (from_seed (replicate 32 2), true)].
Proof.
  apply (identity_created_once store1 empty [call1 no_rename 1] (call1 all_ok 2) [call1 all_ok 3]).
  - reflexivity.
  - by left.
  - reflexivity.
  - cbn [app]. constructor; [by apply call1_ok|]. constructor; [by apply call1_ok|]. constructor; [by apply call1_ok|constructor].
  - by repeat constructor.
  - reflexivity.
Defined.

Definition entry1 (i : Z) : ResumptionEntry :=
  mkEntry (replicate 16 i) (replicate 32 9) (replicate 48 (100 + i)) 1 2 1000 900000.
Lemma entry1_ok i : 0 <= i < 100 -> entry_wf (entry1 i).
Proof.
  intros Hi. split; cbn [entry1 re_id re_peer re_secret re_suite_id re_protocol_major re_created_at re_expires_at]; try by split.
  - apply (array_replicate 16). unfold uint_range; lia.
  - by apply (array_replicate 32).
  - apply (array_replicate 48). unfold uint_range; lia.
Qed.
Definition do_store (i : Z) : ResumptionCall := mkResumption (StoreOp (entry1 i) 1000) true all_ok draw1.
Definition do_take (io : WriteIo) (i : Z) : ResumptionCall := mkResumption (TakeOp (replicate 16 i) (replicate 32 9) 1 2 1001) true io draw1.
Lemma do_store_ok i : 0 <= i < 100 -> call_ok (do_store i).
Proof. intros Hi. split; [exact draw1_ok|by apply entry1_ok]. Qed.
Lemma do_take_ok io i : call_ok (do_take io i).
Proof. by split; [exact draw1_ok|]. Qed.
Lemma calls_ok : Forall call_ok ([do_store 1; do_store 2] ++ do_take all_ok 1 :: [do_store 3] ++ [do_take all_ok 1]).
Proof.
  cbn [app]. constructor; [by apply do_store_ok|]. constructor; [by apply do_store_ok|].
  constructor; [apply do_take_ok|]. constructor; [by apply do_store_ok|]. constructor; [apply do_take_ok|constructor].
Qed.
Lemma resumption_refines_witness : exists oks, length oks = 2%nat /\
  (run_resumption store1 [do_store 1; do_take no_rename 1] empty).1
    = (spec_run (zip [StoreOp (entry1 1) 1000; TakeOp (replicate 16 1) (replicate 32 9) 1 2 1001] oks) []).1.
Proof.
  destruct (resumption_refines store1 [do_store 1; do_take no_rename 1] empty []) as (oks & H1 & H2 & _).
  - reflexivity.
  - constructor; [by apply do_store_ok|]. constructor; [apply do_take_ok|constructor].
  - by apply holds_nothing; [left|].
  - exists oks. split; [exact H1|exact H2].
Defined.
Definition before : FileState := (run_resumption store1 [do_store 1; do_store 2] empty).2.
Definition after : FileState := (step_resumption store1 (do_take all_ok 1) before).2.
Lemma resumption_single_use_witness :
  re_expires_at (clamped (entry1 1)) <= 1000 + RESUMPTION_MAX_LIFETIME_SECS /\
  ((step_resumption store1 (do_take all_ok 1) (run_resumption store1 [do_store 3] after).2).1 = Taken (Ok None) \/
   (step_resumption store1 (do_take all_ok 1) (run_resumption store1 [do_store 3] after).2).1 = Taken (Err Io)).
Proof.
  destruct (resumption_single_use store1 empty [do_store 1; do_store 2] (do_take all_ok 1) [do_store 3] (do_take all_ok 1)
    (replicate 16 1) (replicate 32 9) 1 2 1001 (replicate 32 9) 1 2 1001 (clamped (entry1 1)) before after
    (step_resumption store1 (do_take all_ok 1) (run_resumption store1 [do_store 3] after).2).1
    (step_resumption store1 (do_take all_ok 1) (run_resumption store1 [do_store 3] after).2).2)
    as (_ & _ & _ & _ & _ & [_ Hl] & Ho & _).
  - reflexivity.
  - by left.
  - reflexivity.
  - exact calls_ok.
  - constructor; [intros H; vm_compute in H; discriminate|constructor].
  - reflexivity.
  - reflexivity.
  - reflexivity.
  - vm_compute. reflexivity.
  - apply surjective_pairing.
  - split; [exact Hl|exact Ho].
Defined.
(** Without the sync of the directory the secret is still in a version of the
    file that a power loss may bring back, and is then given out again. *)
Example secret_reused_after_crash :
  let f := (step_resumption store1 (do_take no_dirsync 1) before).2 in
  (step_resumption store1 (do_take no_dirsync 1) before).1 = Taken (Ok (Some (clamped (entry1 1)))) /\
  exists old, surviving f = [visible f; old] /\
    (step_resumption store1 (do_take all_ok 1) (mkFile old (tmp f) [old])).1 = Taken (Ok (Some (clamped (entry1 1)))).
Proof. cbv zeta. split; [vm_compute; reflexivity|]. exists (visible before). split; vm_compute; reflexivity. Qed.
(** A temporary file left with a wide mode is taken over with that mode: the
    write succeeds, and the record it leaves is refused from then on. *)
Example wide_tmp_locks_out :
  let f := mkFile Missing (RegularFile 420 []) [Missing] in
  (write_sealed all_ok RESUMPTION_DOMAIN sealer1 draw1 [1; 2; 3] f).1 = Ok tt /\
  read_sealed true RESUMPTION_DOMAIN sealer1 PlatformKeystore (write_sealed all_ok RESUMPTION_DOMAIN sealer1 draw1 [1; 2; 3] f).2 = Err UnsafePath.
Proof. vm_compute. repeat split. Qed.
(** 64 later entries evict an unexpired secret. *)
Definition flood : list ResumptionEntry :=
  fold_left (fun l i => with_entry (mkEntry (replicate 16 i) (replicate 32 9) (replicate 48 i) 1 2 1001 900000) 1001 l)
    (map Z.of_nat (List.seq 100 64)) (with_entry (entry1 1) 1000 []).
Example flood_evicts : len flood = 64 /\ remove_id (replicate 16 1) flood = None /\ remove_id (replicate 16 100) flood <> None.
Proof. vm_compute. repeat split. discriminate. Qed.
Lemma eviction_oldest_first_witness : clamped (entry1 2) ∈ with_entry (entry1 2) 1000 [clamped (entry1 1)].
Proof.
  apply (eviction_oldest_first (entry1 2) 1000 [clamped (entry1 1)]). constructor; [by vm_compute|constructor].
Defined.
End StoreWitness.
