(* ===== verification/Keystore.v ===== *)
(** * The platform keystore (keystore.rs)

    The wrapping key of a keychain item, and the vault key that a hardware
    root wraps in a file.  The Security framework is a class: what its calls
    return, and the documented effect of each on the keychain.  Labels, draws
    and the outcomes of file operations are arguments.  [Keychain] has the
    same calls down to their CoreFoundation objects. *)

From stdpp Require Import gmap.
From S2P Require Import Prelude Cbor Wire Crypto Identity Store.
#[local] Open Scope Z_scope.

(** keystore.rs 27-27 [WRAPPING_KEY_LEN] *)
Definition WRAPPING_KEY_LEN : Z := 32.
(** keystore.rs 31-31 [DEFAULT_SERVICE] *)
Definition DEFAULT_SERVICE : bytes := lit "com.reyta.rtp2".
(** keystore.rs 32-32 [DEFAULT_ACCOUNT] *)
Definition DEFAULT_ACCOUNT : bytes := lit "device-identity".
(** keystore.rs 36-36 [MAX_LABEL_BYTES] *)
Definition MAX_LABEL_BYTES : Z := 256.

(** [op] names the platform call and is text only.
    keystore.rs 39-49 [KeystoreError] *)
Inductive KeystoreError : Type :=
| Unavailable
| Platform (status : Z)
| MalformedKey
| InvalidLabel.

(** keystore.rs 64-69 [check_label] *)
Definition check_label (label : bytes) : result KeystoreError unit :=
  if (len label =? 0) || (MAX_LABEL_BYTES <? len label) then Err InvalidLabel else Ok tt.

(** keystore.rs 73-80 [Scope] *)
Inductive Scope : Type := DataProtection | LoginKeychain | TemporaryKeychain.
(** keystore.rs 83-89 [Scope::describe] *)
Definition describe_scope (s : Scope) : bytes :=
  match s with
  | DataProtection => lit "macos-data-protection-keychain"
  | LoginKeychain => lit "macos-login-keychain"
  | TemporaryKeychain => lit "macos-temporary-keychain"
  end.

(** ** Backends *)
(** What the keystore asks of [imp::Backend]; [C] is the state of the
    platform's keychains. *)
Class Backend (B C : Type) : Type := {
  platform_default : C -> result KeystoreError B * C;
  with_scope : Scope -> C -> result KeystoreError B * C;
  scope_of : B -> Scope;
  find : B -> bytes -> bytes -> C -> result KeystoreError (option bytes);
  add : B -> bytes -> bytes -> bytes -> C -> result KeystoreError unit * C;
  delete : B -> bytes -> bytes -> C -> result KeystoreError bool * C
}.

(** keystore.rs 383-383 [ITEM_NOT_FOUND] *)
Definition ITEM_NOT_FOUND : Z := -25300.
(** keystore.rs 384-384 [DUPLICATE_ITEM] *)
Definition DUPLICATE_ITEM : Z := -25299.
(** keystore.rs 385-385 [ERR_SEC_SUCCESS] *)
Definition ERR_SEC_SUCCESS : Z := 0.

(** A CoreFoundation value a query may return. *)
Inductive CfValue : Type := CfData (b : bytes) | CfOther.
(** [SecItemCopyMatching], [SecItemAdd] and [SecItemDelete] of a generic
    password, [SecKeychainCreate]; the [Z] is the [OSStatus]. *)
Class SecurityFramework (C : Type) : Type := {
  copy_matching : Scope -> bytes -> bytes -> C -> Z * CfValue;
  item_add : Scope -> bytes -> bytes -> bytes -> C -> Z * C;
  item_delete : Scope -> bytes -> bytes -> C -> Z * C;
  keychain_create : C -> Z * C
}.

Section MacOs.
Context {C : Type} {F : SecurityFramework C}.
(** keystore.rs 696-740 [Backend::find] *)
Definition find_item (b : Scope) (service account : bytes) (c : C) : result KeystoreError (option bytes) :=
  let '(status, value) := copy_matching b service account c in
  if status =? ERR_SEC_SUCCESS then
    match value with
    | CfData key => if negb (len key =? WRAPPING_KEY_LEN) then Err MalformedKey else Ok (Some key)
    | CfOther => Err MalformedKey
    end
  else if status =? ITEM_NOT_FOUND then Ok None
  else Err (Platform status).
(** keystore.rs 742-765 [Backend::add] *)
Definition add_item (b : Scope) (service account key : bytes) (c : C) : result KeystoreError unit * C :=
  let '(status, c') := item_add b service account key c in
  if negb (status =? ERR_SEC_SUCCESS) then (Err (Platform status), c') else (Ok tt, c').
(** keystore.rs 767-779 [Backend::delete] *)
Definition delete_item (b : Scope) (service account : bytes) (c : C) : result KeystoreError bool * C :=
  let '(status, c') := item_delete b service account c in
  if status =? ERR_SEC_SUCCESS then (Ok true, c')
  else if status =? ITEM_NOT_FOUND then (Ok false, c')
  else (Err (Platform status), c').
(** keystore.rs 603-624 [Backend::platform_default] *)
Definition macos_default (c : C) : result KeystoreError Scope * C :=
  match delete_item DataProtection (lit "com.reyta.rtp2.entitlement-probe") (lit "probe") c with
  | (Ok _, c') => (Ok DataProtection, c')
  | (Err (Platform _), c') => (Ok LoginKeychain, c')
  | (Err e, c') => (Err e, c')
  | (Panic, c') => (Panic, c')
  end.
(** keystore.rs 626-634 [Backend::with_scope] *)
Definition macos_with_scope (s : Scope) (c : C) : result KeystoreError Scope * C :=
  match s with
  | DataProtection | LoginKeychain => (Ok s, c)
  | TemporaryKeychain =>
    let '(status, c') := keychain_create c in
    if negb (status =? ERR_SEC_SUCCESS) then (Err (Platform status), c') else (Ok s, c')
  end.
(** A backend is its scope; the handle of a temporary keychain is in the state.
    keystore.rs 591-595 [Backend] *)
#[export] Instance macos_backend : Backend Scope C := {
  platform_default := macos_default;
  with_scope := macos_with_scope;
  scope_of b := b;
  find := find_item;
  add := add_item;
  delete := delete_item
}.
End MacOs.

(** Other targets.  keystore.rs 1070-1070 [pub struct Backend] *)
Inductive NoBackend : Type := no_backend.
(** keystore.rs 1072-1105 [impl Backend] *)
#[export] Instance elsewhere {C} : Backend NoBackend C := {
  platform_default c := (Err Unavailable, c);
  with_scope _ c := (Err Unavailable, c);
  scope_of _ := LoginKeychain;
  find _ _ _ _ := Err Unavailable;
  add _ _ _ _ c := (Err Unavailable, c);
  delete _ _ _ c := (Err Unavailable, c)
}.

(** ** Keystores *)
Section Keystore.
Context {B C : Type} {BC : Backend B C}.

(** The phases of [wrapping_key] between its calls to the backend, as other
    processes may run in between. *)
#[warnings="-register-all"]
Inductive KeyPhase : Type :=
| Finding
| Adding
| Refinding
| Finished (r : result KeystoreError bytes).
(** [fresh] is the draw.  keystore.rs 129-153 [Keystore::wrapping_key] *)
Definition key_step (b : B) (service account fresh : bytes) (p : KeyPhase) (c : C) : KeyPhase * C :=
  match p with
  | Finding =>
    (match find b service account c with
     | Ok (Some key) => Finished (Ok key)
     | Ok None => Adding
     | Err e => Finished (Err e)
     | Panic => Finished Panic
     end, c)
  | Adding =>
    let '(r, c') := add b service account fresh c in
    (match r with
     | Ok _ => Finished (Ok fresh)
     | Err (Platform status) => if status =? DUPLICATE_ITEM then Refinding else Finished (Err (Platform status))
     | Err e => Finished (Err e)
     | Panic => Finished Panic
     end, c')
  | Refinding =>
    (match find b service account c with
     | Ok (Some key) => Finished (Ok key)
     | Ok None => Finished (Err (Platform ITEM_NOT_FOUND))
     | Err e => Finished (Err e)
     | Panic => Finished Panic
     end, c)
  | Finished r => (Finished r, c)
  end.
(** keystore.rs 129-153 [Keystore::wrapping_key] *)
Definition wrapping_key (b : B) (service account fresh : bytes) (c : C) : result KeystoreError bytes * C :=
  match (let* _ := check_label service in check_label account) with
  | Ok _ =>
    let '(p1, c1) := key_step b service account fresh Finding c in
    let '(p2, c2) := key_step b service account fresh p1 c1 in
    let '(p3, c3) := key_step b service account fresh p2 c2 in
    (match p3 with Finished r => r | _ => Panic end, c3)
  | Err e => (Err e, c)
  | Panic => (Panic, c)
  end.
(** keystore.rs 158-162 [Keystore::forget] *)
Definition forget (b : B) (service account : bytes) (c : C) : result KeystoreError bool * C :=
  match (let* _ := check_label service in check_label account) with
  | Ok _ => delete b service account c
  | Err e => (Err e, c)
  | Panic => (Panic, c)
  end.
End Keystore.

(** [AeadSealer::new] of a key that has 32 bytes.  store.rs 161-166 [AeadSealer::new] *)
Definition new_aead (key : bytes) (p : Protection) : option AeadSealer :=
  match Bool.bool_dec (array_b 32 key) true with
  | left H => Some (mkAead key p H)
  | right _ => None
  end.

(** The platform error a file operation on the vault key is reported as. *)
Definition vault_error {A} (x : result StoreError A) : result KeystoreError A := map_err (fun _ => Platform 0) x.

Section KeystoreSealers.
Context {P : Primitives} {B C : Type} {BC : Backend B C}.
(** keystore.rs 169-172 [KeystoreSealer] *)
Record KeystoreSealer : Type := mkKeystoreSealer { ks_inner : AeadSealer; ks_scope : Scope }.
(** The key has 32 bytes whenever there is one.
    keystore.rs 180-190 [KeystoreSealer::from_keystore] *)
Definition from_keystore (b : B) (service account fresh : bytes) (c : C) : result KeystoreError KeystoreSealer * C :=
  let '(key, c') := wrapping_key b service account fresh c in
  ((let* k := key in
    match new_aead k PlatformKeystore with
    | Some inner => Ok (mkKeystoreSealer inner (scope_of b))
    | None => Err MalformedKey
    end), c').
(** keystore.rs 176-178 [KeystoreSealer::open] *)
Definition open_keystore_sealer (service account fresh : bytes) (c : C) : result KeystoreError KeystoreSealer * C :=
  match platform_default (B := B) c with
  | (Ok b, c') => from_keystore b service account fresh c'
  | (Err e, c') => (Err e, c')
  | (Panic, c') => (Panic, c')
  end.
(** keystore.rs 193-195 [KeystoreSealer::describe] *)
Definition describe_keystore (s : KeystoreSealer) : bytes := describe_scope (ks_scope s).
(** keystore.rs 198-212 [impl SecretSealer for KeystoreSealer] *)
#[export] Instance KeystoreSealer_sealer : SecretSealer KeystoreSealer := {
  protection _ := PlatformKeystore;
  seal s := seal (ks_inner s);
  open s := open (ks_inner s)
}.
End KeystoreSealers.

(** ** The vault key *)
(** keystore.rs 218-218 [VAULT_KEY_DOMAIN] *)
Definition VAULT_KEY_DOMAIN : bytes := lit "RTP2-VAULT-KEY-v1".

(** What the sealer asks of [imp::HardwareRoot], the asymmetric key of a
    security processor; [draw] is the randomness of an encryption. *)
Class HardwareRoot (R C : Type) : Type := {
  root_open : bytes -> bytes -> C -> result KeystoreError R * C;
  root_seal : R -> bytes -> bytes -> result KeystoreError bytes;
  root_unseal : R -> bytes -> result KeystoreError bytes;
  root_forget : bytes -> bytes -> C -> result KeystoreError bool * C;
  root_backend : bytes
}.
(** keystore.rs 1050-1050 [pub struct HardwareRoot] *)
Inductive NoRoot : Type := no_root.
(** keystore.rs 1052-1068 [impl HardwareRoot] *)
#[export] Instance no_hardware {C} : HardwareRoot NoRoot C := {
  root_open _ _ c := (Err Unavailable, c);
  root_seal _ _ _ := Err Unavailable;
  root_unseal _ _ := Err Unavailable;
  root_forget _ _ c := (Err Unavailable, c);
  root_backend := lit "unavailable"
}.

Section Hardware.
Context {P : Primitives} {R C : Type} {HR : HardwareRoot R C}.
(** keystore.rs 323-325 [EciesSealer] *)
Record EciesSealer : Type := mkEcies { es_root : R }.
(** keystore.rs 327-339 [impl SecretSealer for EciesSealer] *)
#[export] Instance EciesSealer_sealer : SecretSealer EciesSealer := {
  protection _ := HardwareKeystore;
  seal s draw plaintext _ := map_err (fun _ => Seal) (root_seal (es_root s) draw plaintext);
  open s sealed _ := map_err (fun _ => Seal) (root_unseal (es_root s) sealed)
}.
(** keystore.rs 242-244 [HardwareSealer] *)
Record HardwareSealer : Type := mkHardware { hs_inner : AeadSealer }.
(** keystore.rs 306-318 [impl SecretSealer for HardwareSealer] *)
#[export] Instance HardwareSealer_sealer : SecretSealer HardwareSealer := {
  protection _ := HardwareKeystore;
  seal s := seal (hs_inner s);
  open s := open (hs_inner s)
}.

Definition hardware_sealer (key : bytes) : result KeystoreError HardwareSealer :=
  match new_aead key HardwareKeystore with Some s => Ok (mkHardware s) | None => Err MalformedKey end.
(** The existing vault key, if there is one.  keystore.rs 261-279 [HardwareSealer::open] *)
Definition load_vault (root : R) (read_ok : bool) (f : FileState) : result KeystoreError (option HardwareSealer) :=
  let* existing := vault_error (read_sealed read_ok VAULT_KEY_DOMAIN (mkEcies root) HardwareKeystore f) in
  match existing with
  | Some key =>
    if negb (len key =? WRAPPING_KEY_LEN) then Err MalformedKey else
    let* s := hardware_sealer key in Ok (Some s)
  | None => Ok None
  end.
(** A new vault key.  keystore.rs 281-290 [HardwareSealer::open] *)
Definition mint_vault (root : R) (io : WriteIo) (draw fresh : bytes) (f : FileState) : result KeystoreError HardwareSealer * FileState :=
  let '(r, f') := write_sealed io VAULT_KEY_DOMAIN (mkEcies root) draw fresh f in
  ((let* _ := vault_error r in hardware_sealer fresh), f').
(** [f] is [vaultkey.rtp2] in the state directory; [fresh] is the drawn key.
    keystore.rs 261-290 [HardwareSealer::open] *)
Definition open_vault (root : R) (read_ok : bool) (io : WriteIo) (draw fresh : bytes) (f : FileState)
  : result KeystoreError HardwareSealer * FileState :=
  match load_vault root read_ok f with
  | Ok (Some s) => (Ok s, f)
  | Ok None => mint_vault root io draw fresh f
  | Err e => (Err e, f)
  | Panic => (Panic, f)
  end.
(** keystore.rs 250-291 [HardwareSealer::open] *)
Definition open_hardware_sealer (service account : bytes) (read_ok : bool) (io : WriteIo) (draw fresh : bytes) (c : C) (f : FileState)
  : result KeystoreError HardwareSealer * C * FileState :=
  match (let* _ := check_label service in check_label account) with
  | Ok _ =>
    match root_open service account c with
    | (Ok root, c') => let '(r, f') := open_vault root read_ok io draw fresh f in (r, c', f')
    | (Err e, c') => (Err e, c', f)
    | (Panic, c') => (Panic, c', f)
    end
  | Err e => (Err e, c, f)
  | Panic => (Panic, c, f)
  end.
(** keystore.rs 295-299 [HardwareSealer::forget] *)
Definition forget_hardware (service account : bytes) (c : C) : result KeystoreError bool * C :=
  match (let* _ := check_label service in check_label account) with
  | Ok _ => root_forget service account c
  | Err e => (Err e, c)
  | Panic => (Panic, c)
  end.
(** keystore.rs 301-303 [HardwareSealer::describe] *)
Definition describe_hardware : bytes := root_backend (R := R) (C := C).
End Hardware.
Arguments EciesSealer : clear implicits.
Arguments mkEcies {R} es_root.

(** ** What a backend promises *)
(** [key_at] is the raw content of an item. *)
Class BackendLaws (B C : Type) `{Backend B C} : Type := {
  key_at : B -> bytes -> bytes -> C -> option bytes;
  find_some b s a c k : find b s a c = Ok (Some k) -> key_at b s a c = Some k /\ array WRAPPING_KEY_LEN k;
  find_none b s a c : find b s a c = Ok None -> key_at b s a c = None;
  find_total b s a c : find b s a c <> Panic;
  add_adds b s a k c c' : add b s a k c = (Ok tt, c') -> key_at b s a c = None /\ key_at b s a c' = Some k;
  add_duplicate b s a k c c' : add b s a k c = (Err (Platform DUPLICATE_ITEM), c') -> key_at b s a c <> None;
  add_fails b s a k c c' e : add b s a k c = (Err e, c') -> key_at b s a c' = key_at b s a c;
  add_total b s a k c : (add b s a k c).1 <> Panic
}.

(** The documented behaviour of the framework: what is at an item, and that a
    call that fails leaves it. *)
Class FrameworkLaws (C : Type) `{SecurityFramework C} : Type := {
  item_at : Scope -> bytes -> bytes -> C -> option CfValue;
  item_bytes sc s a c k : item_at sc s a c = Some (CfData k) -> bytes_ok k;
  matching_found sc s a c v : copy_matching sc s a c = (ERR_SEC_SUCCESS, v) -> item_at sc s a c = Some v;
  matching_missing sc s a c v : copy_matching sc s a c = (ITEM_NOT_FOUND, v) -> item_at sc s a c = None;
  added sc s a k c c' : item_add sc s a k c = (ERR_SEC_SUCCESS, c') -> item_at sc s a c = None /\ item_at sc s a c' = Some (CfData k);
  duplicate sc s a k c c' : item_add sc s a k c = (DUPLICATE_ITEM, c') -> item_at sc s a c <> None;
  not_added sc s a k c status c' : item_add sc s a k c = (status, c') -> status <> ERR_SEC_SUCCESS -> item_at sc s a c' = item_at sc s a c
}.
Section MacLaws.
Context {C : Type} {F : SecurityFramework C} {FL : FrameworkLaws C}.
Definition raw_item (v : CfValue) : bytes := match v with CfData k => k | CfOther => [] end.
#[export] Instance macos_laws : BackendLaws Scope C.
Proof.
  refine {| key_at := fun b s a c => raw_item <$> item_at b s a c |}; cbn [find add macos_backend].
  - intros b s a c k. unfold find_item. destruct (copy_matching b s a c) as [status v] eqn:Hm.
    destruct (Z.eqb_spec status ERR_SEC_SUCCESS) as [->|]; [|by destruct (status =? ITEM_NOT_FOUND)].
    apply matching_found in Hm. destruct v as [key|]; [|done].
    destruct (Z.eqb_spec (len key) WRAPPING_KEY_LEN) as [Hl|]; cbn [negb]; [|done]. intros [= <-]. rewrite Hm.
    split; [done|]. split; [exact Hl|]. by eapply item_bytes.
  - intros b s a c. unfold find_item. destruct (copy_matching b s a c) as [status v] eqn:Hm.
    destruct (Z.eqb_spec status ERR_SEC_SUCCESS) as [->|]; [by destruct v; [destruct (negb _)|]|].
    destruct (Z.eqb_spec status ITEM_NOT_FOUND) as [->|]; [|done]. intros _. apply matching_missing in Hm. by rewrite Hm.
  - intros b s a c. unfold find_item. destruct (copy_matching b s a c) as [status v].
    destruct (status =? ERR_SEC_SUCCESS); [by destruct v; [destruct (negb _)|]|]. by destruct (status =? ITEM_NOT_FOUND).
  - intros b s a k c c'. unfold add_item. destruct (item_add b s a k c) as [status c1] eqn:Ha.
    destruct (Z.eqb_spec status ERR_SEC_SUCCESS) as [->|]; cbn [negb]; intros [= <-]. apply added in Ha as [-> ->]. done.
  - intros b s a k c c'. unfold add_item. destruct (item_add b s a k c) as [status c1] eqn:Ha.
    destruct (Z.eqb_spec status ERR_SEC_SUCCESS) as [->|]; cbn [negb]; intros [= -> <-]. apply duplicate in Ha.
    by destruct (item_at b s a c).
  - intros b s a k c c' e. unfold add_item. destruct (item_add b s a k c) as [status c1] eqn:Ha.
    destruct (Z.eqb_spec status ERR_SEC_SUCCESS) as [->|Hne]; cbn [negb]; intros [= <- <-]. by rewrite (not_added _ _ _ _ _ _ _ Ha Hne).
  - intros b s a k c. unfold add_item. destruct (item_add b s a k c) as [status c1]. by destruct (negb _).
Defined.
End MacLaws.
#[export] Instance elsewhere_laws {C} : BackendLaws NoBackend C.
Proof. by refine {| key_at := fun _ _ _ _ => None |}. Defined.

(** ** Concurrent first uses *)
Section Race.
Context {B C : Type} {BC : Backend B C} {BL : BackendLaws B C} (b : B) (service account : bytes).

(** A process inside [wrapping_key]. *)
Record Process : Type := mkProcess { pr_fresh : bytes; pr_phase : KeyPhase }.
(** Any process moves by one call to the backend, and between calls the
    platform may change anything but this item. *)
#[warnings="-register-all"]
Inductive moves : list Process * C -> list Process * C -> Prop :=
| process_moves i p phase ps c c' : ps !! i = Some p ->
    key_step b service account (pr_fresh p) (pr_phase p) c = (phase, c') ->
    moves (ps, c) (<[i := mkProcess (pr_fresh p) phase]> ps, c')
| platform_moves ps c c' : key_at b service account c' = key_at b service account c -> moves (ps, c) (ps, c').

Definition starting (draws : list bytes) : list Process := map (fun fresh => mkProcess fresh Finding) draws.
(** What a process knows about the item. *)
Definition knows (c : C) (p : Process) : Prop :=
  match pr_phase p with
  | Finished (Ok k) => key_at b service account c = Some k
  | Refinding => key_at b service account c <> None
  | Finished Panic => False
  | _ => True
  end.
(** The item, once there, is what it was, or a draw. *)
Record race_inv (draws : list bytes) (c0 : C) (st : list Process * C) : Prop := {
  ri_draws : map pr_fresh st.1 = draws;
  ri_knows : Forall (knows st.2) st.1;
  ri_item : key_at b service account st.2 = key_at b service account c0 \/
    key_at b service account c0 = None /\ exists k, key_at b service account st.2 = Some k /\ k ∈ draws
}.
Lemma key_step_spec p c phase c' : key_step b service account (pr_fresh p) (pr_phase p) c = (phase, c') -> knows c p ->
  knows c' (mkProcess (pr_fresh p) phase) /\
  (key_at b service account c' = key_at b service account c \/
   key_at b service account c = None /\ key_at b service account c' = Some (pr_fresh p)).
Proof.
  destruct p as [fresh [| | |r]]; cbn [pr_fresh pr_phase key_step knows]; intros H Hk.
  - injection H as <- <-. split; [|by left]. unfold knows; cbn [pr_phase].
    destruct (find b service account c) as [[k|]|e|] eqn:Hf; try done; [by apply find_some in Hf as [? _]|by apply find_total in Hf].
  - destruct (add b service account fresh c) as [[[]|e|] c1] eqn:Ha; injection H as <- <-.
    + apply add_adds in Ha as [H1 H2]. split; [exact H2|by right].
    + pose proof (add_fails _ _ _ _ _ _ _ Ha) as Hs. split; [|by left]. unfold knows; cbn [pr_phase].
      destruct e as [|status| |]; try done. destruct (Z.eqb_spec status DUPLICATE_ITEM) as [->|]; [|done].
      rewrite Hs. by eapply add_duplicate.
    + exfalso. apply (add_total b service account fresh c). by rewrite Ha.
  - injection H as <- <-. split; [|by left]. unfold knows; cbn [pr_phase].
    destruct (find b service account c) as [[k|]|e|] eqn:Hf; try done; [by apply find_some in Hf as [? _]|by apply find_total in Hf].
  - injection H as <- <-. by split; [|left].
Qed.
Lemma knows_mono c c' p : (key_at b service account c' = key_at b service account c \/ key_at b service account c = None) ->
  knows c p -> knows c' p.
Proof.
  unfold knows. intros [->|Hn]; [done|]. rewrite Hn. destruct (pr_phase p) as [| | |[k|e|]]; done.
Qed.
Lemma moves_inv draws c0 st st' : race_inv draws c0 st -> moves st st' -> race_inv draws c0 st'.
Proof.
  intros [H1 H2 H3] Hm. destruct Hm as [i p phase ps c c' Hi Hs|ps c c' Heq]; cbn [fst snd] in *.
  - rewrite Forall_lookup in H2. destruct (key_step_spec p c phase c' Hs (H2 i p Hi)) as [Hk Hitem].
    split; cbn [fst snd].
    + rewrite <- H1. etrans; [apply list_fmap_insert|]. apply list_insert_id. by erewrite list_lookup_fmap, Hi.
    + apply Forall_insert; [|exact Hk]. apply Forall_lookup. intros j q Hq. apply (knows_mono c); [tauto|by apply (H2 j)].
    + destruct Hitem as [->|[Hn ->]]; [exact H3|]. right. split; [destruct H3 as [<-|[? _]]; done|].
      exists (pr_fresh p). split; [done|]. rewrite <- H1. apply list_elem_of_fmap. exists p. split; [done|]. by eapply list_elem_of_lookup_2.
  - split; cbn [fst snd]; [exact H1| |by rewrite Heq].
    eapply Forall_impl; [exact H2|]. intros p. apply knows_mono. by left.
Qed.
Lemma race_invariant draws c0 st : rtc moves (starting draws, c0) st -> race_inv draws c0 st.
Proof.
  assert (H0 : race_inv draws c0 (starting draws, c0)).
  { split; [|by apply Forall_fmap, Forall_true|by left]. cbn [fst]. unfold starting. rewrite map_map. by apply map_id. }
  intros H. remember (starting draws, c0) as st0 eqn:He. clear He.
  induction H as [st|st st1 st2 Hm _ IH]; [exact H0|]. apply IH. by eapply moves_inv.
Qed.
End Race.

Section WrappingKey.
Context {B C : Type} {BC : Backend B C} {BL : BackendLaws B C}.
Definition label_ok (label : bytes) : Prop := 1 <= len label <= MAX_LABEL_BYTES.
Lemma check_label_iff label : check_label label = Ok tt <-> label_ok label.
Proof.
  unfold check_label, label_ok. pose proof (len_nonneg label). destruct (Z.eqb_spec (len label) 0); cbn [orb]; [split; [done|lia]|].
  destruct (Z.ltb_spec MAX_LABEL_BYTES (len label)); split; first [done | lia].
Qed.
Lemma labels_checked s a : (let* _ := check_label s in check_label a) = Ok tt <-> label_ok s /\ label_ok a.
Proof.
  rewrite <- !check_label_iff. split.
  - intros H. minv H. by destruct a0.
  - by intros [-> ->].
Qed.
Lemma labels_refused s a : ~ (label_ok s /\ label_ok a) -> (let* _ := check_label s in check_label a) = Err InvalidLabel.
Proof.
  rewrite <- labels_checked. unfold check_label.
  destruct ((len s =? 0) || _); cbn [rbind]; [done|]. destruct ((len a =? 0) || _); done.
Qed.

(** What a finished process holds is the item. *)
Lemma keys_are_the_item b s a draws c0 ps c p k : rtc (moves b s a) (starting draws, c0) (ps, c) ->
  p ∈ ps -> pr_phase p = Finished (Ok k) -> key_at b s a c = Some k.
Proof.
  intros Hr Hp Hph. apply race_invariant in Hr as [_ Hk _]. cbn [fst snd] in Hk. rewrite Forall_forall in Hk.
  specialize (Hk p Hp). unfold knows in Hk. by rewrite Hph in Hk.
Qed.
(** C23: Concurrent first uses agree: from any keychain, in every interleaving
    of the backend calls of any number of processes that want the key of one
    item, whatever else the platform does in between, all processes that get a
    key get the same one, it is what the item holds, it is the key that was
    there before if there was one and otherwise a key one of them drew, and
    none of them panics. *)
Theorem wrapping_keys_agree b service account draws c0 ps c :
  rtc (moves b service account) (starting draws, c0) (ps, c) ->
  (forall p q k k', p ∈ ps -> q ∈ ps -> pr_phase p = Finished (Ok k) -> pr_phase q = Finished (Ok k') -> k = k') /\
  (forall p k, p ∈ ps -> pr_phase p = Finished (Ok k) ->
     key_at b service account c = Some k /\
     match key_at b service account c0 with Some k0 => k = k0 | None => k ∈ draws end) /\
  (forall p, p ∈ ps -> pr_phase p <> Finished Panic).
Proof.
  intros Hr. pose proof (race_invariant b service account draws c0 _ Hr) as [_ Hkn Hit]. cbn [fst snd] in *.
  pose proof (fun p k => keys_are_the_item b service account draws c0 ps c p k Hr) as Hk. split; [|split].
  - intros p q k k' Hp Hq Hpp Hqq. pose proof (Hk p k Hp Hpp). pose proof (Hk q k' Hq Hqq). congruence.
  - intros p k Hp Hph. pose proof (Hk p k Hp Hph) as Hc. split; [exact Hc|]. destruct Hit as [Hi|(Hn & k' & Hk' & Hin)].
    + by rewrite <- Hi, Hc.
    + rewrite Hn. congruence.
  - intros p Hp Hph. rewrite Forall_forall in Hkn. specialize (Hkn p Hp). unfold knows in Hkn. by rewrite Hph in Hkn.
Qed.

(** Three calls finish a process. *)
Lemma three_steps b s a fresh c :
  let '(p1, c1) := key_step b s a fresh Finding c in
  let '(p2, c2) := key_step b s a fresh p1 c1 in
  let '(p3, c3) := key_step b s a fresh p2 c2 in
  rtc (moves b s a) (starting [fresh], c) ([mkProcess fresh p3], c3) /\ exists r, p3 = Finished r.
Proof.
  assert (Hone : forall p c p' c', key_step b s a fresh p c = (p', c') -> moves b s a ([mkProcess fresh p], c) ([mkProcess fresh p'], c')).
  { intros p x p' x' H. by apply (process_moves b s a 0%nat (mkProcess fresh p) p' [mkProcess fresh p] x x'). }
  destruct (key_step b s a fresh Finding c) as [p1 c1] eqn:H1, (key_step b s a fresh p1 c1) as [p2 c2] eqn:H2,
    (key_step b s a fresh p2 c2) as [p3 c3] eqn:H3. split.
  - eapply rtc_l; [by apply Hone|]. eapply rtc_l; [by apply Hone|]. apply rtc_once. by apply Hone.
  - cbn [key_step] in H1. injection H1 as <- <-.
    destruct (find b s a c) as [[k|]|e|]; cbn [key_step] in H2; try (injection H2 as <- <-; cbn in H3; injection H3 as <- <-; by eexists).
    destruct (add b s a fresh c) as [[[]|e|] c4]; injection H2 as <- <-; try (cbn in H3; injection H3 as <- <-; by eexists).
    destruct e as [|status| |]; try (cbn in H3; injection H3 as <- <-; by eexists).
    destruct (status =? DUPLICATE_ITEM); cbn in H3; injection H3 as <- <-; [|by eexists].
    destruct (find b s a c4) as [[k|]|e|]; by eexists.
Qed.
(** A wrapping key is minted once: the call always ends with a key or an
    error; a label of the wrong length is refused before the keychain is
    touched; a key that comes out is in the keychain, so the next call gets
    it; and an item that was there, well formed or not, stays and is the only
    key that can come out. *)
Theorem wrapping_key_minted_once b service account fresh c :
  let '(r, c') := wrapping_key b service account fresh c in
  r <> Panic /\
  (~ (label_ok service /\ label_ok account) -> r = Err InvalidLabel /\ c' = c) /\
  (forall k, r = Ok k -> key_at b service account c' = Some k /\
     match key_at b service account c with Some k0 => k = k0 | None => k = fresh end) /\
  (forall k0, key_at b service account c = Some k0 -> key_at b service account c' = Some k0).
Proof.
  unfold wrapping_key. destruct (decide (label_ok service /\ label_ok account)) as [Hl|Hl].
  2: { rewrite labels_refused by done. by split_and!. }
  rewrite (proj2 (labels_checked _ _) Hl). pose proof (three_steps b service account fresh c) as H3.
  destruct (key_step b service account fresh Finding c) as [p1 c1], (key_step b service account fresh p1 c1) as [p2 c2],
    (key_step b service account fresh p2 c2) as [p3 c3]. destruct H3 as [Hr [r ->]].
  pose proof (race_invariant b service account [fresh] c _ Hr) as [_ Hkn Hit]. cbn [fst snd] in *.
  apply Forall_cons_1 in Hkn as [Hkn _]. unfold knows in Hkn. cbn [pr_phase] in Hkn. split; [intros ->; exact Hkn|].
  split; [done|]. split.
  - intros k ->. split; [exact Hkn|]. destruct Hit as [Hi|(Hn & k' & Hk' & Hin)].
    + by rewrite <- Hi, Hkn.
    + rewrite Hn. apply list_elem_of_singleton in Hin. congruence.
  - intros k0 Hk0. destruct Hit as [->|[Hn _]]; [done|congruence].
Qed.
End WrappingKey.

(** ** Sealers over keystore keys *)
Section SealerInstances.
Context {P : Primitives} {L : PrimitiveLaws}.
Lemma new_aead_some key p s : new_aead key p = Some s -> as_key s = key /\ as_protection s = p /\ array 32 key.
Proof. unfold new_aead. destruct (Bool.bool_dec _ _) as [H|]; [|done]. intros [= <-]. split; [done|]. split; [done|]. exact (proj1 (array_b_true _ _) H). Qed.
Lemma new_aead_array key p : array 32 key -> exists s, new_aead key p = Some s.
Proof. intros H. unfold new_aead. destruct (Bool.bool_dec _ _) as [|Hn]; [by eexists|]. apply array_b_true in H. congruence. Qed.
#[export] Instance KeystoreSealer_laws : SealerLaws KeystoreSealer.
Proof.
  split.
  - intros s. cbn [seal open KeystoreSealer_sealer]. apply seal_opens.
  - intros s. cbn [open KeystoreSealer_sealer]. apply open_ok.
Qed.
#[export] Instance HardwareSealer_laws : SealerLaws HardwareSealer.
Proof.
  split.
  - intros s. cbn [seal open HardwareSealer_sealer]. apply seal_opens.
  - intros s. cbn [open HardwareSealer_sealer]. apply open_ok.
Qed.

Section Vault.
Context {R C : Type} {HR : HardwareRoot R C}.
(** ECIES decrypts what it encrypted; it adds a point and a tag. *)
Class RootLaws : Prop := {
  root_opens root draw plaintext : bytes_ok plaintext -> len plaintext <= MAX_RECORD_BYTES -> exists sealed,
    root_seal root draw plaintext = Ok sealed /\ bytes_ok sealed /\ len sealed <= len plaintext + 128 /\ root_unseal root sealed = Ok plaintext;
  root_bytes root sealed plaintext : root_unseal root sealed = Ok plaintext -> bytes_ok plaintext
}.
Context {RL : RootLaws}.
#[export] Instance EciesSealer_laws : SealerLaws (EciesSealer R).
Proof.
  split.
  - intros s draw pt aad _ Hb Hl. cbn [seal open EciesSealer_sealer].
    destruct (root_opens (es_root s) draw pt Hb Hl) as (sealed & -> & H1 & H2 & H3). exists sealed. by rewrite H3.
  - intros s sealed aad pt _ H. cbn [open EciesSealer_sealer] in H. apply map_err_inv in H. by apply root_bytes in H.
Qed.

(** One opening of the vault: the outcomes and draws it meets. *)
Record VaultCall : Type := mkVaultCall { vc_read_ok : bool; vc_io : WriteIo; vc_draw : bytes; vc_fresh : bytes }.
Definition vault_call_ok (c : VaultCall) : Prop := array 24 (vc_draw c) /\ array WRAPPING_KEY_LEN (vc_fresh c).
Definition open_vaults (root : R) : list VaultCall -> FileState -> list (result KeystoreError HardwareSealer) * FileState :=
  run_calls (fun c => open_vault root (vc_read_ok c) (vc_io c) (vc_draw c) (vc_fresh c)).
(** The file holds the vault key. *)
Definition holds_vault (root : R) (key : bytes) (f : FileState) : Prop :=
  read_sealed true VAULT_KEY_DOMAIN (mkEcies root) HardwareKeystore f = Ok (Some key).
Lemma hardware_sealer_array key : array WRAPPING_KEY_LEN key ->
  exists s, hardware_sealer key = Ok s /\ as_key (hs_inner s) = key /\ as_protection (hs_inner s) = HardwareKeystore.
Proof.
  intros Hk. unfold hardware_sealer. destruct (new_aead_array key HardwareKeystore Hk) as [s Hs]. rewrite Hs.
  apply new_aead_some in Hs as (H1 & H2 & _). by exists (mkHardware s).
Qed.
Lemma vault_found root key s ro io draw fresh f : array WRAPPING_KEY_LEN key -> hardware_sealer key = Ok s -> holds_vault root key f ->
  open_vault root ro io draw fresh f = (if ro then Ok s else Err (Platform 0), f).
Proof.
  intros [Hl _] Hs Hh. unfold holds_vault in Hh. unfold open_vault, load_vault, vault_error.
  assert (Hro : ro = false -> read_sealed ro VAULT_KEY_DOMAIN (mkEcies root) HardwareKeystore f = Err Io).
  { intros ->. unfold read_sealed in *. destruct (visible f); try done. by destruct (check_private_mode mode). }
  destruct ro; [|by rewrite Hro].
  rewrite Hh. cbn [map_err rbind]. rewrite (proj2 (Z.eqb_eq _ _) Hl). cbn [negb]. by rewrite Hs.
Qed.
Lemma vault_missing root c f : vault_call_ok c -> usable_tmp (tmp f) -> visible f = Missing -> forall s, hardware_sealer (vc_fresh c) = Ok s ->
  exists f', open_vault root (vc_read_ok c) (vc_io c) (vc_draw c) (vc_fresh c) f
      = (if io_succeeds (vc_io c) then Ok s else Err (Platform 0), f') /\
    usable_tmp (tmp f') /\ if io_succeeds (vc_io c) then holds_vault root (vc_fresh c) f' else visible f' = Missing.
Proof.
  intros [Hd Hk] Ht Hv s Hs.
  destruct (record_bytes_seals VAULT_KEY_DOMAIN (mkEcies root) (vc_draw c) (vc_fresh c) Hd (proj2 Hk)) as (b & Hr & Hsl).
  { destruct Hk as [-> _]. unfold MAX_RECORD_BYTES, WRAPPING_KEY_LEN. lia. }
  destruct (write_sealed_outcome (vc_io c) _ _ _ _ b f Hr Ht) as (f' & Hw & Ht' & Ho). exists f'.
  unfold open_vault, load_vault, mint_vault, read_sealed. rewrite Hv, Hw. cbn [vault_error map_err rbind]. rewrite Hs.
  split; [by destruct (io_succeeds _)|]. split; [exact Ht'|]. destruct (io_succeeds _).
  - destruct Ho as [(mode & Hm & Hvis) _]. unfold holds_vault. by rewrite (read_sealed_record _ _ _ (vc_fresh c) mode b).
  - destruct Ho as [Ho _]. by rewrite Ho.
Qed.
Lemma vault_kept root ro io draw fresh f : visible f <> Missing -> (open_vault root ro io draw fresh f).2 = f.
Proof.
  intros Hv. unfold open_vault. destruct (load_vault root ro f) as [[s|]|e|] eqn:Hl; try done. exfalso. apply Hv.
  unfold load_vault, vault_error in Hl. minv Hl. apply map_err_inv in Hp. destruct a as [k|].
  - destruct (negb _); [done|]. minv Hk. done.
  - unfold read_sealed in Hp. destruct (visible f); try done. minv Hp. destruct ro; cbn [negb] in *; [|done]. match goal with H : rbind _ _ = Ok None |- _ => minv H; done end.
Qed.

(** A vault key is created once: a file that is there, whatever it holds,
    is never replaced.  From an empty state directory, over any openings with
    one hardware root: those before the first whose write goes through report
    an error, that one seals under the key it drew, and every later one gets
    the sealer of that same key or reports that the file cannot be read. *)
Theorem vault_key_created_once root f pre c post :
  usable_tmp (tmp f) -> visible f = Missing -> Forall vault_call_ok (pre ++ c :: post) ->
  Forall (fun x => io_succeeds (vc_io x) = false) pre -> io_succeeds (vc_io c) = true ->
  (exists s, as_key (hs_inner s) = vc_fresh c /\ as_protection (hs_inner s) = HardwareKeystore /\
     (open_vaults root (pre ++ c :: post) f).1
       = map (fun _ => Err (Platform 0)) pre ++ Ok s :: map (fun x => if vc_read_ok x then Ok s else Err (Platform 0)) post) /\
  (forall x g, visible g <> Missing -> (open_vault root (vc_read_ok x) (vc_io x) (vc_draw x) (vc_fresh x) g).2 = g).
Proof.
  intros Ht Hv Hok Hpre Hio. apply Forall_app in Hok as [Hok Hok']. apply Forall_cons_1 in Hok' as [Hcall _].
  split; [|intros; by apply vault_kept]. destruct (hardware_sealer_array _ (proj2 Hcall)) as (s & Hs & Hkey & Hp).
  exists s. split; [exact Hkey|]. split; [exact Hp|]. unfold open_vaults.
  apply (run_once _ (fun g => usable_tmp (tmp g) /\ visible g = Missing) (holds_vault root (vc_fresh c))); [| | |by split].
  - apply Forall_forall. intros x Hx g [Hgt Hgv]. rewrite Forall_forall in Hok, Hpre.
    destruct (hardware_sealer_array _ (proj2 (Hok x Hx))) as (sx & Hsx & _).
    destruct (vault_missing root x g (Hok x Hx) Hgt Hgv sx Hsx) as (g' & Hg & Hgt' & Hv'). rewrite (Hpre x Hx) in Hg, Hv'. by exists g'.
  - intros g [Hgt Hgv]. destruct (vault_missing root c g Hcall Hgt Hgv s Hs) as (g' & Hg & _ & Hh). rewrite Hio in Hg, Hh. by exists g'.
  - intros x g Hg. by apply (vault_found root (vc_fresh c)); [apply Hcall|..].
Qed.
End Vault.
End SealerInstances.

(** ** A keychain *)
Module KeystoreWitness.
Import Toy ToyPk StoreWitness.
(** Items by scope and coordinates; writing to the data-protection keychain
    needs an entitlement. *)
Record Keychains : Type := mkKeychains { items : gmap (Z * (bytes * bytes)) bytes; entitled : bool }.
Definition scope_key (s : Scope) : Z := match s with DataProtection => 0 | LoginKeychain => 1 | TemporaryKeychain => 2 end.
Definition coordinates (sc : Scope) (s a : bytes) : Z * (bytes * bytes) := (scope_key sc, (s, a)).
Definition may_write (sc : Scope) (c : Keychains) : bool := match sc with DataProtection => entitled c | _ => true end.
Definition NOT_ENTITLED : Z := -34018.
(** Only byte strings are items. *)
Definition lookup_item (sc : Scope) (s a : bytes) (c : Keychains) : option bytes :=
  match items c !! coordinates sc s a with
  | Some k => if array_b (len k) k then Some k else None
  | None => None
  end.
#[export] Instance framework : SecurityFramework Keychains := {
  copy_matching sc s a c :=
    match lookup_item sc s a c with Some k => (ERR_SEC_SUCCESS, CfData k) | None => (ITEM_NOT_FOUND, CfOther) end;
  item_add sc s a k c :=
    if negb (may_write sc c && array_b (len k) k) then (NOT_ENTITLED, c) else
    match lookup_item sc s a c with
    | Some _ => (DUPLICATE_ITEM, c)
    | None => (ERR_SEC_SUCCESS, mkKeychains (<[coordinates sc s a := k]> (items c)) (entitled c))
    end;
  item_delete sc s a c :=
    if negb (may_write sc c) then (NOT_ENTITLED, c) else
    match lookup_item sc s a c with
    | Some _ => (ERR_SEC_SUCCESS, mkKeychains (base.delete (coordinates sc s a) (items c)) (entitled c))
    | None => (ITEM_NOT_FOUND, c)
    end;
  keychain_create c := (ERR_SEC_SUCCESS, c)
}.
#[export] Instance framework_laws : FrameworkLaws Keychains.
Proof.
  refine {| item_at := fun sc s a c => CfData <$> lookup_item sc s a c |}; cbn [copy_matching item_add framework].
  - intros sc s a c k. unfold lookup_item. destruct (items c !! _) as [x|]; [|done].
    destruct (array_b (len x) x) eqn:Hx; [|done]. intros [= <-]. by apply array_b_true in Hx as [_ ?].
  - intros sc s a c v H. destruct (lookup_item sc s a c); apply pair_equal_spec in H as [H <-]; [done|discriminate H].
  - intros sc s a c v H. destruct (lookup_item sc s a c); apply pair_equal_spec in H as [H _]; [discriminate H|done].
  - intros sc s a k c c' H. destruct (may_write sc c && array_b (len k) k) eqn:Hk; cbn [negb] in H;
      [|apply pair_equal_spec in H as [H _]; discriminate H].
    destruct (lookup_item sc s a c) eqn:Hl; apply pair_equal_spec in H as [H <-]; [discriminate H|]. split; [done|].
    unfold lookup_item. cbn [items]. rewrite lookup_insert, decide_True by done. apply andb_true_iff in Hk as [_ ->]. done.
  - intros sc s a k c c' H. destruct (negb _); [apply pair_equal_spec in H as [H _]; discriminate H|].
    destruct (lookup_item sc s a c); apply pair_equal_spec in H as [H _]; [done|discriminate H].
  - intros sc s a k c status c' H Hne. destruct (negb _); [by apply pair_equal_spec in H as [_ <-]|].
    destruct (lookup_item sc s a c) eqn:Hl; apply pair_equal_spec in H as [H <-]; [by rewrite Hl|congruence].
Defined.

Definition fresh_keychains : Keychains := mkKeychains ∅ false.
Definition svc : bytes := DEFAULT_SERVICE.
Definition acct : bytes := DEFAULT_ACCOUNT.
Definition k1 : bytes := replicate 32 1.
Definition k2 : bytes := replicate 32 2.
(** Both processes look, then both add: the second finds the duplicate. *)
Definition stepped (p : KeyPhase) (fresh : bytes) (c : Keychains) : KeyPhase * Keychains :=
  key_step LoginKeychain svc acct fresh p c.
Definition raced : Keychains := (stepped Adding k2 fresh_keychains).2.
Lemma race1 : rtc (moves LoginKeychain svc acct) (starting [k1; k2], fresh_keychains)
  ([mkProcess k1 (Finished (Ok k2)); mkProcess k2 (Finished (Ok k2))], raced).
Proof.
  eapply rtc_l; [by apply (process_moves _ _ _ 0%nat (mkProcess k1 Finding) Adding _ fresh_keychains fresh_keychains)|].
  eapply rtc_l; [by apply (process_moves _ _ _ 1%nat (mkProcess k2 Finding) Adding _ fresh_keychains fresh_keychains)|].
  eapply rtc_l; [by apply (process_moves _ _ _ 1%nat (mkProcess k2 Adding) (Finished (Ok k2)) _ fresh_keychains raced)|].
  eapply rtc_l; [by apply (process_moves _ _ _ 0%nat (mkProcess k1 Adding) Refinding _ raced raced)|].
  eapply rtc_l; [by apply (process_moves _ _ _ 0%nat (mkProcess k1 Refinding) (Finished (Ok k2)) _ raced raced)|].
  apply rtc_refl.
Qed.
Lemma wrapping_keys_agree_witness : key_at LoginKeychain svc acct raced = Some k2 /\ k2 ∈ [k1; k2].
Proof.
  destruct (wrapping_keys_agree LoginKeychain svc acct [k1; k2] fresh_keychains _ raced race1) as (_ & H & _).
  destruct (H (mkProcess k1 (Finished (Ok k2))) k2) as [H1 H2]; [by left|reflexivity|].
  split; [exact H1|exact H2].
Defined.

(** An unentitled binary gets the login keychain, and the probe changes nothing. *)
Example falls_back : platform_default fresh_keychains = (Ok LoginKeychain, fresh_keychains) /\
  platform_default (mkKeychains ∅ true) = (Ok DataProtection, mkKeychains ∅ true).
Proof. split; reflexivity. Qed.
Example refused_elsewhere : (open_keystore_sealer (B := NoBackend) svc acct k1 tt).1 = Err Unavailable.
Proof. reflexivity. Qed.
Example malformed_kept : let c := mkKeychains {[coordinates LoginKeychain svc acct := [1; 2; 3]]} false in
  wrapping_key LoginKeychain svc acct k1 c = (Err MalformedKey, c).
Proof. reflexivity. Qed.

(** A hardware root that encrypts with the toy cipher. *)
#[export] Instance toy_root : HardwareRoot AeadSealer Keychains := {
  root_open _ _ c := (Ok sealer1, c);
  root_seal r _ pt := match aead_encrypt (as_key r) draw1 [] pt with Some ct => Ok ct | None => Err (Platform 0) end;
  root_unseal r ct := match aead_decrypt (as_key r) draw1 [] ct with Some pt => Ok pt | None => Err (Platform 0) end;
  root_forget _ _ c := (Ok false, c);
  root_backend := lit "toy"
}.
#[export] Instance toy_root_laws : RootLaws (R := AeadSealer) (C := Keychains).
Proof.
  split; cbn [root_seal root_unseal toy_root].
  - intros r draw pt Hb Hl. destruct (aead_correct (as_key r) draw1 [] pt (proj1 (array_b_true _ _) (as_key_len r)) draw1_ok Hb)
      as (ct & -> & H1 & H2 & H3); [unfold MAX_RECORD_BYTES, AEAD_MAX in *; lia|].
    exists ct. rewrite H3. split; [done|]. split; [done|]. split; [lia|done].
  - intros r ct pt. destruct (aead_decrypt _ _ _ _) as [x|] eqn:Hx; [|done]. intros [= <-]. by apply aead_open_len in Hx as [_ ?].
Qed.
Definition vault_call (io : WriteIo) (key : bytes) : VaultCall := mkVaultCall true io draw1 key.
Lemma vault_call1 io x : u8 x -> vault_call_ok (vault_call io (replicate 32 x)).
Proof. intros Hx. split; [exact draw1_ok|by apply (array_replicate 32)]. Qed.
Lemma vault_key_created_once_witness : exists s, as_key (hs_inner s) = k2 /\
  (open_vaults (C := Keychains) sealer1 [vault_call no_rename k1; vault_call all_ok k2; vault_call all_ok k1] empty).1
    = [Err (Platform 0); Ok s; Ok s].
Proof.
  destruct (vault_key_created_once (C := Keychains) sealer1 empty [vault_call no_rename k1] (vault_call all_ok k2) [vault_call all_ok k1])
    as [(s & H1 & _ & H2) _].
  - by left.
  - reflexivity.
  - constructor; [by apply vault_call1|]. constructor; [by apply vault_call1|]. constructor; [by apply vault_call1|constructor].
  - by repeat constructor.
  - reflexivity.
  - exists s. split; [exact H1|exact H2].
Defined.

(** Two processes open the vault of one empty directory at the same time: both
    find nothing and both write.  The one whose key is overwritten goes on
    sealing under it, and after a restart its identity no longer opens. *)
Definition loser : FileState := (mint_vault (C := Keychains) sealer1 all_ok draw1 k1 empty).2.
Definition winner : FileState := (mint_vault (C := Keychains) sealer1 all_ok draw1 k2 loser).2.
Definition hardware_store (s : HardwareSealer) : DeviceStore HardwareSealer := with_sealer default_store s HardwareKeystore.
Example vault_race_locks_out :
  load_vault (C := Keychains) sealer1 true empty = Ok None /\
  exists s1 s2, (mint_vault (C := Keychains) sealer1 all_ok draw1 k1 empty).1 = Ok s1 /\
    load_vault (C := Keychains) sealer1 true winner = Ok (Some s2) /\ as_key (hs_inner s2) = k2 /\
    let '(r, f) := load_or_create_identity (hardware_store s1) true all_ok k1 draw1 1000 empty in
    (exists i, r = Ok (i, false)) /\
    (load_or_create_identity (hardware_store s2) true all_ok k1 draw1 1000 f).1 = Err Seal.
Proof.
  split; [reflexivity|]. exists (mkHardware (mkAead k1 HardwareKeystore eq_refl)), (mkHardware (mkAead k2 HardwareKeystore eq_refl)).
  split; [vm_compute; reflexivity|]. split; [vm_compute; reflexivity|]. split; [reflexivity|].
  vm_compute. split; [eexists; reflexivity|reflexivity].
Qed.
(** The associated data of a record does not reach the hardware root: what was
    sealed for another domain opens as a vault key once the checksum, which
    has no key, is recomputed. *)
Example vault_domain_not_bound : exists sealed,
  seal (mkEcies sealer1) draw1 k1 (record_aad IDENTITY_DOMAIN Plaintext) = Ok sealed /\
  unseal VAULT_KEY_DOMAIN (mkEcies sealer1) HardwareKeystore (file_of VAULT_KEY_DOMAIN HardwareKeystore sealed) = Ok k1.
Proof. eexists. split; [vm_compute; reflexivity|vm_compute; reflexivity]. Qed.
End KeystoreWitness.
