(* ===== verification/Keychain.v ===== *)
(** * The macOS backend in full (keystore.rs, module [imp])

    The CoreFoundation objects behind the keychain calls of [Keystore]: every
    created object is a reference the code owns and must release exactly once,
    on every path.  The heap holds the live references; using or releasing a
    dead one is undefined behaviour and a [Panic] here.  The framework is a
    class over the dictionaries it is given, and [Keystore]'s view of it, by
    scope and coordinates, is derived from that. *)

From stdpp Require Import gmap.
From S2P Require Import Prelude Cbor Wire Crypto Identity Store Keystore.
#[local] Open Scope Z_scope.

(** ** Objects and references *)
(** The constants of the frameworks the queries use. *)
Inductive Attr : Type :=
| SecClass | AttrService | AttrAccount | AttrAccessible | ValueData | ReturnData | ReturnRef | MatchLimit | MatchSearchList
| UseKeychain | UseDataProtectionKeychain | AttrKeyType | AttrKeySizeInBits | AttrTokenID | PrivateKeyAttrs | AttrIsPermanent
| AttrApplicationTag | AttrAccessControl.
#[export] Instance Attr_eq_dec : EqDecision Attr.
Proof. solve_decision. Defined.
Inductive Constant : Type :=
| ClassGenericPassword | ClassKey | BooleanTrue | MatchLimitOne | AfterFirstUnlockThisDeviceOnly | ECSECPrimeRandom | TokenIDSecureEnclave.
(** A keychain and a key are named by a number. *)
Inductive CfObject : Type :=
| CfConstant (c : Constant)
| CfString (s : bytes)
| CfBytes (b : bytes)
| CfNumber (n : Z)
| CfArray (l : list CfObject)
| CfDictionary (l : list (Attr * CfObject))
| CfAccess (protection : Constant) (flags : Z)
| CfKeychain (k : Z)
| CfKey (k : Z) (private : bool)
| CfError (code : Z).

(** The live references, the next one, and the platform. *)
Record Cf (C : Type) : Type := mkCf { live : gmap nat CfObject; next_ref : nat; platform : C }.
Arguments mkCf {C}.
Arguments live {C}.
Arguments next_ref {C}.
Arguments platform {C}.
Definition set_live {C} (h : gmap nat CfObject) (s : Cf C) : Cf C := mkCf h (next_ref s) (platform s).
Definition set_platform {C} (c : C) (s : Cf C) : Cf C := mkCf (live s) (next_ref s) c.

(** Which objects CoreFoundation creates: a [Create] function may return NULL. *)
Class CoreFoundation : Type := { creates : CfObject -> bool }.
(** Security.framework on dictionaries.  A lookup returns its object with
    [errSecSuccess] only; a failed key operation returns an error object or
    NULL, here its code. *)
Class KeychainServices (C : Type) : Type := {
  sec_copy_matching : CfObject -> C -> Z * option CfObject;
  sec_add : CfObject -> C -> Z * C;
  sec_delete : CfObject -> C -> Z * C;
  sec_keychain_create : bytes -> bytes -> C -> Z * option CfObject * C;
  sec_keychain_delete : CfObject -> C -> C;
  sec_create_random_key : CfObject -> C -> (CfObject + option Z) * C
}.
Class KeyOperations : Type := {
  sec_access_control : Constant -> Z -> CfObject + option Z;
  sec_copy_public_key : CfObject -> option CfObject;
  sec_encrypt : CfObject -> bytes -> bytes -> bytes + option Z;
  sec_decrypt : CfObject -> bytes -> bytes + option Z
}.

Section Refs.
Context {C : Type} {CF : CoreFoundation}.
Abbreviation Op := (Action (Cf C) KeystoreError).

Definition fails {A} (e : KeystoreError) : Op A := from_result (Err e).
Definition undefined_behaviour {A} : Op A := from_result Panic.
(** A new reference to an object the framework hands over. *)
Definition receive (o : CfObject) : Op nat := fun s =>
  (Ok (next_ref s), mkCf (<[next_ref s := o]> (live s)) (S (next_ref s)) (platform s)).
(** The object a reference passed to a call refers to. *)
Definition object (r : nat) : Op CfObject := fun s =>
  (match live s !! r with Some o => Ok o | None => Panic end, s).
(** [CFRelease].  keystore.rs 516-518 [CfRef::drop] *)
Definition release (r : nat) : Op unit := fun s =>
  match live s !! r with
  | Some _ => (Ok tt, set_live (base.delete r (live s)) s)
  | None => (Panic, s)
  end.
Fixpoint release_all (rs : list nat) : Op unit :=
  match rs with
  | [] => done_with tt
  | r :: rest => release r ;~ release_all rest
  end.
(** The end of a scope that owns [rs], reached in any way. *)
Definition scope {A} (rs : list nat) (m : Op A) : Op A := fun s =>
  match m s with
  | (Ok a, s') => (release_all rs ;~ done_with a) s'
  | (Err e, s') => (release_all rs ;~ fails e) s'
  | (Panic, s') => (Panic, s')
  end.
(** An early return by [?] from a scope that owns [rs]. *)
Definition or_drop {A} (rs : list nat) (m : Op A) : Op A := fun s =>
  match m s with
  | (Ok a, s') => (Ok a, s')
  | (Err e, s') => (release_all rs ;~ fails e) s'
  | (Panic, s') => (Panic, s')
  end.
(** A [Create] function under [CfRef::new].
    keystore.rs 503-508 [CfRef::new] *)
Definition create (o : CfObject) : Op nat := if creates o then receive o else fails (Platform 0).
(** The same for an object that a call may have returned. *)
Definition new_ref (o : option CfObject) : Op nat := match o with Some x => receive x | None => fails (Platform 0) end.
(** keystore.rs 521-532 [cf_string] *)
Definition cf_string (value : bytes) : Op nat := create (CfString value).
(** keystore.rs 534-538 [cf_data] *)
Definition cf_data (value : bytes) : Op nat := create (CfBytes value).
(** keystore.rs 981-990 [cf_data_bytes] *)
Definition cf_data_bytes (r : nat) : Op bytes :=
  o <~ object r ;; match o with CfBytes b => done_with b | _ => undefined_behaviour end.
(** The code of an error object, which is released.
    keystore.rs 799-806 [cf_error_code] *)
Definition cf_error_code (e : option Z) : Op Z :=
  match e with
  | None => done_with 0
  | Some code => r <~ receive (CfError code) ;; o <~ object r ;; release r ;~
      match o with CfError c => done_with c | _ => undefined_behaviour end
  end.

(** ** Dictionaries *)
Inductive Slot : Type := Fixed (c : Constant) | Ref (r : nat).
(** keystore.rs 543-547 [Dict] *)
Record Dict : Type := mkDict { entries : list (Attr * Slot); owned : list nat }.
Definition empty_dict : Dict := mkDict [] [].
(** keystore.rs 551-554 [Dict::borrowed] *)
Definition with_borrowed (k : Attr) (v : Slot) (d : Dict) : Dict := mkDict (entries d ++ [(k, v)]) (owned d).
(** keystore.rs 557-561 [Dict::owned] *)
Definition with_owned (k : Attr) (r : nat) (d : Dict) : Dict := mkDict (entries d ++ [(k, Ref r)]) (owned d ++ [r]).
Fixpoint objects_of (es : list (Attr * Slot)) : Op (list (Attr * CfObject)) :=
  match es with
  | [] => done_with []
  | (k, Fixed c) :: rest => l <~ objects_of rest ;; done_with ((k, CfConstant c) :: l)
  | (k, Ref r) :: rest => o <~ object r ;; l <~ objects_of rest ;; done_with ((k, o) :: l)
  end.
(** keystore.rs 563-575 [Dict::build] *)
Definition build (d : Dict) : Op nat := l <~ objects_of (entries d) ;; create (CfDictionary l).
(** A reference made under [?] while a dictionary is being filled. *)
Definition owning (d : Dict) (k : Attr) (m : Op nat) : Op Dict := r <~ or_drop (owned d) m ;; done_with (with_owned k r d).
End Refs.

(** ** The keychain backend *)
Section MacOs.
Context {C : Type} {CF : CoreFoundation} {KS : KeychainServices C} {KO : KeyOperations}.
Abbreviation Op := (Action (Cf C) KeystoreError).

(** A query is built and passed on; [rs] is what the scope around it owns. *)
Definition with_query {A} (rs : list nat) (d : Dict) (call : CfObject -> Op A) : Op A :=
  scope rs (query <~ build d ;; scope [query] (q <~ object query ;; call q)).
Definition platform_call {A} (f : C -> A * C) : Op A := fun s =>
  let '(a, c) := f (platform s) in (Ok a, set_platform c s).
Definition copy_matching_of (q : CfObject) : Op (Z * option CfObject) := platform_call (fun c => (sec_copy_matching q c, c)).

(** [temp] is the reference of a [TempKeychain].  keystore.rs 591-595 [Backend] *)
Record MacBackend : Type := mkBackend { mb_scope : Scope; mb_temp : option nat }.
(** The dictionary, and what lives as long as it.
    keystore.rs 646-694 [Backend::base_query] *)
Definition base_query (b : MacBackend) (service account : bytes) (searching : bool) : Op (Dict * list nat) :=
  d1 <~ owning (with_borrowed SecClass (Fixed ClassGenericPassword) empty_dict) AttrService (cf_string service) ;;
  d2 <~ owning d1 AttrAccount (cf_string account) ;;
  match mb_scope b with
  | DataProtection => done_with (with_borrowed UseDataProtectionKeychain (Fixed BooleanTrue) d2, [])
  | LoginKeychain => done_with (d2, [])
  | TemporaryKeychain =>
    keychain <~ or_drop (owned d2) (match mb_temp b with Some k => done_with k | None => fails Unavailable end) ;;
    if searching then
      array <~ or_drop (owned d2) (o <~ object keychain ;; create (CfArray [o])) ;;
      done_with (with_borrowed MatchSearchList (Ref array) d2, [array])
    else done_with (with_borrowed UseKeychain (Ref keychain) d2, [])
  end.
(** keystore.rs 696-740 [Backend::find] *)
Definition find_in (b : MacBackend) (service account : bytes) : Op (option bytes) :=
  '(d, extra) <~ base_query b service account true ;;
  let d := with_borrowed MatchLimit (Fixed MatchLimitOne) (with_borrowed ReturnData (Fixed BooleanTrue) d) in
  with_query (extra ++ owned d) d (fun q =>
    '(status, found) <~ copy_matching_of q ;;
    if status =? ERR_SEC_SUCCESS then
      data <~ new_ref found ;;
      scope [data] (
        o <~ object data ;;
        match o with
        | CfBytes key => if negb (len key =? WRAPPING_KEY_LEN) then fails MalformedKey else done_with (Some key)
        | _ => fails MalformedKey
        end)
    else if status =? ITEM_NOT_FOUND then done_with None
    else fails (Platform status)).
(** keystore.rs 742-765 [Backend::add] *)
Definition add_to (b : MacBackend) (service account key : bytes) : Op unit :=
  '(d, extra) <~ base_query b service account false ;;
  data <~ or_drop (extra ++ owned d) (cf_data key) ;;
  let d := with_owned ValueData data d in
  let d := match mb_scope b with
           | DataProtection => with_borrowed AttrAccessible (Fixed AfterFirstUnlockThisDeviceOnly) d
           | _ => d
           end in
  with_query (extra ++ owned d) d (fun q =>
    status <~ platform_call (sec_add q) ;;
    if negb (status =? ERR_SEC_SUCCESS) then fails (Platform status) else done_with tt).
(** keystore.rs 767-779 [Backend::delete] *)
Definition delete_from (b : MacBackend) (service account : bytes) : Op bool :=
  '(d, extra) <~ base_query b service account true ;;
  with_query (extra ++ owned d) d (fun q =>
    status <~ platform_call (sec_delete q) ;;
    if status =? ERR_SEC_SUCCESS then done_with true
    else if status =? ITEM_NOT_FOUND then done_with false
    else fails (Platform status)).
(** keystore.rs 603-624 [Backend::platform_default] *)
Definition default_backend : Op MacBackend := fun s =>
  let probe := mkBackend DataProtection None in
  match delete_from probe (lit "com.reyta.rtp2.entitlement-probe") (lit "probe") s with
  | (Ok _, s') => (Ok probe, s')
  | (Err (Platform _), s') => (Ok (mkBackend LoginKeychain None), s')
  | (Err e, s') => (Err e, s')
  | (Panic, s') => (Panic, s')
  end.
(** [path] and [password] are drawn; a path with a NUL byte is refused.
    keystore.rs 992-1025 [create_temp_keychain] *)
Definition create_temp_keychain (path password : bytes) : Op nat :=
  if existsb (Z.eqb 0) path then fails InvalidLabel else
  '(status, keychain) <~ platform_call (fun c => sec_keychain_create path password c) ;;
  if negb (status =? ERR_SEC_SUCCESS) then fails (Platform status) else
  new_ref keychain.
(** [SecKeychainDelete] and the removal of its file are one platform call.
    keystore.rs 585-588 [TempKeychain::drop] *)
Definition drop_temp_keychain (r : nat) : Op unit :=
  o <~ object r ;; platform_call (fun c => (tt, sec_keychain_delete o c)) ;~ release r.
(** keystore.rs 626-634 [Backend::with_scope] *)
Definition backend_with_scope (sc : Scope) (path password : bytes) : Op MacBackend :=
  match sc with
  | DataProtection | LoginKeychain => done_with (mkBackend sc None)
  | TemporaryKeychain => r <~ create_temp_keychain path password ;; done_with (mkBackend sc (Some r))
  end.
(** The end of a backend's life. *)
Definition drop_backend (b : MacBackend) : Op unit :=
  match mb_temp b with Some r => drop_temp_keychain r | None => done_with tt end.

(** ** The Secure Enclave root *)
(** keystore.rs 810-812 [hardware_tag] *)
Definition hardware_tag (service account : bytes) : bytes := service ++ lit "/" ++ account ++ lit "/hardware-root-v1".
Definition key_query (tag : bytes) (more : list (Attr * Slot)) : Op Dict :=
  owning (mkDict ([(SecClass, Fixed ClassKey); (AttrKeyType, Fixed ECSECPrimeRandom)] ++ more) []) AttrApplicationTag (cf_data tag).
(** keystore.rs 824-845 [HardwareRoot::find] *)
Definition find_root (tag : bytes) : Op (option nat) :=
  d <~ key_query tag [(ReturnRef, Fixed BooleanTrue); (MatchLimit, Fixed MatchLimitOne)] ;;
  with_query (owned d) d (fun q =>
    '(status, found) <~ copy_matching_of q ;;
    if status =? ERR_SEC_SUCCESS then r <~ new_ref found ;; done_with (Some r)
    else if status =? ITEM_NOT_FOUND then done_with None
    else fails (Platform status)).
(** What a failed call left behind, as an error. *)
Definition fails_with {A} (e : option Z) : Op A := code <~ cf_error_code e ;; fails (Platform code).
(** keystore.rs 381-381 [ACCESS_CONTROL_PRIVATE_KEY_USAGE] *)
Definition ACCESS_CONTROL_PRIVATE_KEY_USAGE : Z := 2 ^ 30.
(** keystore.rs 847-908 [HardwareRoot::create] *)
Definition create_root (tag : bytes) : Op nat :=
  match sec_access_control AfterFirstUnlockThisDeviceOnly ACCESS_CONTROL_PRIVATE_KEY_USAGE with
  | inr e => fails_with e
  | inl a =>
    access <~ receive a ;;
    scope [access] (
      private <~ owning (mkDict [(AttrIsPermanent, Fixed BooleanTrue); (AttrAccessControl, Ref access)] []) AttrApplicationTag (cf_data tag) ;;
      scope (owned private) (
        private_attrs <~ build private ;;
        scope [private_attrs] (
          size <~ create (CfNumber 256) ;;
          scope [size] (
            with_query [] (mkDict [(AttrKeyType, Fixed ECSECPrimeRandom); (AttrTokenID, Fixed TokenIDSecureEnclave);
                                   (AttrKeySizeInBits, Ref size); (PrivateKeyAttrs, Ref private_attrs)] []) (fun q =>
              key <~ platform_call (sec_create_random_key q) ;;
              match key with inr e => fails_with e | inl k => receive k end)))))
  end.
(** keystore.rs 816-822 [HardwareRoot::open] *)
Definition open_root (service account : bytes) : Op nat :=
  let tag := hardware_tag service account in
  found <~ find_root tag ;;
  match found with Some key => done_with key | None => create_root tag end.
(** [draw] is the randomness of the encryption.
    keystore.rs 912-934 [HardwareRoot::seal] *)
Definition seal_with_root (private_key : nat) (draw plaintext : bytes) : Op bytes :=
  k <~ object private_key ;;
  public <~ new_ref (sec_copy_public_key k) ;;
  scope [public] (
    data <~ cf_data plaintext ;;
    scope [data] (
      p <~ object public ;;
      b <~ cf_data_bytes data ;;
      match sec_encrypt p draw b with
      | inr e => fails_with e
      | inl x => sealed <~ receive (CfBytes x) ;; scope [sealed] (cf_data_bytes sealed)
      end)).
(** keystore.rs 938-957 [HardwareRoot::unseal] *)
Definition unseal_with_root (private_key : nat) (sealed : bytes) : Op bytes :=
  data <~ cf_data sealed ;;
  scope [data] (
    k <~ object private_key ;;
    b <~ cf_data_bytes data ;;
    match sec_decrypt k b with
    | inr e => fails_with e
    | inl x => opened <~ receive (CfBytes x) ;; scope [opened] (cf_data_bytes opened)
    end).
(** keystore.rs 961-978 [HardwareRoot::forget] *)
Definition forget_root (service account : bytes) : Op bool :=
  d <~ key_query (hardware_tag service account) [] ;;
  with_query (owned d) d (fun q =>
    status <~ platform_call (sec_delete q) ;;
    if status =? ERR_SEC_SUCCESS then done_with true
    else if status =? ITEM_NOT_FOUND then done_with false
    else fails (Platform status)).
End MacOs.

(** ** Symbolic runs *)
Section Runs.
Context {C : Type} {CF : CoreFoundation} {KS : KeychainServices C} {KO : KeyOperations}.
Abbreviation Op := (Action (Cf C) KeystoreError).
Abbreviation Heap := (gmap nat CfObject).
(** References not made yet are not live. *)
Definition cf_wf (s : Cf C) : Prop := forall r, (next_ref s <= r)%nat -> live s !! r = None.
(** From heap [h] and platform [c], [m] ends as [Q] says. *)
Definition runs {A} (m : Op A) (Q : result KeystoreError A -> C -> Heap -> Prop) (c : C) (h : Heap) : Prop :=
  forall s, cf_wf s -> live s = h -> platform s = c ->
  cf_wf (m s).2 /\ Q (m s).1 (platform (m s).2) (live (m s).2).
Lemma runs_andthen {A D} (m : Op A) (k : A -> Op D) Q c h :
  runs m (fun r c' h' => match r with Ok a => runs (k a) Q c' h' | Err e => Q (Err e) c' h' | Panic => Q Panic c' h' end) c h ->
  runs (andthen m k) Q c h.
Proof.
  intros Hm s Hw Hl Hc. destruct (Hm s Hw Hl Hc) as [Hw' HQ]. unfold andthen.
  destruct (m s) as [[a|e|] s']; cbn [fst snd] in *; [by apply HQ|done..].
Qed.
Lemma runs_result {A} (r : result KeystoreError A) (Q : _ -> _ -> _ -> Prop) c h : Q r c h -> runs (from_result r) Q c h.
Proof. intros HQ s Hw <- <-. done. Qed.
Lemma runs_done {A} (a : A) (Q : _ -> _ -> _ -> Prop) c h : Q (Ok a) c h -> runs (done_with a) Q c h.
Proof. intros HQ s Hw <- <-. done. Qed.
Lemma runs_receive o (Q : _ -> _ -> _ -> Prop) c h : (forall r, h !! r = None -> Q (Ok r) c (<[r := o]> h)) -> runs (receive o) Q c h.
Proof.
  intros HQ s Hw <- <-. cbn. split; [|by apply HQ, Hw]. intros r Hr. cbn in *. rewrite lookup_insert_ne by lia. apply Hw. lia.
Qed.
Lemma runs_create o (Q : _ -> _ -> _ -> Prop) c h : (creates o = true -> forall r, h !! r = None -> Q (Ok r) c (<[r := o]> h)) ->
  (creates o = false -> Q (Err (Platform 0)) c h) -> runs (create o) Q c h.
Proof. intros H1 H2. unfold create. destruct (creates o); [by apply runs_receive, H1|by apply runs_result, H2]. Qed.
Lemma runs_object r o (Q : _ -> _ -> _ -> Prop) c h : h !! r = Some o -> Q (Ok o) c h -> runs (object r) Q c h.
Proof. intros Ho HQ s Hw <- <-. unfold object. cbn. by rewrite Ho. Qed.
Lemma runs_release r o (Q : _ -> _ -> _ -> Prop) c h : h !! r = Some o -> Q (Ok tt) c (base.delete r h) -> runs (release r) Q c h.
Proof.
  intros Ho HQ s Hw <- <-. unfold release. rewrite Ho. cbn. split; [|done]. intros r' Hr. cbn. apply lookup_delete_None. right. by apply Hw.
Qed.
Lemma runs_platform {A} (f : C -> A * C) (Q : _ -> _ -> _ -> Prop) c h : Q (Ok (f c).1) (f c).2 h -> runs (platform_call f) Q c h.
Proof. intros HQ s Hw <- <-. unfold platform_call. by destruct (f (platform s)). Qed.

Definition drops (rs : list nat) (h : Heap) : Heap := foldl (fun h r => base.delete r h) h rs.
Fixpoint droppable (rs : list nat) (h : Heap) : Prop :=
  match rs with [] => True | r :: rest => is_Some (h !! r) /\ droppable rest (base.delete r h) end.
Lemma runs_release_all rs (Q : _ -> _ -> _ -> Prop) c h : droppable rs h -> Q (Ok tt) c (drops rs h) -> runs (release_all rs) Q c h.
Proof.
  revert h. induction rs as [|r rs IH]; intros h Hd HQ; cbn [release_all]; [by apply runs_done|].
  destruct Hd as [[o Ho] Hd]. apply runs_andthen, (runs_release r o); [done|]. by apply IH.
Qed.
Lemma runs_after {A} rs (r : result KeystoreError A) (Q : _ -> _ -> _ -> Prop) c h : droppable rs h -> Q r c (drops rs h) ->
  runs (release_all rs ;~ from_result r) Q c h.
Proof. intros Hd HQ. by apply runs_andthen, runs_release_all, runs_result. Qed.
Lemma runs_scope {A} rs (m : Op A) (Q : _ -> _ -> _ -> Prop) c h :
  runs m (fun r c' h' => r <> Panic /\ droppable rs h' /\ Q r c' (drops rs h')) c h -> runs (scope rs m) Q c h.
Proof.
  intros Hm s Hw Hl Hc. destruct (Hm s Hw Hl Hc) as (Hw' & Hp & Hd & HQ). unfold scope.
  destruct (m s) as [[a|e|] s']; cbn [fst snd] in *; [| |done].
  - exact (runs_after rs (Ok a) Q _ _ Hd HQ s' Hw' eq_refl eq_refl).
  - exact (runs_after rs (Err e) Q _ _ Hd HQ s' Hw' eq_refl eq_refl).
Qed.
Lemma runs_or_drop {A} rs (m : Op A) (Q : _ -> _ -> _ -> Prop) c h :
  runs m (fun r c' h' => match r with Ok a => Q (Ok a) c' h' | Err e => droppable rs h' /\ Q (Err e) c' (drops rs h') | Panic => False end) c h ->
  runs (or_drop rs m) Q c h.
Proof.
  intros Hm s Hw Hl Hc. destruct (Hm s Hw Hl Hc) as (Hw' & HQ). unfold or_drop.
  destruct (m s) as [[a|e|] s']; cbn [fst snd] in *; [done| |done]. destruct HQ as [Hd HQ].
  exact (runs_after rs (Err e) Q _ _ Hd HQ s' Hw' eq_refl eq_refl).
Qed.
Lemma runs_weaken {A} (m : Op A) (P Q : _ -> _ -> _ -> Prop) c h : runs m P c h -> (forall r c' h', P r c' h' -> Q r c' h') -> runs m Q c h.
Proof. intros Hm HPQ s Hw Hl Hc. destruct (Hm s Hw Hl Hc). auto. Qed.
Lemma runs_error_code e (Q : _ -> _ -> _ -> Prop) c h : Q (Ok (default 0 e)) c h -> runs (cf_error_code e) Q c h.
Proof.
  intros HQ. destruct e as [code|]; [|by apply runs_done]. cbn [cf_error_code]. apply runs_andthen, runs_receive. intros r Hr.
  apply runs_andthen, (runs_object r (CfError code)); [by rewrite lookup_insert_eq|].
  apply runs_andthen, (runs_release r (CfError code)); [by rewrite lookup_insert_eq|]. apply runs_done. by rewrite delete_insert_id.
Qed.
Lemma runs_fails_with {A} e (Q : _ -> _ -> _ -> Prop) c h : Q (Err (Platform (default 0 e))) c h -> runs (fails_with (A := A) e) Q c h.
Proof. intros HQ. by apply runs_andthen, runs_error_code, runs_result. Qed.

(** ** Owned references *)
(** What is live afterwards: what was, and the reference that is returned, to
    an object that [P] describes. *)
Definition leaves_of {A} (own : A -> option nat) (P : CfObject -> C -> Prop) (R : result KeystoreError A -> C -> Prop) (h : Heap)
  : result KeystoreError A -> C -> Heap -> Prop := fun r c' h' =>
  R r c' /\
  match r with
  | Ok a => match own a with None => h' = h | Some x => h !! x = None /\ exists o, h' = <[x := o]> h /\ P o c' end
  | Err _ => h' = h
  | Panic => False
  end.
Abbreviation leaves own R := (leaves_of own (fun _ _ => True) R).
Definition nothing {A} (_ : A) : option nat := None.
Lemma drops_insert rs h x o : droppable rs h -> h !! x = None ->
  drops rs (<[x := o]> h) = <[x := o]> (drops rs h) /\ drops rs h !! x = None /\ droppable rs (<[x := o]> h).
Proof.
  revert h. induction rs as [|r rs IH]; intros h Hd Hx; [done|]. destruct Hd as [[y Hy] Hd].
  assert (Hne : r <> x) by congruence. cbn [drops foldl droppable]. rewrite delete_insert_ne by done.
  destruct (IH (base.delete r h) Hd) as (H1 & H2 & H3); [by rewrite lookup_delete_ne|].
  split; [exact H1|]. split; [exact H2|]. split; [|exact H3]. rewrite lookup_insert_ne by done. by exists y.
Qed.
Lemma leaves_drop {A} own P R rs h (r : result KeystoreError A) c' h' : droppable rs h -> leaves_of own P R h r c' h' ->
  r <> Panic /\ droppable rs h' /\ leaves_of own P R (drops rs h) r c' (drops rs h').
Proof.
  intros Hd [HR Hl]. unfold leaves. destruct r as [a|e|]; [| |done].
  - split; [done|]. destruct (own a) as [x|]; [|by subst h']. destruct Hl as [Hx (o & -> & HP)].
    destruct (drops_insert rs h x o Hd Hx) as (H1 & H2 & H3). split; [exact H3|]. split; [exact HR|]. split; [exact H2|]. by exists o.
  - subst h'. by split.
Qed.
Lemma runs_scope_leaves {A} rs (m : Op A) own P R c h : droppable rs h -> runs m (leaves_of own P R h) c h ->
  runs (scope rs m) (leaves_of own P R (drops rs h)) c h.
Proof. intros Hd Hm. apply runs_scope. eapply runs_weaken; [exact Hm|]. intros r c' h'. by apply leaves_drop. Qed.
Lemma drop_fresh x o (h : Heap) : h !! x = None -> drops [x] (<[x := o]> h) = h.
Proof. intros Hx. cbn. by rewrite delete_insert_id. Qed.
(** A reference that lives for one scope. *)
Lemma runs_using {A} x o (m : Op A) own P R c (h : Heap) : h !! x = None ->
  runs m (leaves_of own P R (<[x := o]> h)) c (<[x := o]> h) -> runs (scope [x] m) (leaves_of own P R h) c (<[x := o]> h).
Proof.
  intros Hx Hk. rewrite <- (drop_fresh x o h Hx) at 1. apply runs_scope_leaves; [|exact Hk]. split; [|done]. rewrite lookup_insert_eq. by eexists.
Qed.
Lemma runs_create_scope {A} o (k : nat -> Op A) own P R c h :
  (forall x, h !! x = None -> runs (k x) (leaves_of own P R (<[x := o]> h)) c (<[x := o]> h)) ->
  (creates o = false -> R (Err (Platform 0)) c) -> runs (x <~ create o ;; scope [x] (k x)) (leaves_of own P R h) c h.
Proof. intros Hk He. apply runs_andthen, runs_create; [intros _ x Hx; by apply runs_using, Hk|intros Hc; by split; [apply He|]]. Qed.
Lemma runs_receive_scope {A} o (k : nat -> Op A) own P R c h :
  (forall x, h !! x = None -> runs (k x) (leaves_of own P R (<[x := o]> h)) c (<[x := o]> h)) ->
  runs (x <~ receive o ;; scope [x] (k x)) (leaves_of own P R h) c h.
Proof. intros Hk. apply runs_andthen, runs_receive. intros x Hx. by apply runs_using, Hk. Qed.

(** Dictionaries: [rs] are the references to drop, which gives [h0] back, and
    [l] is what the entries refer to. *)
Definition slot_object (h : Heap) (s : Slot) : option CfObject := match s with Fixed c => Some (CfConstant c) | Ref r => h !! r end.
Definition resolves (h : Heap) (es : list (Attr * Slot)) (l : list (Attr * CfObject)) : Prop :=
  Forall2 (fun e x => e.1 = x.1 /\ slot_object h e.2 = Some x.2) es l.
Record filled (h0 : Heap) (rs : list nat) (d : Dict) (l : list (Attr * CfObject)) (h : Heap) : Prop := {
  fi_drops : droppable rs h /\ drops rs h = h0;
  fi_entries : resolves h (entries d) l
}.
Lemma resolves_insert h es l x o : h !! x = None -> resolves h es l -> resolves (<[x := o]> h) es l.
Proof.
  intros Hx H. eapply Forall2_impl; [exact H|]. intros [k [c|r]] [k' y] [H1 H2]; cbn in *; split; try done.
  rewrite lookup_insert_ne by congruence. done.
Qed.
Lemma resolves_snoc h es l k s o : resolves h es l -> slot_object h s = Some o -> resolves h (es ++ [(k, s)]) (l ++ [(k, o)]).
Proof. intros H1 H2. apply Forall2_app; [exact H1|]. by constructor. Qed.
Lemma filled_borrowed h0 rs d l h k s o : filled h0 rs d l h -> slot_object h s = Some o ->
  filled h0 rs (with_borrowed k s d) (l ++ [(k, o)]) h.
Proof. intros [H1 H2] Ho. split; [exact H1|]. by apply resolves_snoc. Qed.
Lemma filled_fresh h0 rs d l h x o : filled h0 rs d l h -> h !! x = None ->
  droppable (x :: rs) (<[x := o]> h) /\ drops (x :: rs) (<[x := o]> h) = h0 /\
  droppable (rs ++ [x]) (<[x := o]> h) /\ drops (rs ++ [x]) (<[x := o]> h) = h0 /\ resolves (<[x := o]> h) (entries d) l.
Proof.
  intros [[Hd Hb] Hr] Hx. destruct (drops_insert rs h x o Hd Hx) as (H1 & H2 & H3).
  assert (Happ : forall g, droppable rs g -> is_Some (drops rs g !! x) -> droppable (rs ++ [x]) g).
  { clear. induction rs as [|r rs IH]; intros g Hg Hx; [by split|]. destruct Hg as [Hg1 Hg2]. split; [exact Hg1|]. by apply IH. }
  split; [|split; [|split; [|split]]].
  - cbn. rewrite lookup_insert_eq, delete_insert_id by done. split; [by eexists|exact Hd].
  - cbn. by rewrite delete_insert_id.
  - apply Happ; [exact H3|]. rewrite H1, lookup_insert_eq. by eexists.
  - unfold drops in *. rewrite foldl_app. cbn. rewrite H1, delete_insert_id; done.
  - by apply resolves_insert.
Qed.
Lemma runs_objects es l (Q : _ -> _ -> _ -> Prop) c h : resolves h es l -> Q (Ok l) c h -> runs (objects_of es) Q c h.
Proof.
  intros Hr. revert Q. induction Hr as [|[k s] [k' o] es l [Hk Ho] _ IH]; intros Q HQ; cbn [objects_of]; [by apply runs_done|].
  cbn in Hk, Ho. subst k'. destruct s as [x|r].
  - injection Ho as <-. by apply runs_andthen, IH, runs_done.
  - by apply runs_andthen, (runs_object r o), runs_andthen, IH, runs_done.
Qed.
Definition short : Prop := exists o, creates o = false.
Lemma runs_build d l (Q : _ -> _ -> _ -> Prop) c h : resolves h (entries d) l ->
  (forall x, h !! x = None -> Q (Ok x) c (<[x := CfDictionary l]> h)) -> (short -> Q (Err (Platform 0)) c h) -> runs (build d) Q c h.
Proof. intros Hr H1 H2. apply runs_andthen, (runs_objects _ l); [done|]. apply runs_create; [intros _; exact H1|intros Hc; apply H2; by eexists]. Qed.
Lemma runs_with_query {A} rs d l (call : CfObject -> Op A) own P R c h0 h : filled h0 rs d l h ->
  (forall h', runs (call (CfDictionary l)) (leaves_of own P R h') c h') -> (short -> R (Err (Platform 0)) c) ->
  runs (with_query rs d call) (leaves_of own P R h0) c h.
Proof.
  intros [[Hd <-] Hr] Hc Hs. apply runs_scope_leaves; [exact Hd|]. apply runs_andthen, (runs_build d l); [done| |by intros; split; [apply Hs|]].
  intros x Hx. apply runs_using; [done|].
  apply runs_andthen, (runs_object x (CfDictionary l)); [by rewrite lookup_insert_eq|apply Hc].
Qed.
(** Filling a dictionary, where a failure drops what it owns. *)
Lemma runs_owning d l k o (Q : _ -> _ -> _ -> Prop) c h0 h : filled h0 (owned d) d l h ->
  (forall d' h', filled h0 (owned d') d' (l ++ [(k, o)]) h' -> Q (Ok d') c h') ->
  (short -> Q (Err (Platform 0)) c h0) -> runs (owning d k (create o)) Q c h.
Proof.
  intros Hf Hk Hs. unfold owning. apply runs_andthen, runs_or_drop, runs_create.
  - intros _ x Hx. apply runs_done, Hk. destruct (filled_fresh _ _ _ _ _ x o Hf Hx) as (_ & _ & H3 & H4 & H5).
    split; [by split|]. cbn [entries with_owned]. apply resolves_snoc; [exact H5|]. cbn. by rewrite lookup_insert_eq.
  - intros Hc. destruct Hf as [[Hd <-] _]. split; [exact Hd|]. apply Hs. by eexists.
Qed.
Lemma filled_empty h : filled h [] empty_dict [] h.
Proof. split; [done|constructor]. Qed.
Lemma drops_lookup rs (h : Heap) x o : drops rs h !! x = Some o -> h !! x = Some o.
Proof.
  revert h. induction rs as [|r rs IH]; intros h Hx; [done|]. apply IH in Hx. by apply lookup_delete_Some in Hx as [_ ?].
Qed.
Lemma filled_live h0 rs d l h x o : filled h0 rs d l h -> h0 !! x = Some o -> h !! x = Some o.
Proof. intros [[_ <-] _]. apply drops_lookup. Qed.

(** ** The dictionaries of the queries *)
(** The keychain of a temporary backend. *)
Definition backend_live (b : MacBackend) (keychain : CfObject) (h : Heap) : Prop :=
  mb_scope b = TemporaryKeychain -> exists k, mb_temp b = Some k /\ h !! k = Some keychain.
Definition selector (sc : Scope) (keychain : CfObject) (searching : bool) : list (Attr * CfObject) :=
  match sc with
  | DataProtection => [(UseDataProtectionKeychain, CfConstant BooleanTrue)]
  | LoginKeychain => []
  | TemporaryKeychain => if searching then [(MatchSearchList, CfArray [keychain])] else [(UseKeychain, keychain)]
  end.
Definition base_entries (sc : Scope) (keychain : CfObject) (service account : bytes) (searching : bool) : list (Attr * CfObject) :=
  [(SecClass, CfConstant ClassGenericPassword); (AttrService, CfString service); (AttrAccount, CfString account)]
  ++ selector sc keychain searching.
Lemma runs_base_query b keychain s a searching (Q : _ -> _ -> _ -> Prop) c h : backend_live b keychain h ->
  (forall d extra h', filled h (extra ++ owned d) d (base_entries (mb_scope b) keychain s a searching) h' -> Q (Ok (d, extra)) c h') ->
  (short -> Q (Err (Platform 0)) c h) -> runs (base_query b s a searching) Q c h.
Proof.
  intros Hb HQ Hs. unfold base_query. apply runs_andthen.
  apply (runs_owning _ [(SecClass, CfConstant ClassGenericPassword)] _ _ _ _ h); 
    [exact (filled_borrowed h [] empty_dict [] h SecClass (Fixed ClassGenericPassword) _ (filled_empty h) eq_refl)| |exact Hs].
  intros d1 h1 H1. apply runs_andthen. eapply runs_owning; [exact H1| |exact Hs]. intros d2 h2 H2. cbn [app] in H2.
  unfold backend_live, base_entries in *. destruct (mb_scope b).
  - apply runs_done, HQ. cbn [app selector]. by apply (filled_borrowed _ _ _ _ _ UseDataProtectionKeychain (Fixed BooleanTrue) _ H2).
  - apply runs_done, HQ. exact H2.
  - destruct (Hb eq_refl) as (k & Hk & Hkc). rewrite Hk. pose proof (filled_live _ _ _ _ _ _ _ H2 Hkc) as Hk2.
    apply runs_andthen, runs_or_drop, runs_done. destruct searching.
    + apply runs_andthen, runs_or_drop, runs_andthen, (runs_object _ keychain), runs_create; [exact Hk2| |].
      * intros _ x Hx. apply runs_done, HQ. destruct (filled_fresh _ _ _ _ _ x (CfArray [keychain]) H2 Hx) as (G1 & G2 & _ & _ & G5).
        split; [by split|]. apply (resolves_snoc _ _ _ MatchSearchList (Ref x)); [exact G5|]. cbn. by rewrite lookup_insert_eq.
      * intros Hc. destruct H2 as [[Hd <-] _]. split; [exact Hd|]. apply Hs. by eexists.
    + apply runs_done, HQ. by apply (filled_borrowed _ _ _ _ _ UseKeychain (Ref k) _ H2).
Qed.

(** [Keystore]'s view of the framework, for a temporary keychain [keychain]. *)
Definition lookup_query sc keychain s a : CfObject :=
  CfDictionary (base_entries sc keychain s a true ++ [(ReturnData, CfConstant BooleanTrue); (MatchLimit, CfConstant MatchLimitOne)]).
Definition insert_query sc keychain s a key : CfObject :=
  CfDictionary (base_entries sc keychain s a false ++ [(ValueData, CfBytes key)] ++
    match sc with DataProtection => [(AttrAccessible, CfConstant AfterFirstUnlockThisDeviceOnly)] | _ => [] end).
Definition delete_query sc keychain s a : CfObject := CfDictionary (base_entries sc keychain s a true).
Definition view (keychain : CfObject) (path password : bytes) : SecurityFramework C := {|
  copy_matching sc s a c :=
    let '(status, v) := sec_copy_matching (lookup_query sc keychain s a) c in
    (status, match v with Some (CfBytes b) => CfData b | _ => CfOther end);
  item_add sc s a key c := sec_add (insert_query sc keychain s a key) c;
  item_delete sc s a c := sec_delete (delete_query sc keychain s a) c;
  keychain_create c := let '(status, _, c') := sec_keychain_create path password c in (status, c')
|}.
(** A lookup that succeeds returns an object, and so does the creation of a
    keychain. *)
Class Documented : Prop := {
  found_object q c v : sec_copy_matching q c = (ERR_SEC_SUCCESS, v) -> is_Some v;
  created_object path password c v c' : sec_keychain_create path password c = (ERR_SEC_SUCCESS, v, c') -> is_Some v
}.
Context {D : Documented} (path password : bytes).

(** What [Keystore] says of an operation, or what happens when CoreFoundation
    cannot create an object: nothing reaches the keychain. *)
Definition as_viewed {A} (abstract : C -> result KeystoreError A * C) (c : C) (r : result KeystoreError A) (c' : C) : Prop :=
  (r, c') = abstract c \/ (r = Err (Platform 0) /\ c' = c /\ short).
Lemma short_viewed {A} (abstract : C -> result KeystoreError A * C) c : short -> as_viewed abstract c (Err (Platform 0)) c.
Proof. intros Hs. by right. Qed.
Lemma runs_find b keychain s a c h : backend_live b keychain h ->
  runs (find_in b s a) (leaves nothing (as_viewed (fun c => (find_item (F := view keychain path password) (mb_scope b) s a c, c)) c) h) c h.
Proof.
  intros Hb. unfold find_in. apply runs_andthen, (runs_base_query b keychain); [exact Hb| |by split; [apply short_viewed|]].
  intros d extra h' Hf. cbv zeta.
  pose proof (filled_borrowed _ _ _ _ _ MatchLimit (Fixed MatchLimitOne) _ (filled_borrowed _ _ _ _ _ ReturnData (Fixed BooleanTrue) _ Hf eq_refl) eq_refl) as Hf2.
  eapply (runs_with_query (extra ++ owned d)); [exact Hf2| |by apply short_viewed]. intros h2. rewrite <- app_assoc. cbn [app].
  change (CfDictionary _) with (lookup_query (mb_scope b) keychain s a).
  apply runs_andthen, runs_platform. cbn [fst snd]. unfold as_viewed, find_item. cbn [copy_matching view].
  destruct (sec_copy_matching _ c) as [status found] eqn:Hq.
  destruct (Z.eqb_spec status ERR_SEC_SUCCESS) as [->|Hne].
  - destruct (found_object _ _ _ Hq) as [v ->]. apply runs_receive_scope. intros x Hx.
    apply runs_andthen, (runs_object x v); [by rewrite lookup_insert_eq|].
    destruct v; try (apply runs_result; split; [by left|done]).
    destruct (negb _); [apply runs_result|apply runs_done]; (split; [by left|done]).
  - destruct (status =? ITEM_NOT_FOUND); [apply runs_done|apply runs_result]; (split; [by left|done]).
Qed.
Lemma runs_add b keychain s a key c h : backend_live b keychain h ->
  runs (add_to b s a key) (leaves nothing (as_viewed (add_item (F := view keychain path password) (mb_scope b) s a key) c) h) c h.
Proof.
  intros Hb. unfold add_to. apply runs_andthen, (runs_base_query b keychain); [exact Hb| |by split; [apply short_viewed|]].
  intros d extra h' Hf. apply runs_andthen, runs_or_drop, runs_create.
  2: { intros Hc. pose proof Hf as [[Hd <-] _]. split; [exact Hd|]. split; [apply short_viewed; by eexists|done]. }
  intros _ x Hx. cbv zeta. destruct (filled_fresh _ _ _ _ _ x (CfBytes key) Hf Hx) as (_ & _ & G3 & G4 & G5).
  assert (Hd : filled h (extra ++ owned (with_owned ValueData x d)) (with_owned ValueData x d)
    (base_entries (mb_scope b) keychain s a false ++ [(ValueData, CfBytes key)]) (<[x := CfBytes key]> h')).
  { cbn [owned with_owned]. rewrite app_assoc. split; [by split|]. cbn [entries with_owned]. apply resolves_snoc; [exact G5|]. cbn. by rewrite lookup_insert_eq. }
  set (d3 := match mb_scope b with DataProtection => _ | _ => _ end).
  assert (Hd3 : filled h (extra ++ owned d3) d3 (base_entries (mb_scope b) keychain s a false ++ [(ValueData, CfBytes key)] ++
    match mb_scope b with DataProtection => [(AttrAccessible, CfConstant AfterFirstUnlockThisDeviceOnly)] | _ => [] end) (<[x := CfBytes key]> h')).
  { unfold d3. rewrite app_assoc. destruct (mb_scope b); [|by rewrite app_nil_r..].
    exact (filled_borrowed _ _ _ _ _ AttrAccessible (Fixed AfterFirstUnlockThisDeviceOnly) _ Hd eq_refl). }
  eapply (runs_with_query (extra ++ owned d3)); [exact Hd3| |by apply short_viewed]. intros h2.
  change (CfDictionary _) with (insert_query (mb_scope b) keychain s a key).
  apply runs_andthen, runs_platform. unfold as_viewed, add_item. cbn [item_add view].
  destruct (sec_add _ c) as [status c1]. cbn [fst snd]. destruct (negb _); [apply runs_result|apply runs_done]; (split; [by left|done]).
Qed.
Lemma runs_delete b keychain s a c h : backend_live b keychain h ->
  runs (delete_from b s a) (leaves nothing (as_viewed (delete_item (F := view keychain path password) (mb_scope b) s a) c) h) c h.
Proof.
  intros Hb. unfold delete_from. apply runs_andthen, (runs_base_query b keychain); [exact Hb| |by split; [apply short_viewed|]].
  intros d extra h' Hf. eapply (runs_with_query (extra ++ owned d)); [exact Hf| |by apply short_viewed]. intros h2.
  change (CfDictionary _) with (delete_query (mb_scope b) keychain s a).
  apply runs_andthen, runs_platform. unfold as_viewed, delete_item. cbn [item_delete view].
  destruct (sec_delete _ c) as [status c1]. cbn [fst snd].
  destruct (status =? ERR_SEC_SUCCESS); [apply runs_done|destruct (status =? ITEM_NOT_FOUND); [apply runs_done|apply runs_result]]; (split; [by left|done]).
Qed.
(** Where CoreFoundation fails, the probe fails, and that is a fallback too. *)
Lemma runs_default keychain c h : runs default_backend (leaves nothing (fun r c' =>
  (exists sc, r = Ok (mkBackend sc None) /\ (Ok sc, c') = macos_default (F := view keychain path password) c) \/
  (r = Ok (mkBackend LoginKeychain None) /\ c' = c /\ short)) h) c h.
Proof.
  intros s Hw Hl Hc. unfold default_backend, macos_default.
  assert (Hb : backend_live (mkBackend DataProtection None) keychain h) by done.
  destruct (runs_delete _ keychain (lit "com.reyta.rtp2.entitlement-probe") (lit "probe") c h Hb s Hw Hl Hc) as [Hw' [Ho Hlv]].
  destruct Ho as [Ho|(Ho & Hc' & Hs)]; cbn [mb_scope] in Ho.
  - rewrite <- Ho. unfold delete_item in Ho. destruct (item_delete _ _ _ _) as [status c1].
    destruct (delete_from _ _ _ s) as [[x|e|] s']; cbn [fst snd] in *; [| |done].
    + split; [exact Hw'|]. split; [left; by eexists|done].
    + assert (He : exists st, e = Platform st) by (destruct (_ =? ERR_SEC_SUCCESS); [|destruct (_ =? ITEM_NOT_FOUND)]; simplify_eq; by eexists).
      destruct He as [st ->]. split; [exact Hw'|]. split; [left; exists LoginKeychain; split; reflexivity|done].
  - destruct (delete_from _ _ _ s) as [r s']. cbn [fst snd] in *. subst r. split; [exact Hw'|]. split; [by right|done].
Qed.
(** ** The root *)
Lemma runs_key_query tag more l (Q : _ -> _ -> _ -> Prop) c h :
  resolves h ([(SecClass, Fixed ClassKey); (AttrKeyType, Fixed ECSECPrimeRandom)] ++ more)
    ([(SecClass, CfConstant ClassKey); (AttrKeyType, CfConstant ECSECPrimeRandom)] ++ l) ->
  (forall d h', filled h (owned d) d ([(SecClass, CfConstant ClassKey); (AttrKeyType, CfConstant ECSECPrimeRandom)] ++ l
                  ++ [(AttrApplicationTag, CfBytes tag)]) h' -> Q (Ok d) c h') ->
  (short -> Q (Err (Platform 0)) c h) -> runs (key_query tag more) Q c h.
Proof.
  intros Hr HQ Hs. unfold key_query. eapply runs_owning; [split; [done|exact Hr]| |exact Hs].
  intros d h' Hf. apply HQ. by rewrite <- app_assoc in Hf.
Qed.
Definition root_query (tag : bytes) : CfObject := CfDictionary [(SecClass, CfConstant ClassKey); (AttrKeyType, CfConstant ECSECPrimeRandom);
  (ReturnRef, CfConstant BooleanTrue); (MatchLimit, CfConstant MatchLimitOne); (AttrApplicationTag, CfBytes tag)].
Definition root_delete_query (tag : bytes) : CfObject :=
  CfDictionary [(SecClass, CfConstant ClassKey); (AttrKeyType, CfConstant ECSECPrimeRandom); (AttrApplicationTag, CfBytes tag)].
Lemma constants_resolve h es : Forall (fun e : Attr * Slot => exists c, e.2 = Fixed c) es ->
  resolves h es (map (fun e => (e.1, match e.2 with Fixed c => CfConstant c | Ref _ => CfNumber 0 end)) es).
Proof.
  induction 1 as [|[k s] es [c Hc] _ IH]; [constructor|]. cbn in Hc. subst s. by constructor.
Qed.
Ltac constants := repeat constructor; by eexists.
Definition root_params (tag : bytes) (access : CfObject) : CfObject := CfDictionary [(AttrKeyType, CfConstant ECSECPrimeRandom);
  (AttrTokenID, CfConstant TokenIDSecureEnclave); (AttrKeySizeInBits, CfNumber 256);
  (PrivateKeyAttrs, CfDictionary [(AttrIsPermanent, CfConstant BooleanTrue); (AttrAccessControl, access); (AttrApplicationTag, CfBytes tag)])].
(** The root that is found under the tag; a root the platform makes for it. *)
Definition found_root (tag : bytes) (c : C) (k : CfObject) (c' : C) : Prop :=
  sec_copy_matching (root_query tag) c = (ERR_SEC_SUCCESS, Some k) /\ c' = c.
Definition made_root (tag : bytes) (c : C) (k : CfObject) (c' : C) : Prop :=
  exists access, sec_access_control AfterFirstUnlockThisDeviceOnly ACCESS_CONTROL_PRIVATE_KEY_USAGE = inl access /\
    sec_create_random_key (root_params tag access) c = (inl k, c').
Definition opened_root (tag : bytes) (c : C) (k : CfObject) (c' : C) : Prop :=
  found_root tag c k c' \/ (exists v, sec_copy_matching (root_query tag) c = (ITEM_NOT_FOUND, v)) /\ made_root tag c k c'.
Definition platform_fault {A} (r : result KeystoreError A) : Prop := exists status, r = Err (Platform status).
Lemma runs_find_root tag c h : runs (find_root tag) (leaves_of (fun r => r) (found_root tag c) (fun r c' => c' = c /\
  match r with
  | Ok None => exists v, sec_copy_matching (root_query tag) c = (ITEM_NOT_FOUND, v)
  | Ok (Some _) => True
  | r => platform_fault r
  end) h) c h.
Proof.
  unfold find_root. apply runs_andthen, (runs_key_query _ _ [(ReturnRef, CfConstant BooleanTrue); (MatchLimit, CfConstant MatchLimitOne)]).
  - eapply constants_resolve. constants.
  - intros d h' Hf. eapply (runs_with_query (owned d)); [exact Hf| |split; [done|by eexists]].
    intros h2. apply runs_andthen, runs_platform. cbn [fst snd app].
    change (CfDictionary _) with (root_query tag). destruct (sec_copy_matching _ c) as [status found] eqn:Hq.
    destruct (Z.eqb_spec status ERR_SEC_SUCCESS) as [->|Hne].
    + destruct (found_object _ _ _ Hq) as [v ->]. apply runs_andthen, runs_receive. intros x Hx. apply runs_done.
      split; [done|]. split; [exact Hx|by exists v].
    + destruct (Z.eqb_spec status ITEM_NOT_FOUND) as [->|]; [apply runs_done; split; [split; [done|by exists found]|done]|].
      apply runs_result. split; [|done]. split; [done|by eexists].
  - intros Hs. split; [|done]. split; [done|by eexists].
Qed.
Lemma runs_create_root tag c h : runs (create_root tag) (leaves_of Some (made_root tag c) (fun r _ =>
  match r with Ok _ => True | r => platform_fault r end) h) c h.
Proof.
  unfold create_root, made_root. destruct (sec_access_control _ _) as [a|e]; [|apply runs_fails_with; split; [by eexists|done]].
  apply runs_receive_scope. intros access Ha. set (h1 := <[access := a]> h).
  apply runs_andthen. eapply (runs_owning _ [(AttrIsPermanent, CfConstant BooleanTrue); (AttrAccessControl, a)] _ _ _ _ h1).
  - split; [done|]. repeat (constructor; [split; [done|]; cbn [fst snd slot_object]; try done|]); [by unfold h1; rewrite lookup_insert_eq|constructor].
  - intros private h2 Hf. pose proof Hf as [[Hd Hb] Hr]. rewrite <- Hb at 1. apply runs_scope_leaves; [exact Hd|].
    apply runs_andthen, (runs_build private _ _ _ _ Hr); [|intros; split; [by eexists|done]]. intros pa Hpa.
    apply runs_using; [done|]. apply runs_create_scope; [|intros _; by eexists]. intros size Hsize.
    eapply (runs_with_query [] _ [(AttrKeyType, CfConstant ECSECPrimeRandom); (AttrTokenID, CfConstant TokenIDSecureEnclave);
      (AttrKeySizeInBits, CfNumber 256);
      (PrivateKeyAttrs, CfDictionary ([(AttrIsPermanent, CfConstant BooleanTrue); (AttrAccessControl, a)] ++ [(AttrApplicationTag, CfBytes tag)]))]);
      [| |intros _; by eexists].
    + split; [done|]. repeat (constructor; [split; [done|]; cbn [fst snd slot_object]; try done|]); [by rewrite lookup_insert_eq| |constructor].
      rewrite lookup_insert_ne by (intros ->; rewrite lookup_insert_eq in Hsize; done). by rewrite lookup_insert_eq.
    + intros h3. apply runs_andthen, runs_platform. cbn [app]. change (CfDictionary [(AttrKeyType, _); _; _; _]) with (root_params tag a).
      destruct (sec_create_random_key _ c) as [[k|e] c1] eqn:Hk; cbn [fst snd].
      * apply runs_receive. intros x Hx. split; [done|]. split; [exact Hx|]. exists k. split; [done|]. by exists a.
      * apply runs_fails_with. split; [by eexists|done].
  - intros _. split; [by eexists|done].
Qed.
Lemma runs_open_root s a c h : runs (open_root s a) (leaves_of Some (opened_root (hardware_tag s a) c) (fun r _ =>
  match r with Ok _ => True | r => platform_fault r end) h) c h.
Proof.
  unfold open_root. apply runs_andthen. eapply runs_weaken; [apply runs_find_root|]. intros r c' h' [[-> Hr] Hl].
  destruct r as [[key|]|e|]; [| |subst h'; destruct Hr as [st [= ->]]; split; [by exists st|done]|done].
  - apply runs_done. split; [done|]. destruct Hl as (Hx & o & -> & Ho). split; [exact Hx|]. exists o. split; [done|by left].
  - cbn in Hl. subst h'. eapply runs_weaken; [apply runs_create_root|]. intros r c' h' [HR Hl]. split; [exact HR|].
    destruct r as [x| |]; [|done..]. destruct Hl as (Hx & o & -> & Ho). split; [exact Hx|]. exists o. split; [done|by right].
Qed.
Lemma runs_forget_root s a c h : runs (forget_root s a) (leaves nothing (fun r c' =>
  (c' = (sec_delete (root_delete_query (hardware_tag s a)) c).2 /\
   (r = Ok true <-> (sec_delete (root_delete_query (hardware_tag s a)) c).1 = ERR_SEC_SUCCESS)) \/
  r = Err (Platform 0) /\ c' = c /\ short) h) c h.
Proof.
  unfold forget_root. apply runs_andthen, (runs_key_query _ [] []).
  - eapply constants_resolve. constants.
  - intros d h' Hf. eapply (runs_with_query (owned d)); [exact Hf| |by right]. intros h2. apply runs_andthen, runs_platform. cbn [app].
    change (CfDictionary _) with (root_delete_query (hardware_tag s a)). destruct (sec_delete _ c) as [status c1]. cbn [fst snd].
    destruct (Z.eqb_spec status ERR_SEC_SUCCESS) as [->|Hne]; [apply runs_done; by split; [left|]|].
    destruct (status =? ITEM_NOT_FOUND); [apply runs_done|apply runs_result]; (split; [left; split; [done|]; split; [done|congruence]|done]).
  - intros Hs. split; [by right|done].
Qed.
(** Sealing and unsealing, on CoreFoundation's memory or short of it. *)
Definition key_outcome (x : bytes + option Z) (r : result KeystoreError bytes) : Prop :=
  r = match x with inl b => Ok b | inr e => Err (Platform (default 0 e)) end \/ r = Err (Platform 0) /\ short.
Definition seal_outcome (k : CfObject) (draw pt : bytes) (r : result KeystoreError bytes) : Prop :=
  match sec_copy_public_key k with
  | Some p => key_outcome (sec_encrypt p draw pt) r
  | None => r = Err (Platform 0)
  end.
Lemma runs_seal_root key k draw pt c h : h !! key = Some k ->
  runs (seal_with_root key draw pt) (leaves nothing (fun r c' => c' = c /\ seal_outcome k draw pt r) h) c h.
Proof.
  intros Hk. unfold seal_with_root, seal_outcome. apply runs_andthen, (runs_object key k); [exact Hk|].
  destruct (sec_copy_public_key k) as [p|]; [|by apply runs_result]. apply runs_receive_scope. intros x Hx.
  apply runs_create_scope; [|intros Hs; split; [done|]; right; split; [done|by eexists]]. intros y Hy.
  assert (Hne : y <> x) by (intros ->; rewrite lookup_insert_eq in Hy; done).
  apply runs_andthen, (runs_object x p); [by rewrite lookup_insert_ne, lookup_insert_eq|].
  apply runs_andthen. unfold cf_data_bytes at 1. apply runs_andthen, (runs_object y (CfBytes pt)), runs_done; [by rewrite lookup_insert_eq|].
  destruct (sec_encrypt p draw pt) as [b|e] eqn:He; [|apply runs_fails_with; split; [split; [done|by left]|done]].
  apply runs_receive_scope. intros z Hz. unfold cf_data_bytes. apply runs_andthen, (runs_object z (CfBytes b)), runs_done; [by rewrite lookup_insert_eq|].
  split; [split; [done|by left]|done].
Qed.
Lemma runs_unseal_root key k sealed c h : h !! key = Some k ->
  runs (unseal_with_root key sealed) (leaves nothing (fun r c' => c' = c /\ key_outcome (sec_decrypt k sealed) r) h) c h.
Proof.
  intros Hk. unfold unseal_with_root. apply runs_create_scope; [|intros Hs; split; [done|]; right; split; [done|by eexists]]. intros y Hy.
  apply runs_andthen, (runs_object key k); [rewrite lookup_insert_ne by congruence; done|].
  apply runs_andthen. unfold cf_data_bytes at 1. apply runs_andthen, (runs_object y (CfBytes sealed)), runs_done; [by rewrite lookup_insert_eq|].
  destruct (sec_decrypt k sealed) as [b|e] eqn:He; [|apply runs_fails_with; split; [split; [done|by left]|done]].
  apply runs_receive_scope. intros z Hz. unfold cf_data_bytes. apply runs_andthen, (runs_object z (CfBytes b)), runs_done; [by rewrite lookup_insert_eq|].
  split; [split; [done|by left]|done].
Qed.

(** ** The life of a backend *)
Inductive BackendCall : Type :=
| FindItem (service account : bytes)
| AddItem (service account key : bytes)
| DeleteItem (service account : bytes).
Inductive BackendAnswer : Type :=
| Found (r : result KeystoreError (option bytes))
| Added (r : result KeystoreError unit)
| Deleted (r : result KeystoreError bool).
(** The answer of a call, errors included; a panic is one of the caller. *)
Definition answered {A} (wrap : result KeystoreError A -> BackendAnswer) (m : Op A) : Op BackendAnswer := fun s =>
  match m s with (Panic, s') => (Panic, s') | (r, s') => (Ok (wrap r), s') end.
Definition run_call (b : MacBackend) (call : BackendCall) : Op BackendAnswer :=
  match call with
  | FindItem s a => answered Found (find_in b s a)
  | AddItem s a key => answered Added (add_to b s a key)
  | DeleteItem s a => answered Deleted (delete_from b s a)
  end.
Fixpoint run_calls (b : MacBackend) (calls : list BackendCall) : Op (list BackendAnswer) :=
  match calls with
  | [] => done_with []
  | call :: rest => x <~ run_call b call ;; l <~ run_calls b rest ;; done_with (x :: l)
  end.
(** A backend from its opening to its drop. *)
Definition backend_life (sc : Scope) (calls : list BackendCall) : Op (list BackendAnswer) :=
  b <~ backend_with_scope sc path password ;; l <~ run_calls b calls ;; drop_backend b ;~ done_with l.

(** One call as [Keystore] has it, where CoreFoundation may be short of memory. *)
Definition viewed_call (keychain : CfObject) (sc : Scope) (call : BackendCall) (c : C) (x : BackendAnswer) (c' : C) : Prop :=
  let F := view keychain path password in
  match call, x with
  | FindItem s a, Found r => as_viewed (fun c => (find_item sc s a c, c)) c r c'
  | AddItem s a key, Added r => as_viewed (add_item sc s a key) c r c'
  | DeleteItem s a, Deleted r => as_viewed (delete_item sc s a) c r c'
  | _, _ => False
  end.
Fixpoint viewed_calls (keychain : CfObject) (sc : Scope) (calls : list BackendCall) (c : C) (l : list BackendAnswer) (c' : C) : Prop :=
  match calls, l with
  | [], [] => c' = c
  | call :: calls, x :: l => exists c1, viewed_call keychain sc call c x c1 /\ viewed_calls keychain sc calls c1 l c'
  | _, _ => False
  end.
Lemma runs_answered {A} wrap (m : Op A) R (Q : _ -> _ -> _ -> Prop) c h : runs m (leaves nothing R h) c h ->
  (forall r c', R r c' -> Q (Ok (wrap r)) c' h) -> runs (answered wrap m) Q c h.
Proof.
  intros Hm HQ s Hw Hl Hc. destruct (Hm s Hw Hl Hc) as (Hw' & HR & Hr). unfold answered.
  destruct (m s) as [[a|e|] s']; cbn [fst snd nothing] in *; [| |done]; (split; [done|]; rewrite Hr; by apply HQ).
Qed.
Lemma runs_call b keychain call (Q : _ -> _ -> _ -> Prop) c h : backend_live b keychain h ->
  (forall x c', viewed_call keychain (mb_scope b) call c x c' -> Q (Ok x) c' h) -> runs (run_call b call) Q c h.
Proof.
  intros Hb HQ. destruct call as [s a|s a key|s a]; cbn [run_call]; (eapply runs_answered;
    [first [exact (runs_find b keychain s a c h Hb)|exact (runs_add b keychain s a key c h Hb)|exact (runs_delete b keychain s a c h Hb)]|]);
    intros r c' Hr; by apply HQ.
Qed.
Lemma runs_calls b keychain calls (Q : _ -> _ -> _ -> Prop) c h : backend_live b keychain h ->
  (forall l c', viewed_calls keychain (mb_scope b) calls c l c' -> Q (Ok l) c' h) -> runs (run_calls b calls) Q c h.
Proof.
  intros Hb. revert Q c. induction calls as [|call calls IH]; intros Q c HQ; cbn [run_calls]; [by apply runs_done, HQ|].
  apply runs_andthen, (runs_call b keychain); [exact Hb|]. intros x c1 Hx. apply runs_andthen, IH. intros l c' Hl. apply runs_done, HQ. by exists c1.
Qed.
(** What a life leaves: the references that were live, a platform whose
    temporary keychain is gone, and answers as viewed. *)
Definition life_viewed (sc : Scope) (calls : list BackendCall) (c : C) (r : result KeystoreError (list BackendAnswer)) (c' : C) : Prop :=
  match r with
  | Ok l => exists keychain c0 c1, viewed_calls keychain sc calls c0 l c1 /\
      match sc with
      | TemporaryKeychain => sec_keychain_create path password c = (ERR_SEC_SUCCESS, Some keychain, c0) /\ c' = sec_keychain_delete keychain c1
      | _ => c0 = c /\ c' = c1
      end
  | Err e => sc = TemporaryKeychain /\ (e = InvalidLabel \/ exists status, e = Platform status)
  | Panic => False
  end.
Lemma runs_temp_keychain c h : runs (create_temp_keychain path password) (fun r c' h' =>
  match r with
  | Ok x => h !! x = None /\ exists keychain, h' = <[x := keychain]> h /\ sec_keychain_create path password c = (ERR_SEC_SUCCESS, Some keychain, c')
  | Err e => h' = h /\ (e = InvalidLabel \/ exists status, e = Platform status)
  | Panic => False
  end) c h.
Proof.
  unfold create_temp_keychain. destruct (existsb _ _); [apply runs_result; split; [done|by left]|].
  apply runs_andthen, runs_platform. destruct (sec_keychain_create path password c) as [[status v] c1] eqn:Hk. cbn [fst snd].
  destruct (Z.eqb_spec status ERR_SEC_SUCCESS) as [->|]; cbn [negb]; [|apply runs_result; split; [done|right; by eexists]].
  destruct (created_object _ _ _ _ _ Hk) as [o ->]. apply runs_receive. intros x Hx. split; [exact Hx|]. by exists o.
Qed.
Lemma runs_life sc calls c h : runs (backend_life sc calls) (fun r c' h' => life_viewed sc calls c r c' /\ h' = h) c h.
Proof.
  assert (Hother : sc <> TemporaryKeychain -> runs (l <~ run_calls (mkBackend sc None) calls ;; drop_backend (mkBackend sc None) ;~ done_with l)
    (fun r c' h' => life_viewed sc calls c r c' /\ h' = h) c h).
  { intros Hsc. apply runs_andthen, (runs_calls (mkBackend sc None) (CfKeychain 0)); [by intros H; destruct (Hsc H)|]. intros l c' Hl.
    apply runs_andthen, runs_done, runs_done. split; [|done]. exists (CfKeychain 0), c, c'. by destruct sc. }
  unfold backend_life, backend_with_scope. apply runs_andthen. destruct sc; [apply runs_done; by apply Hother..|].
  apply runs_andthen. eapply runs_weaken; [apply runs_temp_keychain|]. intros r c1 h1 Hr. destruct r as [x|e|]; [|by destruct Hr as [-> ?]|done].
  destruct Hr as (Hx & keychain & -> & Hk). apply runs_done, runs_andthen.
  apply (runs_calls (mkBackend TemporaryKeychain (Some x)) keychain); [intros _; exists x; by rewrite lookup_insert_eq|]. intros l c2 Hl.
  apply runs_andthen, runs_andthen, (runs_object x keychain), runs_andthen, runs_platform, (runs_release x keychain); [by rewrite lookup_insert_eq..|].
  apply runs_done. rewrite delete_insert_id by done. split; [|done]. by exists keychain, c1, c2.
Qed.

(** C24: The life of a macOS keychain backend: opened in any scope, given any
    lookups, additions and deletions, and dropped.  Whatever CoreFoundation
    fails to create on the way, no reference is used after its release,
    released twice or leaked, since what is live afterwards is what was live
    before; every call sends the query of its scope and coordinates and answers
    as the interface of [Keystore] does over such queries, or fails with status
    0 before anything reached the platform; and a temporary keychain is deleted
    with its backend. *)
Theorem backend_life_refines sc calls s : cf_wf s ->
  let '(r, s') := backend_life sc calls s in
  cf_wf s' /\ live s' = live s /\ r <> Panic /\ life_viewed sc calls (platform s) r (platform s').
Proof.
  intros Hw. destruct (runs_life sc calls _ _ s Hw eq_refl eq_refl) as (Hw' & Hv & Hl). destruct (backend_life sc calls s) as [r s'].
  split; [exact Hw'|]. split; [exact Hl|]. split; [by intros ->|exact Hv].
Qed.

(** ** The life of a root *)
(** A secret sealed, and opened again, under the root of an account. *)
Definition root_life (service account draw plaintext : bytes) : Op bytes :=
  key <~ open_root service account ;;
  scope [key] (sealed <~ seal_with_root key draw plaintext ;; unseal_with_root key sealed).
(** ECIES: what a public key encrypts its private key decrypts. *)
Class EciesLaws : Prop :=
  decrypts k p draw pt b : sec_copy_public_key k = Some p -> sec_encrypt p draw pt = inl b -> sec_decrypt k b = inl pt.
Context {EL : EciesLaws}.
(** A platform that works: objects are created, a root has a public key, and
    encryption succeeds. *)
Definition key_works (k : CfObject) (draw pt : bytes) : Prop :=
  ~ short /\ exists p b, sec_copy_public_key k = Some p /\ sec_encrypt p draw pt = inl b.
Lemma runs_seal_unseal key k draw pt c h : h !! key = Some k ->
  runs (sealed <~ seal_with_root key draw pt ;; unseal_with_root key sealed) (leaves nothing (fun r c' => c' = c /\
    (r = Ok pt \/ ~ key_works k draw pt /\ exists status, r = Err (Platform status))) h) c h.
Proof.
  intros Hk. apply runs_andthen. eapply runs_weaken; [by apply runs_seal_root|]. intros r c' h' [[-> Ho] Hl]. unfold seal_outcome in Ho.
  destruct r as [b|e|]; cbn [nothing] in Hl; [subst h'..|done].
  - destruct (sec_copy_public_key k) as [p|] eqn:Hp; [|done]. destruct Ho as [Ho|[? _]]; [|done].
    destruct (sec_encrypt p draw pt) as [b'|e'] eqn:He; [|done]. injection Ho as <-.
    eapply runs_weaken; [by apply (runs_unseal_root key k)|]. intros r c' h' [[-> Ho] Hl]. split; [|exact Hl]. split; [done|].
    rewrite (decrypts _ _ _ _ _ Hp He) in Ho. destruct Ho as [->|[-> Hs]]; [by left|right]. split; [by intros [Hn _]|by eexists].
  - split; [|done]. split; [done|right].
    destruct (sec_copy_public_key k) as [p|] eqn:Hp; [|injection Ho as ->; split; [intros (_ & p & b & Hp' & _); congruence|by eexists]].
    destruct Ho as [Ho|[Ho Hs]]; [|injection Ho as ->; split; [by intros [Hn _]|by eexists]].
    destruct (sec_encrypt p draw pt) as [b'|e'] eqn:He; [done|]. injection Ho as ->. split; [|by eexists].
    intros (_ & p' & b & Hp' & He'). congruence.
Qed.

(** C25: The life of a hardware root: opened for an account, a secret sealed and
    opened again, and dropped.  The root is the key the keychain has under the
    account's tag, and where there is none a new permanent key that the Secure
    Enclave made, never one in software; what it sealed opens to the secret, or
    the platform refused and the error says so; and on every path the references
    that are live afterwards are those that were live before, none used after
    its release or released twice. *)
Theorem hardware_root_life s a draw pt st : cf_wf st ->
  let '(r, st') := root_life s a draw pt st in
  cf_wf st' /\ live st' = live st /\
  ((exists k, opened_root (hardware_tag s a) (platform st) k (platform st') /\ (r = Ok pt \/ ~ key_works k draw pt /\ platform_fault r)) \/
   platform_fault r /\ platform_fault (open_root s a st).1).
Proof.
  intros Hw. destruct (runs_open_root s a _ _ st Hw eq_refl eq_refl) as (Hw1 & HR & Hl). unfold root_life, andthen.
  destruct (open_root s a st) as [[key|e|] st1]; cbn [fst snd] in *; [| |done].
  - destruct Hl as (Hx & k & Hst1 & Hk). 
    assert (Hrun : runs (scope [key] (sealed <~ seal_with_root key draw pt ;; unseal_with_root key sealed)) (leaves nothing (fun r c' =>
      c' = platform st1 /\ (r = Ok pt \/ ~ key_works k draw pt /\ platform_fault r)) (live st)) (platform st1) (<[key := k]> (live st))).
    { apply runs_using; [exact Hx|]. apply runs_seal_unseal. by rewrite lookup_insert_eq. }
    destruct (Hrun st1 Hw1 Hst1 eq_refl) as (Hw' & [Hc Hr] & Hl'). unfold andthen in *.
    destruct (scope _ _ st1) as [r st']; cbn [fst snd] in *. split; [exact Hw'|]. split; [by destruct r; cbn in Hl'|].
    left. exists k. by rewrite Hc.
  - split; [exact Hw1|]. split; [exact Hl|]. right. destruct HR as [status [= ->]]. split; by exists status.
Qed.

(** ** Forgetting a root *)
(** The tag is the service and the account with a slash between them. *)
Lemma hardware_tag_joined s a s' a' : hardware_tag s a = hardware_tag s' a' <-> s ++ lit "/" ++ a = s' ++ lit "/" ++ a'.
Proof.
  unfold hardware_tag. rewrite !app_assoc. split; [|by intros ->].
  intros H. by apply app_inv_tail in H.
Qed.
Lemma split_at_first {A} (x : A) l l' r r' : x ∉ l -> x ∉ l' -> l ++ x :: r = l' ++ x :: r' -> l = l' /\ r = r'.
Proof.
  revert l'. induction l as [|y l IH]; intros [|y' l'] Hl Hl'; cbn; intros H; simplify_eq; [done|set_solver..|].
  destruct (IH l') as [-> ->]; set_solver.
Qed.
Lemma hardware_tag_injective s a s' a' : 47 ∉ s -> 47 ∉ s' -> hardware_tag s a = hardware_tag s' a' -> s = s' /\ a = a'.
Proof. intros Hs Hs' H. apply (proj1 (hardware_tag_joined _ _ _ _)) in H. exact (split_at_first 47 _ _ _ _ Hs Hs' H). Qed.
(** Deleting the keys of a tag deletes them and no other. *)
Class RootStore : Prop := {
  root_deleted t c c' : sec_delete (root_delete_query t) c = (ERR_SEC_SUCCESS, c') -> exists v, sec_copy_matching (root_query t) c' = (ITEM_NOT_FOUND, v);
  root_spared t t' c : t <> t' -> sec_copy_matching (root_query t') (sec_delete (root_delete_query t) c).2 = sec_copy_matching (root_query t') c
}.
Context {RS : RootStore}.
(** C26: Forgetting the hardware root of an account.  When it reports success the
    keychain has no root of that account; the root of any other account is found
    as before, provided neither service contains a slash, which separates the
    two in the tag; and no reference is used after its release, released twice
    or leaked. *)
Theorem forgetting_spares_others s a s' a' st : cf_wf st -> 47 ∉ s -> 47 ∉ s' -> (s, a) <> (s', a') ->
  let '(r, st') := forget_root s a st in
  cf_wf st' /\ live st' = live st /\ r <> Panic /\
  (r = Ok true -> exists v, sec_copy_matching (root_query (hardware_tag s a)) (platform st') = (ITEM_NOT_FOUND, v)) /\
  sec_copy_matching (root_query (hardware_tag s' a')) (platform st') = sec_copy_matching (root_query (hardware_tag s' a')) (platform st).
Proof.
  intros Hw Hs Hs' Hne. assert (Ht : hardware_tag s a <> hardware_tag s' a') by (intros H; apply hardware_tag_injective in H as [-> ->]; done).
  destruct (runs_forget_root s a _ _ st Hw eq_refl eq_refl) as (Hw' & HR & Hl). destruct (forget_root s a st) as [r st']. cbn [fst snd] in *.
  split; [exact Hw'|]. split; [by destruct r; cbn in Hl|]. split; [by intros ->|].
  destruct HR as [[-> Hr]|(-> & -> & _)]; [|done]. split; [|by apply root_spared].
  intros Hok. apply Hr in Hok. destruct (sec_delete _ _) as [status c1] eqn:Hd. cbn in Hok. subst status. by eapply root_deleted.
Qed.
End Runs.

(** ** A keychain in memory *)
Module KeychainWitness.
(** Passwords and roots by what the query names, and CoreFoundation without
    limits; encryption is by the key's number. *)
Record Chain : Type := mkChain { passwords : list (bytes * bytes * bytes); roots : list (bytes * Z); keychains : list bytes }.
#[export] Instance unlimited : CoreFoundation := {| creates _ := true |}.
Definition password_at (s a : bytes) (c : Chain) : option bytes :=
  snd <$> List.find (fun i => bytes_eqb i.1.1 s && bytes_eqb i.1.2 a) (passwords c).
Definition root_at (t : bytes) (c : Chain) : option Z := snd <$> List.find (fun i => bytes_eqb i.1 t) (roots c).
Definition status_of {A} (x : option A) : Z * option A := match x with Some v => (ERR_SEC_SUCCESS, Some v) | None => (ITEM_NOT_FOUND, None) end.
#[export] Instance services : KeychainServices Chain := {|
  sec_copy_matching q c :=
    match q with
    | CfDictionary ((_, CfConstant ClassGenericPassword) :: (_, CfString s) :: (_, CfString a) :: _) => status_of (CfBytes <$> password_at s a c)
    | CfDictionary [_; _; _; _; (_, CfBytes t)] => status_of ((fun n => CfKey n true) <$> root_at t c)
    | _ => (-50, None)
    end;
  sec_add q c :=
    match q with
    | CfDictionary ((_, CfConstant ClassGenericPassword) :: (_, CfString s) :: (_, CfString a) :: rest) =>
      match password_at s a c, List.find (fun e => bool_decide (e.1 = ValueData)) rest with
      | None, Some (_, CfBytes k) => (ERR_SEC_SUCCESS, mkChain ((s, a, k) :: passwords c) (roots c) (keychains c))
      | Some _, _ => (DUPLICATE_ITEM, c)
      | _, _ => (-50, c)
      end
    | _ => (-50, c)
    end;
  sec_delete q c :=
    match q with
    | CfDictionary ((_, CfConstant ClassGenericPassword) :: (_, CfString s) :: (_, CfString a) :: _) =>
      match password_at s a c with
      | Some _ => (ERR_SEC_SUCCESS, mkChain (List.filter (fun i => negb (bytes_eqb i.1.1 s && bytes_eqb i.1.2 a)) (passwords c)) (roots c) (keychains c))
      | None => (ITEM_NOT_FOUND, c)
      end
    | CfDictionary [_; _; (_, CfBytes t)] =>
      match root_at t c with
      | Some _ => (ERR_SEC_SUCCESS, mkChain (passwords c) (List.filter (fun i => negb (bytes_eqb i.1 t)) (roots c)) (keychains c))
      | None => (ITEM_NOT_FOUND, c)
      end
    | _ => (-50, c)
    end;
  sec_keychain_create path _ c := (ERR_SEC_SUCCESS, Some (CfKeychain (len (keychains c))), mkChain (passwords c) (roots c) (path :: keychains c));
  sec_keychain_delete _ c := mkChain (passwords c) (roots c) (tail (keychains c));
  sec_create_random_key q c :=
    match q with
    | CfDictionary [_; (AttrTokenID, CfConstant TokenIDSecureEnclave); _; (_, CfDictionary [_; _; (_, CfBytes t)])] =>
      let n := len (roots c) in (inl (CfKey n true), mkChain (passwords c) ((t, n) :: roots c) (keychains c))
    | _ => (inr (Some (-25293)), c)
    end
|}.
#[export] Instance enclave : KeyOperations := {|
  sec_access_control p f := inl (CfAccess p f);
  sec_copy_public_key k := match k with CfKey n true => Some (CfKey n false) | _ => None end;
  sec_encrypt p _ pt := match p with CfKey n false => inl (n :: pt) | _ => inr None end;
  sec_decrypt k ct :=
    match k, ct with
    | CfKey n true, m :: pt => if n =? m then inl pt else inr (Some (-50))
    | _, _ => inr None
    end
|}.
#[export] Instance documented : Documented (C := Chain).
Proof.
  split.
  - intros q c v. cbn. repeat case_match; try done; unfold status_of; case_match; try done; intros [= <-]; by eexists.
  - intros path password c v c' [= <- <-]. by eexists.
Qed.
#[export] Instance ecies : EciesLaws.
Proof.
  intros k p draw pt b. cbn. destruct k as [| | | | | | | |n [] |]; try done. intros [= <-] [= <-]. by rewrite Z.eqb_refl.
Qed.
Lemma root_at_filtered t t' (l : list (bytes * Z)) :
  List.find (fun i => bytes_eqb i.1 t') (List.filter (fun i => negb (bytes_eqb i.1 t)) l) =
  if bytes_eqb t t' then None else List.find (fun i => bytes_eqb i.1 t') l.
Proof.
  induction l as [|[x n] l IH]; cbn [List.filter List.find fst]; [by destruct (bytes_eqb t t')|].
  unfold bytes_eqb in *. destruct (bool_decide_reflect (x = t)) as [->|Hx]; cbn [negb List.find fst].
  - rewrite IH. by destruct (bool_decide_reflect (t = t')).
  - rewrite IH. destruct (bool_decide_reflect (x = t')) as [->|]; [|done]. by rewrite bool_decide_eq_false_2 by congruence.
Qed.
#[export] Instance root_store : RootStore (C := Chain).
Proof.
  split.
  - intros t c c'. cbn. unfold root_at at 1. destruct (List.find _ (roots c)); cbn; [|done]. intros [= <-]. cbn.
    unfold root_at. cbn. rewrite root_at_filtered, bytes_eqb_refl. by eexists.
  - intros t t' c Hne. cbn. destruct (root_at t c); [|done]. cbn. unfold root_at. cbn.
    rewrite root_at_filtered. unfold bytes_eqb. by rewrite bool_decide_eq_false_2.
Qed.

Definition fresh_chain : Chain := mkChain [] [] [].
Definition nothing_live : Cf Chain := mkCf ∅ 0 fresh_chain.
Lemma nothing_live_wf : cf_wf nothing_live.
Proof. intros r _. apply lookup_empty. Qed.
Definition k1 : bytes := replicate 32 1.
Definition calls : list BackendCall :=
  [FindItem DEFAULT_SERVICE DEFAULT_ACCOUNT; AddItem DEFAULT_SERVICE DEFAULT_ACCOUNT k1; AddItem DEFAULT_SERVICE DEFAULT_ACCOUNT k1;
   FindItem DEFAULT_SERVICE DEFAULT_ACCOUNT; DeleteItem DEFAULT_SERVICE DEFAULT_ACCOUNT; DeleteItem DEFAULT_SERVICE DEFAULT_ACCOUNT].
Definition answers : list BackendAnswer :=
  [Found (Ok None); Added (Ok tt); Added (Err (Platform DUPLICATE_ITEM)); Found (Ok (Some k1)); Deleted (Ok true); Deleted (Ok false)].
Lemma life_runs : backend_life (lit "/tmp/k") (lit "pw") TemporaryKeychain calls nothing_live = (Ok answers, mkCf ∅ (next_ref (backend_life (lit "/tmp/k") (lit "pw") TemporaryKeychain calls nothing_live).2) fresh_chain).
Proof. vm_compute. reflexivity. Qed.
Lemma backend_life_refines_witness : exists s', backend_life (lit "/tmp/k") (lit "pw") TemporaryKeychain calls nothing_live = (Ok answers, s') /\
  live s' = ∅ /\ life_viewed (lit "/tmp/k") (lit "pw") TemporaryKeychain calls fresh_chain (Ok answers) (platform s').
Proof.
  pose proof (backend_life_refines (lit "/tmp/k") (lit "pw") TemporaryKeychain calls nothing_live nothing_live_wf) as H.
  rewrite life_runs in H. destruct H as (_ & Hl & _ & Hv). eexists. split; [exact life_runs|]. by split.
Defined.
Definition secret : bytes := lit "vault key".
Lemma root_runs : (root_life DEFAULT_SERVICE DEFAULT_ACCOUNT [] secret nothing_live).1 = Ok secret.
Proof. vm_compute. reflexivity. Qed.
Lemma hardware_root_life_witness : (root_life DEFAULT_SERVICE DEFAULT_ACCOUNT [] secret nothing_live).1 = Ok secret /\
  live (root_life DEFAULT_SERVICE DEFAULT_ACCOUNT [] secret nothing_live).2 = ∅.
Proof.
  split; [exact root_runs|]. pose proof (hardware_root_life DEFAULT_SERVICE DEFAULT_ACCOUNT [] secret nothing_live nothing_live_wf) as H.
  destruct (root_life DEFAULT_SERVICE DEFAULT_ACCOUNT [] secret nothing_live) as [r s']. by destruct H as (_ & H & _).
Defined.
Definition two_roots : Cf Chain := mkCf ∅ 0 (mkChain [] [(hardware_tag (lit "svc") (lit "a"), 0); (hardware_tag (lit "svc") (lit "b"), 1)] []).
Lemma two_roots_wf : cf_wf two_roots.
Proof. intros r _. apply lookup_empty. Qed.
Lemma forgetting_spares_others_witness :
  sec_copy_matching (root_query (hardware_tag (lit "svc") (lit "b"))) (platform (forget_root (lit "svc") (lit "a") two_roots).2) =
  sec_copy_matching (root_query (hardware_tag (lit "svc") (lit "b"))) (platform two_roots).
Proof.
  pose proof (forgetting_spares_others (lit "svc") (lit "a") (lit "svc") (lit "b") two_roots two_roots_wf) as H.
  destruct (forget_root (lit "svc") (lit "a") two_roots) as [r s']. apply H; [apply (bool_decide_unpack _); by vm_compute..|vm_compute; congruence].
Defined.
(** Two accounts that both pass the label check and share a tag: the second
    opens the root of the first, and forgetting it leaves the first without. *)
Definition one_root : Cf Chain := (open_root (lit "a/b") (lit "c") nothing_live).2.
Example shared_root :
  Forall (fun l => check_label l = Ok tt) [lit "a/b"; lit "c"; lit "a"; lit "b/c"] /\
  roots (platform (open_root (lit "a") (lit "b/c") one_root).2) = roots (platform one_root) /\
  (forget_root (lit "a") (lit "b/c") one_root).1 = Ok true /\
  roots (platform (forget_root (lit "a") (lit "b/c") one_root).2) = [].
Proof. split; [repeat constructor|]. vm_compute. split; [reflexivity|]. split; reflexivity. Qed.
End KeychainWitness.
