(* ===== verification/Api.v ===== *)
(** * The C interface (lib.rs)

    The exported functions as actions on the library's state: the handle
    table, the runtimes and endpoints the handles share, the state directories
    and the keychains.  A function answers a code and, with [OK] only, what it
    writes through its out-parameter. *)

From stdpp Require Import gmap.
From S2P Require Import NoPanic Resume Prelude Cbor Wire Crypto Keys Identity Store Keystore Events Route Framing Sender Receiver Handshake Session.
#[local] Open Scope Z_scope.

(** lib.rs 62-62 [ABI_VERSION] *)
Definition ABI_VERSION : Z := 6.
(** lib.rs 64-64 [OK] *)
Definition OK : Z := 0.
(** lib.rs 65-65 [ERR_INVALID_ARGUMENT] *)
Definition ERR_INVALID_ARGUMENT : Z := -1.
(** lib.rs 66-66 [ERR_NOT_FOUND] *)
Definition ERR_NOT_FOUND : Z := -2.
(** lib.rs 67-67 [ERR_INTERNAL] *)
Definition ERR_INTERNAL : Z := -3.
(** lib.rs 68-68 [ERR_CRYPTO] *)
Definition ERR_CRYPTO : Z := -4.
(** lib.rs 69-69 [ERR_IO] *)
Definition ERR_IO : Z := -5.
(** lib.rs 70-70 [ERR_ABI_MISMATCH] *)
Definition ERR_ABI_MISMATCH : Z := -6.
(** lib.rs 71-71 [ERR_TIMEOUT] *)
Definition ERR_TIMEOUT : Z := -7.
(** lib.rs 75-75 [ERR_KEYSTORE] *)
Definition ERR_KEYSTORE : Z := -8.
(** lib.rs 78-78 [ERR_ROUTE_REFUSED] *)
Definition ERR_ROUTE_REFUSED : Z := -9.

(** A C string without its terminator; [None] is NULL. *)
Abbreviation cstr := (option bytes).
(** [json_config] is never read.  lib.rs 104-134 [Rtp2RuntimeConfig] *)
Record Rtp2RuntimeConfig : Type := mkConfig {
  abi_version : Z;
  struct_size : Z;
  state_dir_utf8 : cstr;
  cf_key_protection : Z;
  reserved : Z;
  keystore_service_utf8 : cstr;
  keystore_account_utf8 : cstr;
  cf_route_policy : Z;
  route_grace_ms : Z
}.
(** [size_of::<Rtp2RuntimeConfig>()] where pointers have 64 bits. *)
Definition CONFIG_SIZE : Z := 56.

(** ** Any sealer *)
(** What [Box<dyn SecretSealer>] holds. *)
Inductive AnySealer : Type :=
| SealPlain (s : PlaintextSealer)
| SealKeystore (s : KeystoreSealer)
| SealHardware (s : HardwareSealer).
#[export] Instance AnySealer_sealer {P : Primitives} : SecretSealer AnySealer := {
  protection s := match s with SealPlain x => protection x | SealKeystore x => protection x | SealHardware x => protection x end;
  seal s := match s with SealPlain x => seal x | SealKeystore x => seal x | SealHardware x => seal x end;
  open s := match s with SealPlain x => open x | SealKeystore x => open x | SealHardware x => open x end
}.

(** ** State *)
(** What [rtp2_last_error] describes; the text is not modelled. *)
Inductive LastError : Type :=
| NoError
| BindFailed
| AddressFailed
| InvalidAddress
| SendFailed (e : TransferError)
| ReceiveFailed (e : TransferError).
(** lib.rs 136-156 [RuntimeState] *)
Record RuntimeState : Type := mkRuntime {
  rt_identity : DeviceIdentity;
  rt_store : option (DeviceStore AnySealer);
  rt_key_protection : bytes;
  rt_route_policy : RoutePolicy;
  rt_route_grace : Z;
  rt_events : Inner;
  rt_last_error : LastError
}.
(** An endpoint refers to its runtime.  lib.rs 164-168 [EndpointState] *)
Record EndpointState : Type := mkEndpoint { ep_runtime : nat; ep_replay : ReplayCache }.
(** lib.rs 170-173 [HandleValue] *)
Inductive HandleValue : Type := HRuntime (r : nat) | HEndpoint (e : nat).
(** A state directory: the entry of its path, and the two records in it. *)
Record StateDir : Type := mkDir { sd_dir : Entry; sd_identity : FileState; sd_vault : FileState }.

(** The statics and everything shared.  Runtimes and endpoints are numbered in
    the order they were made; what no handle and no endpoint refers to any
    more is unreachable. *)
Record Lib (C : Type) : Type := mkLib {
  next_handle : Z;
  handles : gmap Z HandleValue;
  runtimes : list RuntimeState;
  endpoints : list EndpointState;
  dirs : gmap bytes StateDir;
  keychains : C
}.
Arguments mkLib {C}.
Arguments next_handle {C}.
Arguments handles {C}.
Arguments runtimes {C}.
Arguments endpoints {C}.
Arguments dirs {C}.
Arguments keychains {C}.
Definition set_handles {C : Type} (n : Z) (h : gmap Z HandleValue) (l : Lib C) : Lib C := mkLib n h (runtimes l) (endpoints l) (dirs l) (keychains l).
Definition set_runtimes {C : Type} (r : list RuntimeState) (l : Lib C) : Lib C := mkLib (next_handle l) (handles l) r (endpoints l) (dirs l) (keychains l).
Definition set_endpoints {C : Type} (e : list EndpointState) (l : Lib C) : Lib C := mkLib (next_handle l) (handles l) (runtimes l) e (dirs l) (keychains l).
Definition set_dirs {C : Type} (d : gmap bytes StateDir) (l : Lib C) : Lib C := mkLib (next_handle l) (handles l) (runtimes l) (endpoints l) d (keychains l).
Definition set_keychains {C : Type} (c : C) (l : Lib C) : Lib C := mkLib (next_handle l) (handles l) (runtimes l) (endpoints l) (dirs l) c.

(** ** Actions *)
(** An error is the code of an early [return]. *)
Abbreviation Call C A := (Action (Lib C) Z A).
Definition code {C A} (c : Z) : Call C A := from_result (Err c).
Definition read {C A} (f : Lib C -> A) : Call C A := fun l => (Ok (f l), l).
Definition check {C : Type} (ok : bool) (c : Z) : Call C unit := if ok then done_with tt else code c.

(** ** Helpers *)
(** lib.rs 217-222 [route_grace_from_config] *)
Definition route_grace_from_config (ms : Z) : Z := if ms =? 0 then DEFAULT_ROUTE_GRACE else ms.
(** lib.rs 231-238 [c_path] *)
Definition c_path (p : cstr) : result Z bytes :=
  match p with
  | None => Err ERR_INVALID_ARGUMENT
  | Some s => if utf8_valid s then Ok s else Err ERR_INVALID_ARGUMENT
  end.
(** lib.rs 241-246 [optional_c_str] *)
Definition optional_c_str (p : cstr) : result Z (option bytes) :=
  match p with
  | None => Ok None
  | Some _ => let* s := c_path p in Ok (Some s)
  end.
(** lib.rs 397-407 [store_error_code] *)
Definition store_error_code (e : StoreError) : Z :=
  match e with
  | Store.Io | UnsafePath | NotRegularFile => ERR_IO
  | Corrupt | VersionMismatch | ProtectionDowngrade | Seal => ERR_CRYPTO
  end.
(** lib.rs 670-683 [spec_error_code] *)
Definition spec_error_code (e : TransferError) : Z :=
  match e with
  | Framing.Handshake => 6
  | Framing.Crypto _ => 24
  | Framing.Io | Timeout => 22
  | Protocol _ => 23
  | RouteRefused _ => 20
  end.
(** lib.rs 685-695 [transfer_error_code] *)
Definition transfer_error_code (e : TransferError) : Z :=
  match e with
  | Framing.Io => ERR_IO
  | Timeout => ERR_TIMEOUT
  | Framing.Handshake | Framing.Crypto _ => ERR_CRYPTO
  | Protocol _ => ERR_INTERNAL
  | RouteRefused _ => ERR_ROUTE_REFUSED
  end.

Definition hex_digit (x : Z) : Z := if x <? 10 then 48 + x else 87 + x.
(** The [hex] closure.  lib.rs 249-249 [report_json] *)
Definition hex (b : bytes) : bytes := flat_map (fun x => [hex_digit (x / 16); hex_digit (x mod 16)]) b.
Inductive Json : Type := JString (s : bytes) | JNumber (n : Z).
(** The fields of the object; [serde_json] writes it out.
    lib.rs 248-264 [report_json] *)
Definition report_json (r : TransferReport) : list (bytes * Json) :=
  [(lit "transfer_id", JString (hex (tr_transfer_id r)));
   (lit "object_id", JString (hex (tr_object_id r)));
   (lit "ciphertext_root", JString (hex (tr_ciphertext_root r)));
   (lit "plaintext_digest", JString (hex (tr_plaintext_digest r)));
   (lit "bytes", JNumber (tr_bytes r));
   (lit "chunks", JNumber (tr_chunks r));
   (lit "chunks_transferred", JNumber (tr_chunks_transferred r));
   (lit "manifest_commitment", JString (hex (tr_manifest_commitment r)));
   (lit "peer_device_id", JString (hex (tr_peer_device_id r)));
   (lit "peer_endpoint_id", JString (hex (tr_peer_endpoint_id r)));
   (lit "route", JString (describe (tr_route r)))].

(** What is written through an out-parameter. *)
Inductive Out : Type :=
| OutHandle (h : Z)
| OutBytes (b : bytes)
| OutFlag (n : Z)
| OutError (e : LastError)
| OutAddress (id : bytes) (addrs : list TransportAddr)
| OutReport (fields : list (bytes * Json))
| OutNothing.

Section Api.
Context {P : Primitives} {K : PkPrimitives} {B R C : Type} {BC : Backend B C} {HR : HardwareRoot R C}.

(** [catch_unwind], in a build that unwinds: what a panic left behind stays.
    The release profile aborts, so there the process ends where this answers
    [ERR_INTERNAL].  lib.rs 224-229 [ffi_guard] *)
Definition ffi_guard (m : Call C Out) (l : Lib C) : (Z * option Out) * Lib C :=
  match m l with
  | (Ok o, l') => ((OK, Some o), l')
  | (Err c, l') => ((c, None), l')
  | (Panic, l') => ((ERR_INTERNAL, None), l')
  end.

(** ** Handles *)
(** lib.rs 180-184 [insert_handle] *)
Definition insert_handle (v : HandleValue) : Call C Z := fun l =>
  let h := next_handle l in
  (Ok h, set_handles (wrap 64 (h + 1)) (<[h := v]> (handles l)) l).
(** lib.rs 186-191 [runtime] *)
Definition runtime (h : Z) : Call C (nat * RuntimeState) := fun l =>
  match handles l !! h with
  | Some (HRuntime r) => (match runtimes l !! r with Some st => Ok (r, st) | None => Panic end, l)
  | _ => (Err ERR_NOT_FOUND, l)
  end.
(** The endpoint, and its runtime.  lib.rs 193-198 [endpoint] *)
Definition endpoint (h : Z) : Call C (nat * EndpointState * RuntimeState) := fun l =>
  match handles l !! h with
  | Some (HEndpoint e) =>
    (match endpoints l !! e with
     | Some st => match runtimes l !! ep_runtime st with Some rt => Ok (e, st, rt) | None => Panic end
     | None => Panic
     end, l)
  | _ => (Err ERR_NOT_FOUND, l)
  end.
Definition alter_runtime (f : RuntimeState -> RuntimeState) (r : nat) : Call C unit :=
  modify (fun l => set_runtimes (alter f r (runtimes l)) l).
(** lib.rs 159-161 [RuntimeState::set_error] *)
Definition set_error (e : LastError) (rt : RuntimeState) : RuntimeState :=
  mkRuntime (rt_identity rt) (rt_store rt) (rt_key_protection rt) (rt_route_policy rt) (rt_route_grace rt) (rt_events rt) e.
Definition with_events (q : Inner) (rt : RuntimeState) : RuntimeState :=
  mkRuntime (rt_identity rt) (rt_store rt) (rt_key_protection rt) (rt_route_policy rt) (rt_route_grace rt) q (rt_last_error rt).

(** ** Runtimes *)
(** Draws, clock and outcomes one start meets: of the directory, of the
    identity record, of the keystore and of the vault key; [st_tokio_ok]: the
    executor could be built. *)
Record StartWorld : Type := mkStart {
  st_mkdir_ok : bool;
  st_read_ok : bool;
  st_io : WriteIo;
  st_seed : bytes;
  st_draw : bytes;
  st_now : Z;
  st_key : bytes;
  st_vault : VaultCall;
  st_tokio_ok : bool
}.
Definition no_file : FileState := mkFile Missing Missing [Missing].
Definition dir_at (dir : bytes) (l : Lib C) : StateDir := default (mkDir Missing no_file no_file) (dirs l !! dir).
Definition put_dir (dir : bytes) (d : StateDir) (l : Lib C) : Lib C := set_dirs (<[dir := d]> (dirs l)) l.

(** lib.rs 298-303 [rtp2_runtime_new] *)
Definition protection_of (v : Z) : result Z Protection :=
  match v with
  | 0 => Ok Plaintext
  | 1 => Ok PlatformKeystore
  | 2 => Ok HardwareKeystore
  | _ => Err ERR_INVALID_ARGUMENT
  end.
(** The sealer of the level asked for, and its description; neither level
    falls back.  lib.rs 340-367 [rtp2_runtime_new] *)
Definition select_store (w : StartWorld) (dir : bytes) (p : Protection) (service account : bytes)
  : Call C (DeviceStore AnySealer * bytes) := fun l =>
  match p with
  | Plaintext => (Ok (with_sealer default_store (SealPlain plaintext_sealer) Plaintext, lit "plaintext"), l)
  | PlatformKeystore =>
    let '(r, c) := open_keystore_sealer (B := B) service account (st_key w) (keychains l) in
    ((let* s := map_err (fun _ => ERR_KEYSTORE) r in
      Ok (with_sealer default_store (SealKeystore s) PlatformKeystore, lit "platform-keystore/" ++ describe_keystore s)),
     set_keychains c l)
  | HardwareKeystore =>
    let v := st_vault w in
    let sd := dir_at dir l in
    let '(r, c, f) := open_hardware_sealer (R := R) service account (vc_read_ok v) (vc_io v) (vc_draw v) (vc_fresh v) (keychains l) (sd_vault sd) in
    ((let* s := map_err (fun _ => ERR_KEYSTORE) r in
      Ok (with_sealer default_store (SealHardware s) HardwareKeystore, lit "hardware-keystore/" ++ describe_hardware (R := R) (C := C))),
     put_dir dir (mkDir (sd_dir sd) (sd_identity sd) f) (set_keychains c l))
  end.
(** lib.rs 369-372 [rtp2_runtime_new] *)
Definition load_identity (w : StartWorld) (dir : bytes) (store : DeviceStore AnySealer) : Call C DeviceIdentity := fun l =>
  let sd := dir_at dir l in
  let '(r, f) := load_or_create_identity store (st_read_ok w) (st_io w) (st_seed w) (st_draw w) (st_now w) (sd_identity sd) in
  ((let* '(identity, _) := map_err store_error_code r in Ok identity), put_dir dir (mkDir (sd_dir sd) f (sd_vault sd)) l).
(** lib.rs 315-373 [rtp2_runtime_new] *)
Definition open_state (cfg : Rtp2RuntimeConfig) (w : StartWorld) (p : Protection)
  : Call C (DeviceIdentity * option (DeviceStore AnySealer) * bytes) :=
  dir <~ from_result (c_path (state_dir_utf8 cfg)) ;;
  sd <~ read (dir_at dir) ;;
  entry <~ from_result (map_err store_error_code (open_store (st_mkdir_ok w) (sd_dir sd))) ;;
  modify (put_dir dir (mkDir entry (sd_identity sd) (sd_vault sd))) ;~
  service <~ from_result (optional_c_str (keystore_service_utf8 cfg)) ;;
  account <~ from_result (optional_c_str (keystore_account_utf8 cfg)) ;;
  '(store, description) <~ select_store w dir p (default DEFAULT_SERVICE service) (default DEFAULT_ACCOUNT account) ;;
  identity <~ load_identity w dir store ;;
  done_with (identity, Some store, description).
(** [config] and [out_runtime] are [None] and [false] when NULL.
    lib.rs 274-393 [rtp2_runtime_new] *)
Definition runtime_new (config : option Rtp2RuntimeConfig) (out_runtime : bool) (w : StartWorld) : Call C Out :=
  match config with
  | None => code ERR_INVALID_ARGUMENT
  | Some cfg =>
    check out_runtime ERR_INVALID_ARGUMENT ;~
    check ((abi_version cfg =? ABI_VERSION) && negb (struct_size cfg <? CONFIG_SIZE)) ERR_ABI_MISMATCH ;~
    check (reserved cfg =? 0) ERR_INVALID_ARGUMENT ;~
    policy <~ from_result (match policy_from_u64 (cf_route_policy cfg) with Some p => Ok p | None => Err ERR_INVALID_ARGUMENT end) ;;
    let grace := route_grace_from_config (route_grace_ms cfg) in
    protection <~ from_result (protection_of (cf_key_protection cfg)) ;;
    '(identity, store, description) <~
      (match state_dir_utf8 cfg with
       | None => check (negb (weaker Plaintext protection)) ERR_INVALID_ARGUMENT ;~
                 done_with (from_seed (st_seed w), None, lit "ephemeral")
       | Some _ => open_state cfg w protection
       end) ;;
    check (st_tokio_ok w) ERR_INTERNAL ;~
    r <~ read (fun l => length (runtimes l)) ;;
    modify (fun l => set_runtimes (runtimes l ++ [mkRuntime identity store description policy grace new_queue NoError]) l) ;~
    h <~ insert_handle (HRuntime r) ;;
    done_with (OutHandle h)
  end.
Definition rtp2_runtime_new config out_runtime w : Lib C -> (Z * option Out) * Lib C := ffi_guard (runtime_new config out_runtime w).

(** lib.rs 412-425 [rtp2_device_id] *)
Definition rtp2_device_id (h : Z) (out : bool) : Lib C -> (Z * option Out) * Lib C := ffi_guard (
  check out ERR_INVALID_ARGUMENT ;~
  '(_, rt) <~ runtime h ;;
  done_with (OutBytes (id_device_id (rt_identity rt)))).
(** lib.rs 433-444 [rtp2_key_protection] *)
Definition rtp2_key_protection (h : Z) (out : bool) : Lib C -> (Z * option Out) * Lib C := ffi_guard (
  check out ERR_INVALID_ARGUMENT ;~
  '(_, rt) <~ runtime h ;;
  done_with (OutBytes (rt_key_protection rt))).
(** [out_removed] may be NULL.  lib.rs 454-483 [rtp2_keystore_forget] *)
Definition rtp2_keystore_forget (service account : cstr) (out_removed : bool) : Lib C -> (Z * option Out) * Lib C := ffi_guard (
  service <~ from_result (optional_c_str service) ;;
  account <~ from_result (optional_c_str account) ;;
  b <~ (fun l => let '(r, c) := platform_default (B := B) (keychains l) in
                 (map_err (fun _ => ERR_KEYSTORE) r, set_keychains c l)) ;;
  removed <~ (fun l => let '(r, c) := forget b (default DEFAULT_SERVICE service) (default DEFAULT_ACCOUNT account) (keychains l) in
                       (map_err (fun _ => ERR_KEYSTORE) r, set_keychains c l)) ;;
  done_with (if out_removed then OutFlag (Z.b2z removed) else OutNothing)).
(** One wait that ends: [poll]'s loop body.  lib.rs 491-512 [rtp2_poll_event] *)
Definition rtp2_poll_event (h : Z) (out : bool) : Lib C -> (Z * option Out) * Lib C := ffi_guard (
  check out ERR_INVALID_ARGUMENT ;~
  '(r, rt) <~ runtime h ;;
  let '(event, q) := poll (rt_events rt) in
  alter_runtime (with_events q) r ;~
  match event with
  | Some e => b <~ from_result (encode e) ;; done_with (OutBytes b)
  | None => code ERR_TIMEOUT
  end).
(** lib.rs 515-523 [rtp2_runtime_free] *)
Definition rtp2_runtime_free (h : Z) : Lib C -> (Z * option Out) * Lib C := ffi_guard (
  found <~ read (fun l => bool_decide (is_Some (handles l !! h))) ;;
  check found ERR_NOT_FOUND ;~
  modify (fun l => set_handles (next_handle l) (base.delete h (handles l)) l) ;~
  done_with OutNothing).
(** lib.rs 527-539 [rtp2_last_error] *)
Definition rtp2_last_error (h : Z) (out : bool) : Lib C -> (Z * option Out) * Lib C := ffi_guard (
  check out ERR_INVALID_ARGUMENT ;~
  '(_, rt) <~ runtime h ;;
  done_with (OutError (rt_last_error rt))).

(** ** Endpoints and transfers *)
(** The id [iroh] derives from an endpoint's secret key. *)
Context (endpoint_id : bytes -> bytes).

(** [bound]: the socket could be bound, to the loopback address when the
    policy asks for it.  lib.rs 546-591 [rtp2_endpoint_start] *)
Definition rtp2_endpoint_start (h : Z) (out : bool) (bound : bool) : Lib C -> (Z * option Out) * Lib C := ffi_guard (
  check out ERR_INVALID_ARGUMENT ;~
  '(r, _) <~ runtime h ;;
  (if bound then done_with tt else alter_runtime (set_error BindFailed) r ;~ code ERR_INTERNAL) ;~
  e <~ read (fun l => length (endpoints l)) ;;
  modify (fun l => set_endpoints (endpoints l ++ [mkEndpoint r empty_cache]) l) ;~
  he <~ insert_handle (HEndpoint e) ;;
  done_with (OutHandle he)).
(** [addrs] are the addresses the endpoint has, [encoded]: CBOR could write
    them.  lib.rs 596-620 [rtp2_endpoint_address] *)
Definition rtp2_endpoint_address (h : Z) (out : bool) (addrs : list TransportAddr) (encoded : bool)
  : Lib C -> (Z * option Out) * Lib C := ffi_guard (
  check out ERR_INVALID_ARGUMENT ;~
  '(_, ep, rt) <~ endpoint h ;;
  let kept := List.filter (advertises (rt_route_policy rt)) addrs in
  (if encoded then done_with tt else alter_runtime (set_error AddressFailed) (ep_runtime ep) ;~ code ERR_INTERNAL) ;~
  done_with (OutAddress (endpoint_id (endpoint_secret (rt_identity rt))) kept)).
(** [reads] are the results of the reads in turn, [None] a failure; a read of
    no bytes is the end of the file.  lib.rs 642-653 [rtp2_blake3_hash_file] *)
Fixpoint hash_loop (hashed : bytes) (reads : list (option bytes)) : result Z bytes :=
  match reads with
  | [] => Ok (blake3_hash hashed)
  | None :: _ => Err ERR_IO
  | Some chunk :: rest => if len chunk =? 0 then Ok (blake3_hash hashed) else hash_loop (hashed ++ chunk) rest
  end.
(** lib.rs 627-661 [rtp2_blake3_hash_file] *)
Definition rtp2_blake3_hash_file (path : cstr) (out opened : bool) (reads : list (option bytes))
  : Lib C -> (Z * option Out) * Lib C := ffi_guard (
  check out ERR_INVALID_ARGUMENT ;~
  _ <~ from_result (c_path path) ;;
  check opened ERR_IO ;~
  digest <~ from_result (hash_loop [] reads) ;;
  done_with (OutBytes digest)).

(** What a transfer leaves: events, the replay cache, and on a failure the
    error and its event.  lib.rs 740-756 [rtp2_send_file] *)
Definition run_transfer (failed : TransferError -> LastError) (act : Act TransferReport) (n : Node) (e r : nat) : Call C Out := fun l =>
  let '(result, n') := act n in
  let l1 := set_endpoints (alter (fun ep => mkEndpoint (ep_runtime ep) (n_replay n')) e (endpoints l))
    (set_runtimes (alter (with_events (default new_queue (n_events n'))) r (runtimes l)) l) in
  match result with
  | Ok report => (Ok (OutReport (report_json report)), l1)
  | Err err =>
    (Err (transfer_error_code err),
     set_runtimes (alter (fun rt => with_events (push (TransferFailed (replicate 32 0) (spec_error_code err)) (rt_events rt))
       (set_error (failed err) rt)) r (runtimes l1)) l1)
  | Panic => (Panic, l1)
  end.
Definition admission_of (rt : RuntimeState) : RouteAdmission := mkAdmission (rt_route_policy rt) (rt_route_grace rt).
Definition fresh_disk : Resume.Disk := Resume.mkDisk ∅ ∅ None [None].

(** A call of [send_file]: the length in the file's metadata, the file's
    content, the drawn secrets, whether the connection came about, and what
    the peer sends on it. *)
Record SendCall : Type := mkSendCall {
  sc_metadata : option Z;
  sc_source : option bytes;
  sc_secrets : FileSecrets;
  sc_connected : bool;
  sc_world : SendWorld;
  sc_in : bytes
}.
(** transfer.rs 492-509 [PendingTransfer::prepare] *)
Definition prepare_path (w : SendCall) : result TransferError PendingTransfer :=
  match sc_metadata w with
  | None => Err Framing.Io
  | Some file_len =>
    match sc_source w with
    | Some file => prepare file_len file (sc_secrets w) DEFAULT_CHUNK_SIZE
    | None =>
      let* _ := map_err (fun _ => Framing.Crypto "object context")
        (Object.for_file (transfer_id (sc_secrets w)) (object_id (sc_secrets w)) file_len DEFAULT_CHUNK_SIZE) in
      Err Framing.Io
    end
  end.
(** transfer.rs 775-785 [send_file] *)
Definition send_file (w : SendCall) (identity : DeviceIdentity) (local peer : bytes) (admission : RouteAdmission) : Act TransferReport :=
  andthen (from_result (prepare_path w)) (fun pending =>
  andthen (from_result (if sc_connected w then Ok tt else Err Framing.Io)) (fun _ =>
  send_pending (sc_world w) identity local peer pending admission)).
(** [addr] is [None] when NULL or empty, [decode] the CBOR decoding of an
    endpoint address to its id.  lib.rs 701-757 [rtp2_send_file] *)
Definition rtp2_send_file (h : Z) (addr : option bytes) (decode : bytes -> option bytes) (path : cstr) (out : bool) (w : SendCall)
  : Lib C -> (Z * option Out) * Lib C := ffi_guard (
  addr <~ from_result (match addr with Some a => if out then Ok a else Err ERR_INVALID_ARGUMENT | None => Err ERR_INVALID_ARGUMENT end) ;;
  _ <~ from_result (c_path path) ;;
  '(e, ep, rt) <~ endpoint h ;;
  match decode addr with
  | None => alter_runtime (set_error InvalidAddress) (ep_runtime ep) ;~ code ERR_INVALID_ARGUMENT
  | Some peer =>
    run_transfer SendFailed
      (send_file w (rt_identity rt) (endpoint_id (endpoint_secret (rt_identity rt))) peer (admission_of rt))
      (mkNode (sc_in w) [] (Some (rt_events rt)) (ep_replay ep) None fresh_disk) e (ep_runtime ep)
  end).

(** How waiting for a connection ended; with the peer's bytes, what is at the
    destination and the disk of the resume record. *)
Inductive Incoming : Type :=
| AcceptTimeout
| EndpointClosed
| AcceptFailed
| Connected (w : RecvWorld) (input : bytes) (dest : option bytes) (disk : Resume.Disk).
(** transfer.rs 1097-1116 [receive_file] *)
Definition accept_and_receive (i : Incoming) (identity : DeviceIdentity) (local : bytes) (admission : RouteAdmission) (resume : bool)
  : Act TransferReport :=
  match i with
  | AcceptTimeout => from_result (Err Timeout)
  | EndpointClosed | AcceptFailed => from_result (Err Framing.Io)
  | Connected w _ _ _ => receive_file w identity local admission resume
  end.
(** [state] is the path of the resume record.
    lib.rs 783-842 [rtp2_receive_file_resumable] *)
Definition rtp2_receive_file_resumable (h : Z) (dest : cstr) (state : cstr) (out : bool) (i : Incoming)
  : Lib C -> (Z * option Out) * Lib C := ffi_guard (
  check out ERR_INVALID_ARGUMENT ;~
  _ <~ from_result (c_path dest) ;;
  state <~ from_result (optional_c_str state) ;;
  '(e, ep, rt) <~ endpoint h ;;
  let '(input, at_dest, disk) := match i with Connected _ input d k => (input, d, k) | _ => ([], None, fresh_disk) end in
  run_transfer ReceiveFailed
    (accept_and_receive i (rt_identity rt) (endpoint_id (endpoint_secret (rt_identity rt))) (admission_of rt) (bool_decide (is_Some state)))
    (mkNode input [] (Some (rt_events rt)) (ep_replay ep) at_dest disk) e (ep_runtime ep)).
(** lib.rs 763-776 [rtp2_receive_file] *)
Definition rtp2_receive_file (h : Z) (dest : cstr) (out : bool) (i : Incoming) : Lib C -> (Z * option Out) * Lib C :=
  rtp2_receive_file_resumable h dest None out i.
End Api.

(** ** Calls *)
#[warnings="-register-all"]
Inductive ApiCall : Type :=
| CRuntimeNew (config : option Rtp2RuntimeConfig) (out : bool) (w : StartWorld)
| CDeviceId (h : Z) (out : bool)
| CKeyProtection (h : Z) (out : bool)
| CKeystoreForget (service account : cstr) (out : bool)
| CPollEvent (h : Z) (out : bool)
| CRuntimeFree (h : Z)
| CLastError (h : Z) (out : bool)
| CEndpointStart (h : Z) (out bound : bool)
| CEndpointAddress (h : Z) (out : bool) (addrs : list TransportAddr) (encoded : bool)
| CHashFile (path : cstr) (out opened : bool) (reads : list (option bytes))
| CSendFile (h : Z) (addr : option bytes) (decode : bytes -> option bytes) (path : cstr) (out : bool) (w : SendCall)
| CReceiveFile (h : Z) (dest state : cstr) (out : bool) (i : Incoming).

Section Calls.
Context {P : Primitives} {K : PkPrimitives} {B R C : Type} {BC : Backend B C} {HR : HardwareRoot R C} (endpoint_id : bytes -> bytes).

Definition api_step (c : ApiCall) : Lib C -> (Z * option Out) * Lib C :=
  match c with
  | CRuntimeNew config out w => rtp2_runtime_new (B := B) (R := R) config out w
  | CDeviceId h out => rtp2_device_id h out
  | CKeyProtection h out => rtp2_key_protection h out
  | CKeystoreForget s a out => rtp2_keystore_forget (B := B) s a out
  | CPollEvent h out => rtp2_poll_event h out
  | CRuntimeFree h => rtp2_runtime_free h
  | CLastError h out => rtp2_last_error h out
  | CEndpointStart h out bound => rtp2_endpoint_start h out bound
  | CEndpointAddress h out addrs encoded => rtp2_endpoint_address endpoint_id h out addrs encoded
  | CHashFile path out opened reads => rtp2_blake3_hash_file path out opened reads
  | CSendFile h addr decode path out w => rtp2_send_file endpoint_id h addr decode path out w
  | CReceiveFile h dest state out i => rtp2_receive_file_resumable endpoint_id h dest state out i
  end.
Fixpoint run_api (calls : list ApiCall) (l : Lib C) : list (Z * option Out) * Lib C :=
  match calls with
  | [] => ([], l)
  | c :: rest =>
    let '(o, l1) := api_step c l in
    let '(os, l2) := run_api rest l1 in
    (o :: os, l2)
  end.

(** ** The handle table *)
Definition refers (l : Lib C) (v : HandleValue) : Prop :=
  match v with
  | HRuntime r => (r < length (runtimes l))%nat
  | HEndpoint e => (e < length (endpoints l))%nat
  end.
(** Handles in use are below the next one and refer to what is there. *)
Record lib_wf (l : Lib C) : Prop := {
  wf_next : 0 < next_handle l < 2 ^ 64;
  wf_handles h v : handles l !! h = Some v -> 0 < h < next_handle l /\ refers l v;
  wf_endpoints e ep : endpoints l !! e = Some ep -> (ep_runtime ep < length (runtimes l))%nat
}.
(** What stays of a runtime. *)
Definition same_runtime (a b : RuntimeState) : Prop :=
  rt_identity b = rt_identity a /\ rt_store b = rt_store a /\ rt_key_protection b = rt_key_protection a /\
  rt_route_policy b = rt_route_policy a /\ rt_route_grace b = rt_route_grace a.
(** How the state may change: handles are only dropped or new, and what a
    handle refers to keeps its nature. *)
Record evolves (l l' : Lib C) : Prop := {
  ev_next : next_handle l <= next_handle l';
  ev_handles h v : handles l' !! h = Some v -> handles l !! h = Some v \/ next_handle l <= h < next_handle l';
  ev_runtimes r rt : runtimes l !! r = Some rt -> exists rt', runtimes l' !! r = Some rt' /\ same_runtime rt rt';
  ev_endpoints e ep : endpoints l !! e = Some ep -> exists ep', endpoints l' !! e = Some ep' /\ ep_runtime ep' = ep_runtime ep
}.
#[export] Instance same_runtime_preorder : PreOrder same_runtime.
Proof. split; [by intros x|]. intros x y z (H1 & H2 & H3 & H4 & H5) (G1 & G2 & G3 & G4 & G5). unfold same_runtime. by rewrite G1, G2, G3, G4, G5. Qed.
#[export] Instance evolves_preorder : PreOrder evolves.
Proof.
  split.
  - intros l. split; [lia|by left|by eexists|by eexists].
  - intros x y z [N1 H1 R1 E1] [N2 H2 R2 E2]. split; [lia| | |].
    + intros h v Hv. destruct (H2 h v Hv) as [Hy|?]; [|right; lia]. destruct (H1 h v Hy); [by left|right; lia].
    + intros r rt Hr. destruct (R1 r rt Hr) as (rt1 & Hr1 & S1). destruct (R2 r rt1 Hr1) as (rt2 & Hr2 & S2).
      exists rt2. split; [done|]. by etrans.
    + intros e ep He. destruct (E1 e ep He) as (ep1 & He1 & S1). destruct (E2 e ep1 He1) as (ep2 & He2 & S2).
      exists ep2. split; [done|congruence].
Qed.

(** Actions that make no handle, and actions that make at most one. *)
Definition tame {A} (m : Call C A) : Prop := forall l, lib_wf l ->
  lib_wf (m l).2 /\ evolves l (m l).2 /\ next_handle (m l).2 = next_handle l.
Definition grows {A} (m : Call C A) : Prop := forall l, lib_wf l -> next_handle l + 1 < 2 ^ 64 ->
  lib_wf (m l).2 /\ evolves l (m l).2 /\ next_handle (m l).2 <= next_handle l + 1.
Lemma tame_next {A D} (m : Call C A) (f : A -> Call C D) : tame m -> (forall a, tame (f a)) -> tame (andthen m f).
Proof.
  intros Hm Hf l Hw. destruct (Hm l Hw) as (W1 & E1 & N1). unfold andthen. destruct (m l) as [[a|e|] l1]; cbn [fst snd] in *; [|done..].
  destruct (Hf a l1 W1) as (W2 & E2 & N2). split; [done|]. split; [by etrans|congruence].
Qed.
Lemma grows_next {A D} (m : Call C A) (f : A -> Call C D) : tame m -> (forall a, grows (f a)) -> grows (andthen m f).
Proof.
  intros Hm Hf l Hw Hn. destruct (Hm l Hw) as (W1 & E1 & N1). unfold andthen. destruct (m l) as [[a|e|] l1]; cbn [fst snd] in *.
  - destruct (Hf a l1 W1) as (W2 & E2 & N2); [lia|]. split; [done|]. split; [by etrans|lia].
  - split; [done|]. split; [done|]. lia.
  - split; [done|]. split; [done|]. lia.
Qed.
Lemma grows_tame {A} (m : Call C A) : tame m -> grows m.
Proof. intros Hm l Hw _. destruct (Hm l Hw) as (? & ? & ?). split; [done|]. split; [done|]. lia. Qed.

(** Nothing that handles refer to changes. *)
Definition same_tables (l l' : Lib C) : Prop :=
  next_handle l' = next_handle l /\ handles l' = handles l /\ runtimes l' = runtimes l /\ endpoints l' = endpoints l.
Definition quiet {A} (m : Call C A) : Prop := forall l, same_tables l (m l).2.
Lemma quiet_next {A D} (m : Call C A) (f : A -> Call C D) : quiet m -> (forall a, quiet (f a)) -> quiet (andthen m f).
Proof.
  intros Hm Hf l. specialize (Hm l). unfold andthen. destruct (m l) as [[a|e|] l1]; cbn [snd] in *; [|done..].
  destruct Hm as (N & H & T & E). destruct (Hf a l1) as (N' & H' & T' & E'). split_and!; congruence.
Qed.
Lemma tame_same {A} (m : Call C A) : quiet m -> tame m.
Proof.
  intros Hs l [W1 W2 W3]. destruct (Hs l) as (N & H & Rt & E). split; [|split; [|done]].
  - split; [by rewrite N| |].
    + intros h v. rewrite H, N. intros Hv. destruct (W2 h v Hv) as [? Hr]. split; [done|].
      destruct v; unfold refers in *; by rewrite ?Rt, ?E.
    + intros e ep. rewrite E, Rt. apply W3.
  - split; [lia| | |]; rewrite ?H, ?Rt, ?E; [by left|by eexists|by eexists].
Qed.
Lemma tame_answer {A} (a : A) : tame (done_with a).
Proof. by apply tame_same. Qed.
Lemma tame_code {A} c : tame (code (A := A) c).
Proof. by apply tame_same. Qed.
Lemma tame_pass {A} (r : result Z A) : tame (from_result r).
Proof. by apply tame_same. Qed.
Lemma tame_read {A} (f : Lib C -> A) : tame (read f).
Proof. by apply tame_same. Qed.
Lemma tame_check ok c : tame (check ok c).
Proof. destruct ok; by apply tame_same. Qed.
Lemma tame_runtime h : tame (runtime h).
Proof. apply tame_same. intros l. unfold runtime. by destruct (handles l !! h) as [[]|]. Qed.
Lemma tame_endpoint h : tame (endpoint h).
Proof. apply tame_same. intros l. unfold endpoint. by destruct (handles l !! h) as [[]|]. Qed.
Lemma tame_put_dir dir (f : Lib C -> StateDir) : tame (modify (fun l => put_dir dir (f l) l)).
Proof. by apply tame_same. Qed.
Lemma alter_ok f r l : (forall rt, same_runtime rt (f rt)) -> lib_wf l ->
  lib_wf (set_runtimes (alter f r (runtimes l)) l) /\ evolves l (set_runtimes (alter f r (runtimes l)) l).
Proof.
  intros Hf [W1 W2 W3]. split; split; cbn [next_handle handles runtimes endpoints set_runtimes].
  - exact W1.
  - intros h v Hv. destruct (W2 h v Hv) as [? Hr]. split; [done|]. destruct v; unfold refers in *; cbn; by rewrite ?length_alter.
  - intros e ep He. rewrite length_alter. by apply (W3 e).
  - lia.
  - by left.
  - intros r' rt Hr. destruct (decide (r = r')) as [<-|Hne].
    + exists (f rt). split; [by rewrite list_lookup_alter_eq, Hr|apply Hf].
    + exists rt. split; [by rewrite list_lookup_alter_ne|done].
  - by eexists.
Qed.
Lemma tame_alter f r : (forall rt, same_runtime rt (f rt)) -> tame (alter_runtime f r).
Proof. intros Hf l Hw. cbn. destruct (alter_ok f r l Hf Hw). done. Qed.

Create HintDb tame.
#[local] Hint Resolve tame_answer tame_code tame_pass tame_read tame_check tame_runtime tame_endpoint tame_put_dir : tame.
Ltac tame :=
  repeat first
    [ progress intros
    | apply tame_next
    | solve [auto with tame]
    | match goal with |- tame (match ?x with _ => _ end) => destruct x end
    | apply tame_alter; intros; done
    | apply tame_same; intros; cbn; done ].
Lemma insert_ok v l : lib_wf l -> refers l v -> next_handle l + 1 < 2 ^ 64 ->
  lib_wf (insert_handle v l).2 /\ evolves l (insert_handle v l).2 /\ next_handle (insert_handle v l).2 <= next_handle l + 1.
Proof.
  intros [W1 W2 W3] Hv Hn. cbn. assert (Hw : wrap 64 (next_handle l + 1) = next_handle l + 1) by (unfold wrap; apply Z.mod_small; lia).
  split; [|split; [|cbn; lia]].
  - split; cbn; rewrite ?Hw; [lia| |exact W3]. intros h w. rewrite lookup_insert. case_decide as Hd.
    + subst h. intros [= <-]. split; [lia|]. by destruct v.
    + intros Hh. destruct (W2 h w Hh) as [? ?]. split; [lia|]. by destruct w.
  - split; cbn; rewrite ?Hw; [lia| |by eexists|by eexists]. intros h w. rewrite lookup_insert. case_decide as Hd; [right; lia|by left].
Qed.
Lemma grows_insert v (k : Z -> Call C Out) l : (forall h, tame (k h)) -> lib_wf l -> refers l v -> next_handle l + 1 < 2 ^ 64 ->
  lib_wf (andthen (insert_handle v) k l).2 /\ evolves l (andthen (insert_handle v) k l).2 /\
  next_handle (andthen (insert_handle v) k l).2 <= next_handle l + 1.
Proof.
  intros Hk Hw Hv Hn. destruct (insert_ok v l Hw Hv Hn) as (W & E & N). unfold andthen.
  assert (He : exists h, (insert_handle v l).1 = Ok h) by by eexists. destruct He as [h He].
  destruct (insert_handle v l) as [r l1]; cbn [fst snd] in *; subst r.
  destruct (Hk h l1 W) as (W2 & E2 & N2). split; [done|]. split; [by etrans|lia].
Qed.
Lemma new_runtime_grows rt : grows (
  andthen (read (fun l => length (runtimes l))) (fun r =>
  andthen (modify (fun l => set_runtimes (runtimes l ++ [rt]) l)) (fun _ =>
  andthen (insert_handle (HRuntime r)) (fun h => done_with (OutHandle h))))).
Proof.
  intros l [W1 W2 W3] Hn. unfold andthen at 1 4 7, read, modify. cbn beta iota.
  set (l1 := set_runtimes (runtimes l ++ [rt]) l).
  assert (Hw1 : lib_wf l1).
  { split; cbn; [exact W1| |].
    - intros h v Hv. destruct (W2 h v Hv) as [? Hr]. split; [done|]. destruct v; unfold refers in *; cbn; rewrite ?length_app; lia.
    - intros e ep He. specialize (W3 e ep He). rewrite length_app. lia. }
  assert (He1 : evolves l l1).
  { split; cbn; [lia|by left| |by eexists]. intros r x Hx. exists x. split; [by apply lookup_app_l_Some|done]. }
  unfold andthen at 1 3 5. cbn beta iota.
  destruct (grows_insert (HRuntime (length (runtimes l))) (fun h => done_with (OutHandle h)) l1) as (W & E & N).
  - intros h. apply tame_answer.
  - exact Hw1.
  - cbn. rewrite length_app. cbn. lia.
  - exact Hn.
  - split; [exact W|]. split; [by etrans|exact N].
Qed.
Lemma new_endpoint_grows r l : (r < length (runtimes l))%nat -> lib_wf l -> next_handle l + 1 < 2 ^ 64 ->
  let m := andthen (read (fun l => length (endpoints l))) (fun e =>
    andthen (modify (fun l => set_endpoints (endpoints l ++ [mkEndpoint r empty_cache]) l)) (fun _ =>
    andthen (insert_handle (HEndpoint e)) (fun h => done_with (OutHandle h)))) in
  lib_wf (m l).2 /\ evolves l (m l).2 /\ next_handle (m l).2 <= next_handle l + 1.
Proof.
  intros Hr [W1 W2 W3] Hn. cbv zeta. unfold andthen at 1 4 7, read, modify. cbn beta iota.
  set (l1 := set_endpoints (endpoints l ++ [mkEndpoint r empty_cache]) l).
  assert (Hw1 : lib_wf l1).
  { split; cbn; [exact W1| |].
    - intros h v Hv. destruct (W2 h v Hv) as [? Hx]. split; [done|]. destruct v; unfold refers in *; cbn; rewrite ?length_app; lia.
    - intros e ep He. apply lookup_app_Some in He as [He|[_ He]]; [by apply (W3 e)|].
      apply list_lookup_singleton_Some in He as [_ <-]. exact Hr. }
  assert (He1 : evolves l l1).
  { split; cbn; [lia|by left|by eexists|]. intros e x He. exists x. split; [by apply lookup_app_l_Some|done]. }
  unfold andthen at 1 3 5. cbn beta iota.
  destruct (grows_insert (HEndpoint (length (endpoints l))) (fun h => done_with (OutHandle h)) l1) as (W & E & N).
  - intros h. apply tame_answer.
  - exact Hw1.
  - cbn. rewrite length_app. cbn. lia.
  - exact Hn.
  - split; [exact W|]. split; [by etrans|exact N].
Qed.
Lemma select_store_quiet w dir p s a : quiet (select_store (B := B) (R := R) w dir p s a).
Proof.
  intros l. unfold select_store. destruct p; [done| |].
  - by destruct (open_keystore_sealer _ _ _ _).
  - by destruct (open_hardware_sealer _ _ _ _ _ _ _ _) as [[? ?] ?].
Qed.
Lemma load_identity_quiet w dir store : quiet (load_identity w dir store).
Proof. intros l. unfold load_identity. by destruct (load_or_create_identity _ _ _ _ _ _ _). Qed.
Lemma open_state_quiet cfg w p : quiet (open_state (B := B) (R := R) cfg w p).
Proof.
  unfold open_state. repeat (apply quiet_next; [|intros ?]); try done; [apply select_store_quiet|].
  destruct a5 as [store d]. apply quiet_next; [apply load_identity_quiet|done].
Qed.
Lemma open_state_tame cfg w p : tame (open_state (B := B) (R := R) cfg w p).
Proof. apply tame_same, open_state_quiet. Qed.
Lemma runtime_new_grows cfg out w : grows (runtime_new (B := B) (R := R) cfg out w).
Proof.
  unfold runtime_new. destruct cfg as [cfg|]; [|apply grows_tame, tame_code].
  do 5 (apply grows_next; [auto with tame|intros ?]).
  apply grows_next; [destruct (state_dir_utf8 cfg); [apply open_state_tame|tame]|]. intros [[id store] description].
  apply grows_next; [auto with tame|]. intros _. apply new_runtime_grows.
Qed.
Lemma set_endpoints_ok f e l : (forall ep, ep_runtime (f ep) = ep_runtime ep) -> lib_wf l ->
  lib_wf (set_endpoints (alter f e (endpoints l)) l) /\ evolves l (set_endpoints (alter f e (endpoints l)) l).
Proof.
  intros Hf [W1 W2 W3]. split; split; cbn [next_handle handles runtimes endpoints set_endpoints].
  - exact W1.
  - intros h v Hv. destruct (W2 h v Hv) as [? Hr]. split; [done|]. destruct v; unfold refers in *; cbn; by rewrite ?length_alter.
  - intros e' ep He. rewrite list_lookup_alter in He. case_decide; [|by apply (W3 e')].
    apply fmap_Some in He as (x & Hx & ->). rewrite Hf. by apply (W3 e).
  - lia.
  - by left.
  - by eexists.
  - intros e' ep He. rewrite list_lookup_alter. case_decide as Hd; [subst e'|by eexists]. rewrite He. by eexists.
Qed.
Lemma run_transfer_tame failed act n e r : tame (run_transfer failed act n e r).
Proof.
  intros l Hw. unfold run_transfer. destruct (act n) as [result n'].
  set (l0 := set_runtimes (alter (with_events (default new_queue (n_events n'))) r (runtimes l)) l).
  destruct (alter_ok (with_events (default new_queue (n_events n'))) r l) as [W0 E0]; [done|done|]. fold l0 in W0, E0.
  destruct (set_endpoints_ok (fun ep => mkEndpoint (ep_runtime ep) (n_replay n')) e l0) as [W1 E1]; [done|done|].
  change (set_endpoints (alter (fun ep => mkEndpoint (ep_runtime ep) (n_replay n')) e (endpoints l))
    (set_runtimes (alter (with_events (default new_queue (n_events n'))) r (runtimes l)) l))
    with (set_endpoints (alter (fun ep => mkEndpoint (ep_runtime ep) (n_replay n')) e (endpoints l0)) l0).
  set (l1 := set_endpoints _ l0) in *. assert (E : evolves l l1) by by etrans.
  destruct result as [report|err|]; cbn [snd]; [done| |done].
  destruct (alter_ok (fun rt => with_events (push (TransferFailed (replicate 32 0) (spec_error_code err)) (rt_events rt))
       (set_error (failed err) rt)) r l1) as [W2 E2]; [done|done|]. split; [done|]. split; [by etrans|done].
Qed.
Lemma guard_snd m (l : Lib C) : (ffi_guard m l).2 = (m l).2.
Proof. unfold ffi_guard. by destruct (m l) as [[?|?|] ?]. Qed.
Lemma guard_grows m : grows m -> forall l, lib_wf l -> next_handle l + 1 < 2 ^ 64 ->
  lib_wf (ffi_guard m l).2 /\ evolves l (ffi_guard m l).2 /\ next_handle (ffi_guard m l).2 <= next_handle l + 1.
Proof. intros Hm l Hw Hn. rewrite guard_snd. by apply Hm. Qed.
Lemma free_tame h : tame (modify (fun l => set_handles (next_handle l) (base.delete h (handles l)) l)).
Proof.
  intros l [W1 W2 W3]. cbn. split; [|split; [|done]].
  - split; cbn; [exact W1| |exact W3]. intros h' v Hv. apply lookup_delete_Some in Hv as [_ Hv].
    destruct (W2 h' v Hv) as [? ?]. split; [done|]. by destruct v.
  - split; cbn; [lia| |by eexists|by eexists]. intros h' v Hv. apply lookup_delete_Some in Hv as [_ Hv]. by left.
Qed.
Lemma next_stop {A D} (m : Call C A) (f : A -> Call C D) l (r : result Z A) l' : m l = (r, l') -> (forall a, r <> Ok a) ->
  andthen m f l = (match r with Ok _ => Panic | Err e => Err e | Panic => Panic end, l').
Proof. unfold andthen. intros ->. destruct r; [|done..]. intros H. by destruct (H a). Qed.
Lemma runtime_cases h (l : Lib C) :
  (exists r rt, runtime h l = (Ok (r, rt), l) /\ handles l !! h = Some (HRuntime r) /\ runtimes l !! r = Some rt) \/
  (exists x, runtime h l = (x, l) /\ forall a, x <> Ok a).
Proof.
  unfold runtime. destruct (handles l !! h) as [[r|e]|]; [|by right; eexists..].
  destruct (runtimes l !! r) as [rt|] eqn:Hr; [by left; exists r, rt|by right; eexists].
Qed.
Lemma endpoint_start_grows h out (bound : bool) : grows (
  andthen (check out ERR_INVALID_ARGUMENT) (fun _ =>
  andthen (runtime h) (fun x => match x with (r, _) =>
  andthen (if bound then done_with tt else andthen (alter_runtime (set_error BindFailed) r) (fun _ => code ERR_INTERNAL)) (fun _ =>
  andthen (read (fun l : Lib C => length (endpoints l))) (fun e =>
  andthen (modify (fun l => set_endpoints (endpoints l ++ [mkEndpoint r empty_cache]) l)) (fun _ =>
  andthen (insert_handle (HEndpoint e)) (fun he => done_with (OutHandle he))))) end))).
Proof.
  apply grows_next; [auto with tame|]. intros _ l Hw Hn.
  assert (Hid : lib_wf l /\ evolves l l /\ next_handle l <= next_handle l + 1) by (split; [done|]; split; [done|lia]).
  destruct (runtime_cases h l) as [(r & rt & Hrt & _ & Hr)|(x & Hrt & Hx)].
  - rewrite (andthen_ok _ _ _ _ _ Hrt). apply lookup_lt_Some in Hr. destruct bound.
    + rewrite (andthen_ok (done_with tt) _ l tt l) by done. by apply new_endpoint_grows.
    + destruct (alter_ok (set_error BindFailed) r l) as [W E]; [done|done|].
      rewrite (next_stop _ _ l (Err ERR_INTERNAL) (set_runtimes (alter (set_error BindFailed) r (runtimes l)) l)) by done.
      cbn. split; [done|]. split; [done|]. lia.
  - rewrite (next_stop _ _ _ _ _ Hrt) by done. by destruct x.
Qed.
Lemma api_ok c l : lib_wf l -> next_handle l + 1 < 2 ^ 64 ->
  lib_wf (api_step c l).2 /\ evolves l (api_step c l).2 /\ next_handle (api_step c l).2 <= next_handle l + 1.
Proof.
  destruct c; cbn [api_step]; apply guard_grows; try (apply grows_tame; solve [tame]).
  - apply runtime_new_grows.
  - apply grows_tame. tame; apply tame_same; intros l0; [by destruct (platform_default _)|by destruct (forget _ _ _ _)].
  - apply grows_tame. tame. apply free_tame.
  - apply endpoint_start_grows.
  - apply grows_tame. tame. apply run_transfer_tame.
  - apply grows_tame. tame; apply run_transfer_tame.
Qed.
Lemma run_api_ok calls l : lib_wf l -> next_handle l + len calls < 2 ^ 64 ->
  lib_wf (run_api calls l).2 /\ evolves l (run_api calls l).2 /\ next_handle (run_api calls l).2 <= next_handle l + len calls.
Proof.
  revert l. induction calls as [|c calls IH]; intros l Hw Hn.
  - cbn. split; [done|]. split; [done|]. change (len (@nil ApiCall)) with 0. lia.
  - rewrite len_cons in *. pose proof (len_nonneg calls). destruct (api_ok c l Hw ltac:(lia)) as (W & E & N).
    cbn [run_api]. destruct (api_step c l) as [o l1]; cbn [snd] in *. destruct (IH l1 W ltac:(lia)) as (W2 & E2 & N2).
    destruct (run_api calls l1) as [os l2]; cbn [snd] in *. split; [done|]. split; [by etrans|lia].
Qed.

(** ** Codes *)
(** An early return never carries [OK]. *)
Definition negative {A} (m : Call C A) : Prop := forall l c, (m l).1 = Err c -> c < 0.
Lemma negative_next {A D} (m : Call C A) (f : A -> Call C D) : negative m -> (forall a, negative (f a)) -> negative (andthen m f).
Proof.
  intros Hm Hf l c. unfold andthen. specialize (Hm l c). destruct (m l) as [[a|e|] l1]; cbn [fst] in *; [apply Hf|intros [= ->]; by apply Hm|done].
Qed.
Definition negative_result {A} (r : result Z A) : Prop := forall c, r = Err c -> c < 0.
Lemma negative_pass {A} (r : result Z A) : negative_result r -> negative (from_result r).
Proof. intros Hr l c. apply Hr. Qed.
Lemma negative_pair {A} (m : Call C A) : (forall l, negative_result (m l).1) -> negative m.
Proof. intros Hm l c. apply Hm. Qed.
Lemma negative_map {E A} (f : E -> Z) (r : result E A) : (forall e, f e < 0) -> negative_result (map_err f r).
Proof. intros Hf c. destruct r; cbn; [done| |done]. intros [= <-]. apply Hf. Qed.
Lemma negative_rbind {A D} (r : result Z A) (f : A -> result Z D) : negative_result r -> (forall a, negative_result (f a)) -> negative_result (rbind r f).
Proof. intros Hr Hf c. destruct r as [a|e|]; cbn; [apply Hf|intros [= ->]; by apply Hr|done]. Qed.
Lemma c_path_negative p : negative_result (c_path p).
Proof. intros c. unfold c_path. destruct p as [s|]; [destruct (utf8_valid s)|]; by intros [= <-]. Qed.
Lemma optional_negative p : negative_result (optional_c_str p).
Proof. unfold optional_c_str. destruct p; [|done]. apply negative_rbind; [apply c_path_negative|done]. Qed.
Lemma store_code_negative e : store_error_code e < 0.
Proof. by destruct e. Qed.
Lemma transfer_code_negative e : transfer_error_code e < 0.
Proof. by destruct e. Qed.
Lemma negative_check ok c : c < 0 -> negative (check ok c).
Proof. intros Hc l e. destruct ok; [done|]. cbn. congruence. Qed.
Lemma negative_code {A} c : c < 0 -> negative (code (A := A) c).
Proof. intros Hc l e. cbn. congruence. Qed.
Lemma negative_runtime h : negative (runtime h).
Proof.
  intros l c. unfold runtime. destruct (handles l !! h) as [[r|e]|]; cbn; [destruct (_ !! r)|..]; intros [= <-]; done.
Qed.
Lemma negative_endpoint h : negative (endpoint h).
Proof.
  intros l c. unfold endpoint. destruct (handles l !! h) as [[r|e]|]; cbn;
    [|destruct (endpoints l !! e) as [ep|]; [destruct (_ !! ep_runtime ep)|]|]; intros [= <-]; done.
Qed.
#[local] Hint Resolve c_path_negative optional_negative negative_runtime negative_endpoint store_code_negative transfer_code_negative : tame.
Ltac negative :=
  repeat first
    [ progress intros
    | apply negative_next
    | solve [auto with tame]
    | apply negative_check; done
    | apply negative_code; done
    | match goal with |- negative (match ?x with _ => _ end) => destruct x end
    | apply negative_pass; first [done | solve [auto with tame] | by apply negative_map]
    | done ].
Lemma select_store_negative w dir p s a : negative (select_store (B := B) (R := R) w dir p s a).
Proof.
  apply negative_pair. intros l. unfold select_store. destruct p; [done| |].
  - destruct (open_keystore_sealer _ _ _ _) as [r c]. apply negative_rbind; [by apply negative_map|done].
  - destruct (open_hardware_sealer _ _ _ _ _ _ _ _) as [[r c] f]. apply negative_rbind; [by apply negative_map|done].
Qed.
Lemma load_identity_negative w dir store : negative (load_identity w dir store).
Proof.
  apply negative_pair. intros l. unfold load_identity. destruct (load_or_create_identity _ _ _ _ _ _ _) as [r f].
  apply negative_rbind; [apply negative_map, store_code_negative|by intros []].
Qed.
Lemma protection_negative v : negative_result (protection_of v).
Proof. intros c. destruct v as [|[[]|[]|]|]; cbn; first [done | by intros [= <-]]. Qed.
Lemma runtime_new_negative cfg out w : negative (runtime_new (B := B) (R := R) cfg out w).
Proof.
  unfold runtime_new, open_state. negative; first [apply select_store_negative | apply load_identity_negative | idtac].
  all: try (apply negative_pass); first [ apply negative_map, store_code_negative | apply protection_negative | idtac ].
  intros c. destruct (policy_from_u64 _); [done|by intros [= <-]].
Qed.
Lemma run_transfer_negative failed act n e r : negative (run_transfer failed act n e r).
Proof.
  intros l c. unfold run_transfer. destruct (act n) as [[report|err|] n']; cbn; [done| |done]. intros [= <-]. apply transfer_code_negative.
Qed.
Lemma hash_loop_negative hashed reads : negative_result (hash_loop hashed reads).
Proof.
  revert hashed. induction reads as [|[chunk|] rest IH]; intros hashed; cbn [hash_loop]; [done| |by intros c [= <-]].
  destruct (len chunk =? 0); [done|apply IH].
Qed.
Definition reply_ok (x : (Z * option Out) * Lib C) : Prop := x.1.1 <= 0 /\ (x.1.1 = OK <-> is_Some x.1.2).
Lemma guard_reply m l : negative m -> reply_ok (ffi_guard m l).
Proof.
  intros Hm. specialize (Hm l). unfold reply_ok, ffi_guard. destruct (m l) as [[o|c|] l1]; cbn.
  - split; [done|]. split; [by eexists|done].
  - specialize (Hm c eq_refl). split; [lia|]. unfold OK. split; [lia|by intros [? ?]].
  - split; [done|]. split; [done|by intros [? ?]].
Qed.
Lemma api_reply c l : reply_ok (api_step c l).
Proof.
  destruct c; cbn [api_step]; apply guard_reply; try solve [negative].
  - apply runtime_new_negative.
  - negative; apply negative_pair; intros l0; [destruct (platform_default _)|destruct (forget _ _ _ _)]; by apply negative_map.
  - negative. apply negative_pass. rewrite encode_event_eq. done.
  - negative. apply negative_pass, hash_loop_negative.
  - negative; [apply negative_pass; intros x Hx; destruct addr; [destruct out|]; first [discriminate | by injection Hx as <-]|apply run_transfer_negative].
  - negative; apply run_transfer_negative.
Qed.

(** ** What stays on disk *)
(** A record that is there is not replaced. *)
Definition file_kept (f f' : FileState) : Prop := visible f <> Missing -> f' = f.
Definition kept (l l' : Lib C) : Prop := forall dir,
  file_kept (sd_identity (dir_at dir l)) (sd_identity (dir_at dir l')) /\
  file_kept (sd_vault (dir_at dir l)) (sd_vault (dir_at dir l')).
#[export] Instance kept_preorder : PreOrder kept.
Proof.
  split; [by intros l dir|]. intros x y z Hxy Hyz dir. destruct (Hxy dir) as [I1 V1], (Hyz dir) as [I2 V2].
  split; intros Hv; [specialize (I1 Hv); rewrite <- I1 in *|specialize (V1 Hv); rewrite <- V1 in *]; [by apply I2|by apply V2].
Qed.
Definition keeps {A} (m : Call C A) : Prop := forall l, kept l (m l).2.
Lemma keeps_next {A D} (m : Call C A) (f : A -> Call C D) : keeps m -> (forall a, keeps (f a)) -> keeps (andthen m f).
Proof.
  intros Hm Hf l. specialize (Hm l). unfold andthen. destruct (m l) as [[a|e|] l1]; cbn [snd] in *; [|done..].
  etrans; [exact Hm|apply Hf].
Qed.
Lemma keeps_dirs {A} (m : Call C A) : (forall l, dirs (m l).2 = dirs l) -> keeps m.
Proof. intros Hd l dir. unfold dir_at. by rewrite Hd. Qed.
Lemma dir_at_put dir d (l : Lib C) : dir_at dir (put_dir dir d l) = d.
Proof. unfold dir_at, put_dir. cbn. by rewrite lookup_insert_eq. Qed.
Lemma kept_put dir d (l : Lib C) : file_kept (sd_identity (dir_at dir l)) (sd_identity d) ->
  file_kept (sd_vault (dir_at dir l)) (sd_vault d) -> kept l (put_dir dir d l).
Proof.
  intros Hi Hv dir'. unfold put_dir, dir_at at 2 4. cbn [dirs set_dirs]. rewrite lookup_insert. case_decide as Hd; [by subst dir'|done].
Qed.
Lemma keeps_check ok c : keeps (check ok c).
Proof. by apply keeps_dirs; destruct ok. Qed.
Lemma keeps_runtime h : keeps (runtime h).
Proof. apply keeps_dirs. intros l. unfold runtime. by destruct (handles l !! h) as [[]|]. Qed.
Lemma keeps_endpoint h : keeps (endpoint h).
Proof. apply keeps_dirs. intros l. unfold endpoint. by destruct (handles l !! h) as [[]|]. Qed.
#[local] Hint Resolve keeps_check keeps_runtime keeps_endpoint : tame.
Ltac keeps :=
  repeat first
    [ progress intros
    | apply keeps_next
    | solve [auto with tame]
    | match goal with |- keeps (match ?x with _ => _ end) => destruct x end
    | apply keeps_dirs; intros; done ].
Lemma select_store_keeps w dir p s a : keeps (select_store (B := B) (R := R) w dir p s a).
Proof.
  intros l. unfold select_store. destruct p; [done| |].
  - by destruct (open_keystore_sealer _ _ _ _).
  - destruct (open_hardware_sealer _ _ _ _ _ _ _ _) as [[r c] f] eqn:Ho. cbn [snd].
    apply (kept_put dir _ (set_keychains c l)); [done|]. intros Hv. cbn [sd_vault]. change (dir_at dir (set_keychains c l)) with (dir_at dir l) in *.
    unfold open_hardware_sealer in Ho. destruct (let* _ := check_label s in check_label a); [|by injection Ho as _ _ <-..].
    destruct (root_open _ _ _) as [[root|e|] c1]; [|by injection Ho as _ _ <-..].
    pose proof (vault_kept root (vc_read_ok (st_vault w)) (vc_io (st_vault w)) (vc_draw (st_vault w)) (vc_fresh (st_vault w)) _ Hv) as Hk.
    destruct (open_vault _ _ _ _ _ _) as [r1 f1]. by injection Ho as _ _ <-.
Qed.
Lemma load_identity_keeps w dir store : keeps (load_identity w dir store).
Proof.
  intros l. unfold load_identity. destruct (load_or_create_identity _ _ _ _ _ _ _) as [r f] eqn:Ho. cbn [snd].
  apply kept_put; [|done]. intros Hv. cbn [sd_identity].
  destruct (identity_kept store (st_read_ok w) (st_io w) (st_seed w) (st_draw w) (st_now w) _ Hv) as (x & Hx & _). congruence.
Qed.
Lemma open_state_keeps cfg w p : keeps (open_state (B := B) (R := R) cfg w p).
Proof.
  unfold open_state. apply keeps_next; [by apply keeps_dirs|]. intros dir l.
  unfold andthen at 1, read. cbn beta iota. unfold andthen at 1, from_result. destruct (map_err _ _) as [entry|e|]; cbn [snd]; [|done..].
  unfold andthen at 1, modify. cbn beta iota. etrans; [apply (kept_put dir (mkDir entry (sd_identity (dir_at dir l)) (sd_vault (dir_at dir l)))); done|].
  generalize (put_dir dir (mkDir entry (sd_identity (dir_at dir l)) (sd_vault (dir_at dir l))) l). clear l. fold (@kept).
  match goal with |- forall l, kept l (?m l).2 => change (keeps m) end.
  keeps; [apply select_store_keeps|apply load_identity_keeps].
Qed.
Lemma runtime_new_keeps cfg out w : keeps (runtime_new (B := B) (R := R) cfg out w).
Proof.
  unfold runtime_new. destruct cfg as [cfg|]; [|keeps]. do 5 (apply keeps_next; [keeps|intros ?]).
  apply keeps_next; [destruct (state_dir_utf8 cfg); [apply open_state_keeps|keeps]|keeps].
Qed.
Lemma run_transfer_keeps failed act n e r : keeps (run_transfer failed act n e r).
Proof. apply keeps_dirs. intros l. unfold run_transfer. by destruct (act n) as [[report|err|] n']. Qed.
Lemma guard_keeps m : keeps m -> forall l, kept l (ffi_guard m l).2.
Proof. intros Hm l. rewrite guard_snd. apply Hm. Qed.
Lemma api_keeps c l : kept l (api_step c l).2.
Proof.
  destruct c; cbn [api_step]; apply guard_keeps; try solve [keeps].
  - apply runtime_new_keeps.
  - keeps; apply keeps_dirs; intros l0; [by destruct (platform_default _)|by destruct (forget _ _ _ _)].
  - keeps. apply run_transfer_keeps.
  - keeps; apply run_transfer_keeps.
Qed.
Lemma run_api_keeps calls l : kept l (run_api calls l).2.
Proof.
  revert l. induction calls as [|c calls IH]; intros l; [done|]. cbn [run_api]. pose proof (api_keeps c l) as Hc.
  destruct (api_step c l) as [o l1]. specialize (IH l1). destruct (run_api calls l1) as [os l2]. cbn [snd] in *. by etrans.
Qed.

(** ** Handles *)
Definition never_panics {A} (x : result Z A * Lib C) : Prop := x.1 <> Panic.
Lemma runtime_total h (l : Lib C) : lib_wf l -> never_panics (runtime h l).
Proof.
  intros Hw. unfold never_panics, runtime. destruct (handles l !! h) as [[r|e]|] eqn:Hh; [|done..].
  destruct (wf_handles _ Hw _ _ Hh) as [_ Hr]. apply lookup_lt_is_Some_2 in Hr as [rt Hrt]. by rewrite Hrt.
Qed.
Lemma endpoint_total h (l : Lib C) : lib_wf l -> never_panics (endpoint h l).
Proof.
  intros Hw. unfold never_panics, endpoint. destruct (handles l !! h) as [[r|e]|] eqn:Hh; [done| |done].
  destruct (wf_handles _ Hw _ _ Hh) as [_ He]. apply lookup_lt_is_Some_2 in He as [ep Hep]. rewrite Hep.
  apply (wf_endpoints _ Hw), lookup_lt_is_Some_2 in Hep as [rt Hrt]. by rewrite Hrt.
Qed.
Lemma run_api_replies calls l : Forall (fun o : Z * option Out => o.1 <= 0 /\ (o.1 = OK <-> is_Some o.2)) (run_api calls l).1.
Proof.
  revert l. induction calls as [|c calls IH]; intros l; [by constructor|]. cbn [run_api]. pose proof (api_reply c l) as Hc.
  destruct (api_step c l) as [o l1]. specialize (IH l1). destruct (run_api calls l1) as [os l2]. by constructor.
Qed.
(** C22: Handles are typed: in any sequence of calls that does not exhaust the
    2^64 handle numbers, a handle in use refers to a runtime or an endpoint
    that exists, for ever of the same kind and to the same one, an endpoint
    keeps its runtime, and a runtime its identity, store, protection and route
    policy; no lookup of a handle, of whatever number, panics; and every call
    answers [OK] or a negative code and writes its out-parameter exactly with
    [OK]. *)
Theorem handles_well_typed calls l : lib_wf l -> next_handle l + len calls < 2 ^ 64 ->
  let '(replies, l') := run_api calls l in
  lib_wf l' /\ evolves l l' /\
  (forall h v, handles l !! h = Some v -> forall v', handles l' !! h = Some v' -> v' = v) /\
  (forall h, never_panics (runtime h l') /\ never_panics (endpoint h l')) /\
  Forall (fun o : Z * option Out => o.1 <= 0 /\ (o.1 = OK <-> is_Some o.2)) replies.
Proof.
  intros Hw Hn. destruct (run_api_ok calls l Hw Hn) as (W & E & _). pose proof (run_api_replies calls l) as Hr.
  destruct (run_api calls l) as [replies l']. cbn [fst snd] in *. split; [done|]. split; [done|]. split.
  - intros h v Hv v' Hv'. destruct (ev_handles _ _ E _ _ Hv') as [Hv2|Hh]; [congruence|].
    destruct (wf_handles _ Hw _ _ Hv) as [? _]. lia.
  - split; [|done]. intros h. split; [by apply runtime_total|by apply endpoint_total].
Qed.

Lemma free_eq h (l : Lib C) : rtp2_runtime_free h l = if bool_decide (is_Some (handles l !! h))
  then ((OK, Some OutNothing), set_handles (next_handle l) (base.delete h (handles l)) l) else ((ERR_NOT_FOUND, None), l).
Proof.
  unfold rtp2_runtime_free, ffi_guard, andthen, read, check. cbn beta iota. by destruct (bool_decide _).
Qed.
(** A freed handle stays dead: freeing answers [OK] exactly for a handle in
    use and changes nothing otherwise; after it, no sequence of calls brings
    the handle back, so that every call on it is answered not found; every
    other handle is what it was, and an endpoint keeps working when the handle
    of its runtime is freed. *)
Theorem freed_handle_stays_dead h calls (l : Lib C) : lib_wf l -> next_handle l + len calls < 2 ^ 64 ->
  let '((c, out), l1) := rtp2_runtime_free h l in
  (c = OK <-> is_Some (handles l !! h)) /\
  (c <> OK -> c = ERR_NOT_FOUND /\ l1 = l) /\
  (c = OK -> let l2 := (run_api calls l1).2 in
     handles l2 !! h = None /\ runtime h l2 = (Err ERR_NOT_FOUND, l2) /\ endpoint h l2 = (Err ERR_NOT_FOUND, l2)) /\
  (forall h', h' <> h -> (runtime h' l1).1 = (runtime h' l).1 /\ (endpoint h' l1).1 = (endpoint h' l).1).
Proof.
  intros Hw Hn. rewrite free_eq. destruct (bool_decide _) eqn:Hb.
  - apply bool_decide_eq_true in Hb. split; [done|]. split; [done|]. split.
    + intros _ l2. set (l1 := set_handles (next_handle l) (base.delete h (handles l)) l) in *. destruct (free_tame h l Hw) as (W1 & _ & _). cbn [snd modify] in W1. fold l1 in W1.
      destruct (run_api_ok calls l1 W1 Hn) as (_ & E & _). fold l2 in E.
      assert (Hh : handles l2 !! h = None).
      { destruct (handles l2 !! h) as [v|] eqn:Hv; [|done]. exfalso. destruct (ev_handles _ _ E _ _ Hv) as [Hd|Hr].
        - cbn in Hd. by rewrite lookup_delete_eq in Hd.
        - destruct Hb as [v0 Hv0]. destruct (wf_handles _ Hw _ _ Hv0) as [? _]. cbn in Hr. lia. }
      split; [done|]. unfold runtime, endpoint. by rewrite Hh.
    + intros h' Hne. unfold runtime, endpoint. cbn [handles runtimes endpoints set_handles]. rewrite lookup_delete_ne by congruence. by destruct (handles l !! h') as [[]|].
  - apply bool_decide_eq_false in Hb. split; [split; [discriminate|done]|]. split; [done|].
    split; [intros Hc; discriminate Hc|]. intros h' _. split; reflexivity.
Qed.
End Calls.

(** ** Starting a runtime *)
Section Starts.
Context {P : Primitives} {L : PrimitiveLaws} {K : PkPrimitives} {B R C : Type} {BC : Backend B C} {HR : HardwareRoot R C}.

#[export] Instance AnySealer_laws : SealerLaws AnySealer.
Proof.
  split; [intros [s|s|s]; exact (seal_opens s)|intros [s|s|s]; exact (open_ok s)].
Qed.
Lemma check_inv ok c (l l' : Lib C) u : check ok c l = (Ok u, l') -> ok = true /\ l' = l.
Proof. destruct ok; [|done]. by intros [= _ <-]. Qed.

(** Draws of the right length and a clock in range. *)
Record start_ok (w : StartWorld) (dir : bytes) (l : Lib C) : Prop := {
  so_seed : array 32 (st_seed w);
  so_draw : array 24 (st_draw w);
  so_now : u64 (st_now w);
  so_tmp : usable_tmp (tmp (sd_identity (dir_at dir l)))
}.
(** The identity is that of the record, which opens at the store's level. *)
Definition recorded (store : DeviceStore AnySealer) (i : DeviceIdentity) (f : FileState) : Prop :=
  exists payload seed, read_sealed true IDENTITY_DOMAIN (sealer store) (minimum_protection store) f = Ok (Some payload) /\
    decode_identity_payload payload = Ok seed /\ i = from_seed seed.
Lemma recorded_once store i j f : recorded store i f -> recorded store j f -> i = j.
Proof. intros (p & s & Hp & Hs & ->) (q & t & Hq & Ht & ->). congruence. Qed.
Lemma recorded_there store i f : recorded store i f -> visible f <> Missing.
Proof. intros (p & s & Hp & _) Hv. unfold read_sealed in Hp. by rewrite Hv in Hp. Qed.
(** The store of a level seals at that level and demands it. *)
Definition store_of_level (p : Protection) (store : DeviceStore AnySealer) : Prop :=
  minimum_protection store = p /\ protection (sealer store) = p.
Lemma select_store_level w dir p s a l store d l1 : select_store (B := B) (R := R) w dir p s a l = (Ok (store, d), l1) ->
  store_of_level p store /\ sd_identity (dir_at dir l1) = sd_identity (dir_at dir l).
Proof.
  unfold select_store. destruct p.
  - by intros [= <- _ <-].
  - destruct (open_keystore_sealer _ _ _ _) as [[x|e|] c]; [|done..]. by intros [= <- _ <-].
  - destruct (open_hardware_sealer _ _ _ _ _ _ _ _) as [[[x|e|] c] f]; [|done..]. intros [= <- _ <-]. by rewrite dir_at_put.
Qed.
Lemma load_identity_recorded w dir store p l i l1 : store_of_level p store ->
  visible (sd_identity (dir_at dir l)) <> Missing \/ start_ok w dir l ->
  load_identity w dir store l = (Ok i, l1) -> recorded store i (sd_identity (dir_at dir l1)).
Proof.
  intros [Hm Hp] Hw. unfold load_identity, load_or_create_identity.
  destruct (read_sealed (st_read_ok w) _ _ _ _) as [[payload|]|e|] eqn:Hr; [| |done..].
  - destruct (decode_identity_payload payload) as [seed|e|] eqn:Hd; [|done..]. intros [= <- <-]. rewrite dir_at_put. cbn [sd_identity].
    exists payload, seed. split; [|done].
    destruct (read_ok_or_io (st_read_ok w) IDENTITY_DOMAIN (sealer store) (minimum_protection store) (sd_identity (dir_at dir l))) as [H|H]; [congruence|].
    congruence.
  - assert (Hv : visible (sd_identity (dir_at dir l)) = Missing).
    { unfold read_sealed in Hr. destruct (visible _); try done. minv Hr. destruct (st_read_ok w); cbn [negb] in Hk; [|done]. minv Hk. done. }
    destruct Hw as [Hne|[H1 H2 H3 H4]]; [done|].
    assert (Hc : consistent store) by (unfold consistent; rewrite Hm, Hp; by destruct p).
    destruct (identity_creates store (mkCall (st_read_ok w) (st_io w) (st_seed w) (st_draw w) (st_now w)) _ (conj H1 (conj H2 H3)) Hc H4 Hv)
      as (f' & Hf & _ & Hh). unfold load_or_create_identity in Hf. cbn [ic_read_ok ic_io ic_seed ic_draw ic_now] in Hf, Hh. rewrite Hr in Hf.
    rewrite Hf. destruct (io_succeeds (st_io w)); [|done]. intros [= <- <-]. rewrite dir_at_put. cbn [sd_identity].
    destruct Hh as (now & Hn & Hread). eexists _, _. split; [exact Hread|]. split; [by apply decode_identity_encoded|done].
Qed.

(** What a start with a state directory leaves. *)
Record opened (cfg : Rtp2RuntimeConfig) (w : StartWorld) (dir : bytes) (p : Protection) (l l1 : Lib C)
    (i : DeviceIdentity) (store : DeviceStore AnySealer) : Prop := {
  op_level : store_of_level p store;
  op_directory : exists mode, private mode /\ sd_dir (dir_at dir l1) = Directory mode;
  op_recorded : visible (sd_identity (dir_at dir l)) <> Missing \/ start_ok w dir l -> recorded store i (sd_identity (dir_at dir l1))
}.
Lemma open_store_private mkdir_ok e e' : open_store mkdir_ok e = Ok e' -> exists mode, private mode /\ e' = Directory mode.
Proof.
  unfold open_store. destruct e as [m c|m| | |]; try done.
  - intros H. minv H. destruct a. apply check_private_iff in Hp. injection Hk as <-. by exists m.
  - destruct mkdir_ok; [|done]. intros [= <-]. exists 448. split; reflexivity.
Qed.
Lemma select_store_dir w dir p s a l : sd_dir (dir_at dir (select_store (B := B) (R := R) w dir p s a l).2) = sd_dir (dir_at dir l).
Proof.
  unfold select_store. destruct p; [done| |].
  - by destruct (open_keystore_sealer _ _ _ _).
  - destruct (open_hardware_sealer _ _ _ _ _ _ _ _) as [[r c] f]. cbn [snd]. by rewrite dir_at_put.
Qed.
Lemma load_identity_dir w dir store (l : Lib C) : sd_dir (dir_at dir (load_identity w dir store l).2) = sd_dir (dir_at dir l).
Proof. unfold load_identity. destruct (load_or_create_identity _ _ _ _ _ _ _). cbn [snd]. by rewrite dir_at_put. Qed.
Lemma open_state_opened cfg w dir p l i store d l1 : state_dir_utf8 cfg = Some dir ->
  open_state (B := B) (R := R) cfg w p l = (Ok (i, store, d), l1) -> exists st, store = Some st /\ opened cfg w dir p l l1 i st.
Proof.
  intros Hdir H. unfold open_state in H. apply andthen_inv in H as (dir' & l2 & Hd & H). apply from_result_inv in Hd as [Hd ->].
  rewrite Hdir in Hd. cbn in Hd. destruct (utf8_valid dir); [|done]. injection Hd as <-.
  apply andthen_inv in H as (sd & l2 & [= <- <-] & H). apply andthen_inv in H as (entry & l2 & He & H). apply from_result_inv in He as [He ->].
  apply map_err_inv, open_store_private in He. apply andthen_inv in H as (u & l2 & [= <- <-] & H).
  set (l2 := put_dir dir _ l) in *. assert (H2 : sd_identity (dir_at dir l2) = sd_identity (dir_at dir l) /\ sd_dir (dir_at dir l2) = entry)
    by (unfold l2; by rewrite dir_at_put).
  destruct H2 as [H2 H2']. apply andthen_inv in H as (service & l3 & Hs & H). apply from_result_inv in Hs as [_ ->].
  apply andthen_inv in H as (account & l3 & Ha & H). apply from_result_inv in Ha as [_ ->].
  apply andthen_inv in H as ([st desc] & l3 & Hst & H). apply andthen_inv in H as (id & l4 & Hid & H). injection H as <- <- <- <-.
  pose proof (select_store_dir w dir p (default DEFAULT_SERVICE service) (default DEFAULT_ACCOUNT account) l2) as Hd3. rewrite Hst in Hd3.
  pose proof (load_identity_dir w dir st l3) as Hd4. rewrite Hid in Hd4. cbn [snd] in Hd3, Hd4.
  apply select_store_level in Hst as [Hl H3]. exists st. split; [done|]. split; [exact Hl| |].
  - rewrite Hd4, Hd3, H2'. done.
  - intros Hw. eapply load_identity_recorded; [exact Hl| |exact Hid].
    rewrite H3, H2. destruct Hw as [?|[? ? ? Ht]]; [by left|]. right. split; try done. by rewrite H3, H2.
Qed.
(** What a start that answers [OK] has done. *)
Record started (cfg : Rtp2RuntimeConfig) (w : StartWorld) (l l' : Lib C) (h : Z) (p : Protection) (rt : RuntimeState) : Prop := {
  sa_version : abi_version cfg = ABI_VERSION /\ CONFIG_SIZE <= struct_size cfg /\ reserved cfg = 0;
  sa_protection : protection_of (cf_key_protection cfg) = Ok p;
  sa_policy : policy_from_u64 (cf_route_policy cfg) = Some (rt_route_policy rt);
  sa_grace : rt_route_grace rt = route_grace_from_config (route_grace_ms cfg);
  sa_runtime : runtimes l' = runtimes l ++ [rt];
  sa_handle : h = next_handle l /\ handles l' = <[h := HRuntime (length (runtimes l))]> (handles l);
  sa_state : match state_dir_utf8 cfg with
    | None => p = Plaintext /\ rt_store rt = None /\ rt_identity rt = from_seed (st_seed w) /\ dirs l' = dirs l /\ keychains l' = keychains l
    | Some dir => exists store, rt_store rt = Some store /\ opened cfg w dir p l l' (rt_identity rt) store
    end
}.
(** The part of a start that makes or loads the identity. *)
Definition identity_state (cfg : Rtp2RuntimeConfig) (w : StartWorld) (p : Protection)
  : Call C (DeviceIdentity * option (DeviceStore AnySealer) * bytes) :=
  match state_dir_utf8 cfg with
  | None => andthen (check (negb (weaker Plaintext p)) ERR_INVALID_ARGUMENT) (fun _ => done_with (from_seed (st_seed w), None, lit "ephemeral"))
  | Some _ => open_state (B := B) (R := R) cfg w p
  end.
Lemma identity_state_inv cfg w p l l1 i store d : identity_state cfg w p l = (Ok (i, store, d), l1) -> same_tables l l1 /\
  match state_dir_utf8 cfg with
  | None => p = Plaintext /\ store = None /\ i = from_seed (st_seed w) /\ dirs l1 = dirs l /\ keychains l1 = keychains l
  | Some dir => exists st, store = Some st /\ opened cfg w dir p l l1 i st
  end.
Proof.
  unfold identity_state. destruct (state_dir_utf8 cfg) as [dir|] eqn:Hdir; intros H.
  - pose proof (open_state_quiet cfg w p l) as Hq. rewrite H in Hq. split; [exact Hq|]. by eapply open_state_opened.
  - apply andthen_inv in H as (u & l2 & Hc & H). apply check_inv in Hc as [Hp ->]. injection H as <- <- _ <-.
    split; [done|]. by destruct p.
Qed.
Lemma opened_dirs cfg w dir p l l1 l2 i st : dirs l2 = dirs l1 -> opened cfg w dir p l l1 i st -> opened cfg w dir p l l2 i st.
Proof. intros Hd [H1 H2 H3]. split; unfold dir_at in *; by rewrite ?Hd. Qed.
Lemma runtime_new_started cfg w l out l' : rtp2_runtime_new (B := B) (R := R) (Some cfg) true w l = ((OK, Some out), l') ->
  exists h p rt, out = OutHandle h /\ started cfg w l l' h p rt.
Proof.
  unfold rtp2_runtime_new, ffi_guard. destruct (runtime_new _ _ _ _) as [[o|c|] lx] eqn:H; intros Hx; [|discriminate Hx..].
  injection Hx as -> ->. unfold runtime_new in H.
  apply andthen_inv in H as (u0 & l0 & H0 & H). apply check_inv in H0 as [_ ->].
  apply andthen_inv in H as (u1 & l0 & H1 & H). apply check_inv in H1 as [[Hv%Z.eqb_eq Hs%negb_true_iff%Z.ltb_ge]%andb_true_iff ->].
  apply andthen_inv in H as (u2 & l0 & H2 & H). apply check_inv in H2 as [Hr%Z.eqb_eq ->].
  apply andthen_inv in H as (policy & l0 & H3 & H). apply from_result_inv in H3 as [Hpol ->]. cbv zeta in H.
  apply andthen_inv in H as (p & l0 & H4 & H). apply from_result_inv in H4 as [Hp ->].
  apply andthen_inv in H as ([[i store] desc] & l1 & H5 & H). apply andthen_inv in H as (u3 & l0 & H6 & H). apply check_inv in H6 as [_ ->].
  destruct (policy_from_u64 (cf_route_policy cfg)) as [pol|] eqn:Hpol'; [|done]. injection Hpol as ->.
  apply (identity_state_inv cfg w p) in H5 as [(N & Hh & T & E) Hst].
  apply andthen_inv in H as (r & l0 & [= <- <-] & H). apply andthen_inv in H as (u4 & l0 & [= _ <-] & H).
  apply andthen_inv in H as (h & l2 & [= <- <-] & H). injection H as <- <-.
  exists (next_handle l1), p, (mkRuntime i store desc policy (route_grace_from_config (route_grace_ms cfg)) new_queue NoError).
  split; [reflexivity|]. split; cbn [handles runtimes next_handle dirs keychains set_handles set_runtimes].
  - done.
  - exact Hp.
  - exact Hpol'.
  - reflexivity.
  - by rewrite T.
  - by rewrite Hh, N, T.
  - destruct (state_dir_utf8 cfg) as [dir|]; [|exact Hst]. destruct Hst as (st & -> & Ho). exists st. split; [done|].
    by apply (opened_dirs _ _ _ _ _ l1).
Qed.
(** An action that fails leaves the tables. *)
Definition fails_quietly {A} (m : Call C A) : Prop := forall l, (exists a, (m l).1 = Ok a) \/ same_tables l (m l).2.
Lemma fails_next {A D} (m : Call C A) (f : A -> Call C D) : quiet m -> (forall a, fails_quietly (f a)) -> fails_quietly (andthen m f).
Proof.
  intros Hm Hf l. specialize (Hm l). unfold andthen. destruct (m l) as [[a|e|] l1]; cbn [snd] in *; [|by right..].
  destruct (Hf a l1) as [?|(N' & H' & T' & E')]; [by left|right]. destruct Hm as (N & H & T & E). split_and!; congruence.
Qed.
Lemma quiet_check ok c : quiet (C := C) (check ok c).
Proof. by destruct ok. Qed.
Lemma runtime_new_quiet cfg w : fails_quietly (runtime_new (B := B) (R := R) (Some cfg) true w).
Proof.
  unfold runtime_new. do 3 (apply fails_next; [apply quiet_check|intros _]). do 2 (apply fails_next; [done|intros ?]).
  apply fails_next.
  - destruct (state_dir_utf8 cfg); [apply open_state_quiet|]. apply quiet_next; [apply quiet_check|done].
  - intros [[i store] d]. apply fails_next; [apply quiet_check|]. intros _ l. left. by eexists.
Qed.

(** C19: A runtime is started as asked or not at all: a start that answers [OK]
    had a configuration of this version with a known protection and route
    policy, and the runtime has that policy; without a state directory the
    identity is fresh and nothing is stored; with one, the directory is
    private, the runtime's identity is the one recorded there, and that record
    opens at the protection asked for, which is also the level the runtime's
    store seals at.  A start that fails makes no handle and no runtime, and
    never replaces an identity or a vault key. *)
Theorem runtime_started_as_asked cfg w l :
  (forall dir, state_dir_utf8 cfg = Some dir -> start_ok w dir l) ->
  let '((c, out), l') := rtp2_runtime_new (B := B) (R := R) (Some cfg) true w l in
  kept l l' /\
  if c =? OK then exists h p rt, out = Some (OutHandle h) /\
    abi_version cfg = ABI_VERSION /\ protection_of (cf_key_protection cfg) = Ok p /\
    policy_from_u64 (cf_route_policy cfg) = Some (rt_route_policy rt) /\
    runtimes l' = runtimes l ++ [rt] /\ handles l' = <[h := HRuntime (length (runtimes l))]> (handles l) /\
    match state_dir_utf8 cfg with
    | None => p = Plaintext /\ rt_store rt = None /\ rt_identity rt = from_seed (st_seed w) /\ dirs l' = dirs l /\ keychains l' = keychains l
    | Some dir => exists store mode, rt_store rt = Some store /\ store_of_level p store /\
        private mode /\ sd_dir (dir_at dir l') = Directory mode /\ recorded store (rt_identity rt) (sd_identity (dir_at dir l'))
    end
  else out = None /\ same_tables l l'.
Proof.
  intros Hw. pose proof (guard_keeps _ (runtime_new_keeps (Some cfg) true w) l) as Hk.
  pose proof (runtime_new_quiet cfg w l) as Hq. pose proof (guard_reply _ l (runtime_new_negative (Some cfg) true w)) as Hr.
  pose proof (runtime_new_started cfg w l) as Hs. unfold rtp2_runtime_new in *.
  destruct (ffi_guard _ l) as [[c out] l'] eqn:H. cbn [fst snd] in *. split; [exact Hk|]. destruct Hr as [_ Hr]. cbn [fst snd] in Hr.
  destruct (Z.eqb_spec c OK) as [->|Hc].
  - destruct out as [o|]; [|by destruct (proj1 Hr eq_refl)].
    destruct (Hs o l' eq_refl) as (h & p & rt & -> & [(? & _) ? ? _ ? [_ Hh] Hst]). exists h, p, rt. split_and!; try done.
    destruct (state_dir_utf8 cfg) as [dir|] eqn:Hdir; [|exact Hst]. destruct Hst as (store & Hrt & [Hl (mode & Hm & Hd) Hrec]).
    exists store, mode. split_and!; [done..|]. apply Hrec. right. by apply Hw.
  - split; [destruct out; [destruct Hc; apply Hr; by eexists|done]|]. unfold ffi_guard in H.
    destruct (runtime_new _ _ _ _) as [[o|e|] lx]; injection H as <- <- <-; [done|..]; by destruct Hq as [[? ?]|?].
Qed.

Lemma plaintext_store store : store_of_level Plaintext store -> store = mkStore (SealPlain plaintext_sealer) Plaintext.
Proof. destruct store as [[[]|s|s] m]; intros [Hm Hp]; by simplify_eq/=. Qed.
Lemma runtime_last h rt (l l' : Lib C) : runtimes l' = runtimes l ++ [rt] ->
  handles l' = <[h := HRuntime (length (runtimes l))]> (handles l) -> runtime h l' = (Ok (length (runtimes l), rt), l').
Proof. intros Hr Hh. unfold runtime. by rewrite Hh, lookup_insert_eq, Hr, list_lookup_middle. Qed.

(** C18: An identity survives: once a start has recorded it, whatever calls are
    made in between, other starts, failing ones and deletions of keystore keys
    included, no call changes the record, and a later start on that directory
    with the same sealer, or at protection 0 as before, gives a runtime with
    the same identity. *)
Theorem identity_survives_restart endpoint_id cfg cfg' dir w w' calls l h l1 h' l3 :
  state_dir_utf8 cfg = Some dir -> state_dir_utf8 cfg' = Some dir -> start_ok w dir l ->
  rtp2_runtime_new (B := B) (R := R) (Some cfg) true w l = ((OK, Some (OutHandle h)), l1) ->
  let l2 := (run_api (B := B) (R := R) endpoint_id calls l1).2 in
  rtp2_runtime_new (B := B) (R := R) (Some cfg') true w' l2 = ((OK, Some (OutHandle h')), l3) ->
  sd_identity (dir_at dir l3) = sd_identity (dir_at dir l1) /\
  exists r rt r' rt', runtime h l1 = (Ok (r, rt), l1) /\ runtime h' l3 = (Ok (r', rt'), l3) /\
    (rt_store rt' = rt_store rt \/ cf_key_protection cfg = 0 /\ cf_key_protection cfg' = 0 -> rt_identity rt' = rt_identity rt).
Proof.
  intros Hdir Hdir' Hw H1 l2 H2. pose proof (run_api_keeps (B := B) (R := R) endpoint_id calls l1 dir) as [Hk _]. fold l2 in Hk.
  pose proof (guard_keeps _ (runtime_new_keeps (Some cfg') true w') l2 dir) as [Hk' _]. unfold rtp2_runtime_new in H2.
  rewrite H2 in Hk'. cbn [snd] in Hk'.
  apply runtime_new_started in H1 as (hx & p & rt & [= <-] & [_ Hp _ _ Hrt [_ Hh] Hst]).
  apply runtime_new_started in H2 as (hx & p' & rt' & [= <-] & [_ Hp' _ _ Hrt' [_ Hh'] Hst']).
  rewrite Hdir in Hst. rewrite Hdir' in Hst'. destruct Hst as (store & Hs & [Hl _ Hr]), Hst' as (store' & Hs' & [Hl' _ Hr']).
  specialize (Hr (or_intror Hw)). pose proof (recorded_there _ _ _ Hr) as Hv. specialize (Hk Hv).
  rewrite <- Hk in Hv. specialize (Hk' Hv). specialize (Hr' (or_introl Hv)). split; [congruence|].
  exists (length (runtimes l)), rt, (length (runtimes l2)), rt'. split; [|split].
  - by apply runtime_last.
  - by apply runtime_last.
  - intros He. rewrite Hk', Hk in Hr'. assert (Hst : store' = store).
    { destruct He as [He|[E E']]; [congruence|]. rewrite E in Hp. rewrite E' in Hp'. injection Hp as <-. injection Hp' as <-.
    by rewrite (plaintext_store store), (plaintext_store store'). }
    subst store'. by apply (recorded_once store _ _ (sd_identity (dir_at dir l1))).
Qed.
End Starts.

(** ** Transfers *)
Section Transfers.
Context {P : Primitives} {L : PrimitiveLaws} {K : PkPrimitives} {KL : PkLaws} {C : Type} (endpoint_id : bytes -> bytes).

(** What a transfer leaves of the endpoint and of its runtime. *)
Record left_by (n : Node) (last : LastError) (q : Inner) (e : nat) (ep : EndpointState) (rt : RuntimeState) (l l' : Lib C) : Prop := {
  lb_endpoint : endpoints l' !! e = Some (mkEndpoint (ep_runtime ep) (n_replay n));
  lb_runtime : runtimes l' !! ep_runtime ep = Some (with_events q (set_error last rt));
  lb_tables : handles l' = handles l /\ dirs l' = dirs l /\ keychains l' = keychains l
}.
Definition events_left (n : Node) : Inner := default new_queue (n_events n).
Definition failed_event (err : TransferError) : Event := TransferFailed (replicate 32 0) (spec_error_code err).
Lemma run_transfer_spec failed act n e ep rt (l : Lib C) r n' : act n = (r, n') ->
  endpoints l !! e = Some ep -> runtimes l !! ep_runtime ep = Some rt ->
  let '(o, l') := ffi_guard (run_transfer failed act n e (ep_runtime ep)) l in
  match r with
  | Ok report => o = (OK, Some (OutReport (report_json report))) /\ left_by n' (rt_last_error rt) (events_left n') e ep rt l l'
  | Err err => o = (transfer_error_code err, None) /\
      left_by n' (failed err) (push (failed_event err) (events_left n')) e ep rt l l'
  | Panic => o = (ERR_INTERNAL, None) /\ left_by n' (rt_last_error rt) (events_left n') e ep rt l l'
  end.
Proof.
  intros Hact He Hr. unfold ffi_guard, run_transfer. rewrite Hact. destruct r as [report|err|].
  all: split; [done|]; split; cbn [endpoints runtimes handles dirs keychains set_endpoints set_runtimes]; [| |done].
  all: rewrite ?list_lookup_alter_eq, ?He, ?Hr; try done.
  all: cbn; rewrite ?list_lookup_alter_eq, ?Hr; by destruct rt.
Qed.
Lemma endpoint_inv h (l l' : Lib C) e ep rt : endpoint h l = (Ok (e, ep, rt), l') ->
  l' = l /\ handles l !! h = Some (HEndpoint e) /\ endpoints l !! e = Some ep /\ runtimes l !! ep_runtime ep = Some rt.
Proof.
  unfold endpoint. destruct (handles l !! h) as [[r|e']|]; [done| |done].
  destruct (endpoints l !! e') as [ep'|] eqn:He; [|done]. destruct (runtimes l !! ep_runtime ep') as [rt'|] eqn:Hr; [|done].
  intros [= <- <- <- <-]. done.
Qed.

Definition receiving (w : RecvWorld) (state : cstr) (input : bytes) (at_dest : option bytes) (disk : Resume.Disk)
    (ep : EndpointState) (rt : RuntimeState) : result TransferError TransferReport * Node :=
  receive_file w (rt_identity rt) (endpoint_id (endpoint_secret (rt_identity rt))) (admission_of rt) (bool_decide (is_Some state))
    (mkNode input [] (Some (rt_events rt)) (ep_replay ep) at_dest disk).
Lemma receive_runs h dest state w input at_dest disk l e ep rt path st :
  endpoint h l = (Ok (e, ep, rt), l) -> c_path dest = Ok path -> optional_c_str state = Ok st ->
  rtp2_receive_file_resumable (C := C) endpoint_id h dest state true (Connected w input at_dest disk) l =
  ffi_guard (run_transfer ReceiveFailed (fun _ => receiving w st input at_dest disk ep rt)
    (mkNode input [] (Some (rt_events rt)) (ep_replay ep) at_dest disk) e (ep_runtime ep)) l.
Proof.
  intros He Hp Hs. unfold rtp2_receive_file_resumable, ffi_guard, check.
  rewrite (andthen_ok (done_with tt) _ l tt l) by done. rewrite (andthen_ok (from_result (c_path dest)) _ l path l) by (unfold from_result; by rewrite Hp).
  rewrite (andthen_ok (from_result (optional_c_str state)) _ l st l) by (unfold from_result; by rewrite Hs). by rewrite (andthen_ok _ _ _ _ _ He).
Qed.

Definition sending (w : SendCall) (peer_endpoint : bytes) (ep : EndpointState) (rt : RuntimeState) : result TransferError TransferReport * Node :=
  send_file w (rt_identity rt) (endpoint_id (endpoint_secret (rt_identity rt))) peer_endpoint (admission_of rt)
    (mkNode (sc_in w) [] (Some (rt_events rt)) (ep_replay ep) None fresh_disk).
Lemma send_runs h addr decode path w l e ep rt a name peer_endpoint :
  endpoint h l = (Ok (e, ep, rt), l) -> addr = Some a -> c_path path = Ok name -> decode a = Some peer_endpoint ->
  rtp2_send_file (C := C) endpoint_id h addr decode path true w l =
  ffi_guard (run_transfer SendFailed (fun _ => sending w peer_endpoint ep rt)
    (mkNode (sc_in w) [] (Some (rt_events rt)) (ep_replay ep) None fresh_disk) e (ep_runtime ep)) l.
Proof.
  intros He -> Hp Hd. unfold rtp2_send_file, ffi_guard. rewrite (andthen_ok (from_result (Ok a)) _ l a l) by done.
  rewrite (andthen_ok (from_result (c_path path)) _ l name l) by (unfold from_result; by rewrite Hp). rewrite (andthen_ok _ _ _ _ _ He). by rewrite Hd.
Qed.
(** C20: A file goes from one library to another: a caller with an endpoint that
    sends a file of at most 2^14 chunks to the address of an endpoint of
    another library, whose caller receives, between honest devices that are
    ready for each other: there are two byte streams such that the sending
    call reading the second writes the first, the receiving call reading the
    first writes the second, both answer [OK] with a report, the file at the
    destination is the file sent, and the reports agree on it. *)
Theorem delivered_through_api hA lA eA epA rtA addr decode a path name hB lB eB epB rtB dest dname src secrets p wA wB seedA seedB at_dest disk :
  endpoint hA lA = (Ok (eA, epA, rtA), lA) -> rt_identity rtA = from_seed seedA ->
  addr = Some a -> c_path path = Ok name -> decode a = Some (endpoint_id (endpoint_secret (from_seed seedB))) ->
  endpoint hB lB = (Ok (eB, epB, rtB), lB) -> rt_identity rtB = from_seed seedB -> c_path dest = Ok dname ->
  prepare (len src) src secrets DEFAULT_CHUNK_SIZE = Ok p -> u64 (len src) -> bytes_ok src -> Object.chunk_count (p_ctx p) <= 2 ^ 14 ->
  ready src p wA wB seedA (endpoint_id (endpoint_secret (from_seed seedA))) (endpoint_id (endpoint_secret (from_seed seedB)))
    (admission_of rtA) (admission_of rtB) (ep_replay epB) ->
  exists s2r r2s repA repB nA nB lA' lB',
    let w := mkSendCall (Some (len src)) (Some src) secrets true wA r2s in
    rtp2_send_file endpoint_id hA addr decode path true w lA = ((OK, Some (OutReport (report_json repA))), lA') /\
    sending w (endpoint_id (endpoint_secret (from_seed seedB))) epA rtA = (Ok repA, nA) /\ n_out nA = s2r /\
    rtp2_receive_file endpoint_id hB dest true (Connected wB s2r at_dest disk) lB = ((OK, Some (OutReport (report_json repB))), lB') /\
    receiving wB None s2r at_dest disk epB rtB = (Ok repB, nB) /\ n_out nB = r2s /\
    n_dest nB = Some src /\ same_object repA repB /\ tr_plaintext_digest repA = blake3_hash src /\ tr_bytes repA = len src /\
    left_by nA (rt_last_error rtA) (events_left nA) eA epA rtA lA lA' /\ left_by nB (rt_last_error rtB) (events_left nB) eB epB rtB lB lB'.
Proof.
  intros HA HiA Ha Hp Hd HB HiB Hdest Hprep Hu Hb Hn Hr. pose proof (endpoint_inv _ _ _ _ _ _ HA) as (_ & _ & HeA & HrA).
  pose proof (endpoint_inv _ _ _ _ _ _ HB) as (_ & _ & HeB & HrB).
  destruct (prepare_prepared _ _ _ _ Hu Hb Hprep) as (Hpp & Hsec & Hf). rewrite <- Hsec in Hf.
  set (nodeA r2s := mkNode r2s [] (Some (rt_events rtA)) (ep_replay epA) None fresh_disk).
  set (nodeB s2r := mkNode s2r [] (Some (rt_events rtB)) (ep_replay epB) at_dest disk).
  destruct (session_run src p _ wA wB seedA _ seedB _ _ _ (nodeA []) (nodeB []) Hpp Hu Hn Hf Hr)
    as (s2r & r2s & repA & repB & nA & nB & _ & _ & H1 & H2 & H3 & H4 & H5 & H6 & H7 & H8 & _).
  change (set_in r2s (nodeA [])) with (nodeA r2s) in H1. change (set_in s2r (nodeB [])) with (nodeB s2r) in H3.
  set (w := mkSendCall (Some (len src)) (Some src) secrets true wA r2s).
  assert (Hsend : sending w (endpoint_id (endpoint_secret (from_seed seedB))) epA rtA = (Ok repA, nA)).
  { unfold sending, send_file, prepare_path, w. cbn [sc_metadata sc_source sc_secrets sc_connected sc_world sc_in]. rewrite Hprep, HiA.
    unfold andthen, from_result. exact H1. }
  assert (Hrecv : receiving wB None s2r at_dest disk epB rtB = (Ok repB, nB)) by (unfold receiving; rewrite HiB; exact H3).
  pose proof (run_transfer_spec SendFailed (fun _ => sending w (endpoint_id (endpoint_secret (from_seed seedB))) epA rtA)
    (mkNode (sc_in w) [] (Some (rt_events rtA)) (ep_replay epA) None fresh_disk)
    eA epA rtA lA _ _ Hsend HeA HrA) as HsA.
  pose proof (run_transfer_spec ReceiveFailed (fun _ => receiving wB None s2r at_dest disk epB rtB)
    (mkNode s2r [] (Some (rt_events rtB)) (ep_replay epB) at_dest disk)
    eB epB rtB lB _ _ Hrecv HeB HrB) as HsB.
  rewrite <- (send_runs hA addr decode path w lA eA epA rtA a name _ HA Ha Hp Hd) in HsA.
  rewrite <- (receive_runs hB dest None wB s2r at_dest disk lB eB epB rtB dname None HB Hdest eq_refl) in HsB.
  exists s2r, r2s, repA, repB, nA, nB.
  destruct (rtp2_send_file _ _ _ _ _ _ _ lA) as [oA lA'] eqn:EA. destruct (rtp2_receive_file_resumable _ _ _ _ _ _ lB) as [oB lB'] eqn:EB.
  destruct HsA as [-> HlA], HsB as [-> HlB]. exists lA', lB'. cbv zeta. fold w. unfold rtp2_receive_file. rewrite EB. split_and!; first [exact EA | done].
Qed.
End Transfers.

(** ** Calls on a library *)
Module ApiWitness.
Import Toy ToyPk StoreWitness KeystoreWitness.
Abbreviation Library := (Lib Keychains).
(** The library as it is loaded. *)
Definition lib0 : Library := mkLib 1 ∅ [] [] ∅ fresh_keychains.
Definition ep_id (secret : bytes) : bytes := secret.
Definition calls_on (calls : list ApiCall) (l : Library) : list (Z * option Out) * Library :=
  run_api (B := Scope) (R := AeadSealer) ep_id calls l.
Definition state_path : bytes := lit "/var/lib/rtp2".
Definition config (level : Z) : Rtp2RuntimeConfig := mkConfig 6 56 (Some state_path) level 0 None None 0 0.
Definition world (x : Z) : StartWorld :=
  mkStart true true all_ok (replicate 32 x) draw1 1000 (replicate 32 x) (vault_call all_ok k2) true.
Definition start (level x : Z) : ApiCall := CRuntimeNew (Some (config level)) true (world x).
Lemma lib0_wf : lib_wf lib0.
Proof. by split. Qed.
(** A runtime, an endpoint of it, the runtime freed, and calls on both. *)
Definition session : list ApiCall := [start 1 5; CEndpointStart 1 true true; CRuntimeFree 1; CDeviceId 1 true; CEndpointAddress 2 true [] true].
Lemma handles_well_typed_witness : map fst (calls_on session lib0).1 = [OK; OK; OK; ERR_NOT_FOUND; OK] /\ lib_wf (calls_on session lib0).2.
Proof.
  split; [vm_compute; reflexivity|].
  pose proof (handles_well_typed (B := Scope) (R := AeadSealer) ep_id session lib0 lib0_wf) as H. unfold calls_on.
  destruct (run_api ep_id session lib0) as [replies l'].
  destruct H as [H _]; [reflexivity|exact H].
Defined.
Definition lib1 : Library := (calls_on [start 1 5; CEndpointStart 1 true true] lib0).2.
Lemma lib1_wf : lib_wf lib1.
Proof. apply (run_api_ok (B := Scope) (R := AeadSealer) ep_id [start 1 5; CEndpointStart 1 true true] lib0 lib0_wf). reflexivity. Qed.
Lemma freed_handle_stays_dead_witness :
  (rtp2_runtime_free 1 lib1).1 = (OK, Some OutNothing) /\
  handles (calls_on [start 0 6; start 1 7] (rtp2_runtime_free 1 lib1).2).2 !! 1 = None.
Proof.
  split; [vm_compute; reflexivity|].
  assert (Hc : (rtp2_runtime_free 1 lib1).1.1 = OK) by (vm_compute; reflexivity).
  pose proof (freed_handle_stays_dead (B := Scope) (R := AeadSealer) ep_id 1 [start 0 6; start 1 7] lib1 lib1_wf) as H. unfold calls_on.
  destruct (rtp2_runtime_free 1 lib1) as [[c out] l1]. cbn [fst snd] in *.
  destruct H as (_ & _ & H & _); [vm_compute; reflexivity|]. exact (proj1 (H Hc)).
Defined.
Lemma world_ok level x l : u8 x -> tmp (sd_identity (dir_at state_path l)) = Missing ->
  forall dir, state_dir_utf8 (config level) = Some dir -> start_ok (world x) dir (l : Library).
Proof.
  intros Hx Ht dir [= <-]. split; cbn [world st_seed st_draw st_now].
  - by apply (array_replicate 32).
  - exact draw1_ok.
  - done.
  - left. exact Ht.
Qed.
Definition started1 : (Z * option Out) * Library := rtp2_runtime_new (B := Scope) (R := AeadSealer) (Some (config 1)) true (world 5) lib0.
Lemma runtime_started_as_asked_witness : started1.1 = (OK, Some (OutHandle 1)) /\
  exists rt store, runtimes started1.2 = [rt] /\ rt_store rt = Some store /\ store_of_level PlatformKeystore store /\
    recorded store (rt_identity rt) (sd_identity (dir_at state_path started1.2)).
Proof.
  assert (Hc : started1.1 = (OK, Some (OutHandle 1))) by (vm_compute; reflexivity). split; [exact Hc|].
  pose proof (runtime_started_as_asked (B := Scope) (R := AeadSealer) (config 1) (world 5) lib0) as H. fold started1 in H.
  destruct started1 as [[c out] l']. cbn [fst snd] in *. apply pair_equal_spec in Hc as [-> _].
  destruct H as [_ (h & p & rt & _ & _ & Hp & _ & Hr & _ & store & mode & H1 & H2 & _ & _ & H3)]; [by apply world_ok|].
  exists rt, store. injection Hp as <-. split; [exact Hr|]. split; [exact H1|]. split; [exact H2|exact H3].
Defined.
Definition identity_at (h : Z) (l : Library) : option DeviceIdentity :=
  match (runtime h l).1 with Ok (_, rt) => Some (rt_identity rt) | _ => None end.
Definition store_at (h : Z) (l : Library) : option (option (DeviceStore AnySealer)) :=
  match (runtime h l).1 with Ok (_, rt) => Some (rt_store rt) | _ => None end.
(** Another start in between asks for plaintext and is refused. *)
Definition between : list ApiCall := [start 0 6; CRuntimeFree 1].
Definition restarted : (Z * option Out) * Library :=
  rtp2_runtime_new (B := Scope) (R := AeadSealer) (Some (config 1)) true (world 9) (calls_on between started1.2).2.
Lemma restarted_eq : restarted = ((OK, Some (OutHandle 2)), restarted.2).
Proof. assert (H : restarted.1 = (OK, Some (OutHandle 2))) by (vm_compute; reflexivity). rewrite <- H. apply surjective_pairing. Qed.
Lemma started1_eq : started1 = ((OK, Some (OutHandle 1)), started1.2).
Proof. assert (H : started1.1 = (OK, Some (OutHandle 1))) by (vm_compute; reflexivity). rewrite <- H. apply surjective_pairing. Qed.
Lemma same_store : store_at 2 restarted.2 = store_at 1 started1.2.
Proof. vm_compute. reflexivity. Qed.
Lemma between_codes : map fst (calls_on between started1.2).1 = [ERR_CRYPTO; OK].
Proof. vm_compute. reflexivity. Qed.
Lemma same_identity l l' : (exists r rt r' rt', runtime 1 l = (Ok (r, rt), l) /\ runtime 2 l' = (Ok (r', rt'), l') /\
  (rt_store rt' = rt_store rt -> rt_identity rt' = rt_identity rt)) -> store_at 2 l' = store_at 1 l ->
  identity_at 2 l' = identity_at 1 l /\ identity_at 1 l <> None.
Proof.
  intros (r & rt & r' & rt' & H1 & H2 & H) Hs. unfold store_at in Hs. rewrite H1, H2 in Hs. cbn [fst] in Hs. injection Hs as Hs.
  unfold identity_at. rewrite H1, H2. cbn [fst]. by rewrite (H Hs).
Qed.
Lemma identity_survives_restart_witness :
  map fst (calls_on between started1.2).1 = [ERR_CRYPTO; OK] /\ identity_at 2 restarted.2 = identity_at 1 started1.2 /\ identity_at 1 started1.2 <> None.
Proof.
  split; [exact between_codes|]. apply same_identity; [|exact same_store].
  destruct (identity_survives_restart (B := Scope) (R := AeadSealer) ep_id (config 1) (config 1) state_path (world 5) (world 9) between
    lib0 1 started1.2 2 restarted.2 eq_refl eq_refl (world_ok 1 5 lib0 ltac:(done) eq_refl state_path eq_refl) started1_eq restarted_eq)
    as (_ & r & rt & r' & rt' & H1 & H2 & H).
  exists r, rt, r', rt'. split; [exact H1|]. split; [exact H2|]. intros Hs. exact (H (or_introl Hs)).
Defined.
(** A key that was forgotten is minted again, and the identity sealed under
    the old one no longer opens: the start fails and the record stays. *)
Example forgotten_key_locks_out :
  map fst (calls_on [start 1 5; CKeystoreForget None None true; start 1 6] lib0).1 = [OK; OK; ERR_CRYPTO].
Proof. vm_compute. reflexivity. Qed.

(** The receiver of [SessionWitness], behind the interface. *)
Import SenderWitness ReceiverWitness HandshakeWitness SessionWitness.
Definition runtime_b : RuntimeState :=
  mkRuntime (from_seed seed_b) None (lit "ephemeral") Any DEFAULT_ROUTE_GRACE new_queue NoError.
Definition endpoint_state_b : EndpointState := mkEndpoint 0 empty_cache.
Definition lib_b : Library := mkLib 3 {[1 := HRuntime 0; 2 := HEndpoint 0]} [runtime_b] [endpoint_state_b] ∅ fresh_keychains.
Definition path_b : bytes := lit "/tmp/report.pdf".

(** Two libraries, one with the device of [seed_a], one with that of [seed_b]. *)
Definition secret_a : bytes := endpoint_secret (from_seed seed_a).
Definition ep_ab (secret : bytes) : bytes := if bytes_eqb secret secret_a then endpoint_a else endpoint_b.
Definition runtime_a : RuntimeState :=
  mkRuntime (from_seed seed_a) None (lit "ephemeral") Any DEFAULT_ROUTE_GRACE new_queue NoError.
Definition lib_a : Library := mkLib 3 {[1 := HRuntime 0; 2 := HEndpoint 0]} [runtime_a] [endpoint_state_b] ∅ fresh_keychains.
Definition pending_d : PendingTransfer := match prepare 3 source secrets3 DEFAULT_CHUNK_SIZE with Ok p => p | _ => pending3 end.
Lemma prepared_d : prepare (len source) source secrets3 DEFAULT_CHUNK_SIZE = Ok pending_d.
Proof. vm_compute. reflexivity. Qed.
Lemma ids_ab : ep_ab secret_a = endpoint_a /\ ep_ab (endpoint_secret (from_seed seed_b)) = endpoint_b.
Proof. vm_compute. split; reflexivity. Qed.
Lemma sendable_d : OfferExchange.sendable pending_d 1000 (lit "report.pdf") OfferExchange.ExchangeWitness.draws1.
Proof.
  split.
  - split; [|split; [|split]]; (split; [reflexivity|apply bytes_ok_check; vm_compute; reflexivity]).
  - vm_compute. split; [discriminate|reflexivity].
  - split; [|vm_compute; discriminate]. split; [|vm_compute; reflexivity].
    split; [apply bytes_ok_check; vm_compute; reflexivity|vm_compute; split; [discriminate|reflexivity]].
  - split; (split; [reflexivity|apply bytes_ok_check; vm_compute; reflexivity]).
Qed.
Lemma ready_d : ready source pending_d sendworld1 recvworld1 seed_a endpoint_a endpoint_b any1 any1 empty_cache.
Proof. destruct ready1. split; try assumption. exact sendable_d. Qed.
Definition decode_address (a : bytes) : option bytes := Some a.
Lemma delivered_through_api_witness : exists s2r r2s repA repB lA' lB',
  rtp2_send_file ep_ab 2 (Some endpoint_b) decode_address (Some path_b) true
    (mkSendCall (Some 3) (Some source) secrets3 true sendworld1 r2s) lib_a = ((OK, Some (OutReport (report_json repA))), lA') /\
  rtp2_receive_file ep_ab 2 (Some path_b) true (Connected recvworld1 s2r None disk3) lib_b = ((OK, Some (OutReport (report_json repB))), lB') /\
  tr_plaintext_digest repA = blake3_hash source.
Proof.
  destruct ids_ab as [Ha Hb].
  destruct (delivered_through_api ep_ab 2 lib_a 0 endpoint_state_b runtime_a (Some endpoint_b) decode_address endpoint_b (Some path_b) path_b
    2 lib_b 0 endpoint_state_b runtime_b (Some path_b) path_b source secrets3 pending_d sendworld1 recvworld1 seed_a seed_b None disk3)
    as (s2r & r2s & repA & repB & nA & nB & lA' & lB' & H1 & _ & _ & H2 & _ & _ & _ & _ & H3 & _).
  - reflexivity.
  - reflexivity.
  - reflexivity.
  - reflexivity.
  - unfold decode_address. by rewrite Hb.
  - reflexivity.
  - reflexivity.
  - reflexivity.
  - exact prepared_d.
  - exact (proj1 source_ok).
  - exact (proj2 source_ok).
  - vm_compute. discriminate.
  - change (endpoint_secret (from_seed seed_a)) with secret_a. rewrite Ha, Hb. exact ready_d.
  - exists s2r, r2s, repA, repB, lA', lB'. split; [exact H1|]. split; [exact H2|exact H3].
Defined.
End ApiWitness.
